(* ===== verification/_CoqProject ===== *)
-Q . S2P
Prelude.v
Text.v
Model.v
Health.v
Durations.v
Config.v
Select.v
QualityGates.v
Plan.v
Forwarding.v
Msg.v
Netlink.v
System.v
Reconcile.v
Discover.v
Observer.v
Events.v
StateFiles.v
Sysctl.v
Probe.v
NetAddr.v
Validate.v
Validated.v
Nft.v
Status.v
Checks.v
InstanceLock.v
ApiServer.v
Worker.v
MailText.v
Subprocess.v
NftRun.v
Mail.v
Hooks.v
NotifyTest.v
Cleanup.v
DaemonState.v
DaemonCore.v
ProbeRun.v
Metrics.v
DaemonControl.v
DaemonStart.v
DaemonInv.v
DaemonLoop.v
DaemonLife.v
ApiServe.v
Cli.v
Transport.v
DaemonProps.v
