(* ===== verification/Prelude.v ===== *)
(** * PolyWAN: a verification of the multi-uplink router

    PolyWAN (crates/polywan) keeps several Internet uplinks of a Linux router
    in use: it discovers and probes the paths of every uplink, selects the
    active ones, plans policy-routing rules, routes and an nftables ruleset,
    and reconciles the kernel with the plan.  This library models the daemon
    as pure functions and state-passing handlers, and proves what its parts
    promise and what they guarantee together.

    ** The program and the files that model it

    One task (the State task) owns the state of the daemon and runs one
    handler at a time; slow work (nft, files, settings) is queued on two
    lanes, whose completions come back as inputs of the task.  All files of
    the source are below crates/polywan/src.

    - Foundations.  [Prelude] (machine integers, results, Rust's orders and
      sorts, [BTreeMap] iteration), [Text] ([str], decimals), [Model]
      (model.rs: uplink ids, paths, the field of the packet mark),
      [Durations] (duration.rs).
    - Configuration.  [Config] (config/mod.rs), [NetAddr] (address texts),
      [Validate] (config/validate.rs, config/raw.rs), [Validated] (what a
      configuration that validation accepts satisfies).
    - Decisions.  [Health] (health.rs), [QualityGates] (quality.rs),
      [Select] (select.rs), [Discover] (discover.rs), [Plan] (plan.rs), and
      [Forwarding] (what the planned rules do to a packet).
    - The kernel.  [Msg], [Netlink] and [Transport] (netlink/: messages,
      attributes, requests and subscriptions), [System] (system.rs: the
      observed view), [Observer] (observer.rs: dumps, resynchronisation),
      [Reconcile] (reconcile.rs: the operations from the observed to the
      desired state), [Nft] (nft.rs, nftctl.rs), [NftRun] (nftctl.rs:
      running nft), [Sysctl] (sysctl.rs), [Probe] and [ProbeRun] (probe.rs:
      packets and rounds; sockets and the task), [Cleanup] (cleanup.rs,
      and ra.rs: Router Advertisements).
    - Persistence and work.  [StateFiles] and [InstanceLock] (state.rs: files;
      lock, clock and directory), [Worker] (worker.rs),
      [Checks] (checks.rs), [Subprocess] (subprocess.rs).
    - Reporting.  [Events] (events.rs), [Status] (status.rs, sdnotify.rs),
      [ApiServer] (api/: requests and the manager of the listeners),
      [ApiServe] (api/mod.rs: connections and answers), [Metrics]
      (metrics.rs), [MailText] and [Mail] (mail.rs), [Hooks] (hooks.rs,
      notifytest.rs), [NotifyTest] (notifytest.rs: the tasks of a test),
      [Cli] (cli.rs: the follower of events and the commands that use the
      API; config/mod.rs: loading a file).
    - The State task (daemon.rs).  [DaemonState] (data, effects, the monad of
      handlers), [DaemonCore] (notifications, probe reports, evaluation),
      [DaemonControl] (commands, passes, reloads, the loop), [DaemonStart]
      and [DaemonLife] (start-up, checks, shutdown), [DaemonInv] and
      [DaemonLoop] (the invariant of the loop), [DaemonProps] (theorems on
      every run).

    ** How code is represented

    An integer is a [Z] whose width the type abbreviations record; what can
    leave its width is written with [wrap], [saturating_add] or
    [checked_add].  A fallible function returns a [result]; a panic is
    [None] of the validator's monad or [d_panicked] of the daemon.  Maps
    and sets are [gmap] and [gset], iterated in key order ([btree_iter]).
    Handlers of the daemon are functions of the state monad [M]; effects
    are listed in order in [d_out].  The loop is the relation [runs] over
    any sequence of inputs, in any world; the prober's round, the email and
    hook notifiers and the listener of advertisements are steps in any
    order of their inputs, and so are a listener's connections; a follower
    of events runs against any sequence of daemons ([followed]).

    Interfaces are classes, with laws where a theorem relies on behaviour of
    code outside the repository: [RuleLookup] (the kernel's rule lookup),
    [Clock], [Dumper] and [DumperLaws] (netlink dumps), [ProcSys] and
    [ProcSysLaws] (/proc/sys), [StateDisk], [StateDirOps] and
    [StateDirLaws] (state files), [NftOps] (nft), [SocketFs] (socket files),
    [Bpf] (the filter machine), [CleanupWorld] and [CleanupLaws],
    [DaemonWorld] (clocks, clients, systemd), [StartWorld] and [StopWorld],
    [NftWorld] (the nft process; it discharges [NftOps]), [NetlinkWorld] and
    [NetlinkLaws] (a netlink socket; they discharge [DumperLaws]).
    The witnesses compute with instances of them.

    ** What the theorems show

    - Routing: one pass over a kernel that accepts the operations reaches
      the plan, the next has nothing to do, and what is not PolyWAN's is
      as it was ([reconcile_converges]); after every prefix of a pass the
      desired rules that were there still are, nftables runs only behind the
      rules it needs, and unwanted rules and the routes of paths go last,
      when all that replaces them is in place ([diff_prefix_safe]); under
      any documented rule lookup each class of marked traffic uses the
      tables that its mark allows or is unreachable, but for specific routes
      of the main table, and unmarked traffic is decided by a planned rule
      ([Forwarding]); messages read back as what was planned ([Msg]);
      teardown leaves nothing of its layouts and touches nothing else.
    - Observation: requests and dumps lose nothing and report every failure
      ([request_spec]), subscriptions tell of every loss
      ([subscription_complete]); the view's invariant, and that an entry
      disappears from it only after a second reading of its own family
      ([System], [Observer]).  Probes leave with their path's mark, device
      and source only, at most one round for each interval since the
      prober's start ([probes_confined]).
    - Health and selection: the saturating machine refines its unbounded
      specification, the thresholds are exact, the decision table.
    - Configuration: what validation guarantees, that it reports, that it
      returns; the ruleset confines the names of the configuration.
    - The daemon: in every run orders are answered once, no handler
      panics, intents are durable before their effects, requests to reload
      are served once what is in progress has ended, reports of stopped probers are ignored, retries back
      off; start-up writes nothing before its checks; a restart keeps the
      health of the paths that have left their optimistic start.
    - Persistence: files are replaced atomically whatever fails and read
      back, no two instances hold the lock, what a lane reports is on disk,
      nft runs only while it is trusted ([nft_run_spec]; a missing nft is
      taken for a missing table, [missing_nft_hides_table]), settings are
      restored from the manifest (the kernel may change others along with a
      write: [proc_affects]; the managed ones do not affect each other),
      cleanup removes the manifest last, after the table and the artifacts.
    - Reporting: the bus and its queues under every interleaving, roles of
      the API, listeners of a reload, what systemd is told, the text of
      metrics and messages, the email limit and retries, hooks without
      privileges, notification tests within the notifiers' limits, how a
      subprocess ends, the limit on connections.
    - The command line: a follower of events is told of every gap
      ([follower_gapless]), but for a request that meets a daemon before its
      first event ([follower_after_empty_reset]: if that daemon then emits as
      many events as the old one had before the next request, so many are
      passed over); a binding is removed offline only when no
      daemon listens.

    ** Bounds and fuel

    Loops that are not structural run on a fuel that is proved to be enough:
    the text's length for [duration_parse] ([duration_parse_spec]), the
    payload's length for [attributes] ([attribute_loop_fuel]), the list's
    length for [chunks] ([chunks_fuel_enough]), four for [truncate_loop]
    (a character has at most four bytes, [truncate_loop_spec]) and for
    [fold_sum] (a 32-bit sum, [fold_sum_spec]), the binary logarithm for
    decimal digits ([decimal_digits_value]), the number of components for
    [existing], the number of messages for [Subscription_drain]
    ([subscription_complete]).  Retries and links are bounded as in the source
    ([INTERRUPTED_RETRIES], [DEADLINE_RETRIES], 40 symbolic links).

    ** Not modelled

    The inside of sockets, threads, channels of tokio, hyper and processes
    (what they do is an argument or an input of a step), and log lines; the
    texts of diagnostics (they are the data they are built from); TOML,
    JSON, SHA-256 and prefix parsing (libraries: parameters).  args.rs,
    main.rs, api/client.rs and the status command of cli.rs are argument
    parsing, an HTTP client and printing.  test_hooks.rs does nothing in
    release builds.  The crates testbed and xtask and the programs below
    spikes are tests, tasks and experiments, no parts of the daemon. *)

From stdpp Require Import prelude gmap sorting strings.
From Stdlib Require Import ZArith Lia.

#[export] Set Default Goal Selector "!".

Declare Scope polywan_scope.
Delimit Scope polywan_scope with pw.
Open Scope Z_scope.

(** ** Machine integers

    A [w]-bit unsigned integer is a [Z]; the abbreviations below record the
    width the source declares.  Arithmetic that can leave its width is
    written with the operations of this section, never with bare [Z]
    operators. *)

Abbreviation u8 := Z (only parsing).
Abbreviation u16 := Z (only parsing).
Abbreviation u32 := Z (only parsing).
Abbreviation u64 := Z (only parsing).
Abbreviation u128 := Z (only parsing).
Abbreviation i8 := Z (only parsing).
Abbreviation i32 := Z (only parsing).
Abbreviation usize := Z (only parsing).

(** The values of a [w]-bit unsigned integer. *)
Definition fits (w z : Z) : Prop := 0 <= z < 2 ^ w.

#[export] Instance fits_dec w z : Decision (fits w z).
Proof. unfold fits; apply _. Defined.

(** Wrap-around of a release build. *)
Definition wrap (w z : Z) : Z := z mod 2 ^ w.

(** [u32 + u32] of a release build. *)
Definition u32_add (a b : u32) : u32 := wrap 32 (a + b).

(** [x.saturating_add(y)] at width [w]. *)
Definition saturating_add (w x y : Z) : Z := Z.min (x + y) (2 ^ w - 1).

(** [x.saturating_sub(y)]. *)
Definition saturating_sub (x y : Z) : Z := Z.max (x - y) 0.

(** [x.checked_sub(y)] on unsigned integers. *)
Definition checked_sub (x y : Z) : option Z := if x <? y then None else Some (x - y).

(** [x.checked_mul(y)], [x.checked_add(y)] at width [w]. *)
Definition checked_mul (w x y : Z) : option Z := if 2 ^ w <=? x * y then None else Some (x * y).
Definition checked_add (w x y : Z) : option Z := if 2 ^ w <=? x + y then None else Some (x + y).

(** [(lo..=hi).contains(&x)]. *)
Definition in_range (lo hi x : Z) : bool := (lo <=? x) && (x <=? hi).

(** ** Results of fallible operations: [Ok] is [inl], [Err] is [inr]. *)
Abbreviation result A E := (sum A E) (only parsing).
Abbreviation Ok := inl (only parsing).
Abbreviation Err := inr (only parsing).

(** ** Ordering: Rust's [Ord], the comparison that sorts and [BTreeMap]s use. *)

Class Cmp (A : Type) := { cmp : A -> A -> comparison }.
#[global] Hint Mode Cmp ! : typeclass_instances.

Class CmpOrder (A : Type) `{Cmp A} := {
  cmp_eq : forall x y : A, cmp x y = Eq <-> x = y;
  cmp_opp : forall x y : A, cmp y x = CompOpp (cmp x y);
  cmp_lt_trans : forall x y z : A, cmp x y = Lt -> cmp y z = Lt -> cmp x z = Lt
}.
#[global] Hint Mode CmpOrder ! - : typeclass_instances.

Definition cmp_leb `{Cmp A} (x y : A) : bool := match cmp x y with Gt => false | _ => true end.
Definition cmp_ltb `{Cmp A} (x y : A) : bool := match cmp x y with Lt => true | _ => false end.

(** Lexicographic combination, as [#[derive(PartialOrd, Ord)]] and tuples compare. *)
Definition lex (c d : comparison) : comparison := match c with Eq => d | _ => c end.

#[export] Instance Cmp_Z : Cmp Z := {| cmp := Z.compare |}.
#[export] Instance Cmp_bool : Cmp bool := {| cmp := fun x y =>
  match x, y with false, true => Lt | true, false => Gt | _, _ => Eq end |}.
#[export] Instance Cmp_option `{Cmp A} : Cmp (option A) := {| cmp := fun x y =>
  match x, y with
  | None, None => Eq
  | None, Some _ => Lt
  | Some _, None => Gt
  | Some a, Some b => cmp a b
  end |}.
#[export] Instance Cmp_prod `{Cmp A, Cmp B} : Cmp (A * B) := {| cmp := fun x y =>
  lex (cmp (fst x) (fst y)) (cmp (snd x) (snd y)) |}.
Fixpoint list_cmp `{Cmp A} (l k : list A) : comparison :=
  match l, k with
  | [], [] => Eq
  | [], _ :: _ => Lt
  | _ :: _, [] => Gt
  | a :: l', b :: k' => lex (cmp a b) (list_cmp l' k')
  end.
#[export] Instance Cmp_list `{Cmp A} : Cmp (list A) := {| cmp := list_cmp |}.

(** The order of a type through an injection into an ordered one. *)
Definition cmp_by {A B} `{Cmp B} (f : A -> B) : Cmp A := {| cmp := fun x y => cmp (f x) (f y) |}.

(** ** Sorting: [sort_by_key] (stable) and [min_by_key] (first minimum). *)

Fixpoint insert_by {A} (leb : A -> A -> bool) (x : A) (l : list A) : list A :=
  match l with
  | [] => [x]
  | y :: l' => if leb x y then x :: y :: l' else y :: insert_by leb x l'
  end.

Definition sort_by {A} (leb : A -> A -> bool) (l : list A) : list A := foldr (insert_by leb) [] l.

Definition sort_by_key {A K} `{Cmp K} (f : A -> K) (l : list A) : list A :=
  sort_by (fun x y => cmp_leb (f x) (f y)) l.

Definition min_by_key {A K} `{Cmp K} (f : A -> K) (l : list A) : option A :=
  match l with
  | [] => None
  | x :: l' => Some (foldl (fun m y => if cmp_ltb (f y) (f m) then y else m) x l')
  end.

(** ** Iteration of [BTreeMap] and [BTreeSet]

    The maps and sets of the source are [gmap] and [gset]; where the source
    iterates one, the model lists it in key order. *)

Definition btree_iter {K V} `{Countable K, Cmp K} (m : gmap K V) : list (K * V) :=
  sort_by_key fst (map_to_list m).
Definition btree_values {K V} `{Countable K, Cmp K} (m : gmap K V) : list V := snd <$> btree_iter m.
Definition btree_keys {K V} `{Countable K, Cmp K} (m : gmap K V) : list K := fst <$> btree_iter m.
Definition bset_iter {K} `{Countable K, Cmp K} (s : gset K) : list K :=
  sort_by_key id (elements s).

(** A [BTreeSet] kept as the list of its elements in order (for element
    types that are only compared), extended with new ones. *)
Definition bset_extend {A} `{EqDecision A, Cmp A} (s l : list A) : list A :=
  sort_by_key id (remove_dups (s ++ l)).

(** [iter().find(p)]. *)
Definition find_first {A} (p : A -> bool) (l : list A) : option A := List.find p l.

(** ** Laws of the comparisons *)

Section cmp_lemmas.
Context {A : Type} `{CmpOrder A}.
Implicit Types x y z : A.

Lemma cmp_refl x : cmp x x = Eq.
Proof. by apply cmp_eq. Qed.

Lemma cmp_leb_total x y : cmp_leb x y = true \/ cmp_leb y x = true.
Proof. unfold cmp_leb. rewrite (cmp_opp x y). destruct (cmp x y); simpl; auto. Qed.

Lemma cmp_leb_refl x : cmp_leb x x = true.
Proof. unfold cmp_leb. by rewrite cmp_refl. Qed.

Lemma cmp_leb_trans x y z : cmp_leb x y = true -> cmp_leb y z = true -> cmp_leb x z = true.
Proof.
  unfold cmp_leb. intros Hxy Hyz.
  destruct (cmp x y) eqn:E; [apply cmp_eq in E as ->; done| |done].
  destruct (cmp y z) eqn:F; [apply cmp_eq in F as <-; by rewrite E| |done].
  by rewrite (cmp_lt_trans x y z).
Qed.

Lemma cmp_leb_antisym x y : cmp_leb x y = true -> cmp_leb y x = true -> x = y.
Proof.
  unfold cmp_leb. rewrite (cmp_opp x y).
  destruct (cmp x y) eqn:E; simpl; try done. intros _ _. by apply cmp_eq.
Qed.

Lemma cmp_leb_ltb x y : cmp_leb x y = negb (cmp_ltb y x).
Proof. unfold cmp_leb, cmp_ltb. rewrite (cmp_opp x y). by destruct (cmp x y). Qed.

Lemma cmp_ltb_irrefl x : cmp_ltb x x = false.
Proof. unfold cmp_ltb. by rewrite cmp_refl. Qed.
End cmp_lemmas.

#[export] Instance CmpOrder_Z : CmpOrder Z.
Proof.
  split; cbn.
  - apply Z.compare_eq_iff.
  - intros. apply Z.compare_antisym.
  - intros x y z. rewrite !Z.compare_lt_iff. lia.
Qed.

#[export] Instance CmpOrder_bool : CmpOrder bool.
Proof. split; [intros [] []|intros [] []|intros [] [] []]; done. Qed.

#[export] Instance CmpOrder_option `{CmpOrder A} : CmpOrder (option A).
Proof.
  split.
  - intros [x|] [y|]; cbn; try done. rewrite cmp_eq. naive_solver.
  - intros [x|] [y|]; cbn; try done. apply cmp_opp.
  - intros [x|] [y|] [z|]; cbn; try done. apply cmp_lt_trans.
Qed.

Lemma lex_lt_trans `{CmpOrder A} (x y z : A) c d e :
  (c = Lt -> d = Lt -> e = Lt) ->
  lex (cmp x y) c = Lt -> lex (cmp y z) d = Lt -> lex (cmp x z) e = Lt.
Proof.
  intros Hcde.
  destruct (cmp x y) eqn:E1; simpl; [apply cmp_eq in E1 as ->|intros _|done].
  - by destruct (cmp y z) eqn:E2.
  - destruct (cmp y z) eqn:E2; simpl; [apply cmp_eq in E2 as <-; intros _|intros _|done].
    + by rewrite E1.
    + by rewrite (cmp_lt_trans x y z).
Qed.

Lemma lex_opp c d : CompOpp (lex c d) = lex (CompOpp c) (CompOpp d).
Proof. by destruct c. Qed.

Lemma lex_eq c d : lex c d = Eq <-> c = Eq /\ d = Eq.
Proof. destruct c, d; simpl; intuition congruence. Qed.

#[export] Instance CmpOrder_prod `{CmpOrder A, CmpOrder B} : CmpOrder (A * B).
Proof.
  split.
  - intros [x1 x2] [y1 y2]; cbn. rewrite lex_eq, !cmp_eq. intuition congruence.
  - intros [x1 x2] [y1 y2]; cbn. rewrite lex_opp. f_equal; apply cmp_opp.
  - intros [x1 x2] [y1 y2] [z1 z2]; cbn. apply lex_lt_trans, cmp_lt_trans.
Qed.

#[export] Instance CmpOrder_list `{CmpOrder A} : CmpOrder (list A).
Proof.
  split; cbn.
  - intros l. induction l as [|x l IH]; intros [|y k]; cbn; try done.
    rewrite lex_eq, cmp_eq, IH. intuition congruence.
  - intros l. induction l as [|x l IH]; intros [|y k]; cbn; try done.
    rewrite lex_opp, <- IH. f_equal. apply cmp_opp.
  - intros l. induction l as [|x l IH]; intros [|y k] [|z m]; cbn; try done.
    apply lex_lt_trans, IH.
Qed.

Lemma CmpOrder_by {A B} `{CmpOrder B} (f : A -> B) :
  (forall x y, f x = f y -> x = y) -> @CmpOrder A (cmp_by f).
Proof.
  intros Hinj. split; cbn.
  - intros. rewrite cmp_eq. naive_solver.
  - intros. apply cmp_opp.
  - intros x y z. apply cmp_lt_trans.
Qed.

(** ** Sorting lemmas *)

Section sort_lemmas.
Context {A : Type} (leb : A -> A -> bool).

Lemma insert_by_Permutation x l : insert_by leb x l ≡ₚ x :: l.
Proof.
  induction l as [|y l IH]; simpl; [done|].
  destruct (leb x y); [done|]. rewrite IH. apply Permutation_swap.
Qed.

Lemma sort_by_Permutation l : sort_by leb l ≡ₚ l.
Proof. induction l as [|x l IH]; simpl; [done|]. by rewrite insert_by_Permutation, IH. Qed.

Lemma sort_by_elem_of x l : x ∈ sort_by leb l <-> x ∈ l.
Proof. by rewrite sort_by_Permutation. Qed.

Lemma sort_by_length l : length (sort_by leb l) = length l.
Proof. by rewrite sort_by_Permutation. Qed.

Lemma sort_by_NoDup l : NoDup (sort_by leb l) <-> NoDup l.
Proof. by rewrite sort_by_Permutation. Qed.

Lemma sort_by_sorted l :
  (forall x y, leb x y = true \/ leb y x = true) ->
  (forall x y z, leb x y = true -> leb y z = true -> leb x z = true) ->
  StronglySorted (fun x y => leb x y = true) (sort_by leb l).
Proof.
  intros Htot Htrans. induction l as [|x l IH]; simpl; [constructor|].
  induction IH as [|y k Hk IHk Hall]; simpl; [by repeat constructor|].
  destruct (leb x y) eqn:E.
  - constructor; [by constructor|]. constructor; [done|].
    eapply Forall_impl; [exact Hall|]. eauto.
  - constructor; [done|]. rewrite insert_by_Permutation. constructor; [|done].
    destruct (Htot x y) as [|]; congruence.
Qed.

(** Sorting a list that is already in order leaves it as it is. *)
Lemma sort_by_sorted_id l :
  StronglySorted (fun x y => leb x y = true) l -> sort_by leb l = l.
Proof.
  induction 1 as [|x l Hl IH Hall]; simpl; [done|]. rewrite IH.
  destruct l as [|y l']; simpl; [done|].
  apply Forall_cons in Hall as [Hxy _]. by rewrite Hxy.
Qed.
End sort_lemmas.

Lemma sort_by_key_sorted {A K} `{CmpOrder K} (f : A -> K) l :
  StronglySorted (fun x y => cmp_leb (f x) (f y) = true) (sort_by_key f l).
Proof.
  apply sort_by_sorted; intros; [apply cmp_leb_total|by eapply cmp_leb_trans].
Qed.

Lemma sort_by_key_Permutation {A K} `{Cmp K} (f : A -> K) l : sort_by_key f l ≡ₚ l.
Proof. apply sort_by_Permutation. Qed.

Lemma sort_by_key_elem_of {A K} `{Cmp K} (f : A -> K) x l : x ∈ sort_by_key f l <-> x ∈ l.
Proof. apply sort_by_elem_of. Qed.

Lemma sort_by_key_nil {A K} `{Cmp K} (f : A -> K) l : sort_by_key f l = [] <-> l = [].
Proof.
  split; [|by intros ->]. intros E.
  apply Permutation_nil. rewrite <- E. apply sort_by_key_Permutation.
Qed.

(** Two elements in a sorted list, in list order, have keys in order. *)
Lemma StronglySorted_lookup_le {A} (R : relation A) l i j x y :
  StronglySorted R l -> (i < j)%nat -> l !! i = Some x -> l !! j = Some y -> R x y.
Proof.
  intros Hl. revert i j. induction Hl as [|a l Hl IH Hall]; intros i j Hij Hx Hy; [done|].
  destruct i as [|i], j as [|j]; simpl in *; try lia.
  - simplify_eq. rewrite Forall_forall in Hall. apply Hall. by apply list_elem_of_lookup_2 in Hy.
  - apply (IH i j); [lia|done..].
Qed.

Lemma min_by_key_Some {A K} `{CmpOrder K} (f : A -> K) l x :
  min_by_key f l = Some x -> x ∈ l /\ forall y, y ∈ l -> cmp_leb (f x) (f y) = true.
Proof.
  destruct l as [|a l]; simpl; [done|]. intros [= <-].
  revert a. induction l as [|b l IH]; intros a; simpl.
  { split; [set_solver|]. intros y ->%list_elem_of_singleton. apply cmp_leb_refl. }
  destruct (cmp_ltb (f b) (f a)) eqn:E.
  - destruct (IH b) as [Hin Hmin]. split; [set_solver|].
    intros y [->|Hy]%elem_of_cons; [|by apply Hmin].
    apply cmp_leb_trans with (f b); [apply Hmin; set_solver|].
    unfold cmp_ltb in E. unfold cmp_leb. by destruct (cmp (f b) (f a)).
  - destruct (IH a) as [Hin Hmin]. split; [set_solver|].
    intros y [->|[->|Hy]%elem_of_cons]%elem_of_cons; [apply Hmin; set_solver| |apply Hmin; set_solver].
    apply cmp_leb_trans with (f a); [apply Hmin; set_solver|].
    by rewrite cmp_leb_ltb, E.
Qed.

Lemma min_by_key_None {A K} `{Cmp K} (f : A -> K) l : min_by_key f l = None <-> l = [].
Proof. destruct l; naive_solver. Qed.

(** ** Iteration lemmas *)

Section btree_lemmas.
Context {K V : Type} `{Countable K, Cmp K}.

Lemma btree_iter_elem_of (m : gmap K V) k v : (k, v) ∈ btree_iter m <-> m !! k = Some v.
Proof. unfold btree_iter. by rewrite sort_by_key_elem_of, elem_of_map_to_list. Qed.

Lemma btree_values_elem_of (m : gmap K V) v : v ∈ btree_values m <-> exists k, m !! k = Some v.
Proof.
  unfold btree_values. rewrite list_elem_of_fmap. split.
  - intros [[k v'] [-> Hin]]. exists k. by apply btree_iter_elem_of.
  - intros [k Hk]. exists (k, v). split; [done|]. by apply btree_iter_elem_of.
Qed.

Lemma btree_keys_elem_of (m : gmap K V) k : k ∈ btree_keys m <-> is_Some (m !! k).
Proof.
  unfold btree_keys. rewrite list_elem_of_fmap. split.
  - intros [[k' v] [-> Hin]]. exists v. by apply btree_iter_elem_of.
  - intros [v Hk]. exists (k, v). split; [done|]. by apply btree_iter_elem_of.
Qed.

Lemma btree_keys_NoDup (m : gmap K V) : NoDup (btree_keys m).
Proof.
  unfold btree_keys, btree_iter. rewrite sort_by_key_Permutation. apply NoDup_fst_map_to_list.
Qed.

Lemma bset_iter_elem_of (s : gset K) k : k ∈ bset_iter s <-> k ∈ s.
Proof. unfold bset_iter. by rewrite sort_by_key_elem_of, elem_of_elements. Qed.
End btree_lemmas.

Lemma bset_extend_elem_of `{EqDecision A, Cmp A} (s l : list A) x :
  x ∈ bset_extend s l <-> x ∈ s \/ x ∈ l.
Proof. unfold bset_extend. by rewrite sort_by_key_elem_of, elem_of_remove_dups, elem_of_app. Qed.

Lemma bset_extend_NoDup `{EqDecision A, Cmp A} (s l : list A) : NoDup (bset_extend s l).
Proof. unfold bset_extend. rewrite sort_by_key_Permutation. apply NoDup_remove_dups. Qed.

(** ** Machine-integer lemmas *)

Lemma fits_wrap w z : fits w z -> wrap w z = z.
Proof. intros. by apply Z.mod_small. Qed.

Lemma u32_add_small a b : fits 32 (a + b) -> u32_add a b = a + b.
Proof. apply fits_wrap. Qed.

Lemma in_range_spec lo hi x : in_range lo hi x = true <-> lo <= x <= hi.
Proof. unfold in_range. rewrite andb_true_iff, !Z.leb_le. done. Qed.

Lemma in_range_false lo hi x : in_range lo hi x = false <-> x < lo \/ hi < x.
Proof. unfold in_range. rewrite andb_false_iff, !Z.leb_gt. done. Qed.

(** ** Booleans and [existsb]/[forallb] in set notation *)

Lemma existsb_elem_of {A} (p : A -> bool) l : existsb p l = true <-> exists x, x ∈ l /\ p x = true.
Proof. rewrite existsb_exists. by setoid_rewrite list_elem_of_In. Qed.

Lemma forallb_elem_of {A} (p : A -> bool) l : forallb p l = true <-> forall x, x ∈ l -> p x = true.
Proof. rewrite forallb_forall. by setoid_rewrite list_elem_of_In. Qed.

Lemma elem_of_list_filter_bool {A} (p : A -> bool) l x : x ∈ List.filter p l <-> x ∈ l /\ p x = true.
Proof. rewrite !list_elem_of_In. apply filter_In. Qed.

#[export] Instance filter_bool_Permutation {A} (p : A -> bool) :
  Proper ((≡ₚ) ==> (≡ₚ)) (List.filter p).
Proof.
  induction 1; simpl; repeat case_match; try done.
  - by constructor.
  - by apply Permutation_swap.
  - by etransitivity.
Qed.

Lemma NoDup_filter_bool {A} (p : A -> bool) (l : list A) : NoDup l -> NoDup (List.filter p l).
Proof.
  induction 1 as [|x l Hx Hl IH]; simpl; [constructor|]. destruct (p x); [|done]. constructor; [|done].
  by intros [? _]%elem_of_list_filter_bool.
Qed.

Lemma filter_all {A} (p : A -> bool) l : (forall x, x ∈ l -> p x = true) -> List.filter p l = l.
Proof.
  induction l as [|x l IH]; simpl; [done|]. intros H. rewrite (H x) by set_solver.
  f_equal. apply IH. intros. apply H. set_solver.
Qed.

Lemma filter_none {A} (p : A -> bool) l : (forall x, x ∈ l -> p x = false) -> List.filter p l = [].
Proof.
  induction l as [|x l IH]; simpl; [done|]. intros H. rewrite (H x) by set_solver.
  apply IH. intros. apply H. set_solver.
Qed.

Lemma sort_by_key_sorted_id {A K} `{Cmp K} (f : A -> K) l :
  StronglySorted (fun x y => cmp_leb (f x) (f y) = true) l -> sort_by_key f l = l.
Proof. apply (sort_by_sorted_id (fun x y => cmp_leb (f x) (f y))). Qed.

(** The order of a sorted list is determined by its elements. *)
Lemma sort_by_key_perm `{CmpOrder A} (l k : list A) : l ≡ₚ k -> sort_by_key id l = sort_by_key id k.
Proof.
  intros Hp. apply (StronglySorted_unique_strong (fun x y => cmp_leb (id x) (id y) = true));
    [|apply sort_by_key_sorted..|by rewrite !sort_by_key_Permutation].
  intros ????. apply cmp_leb_antisym.
Qed.

Lemma find_first_Some {A} (p : A -> bool) l x : find_first p l = Some x -> x ∈ l /\ p x = true.
Proof. intros E%find_some. by rewrite list_elem_of_In. Qed.

Lemma find_first_None {A} (p : A -> bool) l : find_first p l = None <-> forall x, x ∈ l -> p x = false.
Proof.
  split.
  - intros E x Hx%list_elem_of_In. by eapply find_none.
  - induction l as [|y l IH]; simpl; [done|]. intros E. rewrite (E y) by set_solver.
    apply IH. intros. apply E. set_solver.
Qed.

Lemma StronglySorted_filter {A} (R : relation A) (p : A -> bool) l :
  StronglySorted R l -> StronglySorted R (List.filter p l).
Proof.
  induction 1 as [|x l Hl IH Hall]; simpl; [constructor|]. destruct (p x); [|done]. constructor; [done|].
  apply Forall_forall. intros y [Hy _]%elem_of_list_filter_bool. rewrite Forall_forall in Hall. by apply Hall.
Qed.

Lemma StronglySorted_snoc {A} (R : relation A) l x :
  StronglySorted R l -> (forall y, y ∈ l -> R y x) -> StronglySorted R (l ++ [x]).
Proof.
  intros Hl Hx. induction Hl as [|y l Hl IH Hall]; simpl; [repeat constructor|].
  constructor; [apply IH; set_solver|]. apply Forall_app. split; [done|]. constructor; [|done]. apply Hx. set_solver.
Qed.

(** ** Automation

    [pw] holds the membership and range lemmas that the components' proofs
    use by [eauto with pw]; [bool_simpl] turns boolean hypotheses into
    propositions. *)

Create HintDb pw.
#[export] Hint Resolve cmp_leb_refl bset_extend_NoDup : pw.
#[export] Hint Resolve -> in_range_spec : pw.

Ltac bool_simpl :=
  repeat match goal with
  | H : _ && _ = true |- _ => apply andb_true_iff in H as [? ?]
  | H : _ || _ = false |- _ => apply orb_false_iff in H as [? ?]
  | H : negb _ = true |- _ => apply negb_true_iff in H
  | H : negb _ = false |- _ => apply negb_false_iff in H
  | H : bool_decide _ = true |- _ => apply bool_decide_eq_true_1 in H
  | H : bool_decide _ = false |- _ => apply bool_decide_eq_false_1 in H
  | H : (_ <=? _) = true |- _ => apply Z.leb_le in H
  | H : (_ <=? _) = false |- _ => apply Z.leb_gt in H
  | H : (_ <? _) = true |- _ => apply Z.ltb_lt in H
  | H : (_ <? _) = false |- _ => apply Z.ltb_ge in H
  | H : (_ =? _) = true |- _ => apply Z.eqb_eq in H
  | H : (_ =? _) = false |- _ => apply Z.eqb_neq in H
  | H : in_range _ _ _ = true |- _ => apply in_range_spec in H
  end.
