(* ===== verification/Text.v ===== *)
(** * Text: Rust's [str] as the list of its code points

    A [str] of the source is modelled as the list of its Unicode scalar
    values, so that [trim], [len] (UTF-8 bytes), [chars] and comparisons are
    those of the standard library.  Holds the decimal printer and the
    [FromStr] parser of unsigned integers, with their round trip. *)

From stdpp Require Import prelude gmap.
From Stdlib Require Import ZArith Lia Ascii.
From Stdlib Require String.
Export String.StringSyntax.
From S2P Require Import Prelude.

Local Open Scope Z_scope.

Definition str : Type := list Z.

(** A literal of the source (ASCII). *)
Definition lit (s : String.string) : str :=
  (fun a => Z.of_N (N_of_ascii a)) <$> String.list_ascii_of_string s.
Arguments lit s%_string_scope.

#[export] Instance str_eq_dec : EqDecision str.
Proof. unfold str. apply _. Defined.
#[export] Instance str_countable : Countable str.
Proof. unfold str. apply _. Defined.
#[export] Instance str_Cmp : Cmp str := Cmp_list.
#[export] Instance str_CmpOrder : CmpOrder str := CmpOrder_list.

(** [char::len_utf8] and [str::len]. *)
Definition char_len_utf8 (c : Z) : Z :=
  if c <? 0x80 then 1 else if c <? 0x800 then 2 else if c <? 0x10000 then 3 else 4.
Definition str_len (s : str) : usize := foldr (fun c n => char_len_utf8 c + n) 0 s.

(** [char::is_whitespace] (Unicode White_Space) and [str::trim]. *)
Definition is_whitespace (c : Z) : bool :=
  in_range 9 13 c || (c =? 32) || (c =? 0x85) || (c =? 0xa0) || (c =? 0x1680) ||
  in_range 0x2000 0x200a c || (c =? 0x2028) || (c =? 0x2029) || (c =? 0x202f) ||
  (c =? 0x205f) || (c =? 0x3000).

Fixpoint drop_while {A} (p : A -> bool) (l : list A) : list A :=
  match l with x :: l' => if p x then drop_while p l' else l | [] => [] end.
Fixpoint take_while {A} (p : A -> bool) (l : list A) : list A :=
  match l with x :: l' => if p x then x :: take_while p l' else [] | [] => [] end.

Definition trim_start (s : str) : str := drop_while is_whitespace s.
Definition trim_end (s : str) : str := rev (drop_while is_whitespace (rev s)).
Definition str_trim (s : str) : str := trim_end (trim_start s).

(** ASCII classes of [char] and [u8]. *)
Definition is_ascii_digit (c : Z) : bool := in_range 48 57 c.
Definition is_ascii_lowercase (c : Z) : bool := in_range 97 122 c.
Definition is_ascii_uppercase (c : Z) : bool := in_range 65 90 c.
Definition is_ascii_alphabetic (c : Z) : bool := is_ascii_lowercase c || is_ascii_uppercase c.
Definition is_ascii_alphanumeric (c : Z) : bool := is_ascii_alphabetic c || is_ascii_digit c.
Definition is_ascii_graphic (c : Z) : bool := in_range 33 126 c.

(** [str::strip_prefix], [str::starts_with] and [str::split] on a character. *)
Fixpoint strip_prefix (p s : str) : option str :=
  match p, s with
  | [], _ => Some s
  | c :: p, d :: s => if c =? d then strip_prefix p s else None
  | _ :: _, [] => None
  end.
Definition starts_with (p s : str) : bool := match strip_prefix p s with Some _ => true | None => false end.
Fixpoint split_on (c : Z) (s : str) : list str :=
  match s with
  | [] => [[]]
  | d :: s =>
      if d =? c then [] :: split_on c s
      else match split_on c s with w :: ws => (d :: w) :: ws | [] => [[d]] end
  end.

(** ** Decimal numbers *)

(** The decimal digits of [n], written in front of [acc]; [fuel] bounds the
    number of digits (one more than [log2 n] is enough). *)
Fixpoint decimal_digits (fuel : nat) (n : Z) (acc : str) : str :=
  match fuel with
  | O => acc
  | S fuel' =>
      let acc' := (48 + n mod 10) :: acc in
      if n / 10 =? 0 then acc' else decimal_digits fuel' (n / 10) acc'
  end.

(** [format!("{n}")] of an unsigned integer. *)
Definition to_decimal (n : Z) : str := decimal_digits (S (Z.to_nat (Z.log2 n))) n [].

(** The value of a string of digits, [None] on any other character. *)
Fixpoint digits_value (s : str) (acc : Z) : option Z :=
  match s with
  | [] => Some acc
  | c :: s' => if is_ascii_digit c then digits_value s' (10 * acc + (c - 48)) else None
  end.

(** [str::parse] of a [w]-bit unsigned integer: an optional [+], at least
    one digit, no overflow. *)
Definition parse_unsigned (w : Z) (s : str) : option Z :=
  let s := match s with c :: s' => if c =? 43 then s' else s | [] => s end in
  match s with
  | [] => None
  | _ => match digits_value s 0 with
         | Some n => if n <? 2 ^ w then Some n else None
         | None => None
         end
  end.

(** ** Lemmas *)

Lemma strip_prefix_app p s : strip_prefix p (p ++ s) = Some s.
Proof. induction p as [|c p IH]; simpl; [done|]. by rewrite Z.eqb_refl. Qed.

Lemma strip_prefix_Some p s r : strip_prefix p s = Some r <-> s = p ++ r.
Proof.
  split; [|intros ->; apply strip_prefix_app]. revert s. induction p as [|c p IH]; intros s; simpl; [by intros [= ->]|].
  destruct s as [|d s]; [done|]. destruct (Z.eqb_spec c d) as [->|]; [|done]. by intros ->%IH.
Qed.

(** A word without the separator is one segment. *)
Lemma split_on_word c w : c ∉ w -> split_on c w = [w].
Proof.
  induction w as [|d w IH]; simpl; [done|]. intros Hc. destruct (Z.eqb_spec d c) as [->|]; [set_solver|].
  rewrite IH by set_solver. done.
Qed.

Lemma split_on_app c w s : c ∉ w -> split_on c (w ++ c :: s) = w :: split_on c s.
Proof.
  induction w as [|d w IH]; simpl; [by rewrite Z.eqb_refl|]. intros Hc. destruct (Z.eqb_spec d c) as [->|]; [set_solver|].
  by rewrite IH by set_solver.
Qed.


Lemma digits_value_app s t a n : digits_value s a = Some n ->
  digits_value (s ++ t) a = digits_value t n.
Proof.
  revert a. induction s as [|c s IH]; intros a; simpl; [by intros [= ->]|].
  destruct (is_ascii_digit c); [apply IH|done].
Qed.

Lemma decimal_digits_value fuel n acc : 0 <= n -> (Z.log2 n < Z.of_nat fuel) ->
  digits_value (decimal_digits fuel n acc) 0 = digits_value acc n.
Proof.
  revert n acc. induction fuel as [|fuel IH]; intros n acc Hn Hf.
  { pose proof (Z.log2_nonneg n). lia. }
  pose proof (Z.mod_pos_bound n 10 ltac:(lia)) as Hmod.
  assert (Hd : is_ascii_digit (48 + n mod 10) = true)
    by (unfold is_ascii_digit; apply in_range_spec; lia).
  cbn [decimal_digits]. destruct (Z.eqb_spec (n / 10) 0) as [E|E].
  - cbn [digits_value]. rewrite Hd. f_equal.
    rewrite (Z.div_mod n 10) at 2 by lia. lia.
  - rewrite IH.
    + cbn [digits_value]. rewrite Hd. f_equal. rewrite (Z.div_mod n 10) at 3 by lia. lia.
    + apply Z.div_pos; lia.
    + assert (0 < n / 10) by (pose proof (Z.div_pos n 10 ltac:(lia) ltac:(lia)); lia).
      assert (2 * (n / 10) <= n) by (pose proof (Z.mul_div_le n 10 ltac:(lia)); lia).
      assert (Z.log2 (2 * (n / 10)) <= Z.log2 n) as Hl by (apply Z.log2_le_mono; lia).
      rewrite Z.log2_double in Hl by lia. lia.
Qed.

Lemma to_decimal_value n : 0 <= n -> digits_value (to_decimal n) 0 = Some n.
Proof.
  intros Hn. unfold to_decimal. rewrite decimal_digits_value; [done..|].
  pose proof (Z.log2_nonneg n). lia.
Qed.

Lemma decimal_digits_digits fuel n acc : 0 <= n ->
  forallb is_ascii_digit acc = true -> forallb is_ascii_digit (decimal_digits fuel n acc) = true.
Proof.
  revert n acc. induction fuel as [|fuel IH]; intros n acc Hn Hacc; simpl; [done|].
  pose proof (Z.mod_pos_bound n 10 ltac:(lia)) as Hmod.
  assert (Hd : is_ascii_digit (48 + n mod 10) = true)
    by (unfold is_ascii_digit; apply in_range_spec; lia).
  destruct (n / 10 =? 0).
  - simpl. by rewrite Hd.
  - apply IH; [apply Z.div_pos; lia|]. simpl. by rewrite Hd.
Qed.

Lemma to_decimal_digits n : 0 <= n -> forallb is_ascii_digit (to_decimal n) = true.
Proof. intros. by apply decimal_digits_digits. Qed.

Lemma decimal_digits_cons fuel n acc : exists c s, decimal_digits (S fuel) n acc = c :: s.
Proof.
  revert n acc. induction fuel as [|fuel IH]; intros n acc; cbn [decimal_digits];
    (destruct (n / 10 =? 0); [by eauto|]); [by eauto|]. apply IH.
Qed.

Lemma to_decimal_cons n : exists c s, to_decimal n = c :: s.
Proof. apply decimal_digits_cons. Qed.

Lemma parse_unsigned_to_decimal w n : fits w n -> parse_unsigned w (to_decimal n) = Some n.
Proof.
  intros [H0 Hw]. pose proof (to_decimal_value n H0) as Hv.
  pose proof (to_decimal_digits n H0) as Hd.
  unfold parse_unsigned. destruct (to_decimal_cons n) as (c & s & E). rewrite E in *.
  simpl in Hd. bool_simpl. unfold is_ascii_digit in *. bool_simpl.
  replace (c =? 43) with false by (symmetry; apply Z.eqb_neq; lia).
  rewrite Hv. by replace (n <? 2 ^ w) with true by (symmetry; apply Z.ltb_lt; lia).
Qed.

Lemma take_drop_while {A} (p : A -> bool) l : take_while p l ++ drop_while p l = l.
Proof. induction l as [|x l IH]; simpl; [done|]. destruct (p x); simpl; [by rewrite IH|done]. Qed.

Lemma take_while_app {A} (p : A -> bool) l x k : forallb p l = true -> p x = false ->
  take_while p (l ++ x :: k) = l.
Proof.
  intros Hl Hx. induction l as [|y l IH]; simpl in *; [by rewrite Hx|].
  apply andb_true_iff in Hl as [-> Hl]. by rewrite IH.
Qed.

Lemma drop_while_app {A} (p : A -> bool) l x k : forallb p l = true -> p x = false ->
  drop_while p (l ++ x :: k) = x :: k.
Proof.
  intros Hl Hx. induction l as [|y l IH]; simpl in *; [by rewrite Hx|].
  apply andb_true_iff in Hl as [-> Hl]. by rewrite IH.
Qed.

Lemma drop_while_length {A} (p : A -> bool) l : (length (drop_while p l) <= length l)%nat.
Proof. induction l as [|x l IH]; simpl; [done|]. destruct (p x); simpl; lia. Qed.
