(* ===== verification/Model.v ===== *)
(** * Basic identifiers: address families, uplink ids, paths and the mark field

    Models crates/polywan/src/model.rs.  An [UplinkId] is the decidable
    subtype of the ids 1 to 63 (the field of the Rust struct is private and
    only [UplinkId::new] and [UplinkId::all] build one); [FieldValue] and
    [FwMask] are the source's structs.  The theorems describe the encoding
    of the PolyWAN field into the packet mark. *)

From stdpp Require Import prelude gmap.
From Stdlib Require Import ZArith Lia.
From S2P Require Import Prelude.

Local Open Scope Z_scope.

(** ** Addresses *)

(** [std::net::IpAddr], as the numeric value of its octets. *)
Inductive IpAddr :=
  | IpV4 (a : u32)
  | IpV6 (a : u128).

#[export] Instance IpAddr_eq_dec : EqDecision IpAddr.
Proof. solve_decision. Defined.
Definition IpAddr_code (a : IpAddr) : Z + Z := match a with IpV4 n => inl n | IpV6 n => inr n end.
#[export] Instance IpAddr_countable : Countable IpAddr.
Proof.
  apply (inj_countable' IpAddr_code (fun c => match c with inl n => IpV4 n | inr n => IpV6 n end)).
  by intros [].
Defined.

(** [#[derive(Ord)]] of [IpAddr]: every IPv4 address before every IPv6 one. *)
#[export] Instance IpAddr_Cmp : Cmp IpAddr := {| cmp := fun x y =>
  match x, y with
  | IpV4 a, IpV4 b => cmp a b
  | IpV4 _, IpV6 _ => Lt
  | IpV6 _, IpV4 _ => Gt
  | IpV6 a, IpV6 b => cmp a b
  end |}.

(** ** Families *)

Inductive Family := V4 | V6.

#[export] Instance Family_eq_dec : EqDecision Family.
Proof. solve_decision. Defined.
#[export] Instance Family_countable : Countable Family.
Proof.
  apply (inj_countable' (fun f => match f with V4 => false | V6 => true end)
    (fun b : bool => if b then V6 else V4)).
  by intros [].
Defined.
#[export] Instance Family_Cmp : Cmp Family :=
  cmp_by (fun f => match f with V4 => false | V6 => true end).

Definition Family_ALL : list Family := [V4; V6].

Definition Family_of (addr : IpAddr) : Family :=
  match addr with IpV4 _ => V4 | IpV6 _ => V6 end.

(** ** Uplink ids *)

Definition UplinkId_MIN : u8 := 1.
Definition UplinkId_MAX : u8 := 63.

Definition UplinkId : Type := dsig (fun id : u8 => UplinkId_MIN <= id <= UplinkId_MAX).

Definition UplinkId_new (id : u8) : option UplinkId :=
  match decide (UplinkId_MIN <= id <= UplinkId_MAX) with
  | left H => Some (dexist id H)
  | right _ => None
  end.

Definition UplinkId_get (id : UplinkId) : u8 := proj1_sig id.

(** Every possible id, in order. *)
Definition UplinkId_all : list UplinkId :=
  omap UplinkId_new (seqZ UplinkId_MIN (UplinkId_MAX - UplinkId_MIN + 1)).

(** The uplink of a literal id (1 for a number that is not an id), for examples. *)
Definition uid (n : Z) : UplinkId :=
  default (dexist UplinkId_MIN (conj (Z.le_refl 1) (Z.lt_le_incl 1 63 eq_refl))) (UplinkId_new n).

#[export] Instance UplinkId_Cmp : Cmp UplinkId := cmp_by UplinkId_get.

Record PathKey := mkPathKey { pk_uplink : UplinkId; pk_family : Family }.

#[export] Instance PathKey_eq_dec : EqDecision PathKey.
Proof. solve_decision. Defined.
#[export] Instance PathKey_countable : Countable PathKey.
Proof.
  apply (inj_countable' (fun k => (pk_uplink k, pk_family k)) (fun p => mkPathKey (fst p) (snd p))).
  by intros [].
Defined.
#[export] Instance PathKey_Cmp : Cmp PathKey := cmp_by (fun k => (pk_uplink k, pk_family k)).

(** ** The PolyWAN field of the mark *)

Record FieldValue := mkFieldValue { FieldValue_get : u8 }.

#[export] Instance FieldValue_eq_dec : EqDecision FieldValue.
Proof. solve_decision. Defined.

Definition FieldValue_NONE : FieldValue := mkFieldValue 0.
Definition FieldValue_PROBE_CLASS : FieldValue := mkFieldValue 0x40.
Definition FieldValue_POLICY_BALANCE_CLASS : FieldValue := mkFieldValue 0x80.
Definition FieldValue_POLICY_BLOCK_CLASS : FieldValue := mkFieldValue 0xc0.
Definition FieldValue_CLASS_BITS : u8 := 0xc0.

Definition FieldValue_path (id : UplinkId) : FieldValue := mkFieldValue (UplinkId_get id).
Definition FieldValue_probe (id : UplinkId) : FieldValue := mkFieldValue (Z.lor 0x40 (UplinkId_get id)).
Definition FieldValue_policy_balance (id : UplinkId) : FieldValue :=
  mkFieldValue (Z.lor 0x80 (UplinkId_get id)).
Definition FieldValue_policy_block (id : UplinkId) : FieldValue :=
  mkFieldValue (Z.lor 0xc0 (UplinkId_get id)).
Definition FieldValue_raw (value : u8) : FieldValue := mkFieldValue value.

(** [u32::trailing_zeros]: 32 for zero. *)
Fixpoint trailing_zeros (w : nat) (z : Z) : Z :=
  match w with
  | O => 0
  | S w' => if Z.odd z then 0 else 1 + trailing_zeros w' (Z.div2 z)
  end.

Record FwMask := mkFwMask { FwMask_shift : u32 }.

#[export] Instance FwMask_eq_dec : EqDecision FwMask.
Proof. solve_decision. Defined.

Definition FwMask_DEFAULT : FwMask := mkFwMask 16.

Definition FwMask_new (mask : u32) : option FwMask :=
  let shift := trailing_zeros 32 mask in
  if negb (mask =? 0) && (Z.shiftr mask shift =? 0xff) then Some (mkFwMask shift) else None.

(** [<<] on [u32] drops the bits shifted out. *)
Definition FwMask_mask (m : FwMask) : u32 := wrap 32 (Z.shiftl 0xff (FwMask_shift m)).
Definition FwMask_encode (m : FwMask) (value : FieldValue) : u32 :=
  wrap 32 (Z.shiftl (FieldValue_get value) (FwMask_shift m)).
Definition FwMask_class_mask (m : FwMask) : u32 :=
  wrap 32 (Z.shiftl FieldValue_CLASS_BITS (FwMask_shift m)).
Definition FwMask_field (m : FwMask) (mark : u32) : FieldValue :=
  mkFieldValue (wrap 8 (Z.shiftr mark (FwMask_shift m))).

(** The masks [FwMask::new] accepts: eight bits within the 32 of the mark. *)
Definition FwMask_wf (m : FwMask) : Prop := 0 <= FwMask_shift m <= 24.

(** ** Orders *)

#[export] Instance IpAddr_CmpOrder : CmpOrder IpAddr.
Proof.
  split.
  - intros [a|a] [b|b]; cbn; rewrite ?Z.compare_eq_iff; naive_solver.
  - intros [a|a] [b|b]; cbn; try done; apply Z.compare_antisym.
  - intros [a|a] [b|b] [c|c]; cbn; rewrite ?Z.compare_lt_iff; try done; lia.
Qed.

#[export] Instance Family_CmpOrder : CmpOrder Family.
Proof. apply CmpOrder_by. by intros [] []. Qed.

Lemma UplinkId_get_inj (a b : UplinkId) : UplinkId_get a = UplinkId_get b -> a = b.
Proof. apply (proj2 (dsig_eq _ a b)). Qed.

#[export] Instance UplinkId_CmpOrder : CmpOrder UplinkId.
Proof. apply CmpOrder_by, UplinkId_get_inj. Qed.

#[export] Instance PathKey_CmpOrder : CmpOrder PathKey.
Proof. apply CmpOrder_by. intros [] []; cbn. congruence. Qed.

(** ** Uplink ids: lemmas *)

Lemma UplinkId_range (id : UplinkId) : 1 <= UplinkId_get id <= 63.
Proof. exact (proj2_dsig id). Qed.

Lemma UplinkId_new_Some n id : UplinkId_new n = Some id <-> UplinkId_get id = n /\ 1 <= n <= 63.
Proof.
  unfold UplinkId_new, UplinkId_MIN, UplinkId_MAX. case_decide as Hn.
  - split.
    + intros [= <-]. done.
    + intros [E _]. f_equal. apply UplinkId_get_inj. done.
  - split; [done|]. intros [_ ?]. done.
Qed.

Lemma UplinkId_new_None n : UplinkId_new n = None <-> ~ 1 <= n <= 63.
Proof. unfold UplinkId_new, UplinkId_MIN, UplinkId_MAX. by case_decide. Qed.

Lemma UplinkId_new_get id : UplinkId_new (UplinkId_get id) = Some id.
Proof. apply UplinkId_new_Some. split; [done|apply UplinkId_range]. Qed.

Lemma UplinkId_all_elem_of id : id ∈ UplinkId_all.
Proof.
  unfold UplinkId_all. apply list_elem_of_omap. exists (UplinkId_get id).
  rewrite UplinkId_new_get. split; [|done]. apply elem_of_seqZ.
  pose proof (UplinkId_range id). unfold UplinkId_MIN, UplinkId_MAX. lia.
Qed.

#[export] Hint Resolve UplinkId_range UplinkId_all_elem_of : pw.

(** ** The mark encoding: lemmas *)

Lemma FwMask_DEFAULT_wf : FwMask_wf FwMask_DEFAULT.
Proof. unfold FwMask_wf; simpl; lia. Qed.

Lemma shiftl_fits m v : FwMask_wf m -> fits 8 v ->
  wrap 32 (Z.shiftl v (FwMask_shift m)) = v * 2 ^ FwMask_shift m.
Proof.
  unfold FwMask_wf, fits. intros Hm Hv. rewrite Z.shiftl_mul_pow2 by lia.
  apply fits_wrap. unfold fits.
  assert (0 < 2 ^ FwMask_shift m) by (apply Z.pow_pos_nonneg; lia).
  assert (2 ^ FwMask_shift m <= 2 ^ 24) by (apply Z.pow_le_mono_r; lia).
  change (2 ^ 32) with (2 ^ 8 * 2 ^ 24). nia.
Qed.

(** Bit [i] of an encoded value: bit [i - shift] of the value. *)
Lemma encoded_testbit m v i : FwMask_wf m -> fits 8 v -> 0 <= i ->
  Z.testbit (wrap 32 (Z.shiftl v (FwMask_shift m))) i =
  (FwMask_shift m <=? i) && Z.testbit v (i - FwMask_shift m).
Proof.
  intros Hm Hv Hi. rewrite shiftl_fits by done. unfold FwMask_wf in Hm.
  rewrite Z.mul_pow2_bits by lia.
  destruct (Z.leb_spec (FwMask_shift m) i); [done|]. rewrite Z.testbit_neg_r by lia. done.
Qed.

Lemma FwMask_mask_testbit m i : FwMask_wf m -> 0 <= i ->
  Z.testbit (FwMask_mask m) i = in_range (FwMask_shift m) (FwMask_shift m + 7) i.
Proof.
  intros Hm Hi. unfold FwMask_mask. rewrite encoded_testbit by (unfold fits; lia || done).
  unfold in_range. destruct (Z.leb_spec (FwMask_shift m) i); simpl; [|done].
  change 255 with (Z.ones 8).
  destruct (Z.leb_spec i (FwMask_shift m + 7)).
  - apply Z.ones_spec_low. lia.
  - apply Z.ones_spec_high. lia.
Qed.

Lemma testbit_high w z i : fits w z -> 0 <= w <= i -> Z.testbit z i = false.
Proof.
  intros [H0 Hw] Hi. destruct (Z.eq_dec z 0) as [->|Hz]; [apply Z.bits_0|].
  apply Z.bits_above_log2; [done|]. apply Z.log2_lt_pow2; [lia|].
  apply Z.lt_le_trans with (2 ^ w); [done|]. apply Z.pow_le_mono_r; lia.
Qed.

Lemma Z_testbit_fits w z : 0 <= w -> 0 <= z ->
  (forall i, w <= i -> Z.testbit z i = false) -> fits w z.
Proof.
  intros Hw Hz Hbits. split; [done|]. destruct (Z.eq_dec z 0) as [->|Hz0]; [by apply Z.pow_pos_nonneg|].
  apply Z.log2_lt_pow2; [lia|]. destruct (Z.lt_ge_cases (Z.log2 z) w) as [|Hge]; [done|].
  specialize (Hbits (Z.log2 z) Hge). rewrite Z.bit_log2 in Hbits by lia. done.
Qed.

Lemma wrap_testbit w z i : 0 <= w -> 0 <= i ->
  Z.testbit (wrap w z) i = (i <? w) && Z.testbit z i.
Proof.
  intros Hw Hi. unfold wrap. destruct (Z.ltb_spec i w); simpl.
  - apply Z.mod_pow2_bits_low. lia.
  - apply Z.mod_pow2_bits_high. lia.
Qed.

(** The low six bits hold the id, the two high bits the class. *)
Lemma lor_class k n : 0 <= n < 64 -> Z.lor (64 * k) n = 64 * k + n.
Proof.
  intros Hn. symmetry. rewrite <- Z.lxor_lor; [apply Z.add_nocarry_lxor|];
    apply Z.bits_inj'; intros i Hi; rewrite Z.land_spec, Z.bits_0;
    change 64 with (2 ^ 6); rewrite Z.mul_comm, Z.mul_pow2_bits by lia;
    (destruct (Z.lt_ge_cases i 6);
      [rewrite (Z.testbit_neg_r k) by lia; done
      |rewrite (testbit_high 6 n) by (unfold fits; lia); apply andb_false_r]).
Qed.

Lemma FieldValue_probe_get id : FieldValue_get (FieldValue_probe id) = 64 + UplinkId_get id.
Proof. cbn. pose proof (UplinkId_range id). apply (lor_class 1). lia. Qed.
Lemma FieldValue_balance_get id : FieldValue_get (FieldValue_policy_balance id) = 128 + UplinkId_get id.
Proof. cbn. pose proof (UplinkId_range id). apply (lor_class 2). lia. Qed.
Lemma FieldValue_block_get id : FieldValue_get (FieldValue_policy_block id) = 192 + UplinkId_get id.
Proof. cbn. pose proof (UplinkId_range id). apply (lor_class 3). lia. Qed.

Lemma class_bits_get k n : 0 <= k < 4 -> 0 <= n < 64 -> Z.land (64 * k + n) FieldValue_CLASS_BITS = 64 * k.
Proof.
  intros Hk Hn. unfold FieldValue_CLASS_BITS. change 0xc0 with (64 * 3).
  rewrite <- lor_class, Z.land_lor_distr_l by done.
  replace (Z.land n (64 * 3)) with 0.
  - rewrite Z.lor_0_r. by assert (k = 0 \/ k = 1 \/ k = 2 \/ k = 3) as [->|[->|[->| ->]]] by lia.
  - symmetry. apply Z.bits_inj'. intros i Hi. rewrite Z.land_spec, Z.bits_0.
    change 64 with (2 ^ 6). rewrite Z.mul_comm, Z.mul_pow2_bits by lia.
    destruct (Z.lt_ge_cases i 6); [rewrite (Z.testbit_neg_r 3) by lia; apply andb_false_r|].
    by rewrite (testbit_high 6 n) by (unfold fits; lia).
Qed.

Lemma FieldValue_encode_inj m a b :
  FwMask_wf m -> fits 8 (FieldValue_get a) -> fits 8 (FieldValue_get b) ->
  FwMask_encode m a = FwMask_encode m b -> a = b.
Proof.
  intros Hm Ha Hb. unfold FwMask_encode. rewrite !shiftl_fits by done.
  intros E%Z.mul_cancel_r; [destruct a, b; simpl in *; congruence|].
  apply Z.pow_nonzero; unfold FwMask_wf in Hm; lia.
Qed.

Lemma FieldValue_path_fits id : fits 8 (FieldValue_get (FieldValue_path id)).
Proof. unfold fits. cbn. pose proof (UplinkId_range id). lia. Qed.
Lemma FieldValue_probe_fits id : fits 8 (FieldValue_get (FieldValue_probe id)).
Proof. unfold fits. rewrite FieldValue_probe_get. pose proof (UplinkId_range id). lia. Qed.
Lemma FieldValue_balance_fits id : fits 8 (FieldValue_get (FieldValue_policy_balance id)).
Proof. unfold fits. rewrite FieldValue_balance_get. pose proof (UplinkId_range id). lia. Qed.
Lemma FieldValue_block_fits id : fits 8 (FieldValue_get (FieldValue_policy_block id)).
Proof. unfold fits. rewrite FieldValue_block_get. pose proof (UplinkId_range id). lia. Qed.

#[export] Hint Resolve FieldValue_path_fits FieldValue_probe_fits FieldValue_balance_fits
  FieldValue_block_fits FwMask_DEFAULT_wf : pw.

(** [trailing_zeros] finds the largest power of two that divides its argument. *)
Lemma trailing_zeros_odd w z : Z.odd z = true -> trailing_zeros w z = 0.
Proof. intros Hz. destruct w; simpl; [done|]. by rewrite Hz. Qed.

Lemma trailing_zeros_bound w z : 0 <= trailing_zeros w z <= Z.of_nat w.
Proof.
  revert z. induction w as [|w IH]; intros z; simpl; [lia|].
  destruct (Z.odd z); [lia|]. specialize (IH (Z.div2 z)). lia.
Qed.

Lemma trailing_zeros_mul w z k : 0 <= k <= Z.of_nat w -> Z.odd z = true ->
  trailing_zeros w (z * 2 ^ k) = k.
Proof.
  revert k. induction w as [|w IH]; intros k Hk Hz; [simpl; lia|].
  destruct (Z.eq_dec k 0) as [->|Hk0].
  { rewrite Z.pow_0_r, Z.mul_1_r. by apply trailing_zeros_odd. }
  simpl. replace (z * 2 ^ k) with (2 * (z * 2 ^ (k - 1))).
  - rewrite Z.odd_mul. simpl. rewrite Z.div2_div, Z.mul_comm, Z.div_mul, IH by lia || done. lia.
  - replace (2 ^ k) with (2 * 2 ^ (k - 1)); [ring|]. rewrite <- Z.pow_succ_r by lia. f_equal; lia.
Qed.

Lemma trailing_zeros_divides w z :
  z = Z.shiftr z (trailing_zeros w z) * 2 ^ trailing_zeros w z.
Proof.
  revert z. induction w as [|w IH]; intros z; cbn -[Z.pow Z.shiftr].
  { rewrite Z.shiftr_0_r, Z.pow_0_r. lia. }
  destruct (Z.odd z) eqn:E; [rewrite Z.shiftr_0_r, Z.pow_0_r; lia|].
  pose proof (trailing_zeros_bound w (Z.div2 z)) as Hb.
  rewrite Z.pow_add_r by lia. rewrite <- Z.shiftr_shiftr by lia.
  rewrite <- Z.div2_spec. rewrite (Z.div2_odd z) at 1. rewrite E. simpl Z.b2z.
  rewrite (IH (Z.div2 z)) at 1. rewrite Z.pow_1_r. ring.
Qed.

Lemma FwMask_new_Some mask m : fits 32 mask ->
  FwMask_new mask = Some m <-> FwMask_wf m /\ mask = 255 * 2 ^ FwMask_shift m.
Proof.
  intros Hfit. unfold FwMask_new. split.
  - pose proof (trailing_zeros_divides 32 mask) as Hd.
    pose proof (trailing_zeros_bound 32 mask) as Hb.
    set (s := trailing_zeros 32 mask) in *.
    destruct (mask =? 0) eqn:E0; [done|]. destruct (Z.shiftr mask s =? 255) eqn:E; [|done].
    intros [= <-]. bool_simpl. rewrite E in Hd. split; [|done].
    unfold FwMask_wf; simpl. split; [lia|].
    destruct (Z.le_gt_cases s 24) as [|Hs]; [done|].
    assert (2 ^ 25 <= 2 ^ s) by (apply Z.pow_le_mono_r; lia). unfold fits in Hfit. lia.
  - intros [Hwf ->]. unfold FwMask_wf in Hwf.
    rewrite trailing_zeros_mul by lia || done.
    assert (0 < 2 ^ FwMask_shift m) by (apply Z.pow_pos_nonneg; lia).
    rewrite Z.shiftr_div_pow2, Z.div_mul by lia.
    replace (255 * 2 ^ FwMask_shift m =? 0) with false by (symmetry; apply Z.eqb_neq; lia).
    by destruct m.
Qed.

(** ** Properties *)

(** [FwMask::new] accepts exactly the masks of eight contiguous bits that
    lie within the 32-bit mark (255 shifted left by 0 to 24), and for those
    [mask()] gives the accepted mask back. *)
Theorem FwMask_new_spec (mask : u32) (Hmask : fits 32 mask) :
  (exists m, FwMask_new mask = Some m /\ FwMask_mask m = mask) <->
  (exists s, 0 <= s <= 24 /\ mask = 255 * 2 ^ s).
Proof.
  split.
  - intros (m & [Hwf Hm]%FwMask_new_Some & _); [|done]. by exists (FwMask_shift m).
  - intros (s & Hs & Hm). exists (mkFwMask s). rewrite FwMask_new_Some by done.
    split; [done|]. unfold FwMask_mask. rewrite shiftl_fits; [done..|]. unfold fits; lia.
Qed.

Lemma FwMask_new_spec_witness :
  (exists s, 0 <= s <= 24 /\ 0xff0000 = 255 * 2 ^ s) /\
  ~ (exists m, FwMask_new 0xff0001 = Some m /\ FwMask_mask m = 0xff0001).
Proof.
  split.
  - apply (FwMask_new_spec 0xff0000); [unfold fits; lia|].
    exists FwMask_DEFAULT. split; by vm_compute.
  - intros (m & Hm & _). by vm_compute in Hm.
Defined.

(** The write of the field that the packet-filter rules make: the bits
    outside the mask are kept, the field replaced. *)
Definition FwMask_write (m : FwMask) (mark : u32) (value : FieldValue) : u32 :=
  Z.lor (Z.ldiff mark (FwMask_mask m)) (FwMask_encode m value).

(** Writing a field value into a mark under the mask is exact: reading
    the field back gives the value, every bit outside the mask is the one
    the mark had (foreign marks survive), and the result is still 32 bits. *)
Theorem FwMask_write_field (m : FwMask) (mark : u32) (value : FieldValue)
    (Hm : FwMask_wf m) (Hmark : fits 32 mark) (Hv : fits 8 (FieldValue_get value)) :
  FwMask_field m (FwMask_write m mark value) = value /\
  Z.ldiff (FwMask_write m mark value) (FwMask_mask m) = Z.ldiff mark (FwMask_mask m) /\
  fits 32 (FwMask_write m mark value).
Proof.
  assert (Hbit : forall i, 0 <= i -> Z.testbit (FwMask_write m mark value) i =
    if in_range (FwMask_shift m) (FwMask_shift m + 7) i
    then Z.testbit (FieldValue_get value) (i - FwMask_shift m) else Z.testbit mark i).
  { intros i Hi. unfold FwMask_write, FwMask_encode.
    rewrite Z.lor_spec, Z.ldiff_spec, FwMask_mask_testbit, encoded_testbit by done.
    unfold in_range. destruct (Z.leb_spec (FwMask_shift m) i), (Z.leb_spec i (FwMask_shift m + 7));
      simpl; rewrite ?andb_true_r, ?andb_false_r, ?orb_false_r; try done; try lia.
    rewrite (testbit_high 8 (FieldValue_get value)) by (done || lia). by rewrite orb_false_r. }
  split_and!.
  - unfold FwMask_field. destruct value as [v]. f_equal. apply Z.bits_inj'. intros i Hi.
    unfold FwMask_wf in Hm. rewrite wrap_testbit, Z.shiftr_spec, Hbit by lia.
    unfold in_range. destruct (Z.ltb_spec i 8); simpl in *.
    + replace (i + FwMask_shift m <=? FwMask_shift m + 7) with true by (symmetry; apply Z.leb_le; lia).
      replace (FwMask_shift m <=? i + FwMask_shift m) with true by (symmetry; apply Z.leb_le; lia).
      simpl. f_equal. lia.
    + by rewrite (testbit_high 8 v).
  - apply Z.bits_inj'. intros i Hi. rewrite !Z.ldiff_spec, Hbit, FwMask_mask_testbit by done.
    destruct (in_range _ _ _); simpl; [|done]. by rewrite !andb_false_r.
  - apply Z_testbit_fits; [lia|apply Z.lor_nonneg; split|].
    + apply Z.ldiff_nonneg. left. apply Hmark.
    + unfold FwMask_encode, wrap. apply Z.mod_pos_bound. lia.
    + intros i Hi. rewrite Hbit by lia. unfold FwMask_wf in Hm.
      destruct (in_range _ _ _) eqn:E; bool_simpl; [lia|].
      apply (testbit_high 32); [done|lia].
Qed.

Lemma FwMask_write_field_witness :
  FwMask_field FwMask_DEFAULT (FwMask_write FwMask_DEFAULT 0xdeadbeef (FieldValue_raw 0x43)) =
    FieldValue_raw 0x43 /\
  FwMask_write FwMask_DEFAULT 0xdeadbeef (FieldValue_raw 0x43) = 0xde43beef.
Proof.
  split; [|by vm_compute].
  apply (FwMask_write_field FwMask_DEFAULT 0xdeadbeef (FieldValue_raw 0x43));
    unfold FwMask_wf, fits; simpl; lia.
Defined.

(** The four classes of field values never collide: each value names its
    class (through the class bits the rules select on) and its uplink, and
    none is the unassigned value. *)
Theorem FieldValue_classes_disjoint (a b : UplinkId) :
  (FieldValue_path a = FieldValue_path b -> a = b) /\
  (FieldValue_probe a = FieldValue_probe b -> a = b) /\
  FieldValue_path a <> FieldValue_NONE /\
  Z.land (FieldValue_get (FieldValue_path a)) FieldValue_CLASS_BITS = 0 /\
  Z.land (FieldValue_get (FieldValue_probe a)) FieldValue_CLASS_BITS =
    FieldValue_get FieldValue_PROBE_CLASS /\
  Z.land (FieldValue_get (FieldValue_policy_balance a)) FieldValue_CLASS_BITS =
    FieldValue_get FieldValue_POLICY_BALANCE_CLASS /\
  Z.land (FieldValue_get (FieldValue_policy_block a)) FieldValue_CLASS_BITS =
    FieldValue_get FieldValue_POLICY_BLOCK_CLASS.
Proof.
  pose proof (UplinkId_range a). pose proof (UplinkId_range b). split_and!.
  - intros E%(f_equal FieldValue_get). by apply UplinkId_get_inj.
  - intros E%(f_equal FieldValue_get). rewrite !FieldValue_probe_get in E.
    apply UplinkId_get_inj. lia.
  - intros E%(f_equal FieldValue_get). simpl in E. lia.
  - apply (class_bits_get 0 (UplinkId_get a)); lia.
  - rewrite FieldValue_probe_get. apply (class_bits_get 1); lia.
  - rewrite FieldValue_balance_get. apply (class_bits_get 2); lia.
  - rewrite FieldValue_block_get. apply (class_bits_get 3); lia.
Qed.
