(* ===== verification/Health.v ===== *)
(** * The health state machine of a path

    Models crates/polywan/src/health.rs: one [Definition] per method of
    [Machine], each returning the new machine and the emitted transition.
    [Spec] is what the machine promises, stated on the whole history of
    rounds with unbounded counts; [Machine_refines_spec] shows that the
    saturating 8-bit counters implement it. *)

From stdpp Require Import prelude.
From Stdlib Require Import ZArith Lia.
From S2P Require Import Prelude.

Local Open Scope Z_scope.

Inductive State := Down | Up.

Inductive Reason :=
  | R_ProbeFailed | R_Degraded | R_CarrierLost | R_InterfaceRemoved | R_AddressLost
  | R_AddressConflict | R_GatewayLost | R_RouteInstallFailed | R_ProbesRecovered | R_Startup.

Inductive Round := Passed | Failed | Degraded.

#[export] Instance State_eq_dec : EqDecision State.
Proof. solve_decision. Defined.
#[export] Instance Reason_eq_dec : EqDecision Reason.
Proof. solve_decision. Defined.
#[export] Instance Round_eq_dec : EqDecision Round.
Proof. solve_decision. Defined.

Record Transition := mkTransition { tr_from : State; tr_to : State; tr_reason : Reason }.

Record Hysteresis := mkHysteresis { h_fall : u8; h_rise : u8 }.

Record Snapshot := mkSnapshot { snap_state : State; snap_passes : u8; snap_failures : u8 }.

Record Machine := mkMachine {
  m_state : State;
  m_reason : Reason;
  m_passes : u8;
  m_failures : u8;
  m_optimistic : bool;
  m_ready : bool
}.

Definition Machine_new (ready : bool) (not_ready_reason : Reason) (warm : option Snapshot) : Machine :=
  match ready, warm with
  | false, _ => mkMachine Down not_ready_reason 0 0 false false
  | true, Some s => mkMachine (snap_state s) R_Startup (snap_passes s) (snap_failures s) false true
  | true, None => mkMachine Up R_Startup 0 0 true true
  end.

Definition Machine_is_up (m : Machine) : bool := bool_decide (m_state m = Up).

Definition Machine_snapshot (m : Machine) : Snapshot :=
  mkSnapshot (m_state m) (m_passes m) (m_failures m).

(** [fn go]: the reason is replaced even when the state stays. *)
Definition Machine_go (m : Machine) (to : State) (reason : Reason) : Machine * option Transition :=
  (mkMachine to reason (m_passes m) (m_failures m) (m_optimistic m) (m_ready m),
   if decide (m_state m = to) then None else Some (mkTransition (m_state m) to reason)).

Definition Machine_set_ready (m : Machine) (ready : bool) (reason : Reason)
    : Machine * option Transition :=
  if Bool.eqb ready (m_ready m) then (m, None) else
  let m1 := mkMachine (m_state m) (m_reason m) 0 0 false ready in
  if ready then (m1, None) else Machine_go m1 Down reason.

Definition failure_reason (r : Round) : Reason :=
  if decide (r = Degraded) then R_Degraded else R_ProbeFailed.

Definition Machine_round (m : Machine) (round : Round) (h : Hysteresis) : Machine * option Transition :=
  if negb (m_ready m) then (m, None) else
  if m_optimistic m then
    match round with
    | Passed => (mkMachine (m_state m) (m_reason m) 1 (m_failures m) false (m_ready m), None)
    | r => Machine_go (mkMachine (m_state m) (m_reason m) (m_passes m) 1 false (m_ready m))
             Down (failure_reason r)
    end
  else
  match round with
  | Passed =>
      let m1 := mkMachine (m_state m) (m_reason m) (saturating_add 8 (m_passes m) 1) 0
                  (m_optimistic m) (m_ready m) in
      if bool_decide (m_state m1 = Down) && (h_rise h <=? m_passes m1)
      then Machine_go m1 Up R_ProbesRecovered else (m1, None)
  | r =>
      let m1 := mkMachine (m_state m) (m_reason m) 0 (saturating_add 8 (m_failures m) 1)
                  (m_optimistic m) (m_ready m) in
      if bool_decide (m_state m1 = Up) && (h_fall h <=? m_failures m1)
      then Machine_go m1 Down (failure_reason r) else (m1, None)
  end.

(** ** Events *)

(** What the daemon feeds a machine: readiness changes and completed rounds
    (each with the hysteresis of the configuration in force). *)
Inductive Event :=
  | SetReady (ready : bool) (reason : Reason)
  | ProbeRound (round : Round) (h : Hysteresis).

Definition Machine_step (m : Machine) (e : Event) : Machine * option Transition :=
  match e with
  | SetReady ready reason => Machine_set_ready m ready reason
  | ProbeRound round h => Machine_round m round h
  end.

Fixpoint Machine_run (m : Machine) (es : list Event) : Machine * list (option Transition) :=
  match es with
  | [] => (m, [])
  | e :: es' =>
      let '(m1, t) := Machine_step m e in
      let '(m2, ts) := Machine_run m1 es' in
      (m2, t :: ts)
  end.

(** The settings the configuration admits. *)
Definition Hysteresis_wf (h : Hysteresis) : Prop := 1 <= h_fall h <= 255 /\ 1 <= h_rise h <= 255.
Definition Event_wf (e : Event) : Prop :=
  match e with SetReady _ _ => True | ProbeRound _ h => Hysteresis_wf h end.

(** ** The specification: unbounded history *)

Module Spec.
(** The rounds completed since the path last changed readiness, latest
    first, and whether the history begins at a cold start. *)
Record Path := mkPath {
  s_state : State;
  s_ready : bool;
  s_cold : bool;
  s_history : list Round
}.

Definition passed (r : Round) : bool := bool_decide (r = Passed).

(** Length of the run of rounds satisfying [p] that ends the history. *)
Fixpoint run (p : Round -> bool) (history : list Round) : Z :=
  match history with
  | r :: rest => if p r then 1 + run p rest else 0
  | [] => 0
  end.

Definition step_round (s : Path) (r : Round) (h : Hysteresis) : Path * option Transition :=
  if negb (s_ready s) then (s, None) else
  let history := r :: s_history s in
  let first := s_cold s && bool_decide (s_history s = []) in
  let goes_up := bool_decide (s_state s = Down) && (h_rise h <=? run passed history) in
  let goes_down := bool_decide (s_state s = Up) && negb (passed r) &&
    (first || (h_fall h <=? run (fun r => negb (passed r)) history)) in
  if goes_up then
    (mkPath Up true (s_cold s) history, Some (mkTransition Down Up R_ProbesRecovered))
  else if goes_down then
    (mkPath Down true (s_cold s) history, Some (mkTransition Up Down (failure_reason r)))
  else (mkPath (s_state s) true (s_cold s) history, None).

Definition step_ready (s : Path) (ready : bool) (reason : Reason) : Path * option Transition :=
  if Bool.eqb ready (s_ready s) then (s, None) else
  (mkPath (if ready then s_state s else Down) ready false [],
   if negb ready && bool_decide (s_state s = Up) then Some (mkTransition Up Down reason) else None).

Definition step (s : Path) (e : Event) : Path * option Transition :=
  match e with
  | SetReady ready reason => step_ready s ready reason
  | ProbeRound round h => step_round s round h
  end.

Fixpoint run_events (s : Path) (es : list Event) : Path * list (option Transition) :=
  match es with
  | [] => (s, [])
  | e :: es' =>
      let '(s1, t) := step s e in
      let '(s2, ts) := run_events s1 es' in
      (s2, t :: ts)
  end.

Definition init (ready : bool) : Path := mkPath (if ready then Up else Down) ready ready [].
End Spec.

(** ** Invariant *)

Record Machine_wf (m : Machine) : Prop := {
  wf_passes : fits 8 (m_passes m);
  wf_failures : fits 8 (m_failures m);
  wf_exclusive : m_passes m = 0 \/ m_failures m = 0;
  wf_not_ready : m_ready m = false -> m_state m = Down /\ m_passes m = 0 /\ m_failures m = 0;
  wf_optimistic : m_optimistic m = true ->
    m_ready m = true /\ m_state m = Up /\ m_passes m = 0 /\ m_failures m = 0
}.

Definition Snapshot_wf (s : Snapshot) : Prop :=
  fits 8 (snap_passes s) /\ fits 8 (snap_failures s) /\ (snap_passes s = 0 \/ snap_failures s = 0).

(** The machines the daemon can hold: a new one, driven by events. *)
Inductive reachable : Machine -> Prop :=
  | reach_new ready reason warm :
      (forall s, warm = Some s -> Snapshot_wf s) -> reachable (Machine_new ready reason warm)
  | reach_step m e : reachable m -> reachable (fst (Machine_step m e)).

Ltac machine_cases :=
  repeat (case_match || case_bool_decide); simplify_eq/=; bool_simpl; try done.

Lemma saturating_fits x : fits 8 x -> fits 8 (saturating_add 8 x 1).
Proof. unfold fits, saturating_add. lia. Qed.
Lemma fits_0 : fits 8 0. Proof. unfold fits; lia. Qed.
Lemma fits_1 : fits 8 1. Proof. unfold fits; lia. Qed.
#[export] Hint Resolve saturating_fits fits_0 fits_1 : pw.

Lemma Machine_new_wf ready reason warm :
  (forall s, warm = Some s -> Snapshot_wf s) -> Machine_wf (Machine_new ready reason warm).
Proof.
  intros Hw. unfold Machine_new. destruct ready; [destruct warm as [s|]|].
  - destruct (Hw s eq_refl) as (? & ? & ?). by split; simpl.
  - split; simpl; auto with pw; done.
  - split; simpl; auto with pw; done.
Qed.

Lemma Machine_set_ready_wf m ready reason :
  Machine_wf m -> Machine_wf (fst (Machine_set_ready m ready reason)).
Proof.
  intros Hm. unfold Machine_set_ready, Machine_go. destruct (Bool.eqb_spec ready (m_ready m)); [done|].
  destruct ready; split; simpl; auto with pw; done.
Qed.

Lemma Machine_round_wf m r h : Machine_wf m -> Machine_wf (fst (Machine_round m r h)).
Proof.
  intros Hm. pose proof Hm as [Hp Hf He Hr Ho]. unfold Machine_round, Machine_go.
  destruct (m_ready m) eqn:Er; simpl; [|done]. destruct (m_optimistic m) eqn:Eo.
  - destruct (Ho eq_refl) as (_ & _ & Ep & Ef).
    destruct r; split; simpl; rewrite ?Ep, ?Ef, ?Er; auto with pw; done.
  - destruct r; case_match; split; simpl; rewrite ?Er, ?Eo; auto with pw; done.
Qed.

Lemma Machine_step_wf m e : Machine_wf m -> Machine_wf (fst (Machine_step m e)).
Proof. destruct e; [apply Machine_set_ready_wf|apply Machine_round_wf]. Qed.

Lemma reachable_wf m : reachable m -> Machine_wf m.
Proof. induction 1; [by apply Machine_new_wf|by apply Machine_step_wf]. Qed.

(** ** Simulation *)

Definition count (n : Z) : Z := Z.min n 255.

Record sim (m : Machine) (s : Spec.Path) : Prop := {
  sim_state : m_state m = Spec.s_state s;
  sim_ready : m_ready m = Spec.s_ready s;
  sim_optimistic : m_optimistic m = Spec.s_cold s && bool_decide (Spec.s_history s = []);
  sim_cold_up : m_optimistic m = true -> m_state m = Up;
  sim_not_ready : m_ready m = false -> m_state m = Down;
  sim_passes : m_passes m = count (Spec.run Spec.passed (Spec.s_history s));
  sim_failures : m_failures m = count (Spec.run (fun r => negb (Spec.passed r)) (Spec.s_history s))
}.

Lemma run_nonneg p history : 0 <= Spec.run p history.
Proof. induction history as [|r rest IH]; simpl; [lia|]. destruct (p r); lia. Qed.

Lemma count_succ n : 0 <= n -> saturating_add 8 (count n) 1 = count (1 + n).
Proof. unfold saturating_add, count. lia. Qed.

Lemma count_leb n k : 1 <= k <= 255 -> (k <=? count n) = (k <=? n).
Proof. intros. unfold count. destruct (Z.leb_spec k n), (Z.leb_spec k (Z.min n 255)); lia. Qed.

Lemma sim_new ready reason : sim (Machine_new ready reason None) (Spec.init ready).
Proof. by destruct ready. Qed.

Lemma sim_set_ready m s ready reason : sim m s ->
  sim (fst (Machine_set_ready m ready reason)) (fst (Spec.step_ready s ready reason)) /\
  snd (Machine_set_ready m ready reason) = snd (Spec.step_ready s ready reason).
Proof.
  intros Hs. pose proof Hs as [Est Erd Eop Hcu Hnr Ep Ef].
  unfold Machine_set_ready, Machine_go, Spec.step_ready. rewrite <- Erd, <- Est.
  destruct (Bool.eqb_spec ready (m_ready m)) as [|Hne]; [done|].
  destruct ready; simpl; (split; [by split; simpl|]); [done|].
  by destruct (m_state m).
Qed.

Lemma sim_round m s r h : Hysteresis_wf h -> sim m s ->
  sim (fst (Machine_round m r h)) (fst (Spec.step_round s r h)) /\
  snd (Machine_round m r h) = snd (Spec.step_round s r h).
Proof.
  intros [Hfall Hrise] Hs. pose proof Hs as [Est Erd Eop Hcu Hnr Ep Ef].
  pose proof (run_nonneg Spec.passed (Spec.s_history s)) as Hp0.
  pose proof (run_nonneg (fun r => negb (Spec.passed r)) (Spec.s_history s)) as Hf0.
  unfold Machine_round, Machine_go, Spec.step_round.
  rewrite <- Erd, <- Est, <- Eop, Ep, Ef, !count_succ by done.
  destruct (m_ready m) eqn:Hready; simpl; [|done].
  destruct (m_optimistic m) eqn:Hopt.
  - rewrite (Hcu eq_refl). symmetry in Eop. apply andb_true_iff in Eop as [Hcold Hnil%bool_decide_eq_true].
    destruct r; simpl; rewrite ?Hnil, ?Hcold; simpl; (split; [split; simpl|]; try done; by rewrite ?andb_false_r).
  - destruct r; unfold Spec.passed; simpl; rewrite ?count_leb by done;
      destruct (m_state m) eqn:Hst; simpl; try case_match; simpl;
      (split; [split; simpl|]); rewrite ?andb_false_r; try done; try lia; bool_simpl; try lia.
Qed.

Lemma sim_step m s e : Event_wf e -> sim m s ->
  sim (fst (Machine_step m e)) (fst (Spec.step s e)) /\
  snd (Machine_step m e) = snd (Spec.step s e).
Proof. intros He Hs. destruct e; [by apply sim_set_ready|by apply sim_round]. Qed.

Lemma sim_run m s es : Forall Event_wf es -> sim m s ->
  sim (fst (Machine_run m es)) (fst (Spec.run_events s es)) /\
  snd (Machine_run m es) = snd (Spec.run_events s es).
Proof.
  intros Hes. revert m s. induction Hes as [|e es He Hes IH]; intros m s Hs; [done|]. simpl.
  destruct (sim_step m s e He Hs) as [Hs1 Et].
  destruct (Machine_step m e) as [m1 t], (Spec.step s e) as [s1 t']. simpl in *.
  destruct (IH m1 s1 Hs1) as [Hs2 Ets].
  destruct (Machine_run m1 es), (Spec.run_events s1 es). simpl in *. by subst.
Qed.

(** ** Runs of equal rounds *)

Definition rounds (h : Hysteresis) (rs : list Round) : list Event := (fun r => ProbeRound r h) <$> rs.

Lemma rounds_cons h r rs : rounds h (r :: rs) = ProbeRound r h :: rounds h rs.
Proof. done. Qed.

Lemma Machine_run_state_cons m e es :
  m_state (fst (Machine_run m (e :: es))) = m_state (fst (Machine_run (fst (Machine_step m e)) es)).
Proof. simpl. destruct (Machine_step m e) as [m1 t]; simpl. by destruct (Machine_run m1 es). Qed.

(** Once up, a run of passed rounds keeps the path up; once down, a run of
    bad rounds keeps it down. *)
Lemma up_stays_up m h rs : m_ready m = true -> m_state m = Up ->
  Forall (eq Passed) rs -> m_state (fst (Machine_run m (rounds h rs))) = Up.
Proof.
  intros Hr Hu Hrs. revert m Hr Hu. induction Hrs as [|r rs <- Hrs IH]; intros m Hr Hu; [done|].
  rewrite rounds_cons, Machine_run_state_cons. simpl. unfold Machine_round. rewrite Hr, Hu.
  destruct (m_optimistic m); apply IH; done.
Qed.

Lemma down_stays_down m h rs : m_ready m = true -> m_state m = Down -> m_optimistic m = false ->
  Forall (fun r => r <> Passed) rs -> m_state (fst (Machine_run m (rounds h rs))) = Down.
Proof.
  intros Hr Hu Ho Hrs. revert m Hr Hu Ho. induction Hrs as [|r rs Hr' Hrs IH]; intros m Hr Hu Ho; [done|].
  rewrite rounds_cons, Machine_run_state_cons. simpl. unfold Machine_round. rewrite Hr, Hu, Ho.
  destruct r; [done| |]; apply IH; done.
Qed.

Lemma rise_run h rs m n : Hysteresis_wf h -> 0 <= n < h_rise h -> m_passes m = n ->
  m_ready m = true -> m_state m = Down -> m_optimistic m = false -> Forall (eq Passed) rs ->
  m_state (fst (Machine_run m (rounds h rs))) =
    if h_rise h <=? n + Z.of_nat (length rs) then Up else Down.
Proof.
  intros [_ Hh] Hn Hp Hr Hd Ho Hrs. revert m n Hn Hp Hr Hd Ho.
  induction Hrs as [|r rs <- Hrs IH]; intros m n Hn Hp Hr Hd Ho.
  { simpl. rewrite Hd. case_match; bool_simpl; [lia|done]. }
  rewrite rounds_cons, Machine_run_state_cons. cbn [Machine_step].
  unfold Machine_round. rewrite Hr, Hd, Ho. simpl.
  assert (saturating_add 8 (m_passes m) 1 = n + 1) as -> by (unfold saturating_add; lia).
  destruct (Z.leb_spec (h_rise h) (n + 1)).
  - rewrite up_stays_up by done. case_match; bool_simpl; simpl in *; [done|lia].
  - rewrite (IH _ (n + 1)) by (done || lia). simpl length. repeat case_match; bool_simpl; done || lia.
Qed.

Lemma fall_run h rs m n : Hysteresis_wf h -> 0 <= n < h_fall h -> m_failures m = n ->
  m_ready m = true -> m_state m = Up -> m_optimistic m = false -> Forall (fun r => r <> Passed) rs ->
  m_state (fst (Machine_run m (rounds h rs))) =
    if h_fall h <=? n + Z.of_nat (length rs) then Down else Up.
Proof.
  intros [Hh _] Hn Hp Hr Hd Ho Hrs. revert m n Hn Hp Hr Hd Ho.
  induction Hrs as [|r rs Hr' Hrs IH]; intros m n Hn Hp Hr Hd Ho.
  { simpl. rewrite Hd. case_match; bool_simpl; [lia|done]. }
  rewrite rounds_cons, Machine_run_state_cons. cbn [Machine_step].
  unfold Machine_round. rewrite Hr, Hd, Ho. simpl.
  assert (saturating_add 8 (m_failures m) 1 = n + 1) as -> by (unfold saturating_add; lia).
  destruct r; [done| |]; (destruct (Z.leb_spec (h_fall h) (n + 1));
    [rewrite down_stays_down by done; case_match; bool_simpl; simpl in *; [done|lia]
    |rewrite (IH _ (n + 1)) by (done || lia); simpl length; repeat case_match; bool_simpl; done || lia]).
Qed.

(** ** Properties *)

(** The machine's invariant, over every machine the daemon can reach:
    the counters stay in eight bits and at most one of them is non-zero, a
    path that is not ready is down with both counters cleared, and an
    optimistic machine is a ready, up one that has counted nothing. *)
Theorem Machine_reachable_inv (m : Machine) (Hm : reachable m) :
  fits 8 (m_passes m) /\ fits 8 (m_failures m) /\
  (m_passes m = 0 \/ m_failures m = 0) /\
  (m_ready m = false -> m_state m = Down /\ m_passes m = 0 /\ m_failures m = 0) /\
  (m_optimistic m = true -> m_ready m = true /\ m_state m = Up /\ m_passes m = 0 /\ m_failures m = 0).
Proof. by destruct (reachable_wf m Hm). Qed.

Lemma Machine_reachable_inv_witness :
  let m := fst (Machine_step (Machine_new true R_Startup None) (SetReady false R_CarrierLost)) in
  m_ready m = false /\ m_state m = Down /\ m_reason m = R_CarrierLost.
Proof.
  split_and!; [done| |done].
  apply (Machine_reachable_inv
    (fst (Machine_step (Machine_new true R_Startup None) (SetReady false R_CarrierLost)))); [|done].
  apply reach_step, reach_new. done.
Defined.

(** C23: The machine refines its specification: driven by any sequence of
    readiness changes and rounds, with any admitted hysteresis at each, it
    emits exactly the transitions (with their reasons) that the unbounded
    history calls for, and ends in the same state: up after [rise] passed
    rounds in a row, down after [fall] bad ones in a row, at once on the
    first bad round of a cold start and on the loss of readiness.  The
    8-bit saturating counters lose nothing. *)
Theorem Machine_refines_spec (ready : bool) (reason : Reason) (es : list Event)
    (Hes : Forall Event_wf es) :
  snd (Machine_run (Machine_new ready reason None) es) = snd (Spec.run_events (Spec.init ready) es) /\
  m_state (fst (Machine_run (Machine_new ready reason None) es)) =
    Spec.s_state (fst (Spec.run_events (Spec.init ready) es)).
Proof.
  destruct (sim_run _ _ es Hes (sim_new ready reason)) as [Hsim Hout].
  split; [done|]. apply Hsim.
Qed.

Lemma Machine_refines_spec_witness :
  let h := mkHysteresis 2 3 in
  let es := [ProbeRound Failed h; ProbeRound Passed h; ProbeRound Passed h; ProbeRound Passed h] in
  snd (Machine_run (Machine_new true R_Startup None) es) =
    [Some (mkTransition Up Down R_ProbeFailed); None; None; Some (mkTransition Down Up R_ProbesRecovered)] /\
  snd (Machine_run (Machine_new true R_Startup None) es) = snd (Spec.run_events (Spec.init true) es).
Proof.
  split; [reflexivity|].
  apply (Machine_refines_spec true R_Startup
    [ProbeRound Failed (mkHysteresis 2 3); ProbeRound Passed (mkHysteresis 2 3);
     ProbeRound Passed (mkHysteresis 2 3); ProbeRound Passed (mkHysteresis 2 3)]).
  repeat constructor; simpl; lia.
Defined.

(** C24: Hysteresis is exact: a ready path that has just gone down is up
    after [n] passed rounds iff [n >= rise], and a ready path that is up
    with no failure counted is down after [n] bad rounds iff [n >= fall]. *)
Theorem Machine_hysteresis_exact (m : Machine) (h : Hysteresis) (rs : list Round)
    (Hh : Hysteresis_wf h) (Hr : m_ready m = true) (Ho : m_optimistic m = false) :
  (m_state m = Down -> m_passes m = 0 -> Forall (eq Passed) rs ->
   m_state (fst (Machine_run m (rounds h rs))) =
     if h_rise h <=? Z.of_nat (length rs) then Up else Down) /\
  (m_state m = Up -> m_failures m = 0 -> Forall (fun r => r <> Passed) rs ->
   m_state (fst (Machine_run m (rounds h rs))) =
     if h_fall h <=? Z.of_nat (length rs) then Down else Up).
Proof.
  destruct Hh as [Hf Hrs]. split; intros Hst Hc Hall.
  - apply (rise_run h rs m 0); try done. lia.
  - apply (fall_run h rs m 0); try done. lia.
Qed.

Lemma Machine_hysteresis_exact_witness :
  m_state (fst (Machine_run (mkMachine Up R_Startup 4 0 false true)
    (rounds (mkHysteresis 3 2) [Failed; Degraded]))) = Up /\
  m_state (fst (Machine_run (mkMachine Up R_Startup 4 0 false true)
    (rounds (mkHysteresis 3 2) [Failed; Degraded; Failed]))) = Down.
Proof.
  split.
  - apply (Machine_hysteresis_exact (mkMachine Up R_Startup 4 0 false true) (mkHysteresis 3 2));
      try done; repeat constructor; simpl; done || lia.
  - apply (Machine_hysteresis_exact (mkMachine Up R_Startup 4 0 false true) (mkHysteresis 3 2));
      try done; repeat constructor; simpl; done || lia.
Defined.

(** A restored machine and the original agree on everything but the reason
    of the last transition, which no later output depends on. *)
Definition same_but_reason (m k : Machine) : Prop :=
  m_state m = m_state k /\ m_passes m = m_passes k /\ m_failures m = m_failures k /\
  m_optimistic m = m_optimistic k /\ m_ready m = m_ready k.

Lemma same_but_reason_step m k e : same_but_reason m k ->
  same_but_reason (fst (Machine_step m e)) (fst (Machine_step k e)) /\
  snd (Machine_step m e) = snd (Machine_step k e).
Proof.
  destruct m, k. intros (? & ? & ? & ? & ?). simpl in *. subst.
  unfold same_but_reason. destruct e; simpl;
    unfold Machine_set_ready, Machine_round, Machine_go; simpl; repeat case_match; simplify_eq/=; done.
Qed.

Lemma same_but_reason_run m k es : same_but_reason m k ->
  same_but_reason (fst (Machine_run m es)) (fst (Machine_run k es)) /\
  snd (Machine_run m es) = snd (Machine_run k es).
Proof.
  revert m k. induction es as [|e es IH]; intros m k Hmk; [done|]. simpl.
  destruct (same_but_reason_step m k e Hmk) as [H1 Et].
  destruct (Machine_step m e) as [m1 t], (Machine_step k e) as [k1 t']. simpl in *.
  destruct (IH m1 k1 H1) as [H2 Ets].
  destruct (Machine_run m1 es), (Machine_run k1 es). simpl in *. by subst.
Qed.

(** A checkpoint loses nothing a later decision needs: a ready machine
    past its cold start, restarted from its own snapshot, emits the same
    transitions as the original under every later sequence of events and
    ends in the same state. *)
Theorem Machine_warm_restart (m : Machine) (reason : Reason) (es : list Event)
    (Hr : m_ready m = true) (Ho : m_optimistic m = false) :
  let m' := Machine_new true reason (Some (Machine_snapshot m)) in
  snd (Machine_run m' es) = snd (Machine_run m es) /\
  m_state (fst (Machine_run m' es)) = m_state (fst (Machine_run m es)) /\
  Machine_snapshot (fst (Machine_run m' es)) = Machine_snapshot (fst (Machine_run m es)).
Proof.
  intros m'. destruct (same_but_reason_run (Machine_new true reason (Some (Machine_snapshot m))) m es)
    as [(E1 & E2 & E3 & E4 & E5) Hout]; [done|].
  split; [done|]. split; [done|]. subst m'. revert E1 E2 E3. unfold Machine_snapshot. by intros -> -> ->.
Qed.

Lemma Machine_warm_restart_witness :
  let m := mkMachine Down R_ProbeFailed 2 0 false true in
  snd (Machine_run (Machine_new true R_Startup (Some (Machine_snapshot m)))
    [ProbeRound Passed (mkHysteresis 2 3)]) = [Some (mkTransition Down Up R_ProbesRecovered)].
Proof.
  intros m. etransitivity.
  - exact (proj1 (Machine_warm_restart m R_Startup [ProbeRound Passed (mkHysteresis 2 3)]
      eq_refl eq_refl)).
  - reflexivity.
Defined.

(** Every operation reports exactly the changes it makes: a transition
    is emitted iff the state changed, it names the old and the new state and
    the machine's new reason, and losing readiness always ends in down. *)
Theorem Machine_step_reports (m : Machine) (e : Event) :
  let '(m', t) := Machine_step m e in
  match t with
  | Some tr => m_state m <> m_state m' /\ tr = mkTransition (m_state m) (m_state m') (m_reason m')
  | None => m_state m = m_state m'
  end /\
  (forall reason, e = SetReady false reason -> m_ready m = true -> m_state m' = Down).
Proof.
  destruct m, e; simpl; unfold Machine_set_ready, Machine_round, Machine_go;
    repeat case_match; simplify_eq/=; bool_simpl; (split; [|intros; simplify_eq]); auto.
Qed.
