(* ===== verification/Durations.v ===== *)
(** * Durations of the configuration

    Models crates/polywan/src/duration.rs.  A [Duration] is a number of
    nanoseconds, bounded by [DURATION_MAX] as [std::time::Duration] is
    (64-bit seconds and the nanoseconds below one second).  The loop of
    [parse] is a fixpoint on a fuel of the text's length; that it is enough
    is part of [duration_parse_spec], which accepts every text of the
    grammar. *)

From stdpp Require Import prelude.
From Stdlib Require Import ZArith Lia.
From S2P Require Import Prelude Text.

Local Open Scope Z_scope.

Abbreviation Duration := Z (only parsing).

Definition NANOS_PER_SEC : Z := 1000000000.
Definition NANOS_PER_MILLI : Z := 1000000.
Definition DURATION_MAX : Duration := (2 ^ 64 - 1) * NANOS_PER_SEC + 999999999.

Definition from_secs (s : u64) : Duration := s * NANOS_PER_SEC.
Definition from_millis (ms : u64) : Duration := ms * NANOS_PER_MILLI.
Definition as_millis (d : Duration) : u128 := d / NANOS_PER_MILLI.
Definition duration_checked_add (a b : Duration) : option Duration :=
  if DURATION_MAX <? a + b then None else Some (a + b).

(** The message of [err] is a function of the text alone. *)
Inductive DurationError := InvalidDuration (text : str).

(** One component: the digits and the text up to the next digit. *)
Definition unit_part (value : u64) (unit : str) : option Duration :=
  if decide (unit = lit "ms") then Some (from_millis value)
  else if decide (unit = lit "s") then Some (from_secs value)
  else if decide (unit = lit "m") then from_secs <$> checked_mul 64 value 60
  else if decide (unit = lit "h") then from_secs <$> checked_mul 64 value 3600
  else None.

Fixpoint parse_loop (fuel : nat) (rest : str) (total : Duration) : option Duration :=
  match rest with
  | [] => Some total
  | _ =>
      match fuel with
      | O => None
      | S fuel' =>
          let digits := take_while is_ascii_digit rest in
          let rest1 := drop_while is_ascii_digit rest in
          (* [find] fails when every character is a digit *)
          if decide (rest1 = []) then None else
          if decide (digits = []) then None else
          value ← parse_unsigned 64 digits;
          let unit := take_while (fun c => negb (is_ascii_digit c)) rest1 in
          let rest2 := drop_while (fun c => negb (is_ascii_digit c)) rest1 in
          part ← unit_part value unit;
          total' ← duration_checked_add total part;
          parse_loop fuel' rest2 total'
      end
  end.

Definition duration_parse (text : str) : result Duration DurationError :=
  let rest := str_trim text in
  if decide (rest = []) then Err (InvalidDuration text) else
  match parse_loop (length rest) rest 0 with
  | Some total => Ok total
  | None => Err (InvalidDuration text)
  end.

Definition duration_format (d : Duration) : str :=
  let ms := as_millis d in
  if negb (ms mod 1000 =? 0) then to_decimal ms ++ lit "ms"
  else to_decimal (ms / 1000) ++ lit "s".

(** ** The grammar *)

Inductive TimeUnit := Ms | Secs | Mins | Hours.

Definition unit_text (u : TimeUnit) : str :=
  match u with Ms => lit "ms" | Secs => lit "s" | Mins => lit "m" | Hours => lit "h" end.
Definition unit_nanos (u : TimeUnit) : Z :=
  match u with
  | Ms => NANOS_PER_MILLI
  | Secs => NANOS_PER_SEC
  | Mins => 60 * NANOS_PER_SEC
  | Hours => 3600 * NANOS_PER_SEC
  end.

(** A component: its digits (leading zeros allowed), their value, its unit. *)
Record component := mkComponent { c_digits : str; c_value : Z; c_unit : TimeUnit }.

Definition component_wf (c : component) : Prop :=
  c_digits c <> [] /\ digits_value (c_digits c) 0 = Some (c_value c) /\ 0 <= c_value c < 2 ^ 64.

Fixpoint render (cs : list component) : str :=
  match cs with
  | [] => []
  | c :: cs' => c_digits c ++ unit_text (c_unit c) ++ render cs'
  end.

Fixpoint total_nanos (cs : list component) : Z :=
  match cs with
  | [] => 0
  | c :: cs' => c_value c * unit_nanos (c_unit c) + total_nanos cs'
  end.

(** ** Lemmas *)

Lemma digits_value_nonneg s a n : 0 <= a -> digits_value s a = Some n -> 0 <= n.
Proof.
  revert a. induction s as [|c s IH]; intros a Ha; simpl; [by intros [= <-]|].
  destruct (is_ascii_digit c) eqn:E; [|done]. unfold is_ascii_digit in E. bool_simpl. apply IH. lia.
Qed.

Lemma digits_value_digits s a n : digits_value s a = Some n -> forallb is_ascii_digit s = true.
Proof.
  revert a. induction s as [|c s IH]; intros a; simpl; [done|].
  destruct (is_ascii_digit c); [apply IH|done].
Qed.

Lemma parse_unsigned_digits w s : s <> [] -> forallb is_ascii_digit s = true ->
  parse_unsigned w s = n ← digits_value s 0; if n <? 2 ^ w then Some n else None.
Proof.
  intros Hne Hd. unfold parse_unsigned. destruct s as [|c s]; [done|].
  simpl in Hd. apply andb_true_iff in Hd as [Hc _]. unfold is_ascii_digit in Hc. bool_simpl.
  replace (c =? 43) with false by (symmetry; apply Z.eqb_neq; lia).
  by destruct (digits_value (c :: s) 0).
Qed.

Lemma unit_text_not_digit u :
  forallb (fun c => negb (is_ascii_digit c)) (unit_text u) = true /\
  exists c s, unit_text u = c :: s /\ is_ascii_digit c = false.
Proof. destruct u; (split; [reflexivity|]); by eexists _, _. Qed.

Lemma unit_part_text v u : 0 <= v < 2 ^ 64 ->
  unit_part v (unit_text u) = if v * unit_nanos u <=? DURATION_MAX then Some (v * unit_nanos u) else None.
Proof.
  intros Hv. unfold DURATION_MAX.
  destruct u; cbn [unit_nanos];
    [change (unit_part v (unit_text Ms)) with (Some (from_millis v))
    |change (unit_part v (unit_text Secs)) with (Some (from_secs v))
    |change (unit_part v (unit_text Mins)) with (from_secs <$> checked_mul 64 v 60)
    |change (unit_part v (unit_text Hours)) with (from_secs <$> checked_mul 64 v 3600)];
    unfold checked_mul, from_millis, from_secs, NANOS_PER_MILLI, NANOS_PER_SEC;
    repeat case_match; simpl; bool_simpl; try (f_equal; lia); lia.
Qed.

Lemma unit_part_Some v unit d : unit_part v unit = Some d -> exists u, unit = unit_text u.
Proof.
  unfold unit_part. repeat case_decide; intros ?; [by exists Ms|by exists Secs|by exists Mins|by exists Hours|done].
Qed.

(** A span of characters satisfying [p], followed by nothing or by one that does not. *)
Lemma span_app {A} (p : A -> bool) l k : forallb p l = true ->
  (forall x k', k = x :: k' -> p x = false) ->
  take_while p (l ++ k) = l /\ drop_while p (l ++ k) = k.
Proof.
  intros Hl Hk. destruct k as [|x k].
  - rewrite app_nil_r. clear Hk. induction l as [|y l IH]; simpl in *; [done|].
    apply andb_true_iff in Hl as [-> Hl]. destruct (IH Hl) as [-> ->]. done.
  - specialize (Hk x k eq_refl). split; [by apply take_while_app|by apply drop_while_app].
Qed.

Lemma take_while_forallb {A} (p : A -> bool) l : forallb p (take_while p l) = true.
Proof. induction l as [|x l IH]; simpl; [done|]. destruct (p x) eqn:E; simpl; [by rewrite E|done]. Qed.

Lemma component_digits c : component_wf c -> forallb is_ascii_digit (c_digits c) = true.
Proof. intros (_ & Hv & _). by eapply digits_value_digits. Qed.

Lemma render_head cs x k : Forall component_wf cs -> render cs = x :: k -> is_ascii_digit x = true.
Proof.
  destruct 1 as [|c cs Hc Hcs]; [done|]. simpl. pose proof (component_digits c Hc) as Hd.
  destruct Hc as (Hne & _). destruct (c_digits c) as [|y s]; [done|].
  simpl in *. apply andb_true_iff in Hd as [Hy _]. by intros [= -> _].
Qed.

(** One turn of the loop, on text that begins with a component. *)
Lemma parse_loop_component fuel c cs total : component_wf c -> Forall component_wf cs ->
  parse_loop (S fuel) (render (c :: cs)) total =
    part ← (if c_value c * unit_nanos (c_unit c) <=? DURATION_MAX
            then Some (c_value c * unit_nanos (c_unit c)) else None);
    total' ← duration_checked_add total part;
    parse_loop fuel (render cs) total'.
Proof.
  intros Hc Hcs. pose proof (component_digits c Hc) as Hd. destruct Hc as (Hne & Hv & Hlt).
  destruct (unit_text_not_digit (c_unit c)) as (Hu & x & s & Eu & Hx).
  assert (Hspan1 := span_app is_ascii_digit (c_digits c) (unit_text (c_unit c) ++ render cs) Hd
    ltac:(rewrite Eu; by intros ? ? [= <- _])).
  assert (Hspan2 := span_app (fun c => negb (is_ascii_digit c)) (unit_text (c_unit c)) (render cs) Hu
    ltac:(intros y k E; simpl; by rewrite (render_head cs y k))).
  destruct Hspan1 as [E1 E2], Hspan2 as [E3 E4].
  cbn [render parse_loop]. rewrite E1, E2. rewrite !E3, !E4.
  destruct (c_digits c) as [|d0 ds] eqn:Ed; [done|]. cbn [app].
  rewrite decide_False by (rewrite Eu; done). rewrite decide_False by done.
  rewrite parse_unsigned_digits by done. rewrite Hv. simpl.
  rewrite (proj2 (Z.ltb_lt _ _)) by lia. simpl. by rewrite unit_part_text.
Qed.

Lemma total_nanos_nonneg cs : Forall component_wf cs -> 0 <= total_nanos cs.
Proof.
  induction 1 as [|c cs Hc Hcs IH]; simpl; [done|]. destruct Hc as (_ & _ & Hv).
  assert (0 <= unit_nanos (c_unit c)) by (destruct (c_unit c); vm_compute; done). nia.
Qed.

Lemma component_length c cs : component_wf c ->
  (length (render cs) < length (render (c :: cs)))%nat.
Proof.
  intros (Hne & _). simpl. rewrite !length_app. destruct (c_digits c); [done|simpl; lia].
Qed.

Lemma parse_loop_render fuel cs total : Forall component_wf cs -> 0 <= total <= DURATION_MAX ->
  (length (render cs) <= fuel)%nat ->
  parse_loop fuel (render cs) total =
    if total + total_nanos cs <=? DURATION_MAX then Some (total + total_nanos cs) else None.
Proof.
  intros Hcs. revert fuel total. induction Hcs as [|c cs Hc Hcs IH]; intros fuel total Ht Hf.
  { assert (parse_loop fuel (render []) total = Some total) as -> by by destruct fuel.
    simpl. rewrite Z.add_0_r. case_match; bool_simpl; [done|lia]. }
  pose proof (component_length c cs Hc) as Hlen. destruct fuel as [|fuel]; [lia|].
  rewrite parse_loop_component by done. cbn [total_nanos].
  pose proof (total_nanos_nonneg cs Hcs) as Hnn. destruct Hc as (_ & _ & Hv).
  assert (0 <= unit_nanos (c_unit c)) by (destruct (c_unit c); vm_compute; done).
  set (p := c_value c * unit_nanos (c_unit c)) in *. assert (0 <= p) by (subst p; nia).
  destruct (Z.leb_spec p DURATION_MAX) as [Hp|Hp]; cbn [mbind option_bind].
  - unfold duration_checked_add. destruct (Z.ltb_spec DURATION_MAX (total + p)); cbn [mbind option_bind].
    + case_match; bool_simpl; [lia|done].
    + rewrite IH by lia. rewrite Z.add_assoc. done.
  - case_match; bool_simpl; [lia|done].
Qed.

(** Text the loop accepts is a rendering of components. *)
Lemma parse_loop_sound fuel rest total d :
  parse_loop fuel rest total = Some d -> exists cs, Forall component_wf cs /\ rest = render cs.
Proof.
  revert rest total. induction fuel as [|fuel IH]; intros rest total.
  { destruct rest; [|done]. intros _. by exists []. }
  destruct rest as [|c0 rest0]; [intros _; by exists []|].
  set (rest := c0 :: rest0). cbn [parse_loop]. fold rest.
  set (digits := take_while is_ascii_digit rest). set (rest1 := drop_while is_ascii_digit rest).
  destruct (decide (rest1 = [])); [done|]. destruct (decide (digits = [])) as [|Hne]; [done|].
  assert (Hd : forallb is_ascii_digit digits = true) by apply take_while_forallb.
  rewrite parse_unsigned_digits by done.
  destruct (digits_value digits 0) as [v|] eqn:Ev; simpl; [|done].
  destruct (Z.ltb_spec v (2 ^ 64)); simpl; [|done].
  destruct (unit_part v _) as [part|] eqn:Ep; simpl; [|done].
  destruct (duration_checked_add total part) as [total'|]; simpl; [|done].
  intros E. apply unit_part_Some in Ep as [u Eu]. apply IH in E as (cs & Hcs & E).
  exists (mkComponent digits v u :: cs). split.
  - constructor; [|done]. split_and!; simpl; [done..| |done]. by eapply digits_value_nonneg.
  - simpl. rewrite <- E, <- Eu, take_drop_while. symmetry. apply take_drop_while.
Qed.

Lemma digit_not_whitespace x : is_ascii_digit x = true -> is_whitespace x = false.
Proof.
  unfold is_ascii_digit, is_whitespace. intros. bool_simpl.
  repeat (apply orb_false_iff; split); try (apply in_range_false; lia); try (apply Z.eqb_neq; lia).
Qed.

(** Text that begins and ends with a non-space is its own trim. *)
Lemma trim_ends x s y : is_whitespace x = false -> is_whitespace y = false ->
  str_trim (x :: s ++ [y]) = x :: s ++ [y].
Proof.
  intros Hx Hy. unfold str_trim, trim_start, trim_end. simpl. rewrite Hx. simpl.
  rewrite rev_app_distr. simpl. rewrite Hy. simpl. rewrite rev_app_distr, rev_involutive. done.
Qed.

(** A single component in decimal is parsed to its value. *)
Lemma parse_one v u d : 0 <= v < 2 ^ 64 -> d = v * unit_nanos u -> d <= DURATION_MAX ->
  duration_parse (to_decimal v ++ unit_text u) = Ok d.
Proof.
  intros Hv -> Hle. set (c := mkComponent (to_decimal v) v u).
  destruct (to_decimal_cons v) as (x & s & Ev). pose proof (to_decimal_digits v ltac:(lia)) as Hd.
  assert (Hc : Forall component_wf [c]).
  { constructor; [|done]. split_and!; cbn [c_digits c_value c]; [by rewrite Ev|apply to_decimal_value; lia|lia..]. }
  assert (Er : to_decimal v ++ unit_text u = render [c]) by (cbn; by rewrite app_nil_r).
  assert (Ht : str_trim (to_decimal v ++ unit_text u) = to_decimal v ++ unit_text u).
  { rewrite Ev in *. simpl in Hd. apply andb_true_iff in Hd as [Hx%digit_not_whitespace _].
    destruct u; [change (unit_text Ms) with (lit "m" ++ lit "s"); rewrite app_assoc| | |]; by apply trim_ends. }
  unfold duration_parse. rewrite Ht, decide_False by (by rewrite Ev). rewrite Er.
  rewrite parse_loop_render by (done || (vm_compute; split; done)).
  simpl. rewrite Z.add_0_r. by rewrite (proj2 (Z.leb_le _ _)).
Qed.

(** ** Properties *)

(** [duration::parse] accepts exactly the grammar of the configuration:
    the trimmed text is one or more components, each a decimal 64-bit
    integer followed by [ms], [s], [m] or [h], and the result is their sum,
    which fits a [Duration]; every other text, and every overflow, is an
    error naming the text. *)
Theorem duration_parse_spec (text : str) (d : Duration) :
  (duration_parse text = Ok d <->
   exists cs, cs <> [] /\ Forall component_wf cs /\ str_trim text = render cs /\
     d = total_nanos cs /\ d <= DURATION_MAX) /\
  (forall e, duration_parse text = Err e -> e = InvalidDuration text).
Proof.
  assert (Hmax : 0 <= DURATION_MAX) by (vm_compute; done).
  unfold duration_parse. split; [split|].
  - case_decide as Hne; [done|].
    destruct (parse_loop _ _ 0) as [t|] eqn:E; [|done]. intros [= ->].
    destruct (parse_loop_sound _ _ _ _ E) as (cs & Hcs & Er). exists cs.
    rewrite Er, parse_loop_render in E by (done || lia). rewrite Z.add_0_l in E.
    case_match; simplify_eq; bool_simpl. split_and!; try done. intros ->. by apply Hne.
  - intros (cs & Hne & Hcs & Er & -> & Hle). rewrite Er. rewrite decide_False.
    + rewrite parse_loop_render by (done || lia). rewrite Z.add_0_l.
      by rewrite (proj2 (Z.leb_le _ _)) by lia.
    + destruct Hcs as [|c cs Hc]; [done|]. pose proof (component_length c cs Hc) as Hl.
      intros E. rewrite E in Hl. simpl in Hl. lia.
  - intros e. case_decide; [by intros [= <-]|]. case_match; by intros [= <-].
Qed.

(** What [duration::format] writes, [duration::parse] reads back: for
    every duration of whole milliseconds (the resolution of the format) the
    round trip is exact, as long as its milliseconds, when they are written
    as such, fit the 64 bits of the parser. *)
Theorem duration_roundtrip (d : Duration)
    (Hd : 0 <= d <= DURATION_MAX) (Hms : d mod NANOS_PER_MILLI = 0)
    (Hfit : as_millis d mod 1000 = 0 \/ as_millis d < 2 ^ 64) :
  duration_parse (duration_format d) = Ok d.
Proof.
  pose proof (Z.div_mod d NANOS_PER_MILLI ltac:(done)) as Hdm. rewrite Hms, Z.add_0_r in Hdm.
  pose proof (Z.div_pos d NANOS_PER_MILLI ltac:(lia) ltac:(done)) as Hpos.
  fold (as_millis d) in Hdm, Hpos. unfold duration_format.
  set (ms := as_millis d) in *. unfold NANOS_PER_MILLI, DURATION_MAX, NANOS_PER_SEC in *.
  destruct (Z.eqb_spec (ms mod 1000) 0) as [E|E]; simpl negb; cbv iota.
  - pose proof (Z.div_mod ms 1000 ltac:(done)) as Hs. rewrite E, Z.add_0_r in Hs.
    apply (parse_one (ms / 1000) Secs); [split; [apply Z.div_pos; lia|lia]| |].
    + unfold unit_nanos, NANOS_PER_SEC. lia.
    + unfold DURATION_MAX, NANOS_PER_SEC. lia.
  - apply (parse_one ms Ms); [lia| |].
    + unfold unit_nanos, NANOS_PER_MILLI. lia.
    + unfold DURATION_MAX, NANOS_PER_SEC. lia.
Qed.

Lemma duration_roundtrip_witness :
  duration_parse (duration_format 90500000000) = Ok 90500000000 /\
  duration_format 90500000000 = lit "90500ms" /\ duration_parse (lit "1m30s500ms") = Ok 90500000000.
Proof.
  split_and!; [|by vm_compute..].
  apply (duration_roundtrip 90500000000); [vm_compute; split; done|by vm_compute|].
  right. vm_compute. done.
Defined.
