(* ===== verification/Config.v ===== *)
(** * The validated configuration

    The data of crates/polywan/src/config/mod.rs (and the enums it re-exports
    from config/raw.rs) with the methods the other components call.
    [SocketAddr] is the standard library's; [IpNet] and [f64] are data: an
    address with a prefix length, and an IEEE double as [spec_float]. *)

From stdpp Require Import prelude gmap.
From Stdlib Require Import ZArith Lia SpecFloat.
From S2P Require Import Prelude Text Model Durations.

Local Open Scope Z_scope.

Abbreviation PathBuf := str (only parsing).
Abbreviation f64 := spec_float (only parsing).

(** ** Enumerations of config/raw.rs *)

Inductive AllDownPolicy := Ready | Keep.
Inductive OnShutdown := OnShutdown_Keep | OnShutdown_Cleanup.
Inductive FirewallMode := Managed | External.
Inductive Nat_ := Nat_Masquerade | Nat_Snat | Nat_None.
Inductive Protocol := Proto_Tcp | Proto_Udp | Proto_Sctp | Proto_Icmp | Proto_Icmpv6.
Inductive Fallback := Balance | Block.

#[export] Instance AllDownPolicy_eq_dec : EqDecision AllDownPolicy.
Proof. solve_decision. Defined.
#[export] Instance FirewallMode_eq_dec : EqDecision FirewallMode.
Proof. solve_decision. Defined.
#[export] Instance Nat_eq_dec : EqDecision Nat_.
Proof. solve_decision. Defined.
#[export] Instance Protocol_eq_dec : EqDecision Protocol.
Proof. solve_decision. Defined.
#[export] Instance Fallback_eq_dec : EqDecision Fallback.
Proof. solve_decision. Defined.

(** [Family::key], also its [Display]. *)
Definition Family_key (f : Family) : str := match f with V4 => lit "ipv4" | V6 => lit "ipv6" end.

(** ** Addresses with ports, and networks *)

(** [flowinfo] and [scope_id] are 0 for an IPv4 address. *)
Record SocketAddr := mkSocketAddr {
  sa_ip : IpAddr; sa_port : u16; sa_flowinfo : u32; sa_scope_id : u32
}.

#[export] Instance SocketAddr_eq_dec : EqDecision SocketAddr.
Proof. solve_decision. Defined.
#[export] Instance SocketAddr_countable : Countable SocketAddr.
Proof.
  apply (inj_countable' (fun s => (sa_ip s, sa_port s, sa_flowinfo s, sa_scope_id s))
    (fun p => mkSocketAddr p.1.1.1 p.1.1.2 p.1.2 p.2)).
  by intros [].
Defined.

Record IpNet := mkIpNet { net_addr : IpAddr; net_prefix : u8 }.

#[export] Instance IpNet_eq_dec : EqDecision IpNet.
Proof. solve_decision. Defined.

(** ** Probe targets *)

Inductive Target := Target_Icmp (a : IpAddr) | Target_Tcp (s : SocketAddr).

#[export] Instance Target_eq_dec : EqDecision Target.
Proof. solve_decision. Defined.
#[export] Instance Target_countable : Countable Target.
Proof.
  apply (inj_countable' (fun t => match t with Target_Icmp a => inl a | Target_Tcp s => inr s end)
    (fun c => match c with inl a => Target_Icmp a | inr s => Target_Tcp s end)).
  by intros [].
Defined.

Definition Target_addr (t : Target) : IpAddr :=
  match t with Target_Icmp a => a | Target_Tcp s => sa_ip s end.

(** ** Health and quality settings *)

Record Quality := mkQuality {
  max_rtt : option Duration; max_jitter : option Duration; max_loss : option f64
}.

Definition Quality_enabled (q : Quality) : bool :=
  bool_decide (is_Some (max_rtt q)) || bool_decide (is_Some (max_jitter q)) ||
  bool_decide (is_Some (max_loss q)).

Record HealthConf := mkHealthConf {
  hc_interval : Duration;
  hc_timeout : Duration;
  hc_attempts : u8;
  hc_required_reachable : u8;
  hc_fall : u8;
  hc_rise : u8;
  hc_targets_v4 : list Target;
  hc_targets_v6 : list Target;
  hc_quality : Quality;
  hc_quality_window : u8;
  hc_quality_min_samples : u16
}.

Definition HealthConf_targets (h : HealthConf) (family : Family) : list Target :=
  match family with V4 => hc_targets_v4 h | V6 => hc_targets_v6 h end.

(** ** Uplinks *)

Inductive AutoOr (T : Type) := Auto | Static (t : T).
Arguments Auto {T}.
Arguments Static {T} t.

#[export] Instance AutoOr_eq_dec `{EqDecision T} : EqDecision (AutoOr T).
Proof. solve_decision. Defined.

Record PathSettings := mkPathSettings {
  ps_source : AutoOr IpAddr;
  ps_gateway : AutoOr IpAddr;
  ps_gateway_onlink : bool;
  ps_nat : Nat_
}.

Record Uplink := mkUplink {
  u_id : UplinkId;
  u_name : str;
  u_description : str;
  u_interface : str;
  u_priority : option u16;
  u_weight : u16;
  u_ipv4 : option PathSettings;
  u_ipv6 : option PathSettings;
  u_health : HealthConf
}.

Definition Uplink_path (u : Uplink) (family : Family) : option PathSettings :=
  match family with V4 => u_ipv4 u | V6 => u_ipv6 u end.

Definition Uplink_families (u : Uplink) : list Family :=
  List.filter (fun f => bool_decide (is_Some (Uplink_path u f))) Family_ALL.

(** ** Policies and the whole configuration *)

Record Policy := mkPolicy {
  po_name : str;
  po_family : Family;
  po_input_interface : option str;
  po_source : option IpNet;
  po_destination : option IpNet;
  po_protocol : option Protocol;
  po_destination_port : option (u16 * u16);
  po_uplink : UplinkId;
  po_fallback : Fallback
}.

Record Routing := mkRouting {
  rt_table_base : u32;
  rt_rule_priority_base : u32;
  rt_route_protocol : u8;
  rt_fwmark_mask : FwMask;
  rt_all_down_policy : AllDownPolicy;
  rt_discovery_tables : list u32;
  rt_manage_sysctls : bool;
  rt_reconcile_interval : Duration;
  rt_on_shutdown : OnShutdown
}.

Record Firewall := mkFirewall { fw_mode : FirewallMode; fw_nat_priority : i32; fw_nft_path : PathBuf }.

Record Email := mkEmail {
  em_from : str; em_to : list str; em_sendmail : PathBuf; em_max_per_hour : u32; em_events : list str
}.

Record Hook := mkHook { hk_command : list str; hk_events : option (list str); hk_timeout : Duration }.

Record Notify := mkNotify {
  nt_coalesce : Duration; nt_email : option Email; nt_hooks : list Hook; nt_hook_user : str
}.

Record Api := mkApi {
  api_socket : PathBuf; api_group : str; api_status_socket : option PathBuf; api_status_group : option str
}.

Record Config := mkConfig {
  cf_routing : Routing;
  cf_firewall : Firewall;
  cf_downlinks : list str;
  cf_uplinks : list Uplink;
  cf_policies : list Policy;
  cf_notify : Notify;
  cf_api : Api;
  cf_metrics_listen : option SocketAddr;
  cf_state_dir : PathBuf;
  cf_digest : str
}.

Record Structural := mkStructural {
  st_fwmark_mask : FwMask;
  st_table_base : u32;
  st_rule_priority_base : u32;
  st_route_protocol : u8;
  st_firewall_mode : FirewallMode
}.

#[export] Instance Structural_eq_dec : EqDecision Structural.
Proof. solve_decision. Defined.

Definition Config_structural (c : Config) : Structural :=
  mkStructural (rt_fwmark_mask (cf_routing c)) (rt_table_base (cf_routing c))
    (rt_rule_priority_base (cf_routing c)) (rt_route_protocol (cf_routing c)) (fw_mode (cf_firewall c)).

Definition Config_manages (c : Config) (family : Family) : bool :=
  existsb (fun u => bool_decide (is_Some (Uplink_path u family))) (cf_uplinks c).

Definition Config_uplink (c : Config) (id : UplinkId) : option Uplink :=
  find_first (fun u => bool_decide (u_id u = id)) (cf_uplinks c).

(** [line_of]: the 1-based line of a byte offset of the text. *)
Definition line_of (text : list u8) (offset : usize) : usize :=
  Z.of_nat (length (List.filter (fun b => b =? 10) (take (Z.to_nat offset) text))) + 1.

(** ** Lemmas *)

Lemma Config_uplink_Some c id u : Config_uplink c id = Some u -> u ∈ cf_uplinks c /\ u_id u = id.
Proof. intros [Hin Hid]%find_first_Some. by bool_simpl. Qed.

(** With distinct ids, [Config_uplink] finds the uplink of an id. *)
Lemma Config_uplink_elem_of c u : NoDup (u_id <$> cf_uplinks c) -> u ∈ cf_uplinks c ->
  Config_uplink c (u_id u) = Some u.
Proof.
  unfold Config_uplink, find_first. induction (cf_uplinks c) as [|v l IH]; intros Hnd Hin;
    [by apply not_elem_of_nil in Hin|].
  rewrite fmap_cons in Hnd. apply NoDup_cons in Hnd as [Hv Hnd]. simpl.
  apply elem_of_cons in Hin as [->|Hin]; [by rewrite bool_decide_eq_true_2|].
  rewrite bool_decide_eq_false_2; [by apply IH|].
  intros E. apply Hv. rewrite E. by apply list_elem_of_fmap_2.
Qed.

Lemma Config_manages_spec c family :
  Config_manages c family = true <-> exists u, u ∈ cf_uplinks c /\ is_Some (Uplink_path u family).
Proof.
  unfold Config_manages. rewrite existsb_elem_of. by setoid_rewrite bool_decide_eq_true.
Qed.
