(* ===== verification/Select.v ===== *)
(** * Active-set selection

    Models crates/polywan/src/select.rs: the decision table that turns the
    candidates of a family into the set of uplinks that carry its traffic. *)

From stdpp Require Import prelude gmap.
From Stdlib Require Import ZArith Lia.
From S2P Require Import Prelude Model Durations Config.

Local Open Scope Z_scope.

Record Candidate := mkCandidate {
  cand_uplink : UplinkId;
  cand_priority : u16;
  cand_healthy : bool
}.

(** [iter().min()] of the priorities. *)
Fixpoint list_min (l : list Z) : option Z :=
  match l with
  | [] => None
  | x :: l' => match list_min l' with None => Some x | Some m => Some (Z.min x m) end
  end.

(** The closure [best_group]. *)
Definition best_group (pool : list Candidate) : gset UplinkId :=
  match list_min (cand_priority <$> pool) with
  | None => ∅
  | Some best => list_to_set (cand_uplink <$> List.filter (fun c => cand_priority c =? best) pool)
  end.

Definition active_set (candidates : list Candidate) (policy : AllDownPolicy)
    (previous : gset UplinkId) : gset UplinkId :=
  if existsb cand_healthy candidates
  then best_group (List.filter cand_healthy candidates)
  else match policy with
  | Ready => best_group candidates
  | Keep => list_to_set (List.filter (fun u => bool_decide (u ∈ previous)) (cand_uplink <$> candidates))
  end.

(** ** Lemmas *)

Lemma list_min_None l : list_min l = None <-> l = [].
Proof. destruct l as [|x l]; simpl; [done|]. by destruct (list_min l). Qed.

Lemma list_min_Some l m : list_min l = Some m <-> m ∈ l /\ forall x, x ∈ l -> m <= x.
Proof.
  revert m. induction l as [|a l IH]; intros m; simpl.
  { split; [done|]. intros [H%not_elem_of_nil _]. done. }
  destruct (list_min l) as [k|] eqn:E.
  - destruct (proj1 (IH k) eq_refl) as [Hk Hmin]. split.
    + intros [= <-]. split.
      * destruct (Z.min_spec a k) as [[_ ->]|[_ ->]]; set_solver.
      * intros x [->|Hx]%elem_of_cons; [lia|]. specialize (Hmin x Hx). lia.
    + intros [Hin Hle]. f_equal.
      assert (m <= a) by (apply Hle; set_solver). assert (m <= k) by (apply Hle; set_solver).
      apply elem_of_cons in Hin as [->|Hin]; [lia|]. specialize (Hmin m Hin). lia.
  - apply list_min_None in E as ->. split.
    + intros [= <-]. split; [set_solver|]. intros x ->%list_elem_of_singleton. done.
    + by intros [->%list_elem_of_singleton _].
Qed.

(** A pool's best group: the members no other member beats. *)
Lemma best_group_elem_of pool u :
  u ∈ best_group pool <->
  exists c, c ∈ pool /\ cand_uplink c = u /\ forall c', c' ∈ pool -> cand_priority c <= cand_priority c'.
Proof.
  unfold best_group. destruct (list_min (cand_priority <$> pool)) as [best|] eqn:E.
  - apply list_min_Some in E as [Hin Hmin].
    rewrite elem_of_list_to_set, list_elem_of_fmap. split.
    + intros (c & -> & [Hc Hp]%elem_of_list_filter_bool). bool_simpl. exists c. split_and!; try done.
      intros c' Hc'. rewrite Hp. apply Hmin. by apply list_elem_of_fmap_2.
    + intros (c & Hc & <- & Hle). exists c. split; [done|]. apply elem_of_list_filter_bool. split; [done|].
      apply Z.eqb_eq. apply list_elem_of_fmap in Hin as (b & -> & Hb).
      specialize (Hle b Hb). specialize (Hmin (cand_priority c)).
      assert (cand_priority b <= cand_priority c) by (apply Hmin; by apply list_elem_of_fmap_2). lia.
  - apply list_min_None in E. destruct pool; [|done]. split; [set_solver|].
    intros (c & Hc%not_elem_of_nil & _). done.
Qed.

Lemma best_group_nonempty pool : pool <> [] -> best_group pool <> ∅.
Proof.
  intros Hne. destruct (list_min (cand_priority <$> pool)) as [m|] eqn:E.
  - pose proof E as E2. apply list_min_Some in E as [(c & -> & Hc)%list_elem_of_fmap Hmin].
    assert (cand_uplink c ∈ best_group pool); [|set_solver].
    apply best_group_elem_of. exists c. split_and!; [done..|].
    intros c' Hc'. apply Hmin. by apply list_elem_of_fmap_2.
  - apply list_min_None in E. by destruct pool.
Qed.

(** ** Properties *)

(** C25: The decision table of active-set selection.  With a healthy
    candidate, exactly the healthy candidates of the best priority among
    the healthy ones are active (so the set is not empty).  With none, the
    [ready] policy takes the best priority regardless of health, the [keep]
    policy the previous set restricted to the present candidates. *)
Theorem active_set_spec (candidates : list Candidate) (policy : AllDownPolicy)
    (previous : gset UplinkId) (u : UplinkId) :
  u ∈ active_set candidates policy previous <->
  let healthy := fun c => c ∈ candidates /\ cand_healthy c = true in
  ((exists c, healthy c /\ cand_uplink c = u /\
     forall c', healthy c' -> cand_priority c <= cand_priority c') \/
   ((forall c, ~ healthy c) /\ policy = Ready /\
     exists c, c ∈ candidates /\ cand_uplink c = u /\
       forall c', c' ∈ candidates -> cand_priority c <= cand_priority c') \/
   ((forall c, ~ healthy c) /\ policy = Keep /\ u ∈ previous /\
     exists c, c ∈ candidates /\ cand_uplink c = u)).
Proof.
  unfold active_set. cbn zeta. destruct (existsb cand_healthy candidates) eqn:E.
  - apply existsb_elem_of in E as (c0 & Hc0 & Hh0). rewrite best_group_elem_of.
    setoid_rewrite elem_of_list_filter_bool. naive_solver.
  - assert (Hno : forall c, ~ (c ∈ candidates /\ cand_healthy c = true)).
    { intros c Hc. rewrite <- not_true_iff_false in E. apply E, existsb_elem_of. eauto. }
    destruct policy.
    + rewrite best_group_elem_of. naive_solver.
    + rewrite elem_of_list_to_set, elem_of_list_filter_bool, bool_decide_eq_true, list_elem_of_fmap.
      naive_solver.
Qed.

(** Selection never blacks out a family that could carry traffic and
    never invents an uplink: the active set holds only candidates, it is not
    empty when some candidate is healthy, nor under [ready] when there is
    any candidate, and under [keep] it grows only through a healthy one. *)
Theorem active_set_safe (candidates : list Candidate) (policy : AllDownPolicy)
    (previous : gset UplinkId) :
  active_set candidates policy previous ⊆ list_to_set (cand_uplink <$> candidates) /\
  (existsb cand_healthy candidates = true -> active_set candidates policy previous <> ∅) /\
  (candidates <> [] -> policy = Ready -> active_set candidates policy previous <> ∅) /\
  (existsb cand_healthy candidates = false -> policy = Keep ->
   active_set candidates policy previous ⊆ previous).
Proof.
  unfold active_set. destruct (existsb cand_healthy candidates) eqn:E.
  - pose proof E as (c0 & Hc0 & Hh0)%existsb_elem_of. split_and!; [| | |done].
    + intros u (c & [Hc _]%elem_of_list_filter_bool & <- & _)%best_group_elem_of.
      apply elem_of_list_to_set. by apply list_elem_of_fmap_2.
    + intros _. apply best_group_nonempty. intros Hnil.
      assert (c0 ∈ List.filter cand_healthy candidates) as H by by apply elem_of_list_filter_bool.
      rewrite Hnil in H. by apply not_elem_of_nil in H.
    + intros _ _. apply best_group_nonempty. intros Hnil.
      assert (c0 ∈ List.filter cand_healthy candidates) as H by by apply elem_of_list_filter_bool.
      rewrite Hnil in H. by apply not_elem_of_nil in H.
  - split_and!; [|done|..].
    + intros u. destruct policy.
      * intros (c & Hc & <- & _)%best_group_elem_of. apply elem_of_list_to_set. by apply list_elem_of_fmap_2.
      * rewrite !elem_of_list_to_set, elem_of_list_filter_bool. tauto.
    + intros Hne ->. by apply best_group_nonempty.
    + intros _ ->. intros u. rewrite elem_of_list_to_set, elem_of_list_filter_bool, bool_decide_eq_true. tauto.
Qed.

Lemma active_set_safe_witness :
  active_set [mkCandidate (uid 1) 1 false; mkCandidate (uid 2) 2 true; mkCandidate (uid 3) 2 true]
    Keep ∅ <> ∅ /\
  active_set [mkCandidate (uid 1) 1 false; mkCandidate (uid 2) 2 true; mkCandidate (uid 3) 2 true]
    Keep ∅ = {[uid 2; uid 3]}.
Proof.
  split; [|by vm_compute].
  exact (proj1 (proj2 (active_set_safe [mkCandidate (uid 1) 1 false; mkCandidate (uid 2) 2 true;
    mkCandidate (uid 3) 2 true] Keep ∅)) eq_refl).
Defined.
