(* ===== verification/QualityGates.v ===== *)
(** * Quality gates: the sample window, its statistics and the violated gates

    Models crates/polywan/src/quality.rs and the [Sample] of probe.rs.  The
    loss ratio is the IEEE double division of the source ([SFdiv] at 53 bits
    of precision), the RTTs are durations.  The sum of two RTTs in [median]
    is far below [DURATION_MAX], where Rust would panic: an RTT never exceeds
    the round's timeout, which validation keeps at ten seconds. *)

From stdpp Require Import prelude gmap sorting.
From Stdlib Require Import ZArith Lia SpecFloat.
From S2P Require Import Prelude Text Model Durations Config.

Local Open Scope Z_scope.

(** [probe::Sample]: an attempt at a target, with its RTT when it was answered. *)
Record Sample := mkSample { sample_target : Target; sample_rtt : option Duration }.

Definition MIN_RTT_INPUTS : usize := 5.

(** The samples of the last rounds, oldest first. *)
Record Window := mkWindow { w_rounds : list (list Sample) }.

Record Stats := mkStats {
  q_samples : usize;
  q_lost : usize;
  q_loss : option f64;
  q_rtt : option Duration;
  q_replies : usize;
  q_jitter : option Duration;
  q_differences : usize
}.

Inductive Violation :=
  | V_Loss (value limit : f64)
  | V_Rtt (value limit : Duration)
  | V_Jitter (value limit : Duration).

(** The [while] loop of [push]: the oldest rounds are dropped. *)
Fixpoint pop_front_while (rounds : list (list Sample)) (capacity : usize) : list (list Sample) :=
  match rounds with
  | [] => []
  | _ :: rest =>
      if Z.max capacity 1 <? Z.of_nat (length rounds) then pop_front_while rest capacity else rounds
  end.

Definition Window_push (w : Window) (samples : list Sample) (capacity : usize) : Window :=
  mkWindow (pop_front_while (w_rounds w ++ [samples]) capacity).

Definition Window_clear (w : Window) : Window := mkWindow [].

(** The loop of [stats]: [last] is the RTT last seen of each target. *)
Fixpoint differences_loop (all : list Sample) (last : gmap Target Duration) : list Duration :=
  match all with
  | [] => []
  | s :: rest =>
      match sample_rtt s with
      | None => differences_loop rest last
      | Some rtt =>
          let rest_diffs := differences_loop rest (<[sample_target s := rtt]> last) in
          match last !! sample_target s with
          | Some prev => Z.abs (rtt - prev) :: rest_diffs
          | None => rest_diffs
          end
      end
  end.

(** The median; the mean of the two middle values for an even count. *)
Definition median (values : list Duration) : option Duration :=
  let sorted := sort_by_key id values in
  let n := length values in
  match n with
  | O => None
  | _ => if Nat.odd n then sorted !! (n / 2)%nat
         else a ← sorted !! (n / 2 - 1)%nat; b ← sorted !! (n / 2)%nat; Some ((a + b) / 2)
  end.

(** [n as f64], rounded to nearest even. *)
Definition usize_as_f64 (n : usize) : f64 := binary_normalize 53 1024 n 0 false.

Definition Window_stats (w : Window) : Stats :=
  let all := concat (w_rounds w) in
  let samples := Z.of_nat (length all) in
  let lost := Z.of_nat (length (List.filter (fun s => bool_decide (sample_rtt s = None)) all)) in
  let rtts := omap sample_rtt all in
  let differences := differences_loop all ∅ in
  {| q_samples := samples;
     q_lost := lost;
     q_loss := if 0 <? samples
               then Some (SFdiv 53 1024 (usize_as_f64 lost) (usize_as_f64 samples)) else None;
     q_replies := Z.of_nat (length rtts);
     q_rtt := median rtts;
     q_differences := Z.of_nat (length differences);
     q_jitter := median differences |}.

Definition violations (stats : Stats) (quality : Quality) (min_samples : u16) : list Violation :=
  match max_loss quality, q_loss stats with
  | Some limit, Some value =>
      if (min_samples <=? q_samples stats) && SFltb limit value then [V_Loss value limit] else []
  | _, _ => []
  end ++
  match max_rtt quality, q_rtt stats with
  | Some limit, Some value =>
      if (MIN_RTT_INPUTS <=? q_replies stats) && (limit <? value) then [V_Rtt value limit] else []
  | _, _ => []
  end ++
  match max_jitter quality, q_jitter stats with
  | Some limit, Some value =>
      if (MIN_RTT_INPUTS <=? q_differences stats) && (limit <? value) then [V_Jitter value limit] else []
  | _, _ => []
  end.

(** ** Specification of the jitter inputs *)

(** The RTTs of the answered samples of a target, in order. *)
Definition rtts_of (t : Target) (all : list Sample) : list Duration :=
  omap sample_rtt (List.filter (fun s => bool_decide (sample_target s = t)) all).

Fixpoint adjacent_diffs (l : list Duration) : list Duration :=
  match l with
  | a :: ((b :: _) as rest) => Z.abs (b - a) :: adjacent_diffs rest
  | _ => []
  end.

(** [differences_loop] with each difference labelled by its target. *)
Fixpoint labelled_diffs (all : list Sample) (last : gmap Target Duration) : list (Target * Duration) :=
  match all with
  | [] => []
  | s :: rest =>
      match sample_rtt s with
      | None => labelled_diffs rest last
      | Some rtt =>
          let rest_diffs := labelled_diffs rest (<[sample_target s := rtt]> last) in
          match last !! sample_target s with
          | Some prev => (sample_target s, Z.abs (rtt - prev)) :: rest_diffs
          | None => rest_diffs
          end
      end
  end.

Definition diffs_of (t : Target) (ds : list (Target * Duration)) : list Duration :=
  snd <$> List.filter (fun d => bool_decide (fst d = t)) ds.

(** ** Lemmas: the window *)

Lemma pop_front_while_drop rounds capacity :
  pop_front_while rounds capacity = drop (length rounds - Z.to_nat (Z.max capacity 1)) rounds.
Proof.
  induction rounds as [|r rest IH]; [done|]. cbn [pop_front_while].
  destruct (Z.ltb_spec (Z.max capacity 1) (Z.of_nat (length (r :: rest)))) as [H|H]; simpl in H.
  - rewrite IH. cbn [length].
    replace (S (length rest) - Z.to_nat (Z.max capacity 1))%nat
      with (S (length rest - Z.to_nat (Z.max capacity 1)))%nat by lia. done.
  - replace (length (r :: rest) - Z.to_nat (Z.max capacity 1))%nat with 0%nat by (simpl; lia). done.
Qed.

Definition push_all (w : Window) (capacity : usize) (rs : list (list Sample)) : Window :=
  foldl (fun w r => Window_push w r capacity) w rs.

Lemma push_all_snoc w capacity rs r :
  push_all w capacity (rs ++ [r]) = Window_push (push_all w capacity rs) r capacity.
Proof. unfold push_all. by rewrite foldl_app. Qed.

Lemma push_all_suffix w capacity rs : rs <> [] ->
  w_rounds (push_all w capacity rs) =
    drop (length (w_rounds w ++ rs) - Z.to_nat (Z.max capacity 1)) (w_rounds w ++ rs).
Proof.
  induction rs as [|r rs IH] using rev_ind; [done|]. intros _.
  rewrite push_all_snoc. unfold Window_push. cbn [w_rounds]. rewrite pop_front_while_drop.
  destruct (decide (rs = [])) as [->|Hne]; [done|].
  rewrite IH by done. set (k := Z.to_nat (Z.max capacity 1)).
  rewrite app_assoc. set (l := w_rounds w ++ rs).
  rewrite length_app, length_drop. simpl length. rewrite (length_app l [r]). simpl length.
  destruct (decide (length l <= k)%nat).
  - replace (length l - k)%nat with 0%nat by lia. rewrite drop_0. f_equal. lia.
  - rewrite <- (drop_app_le l [r] (length l - k)) by lia.
    rewrite drop_drop. f_equal. lia.
Qed.

(** ** Lemmas: the median *)

Lemma median_perm l k : l ≡ₚ k -> median l = median k.
Proof. intros Hp. unfold median. by rewrite (Permutation_length Hp), (sort_by_key_perm l k). Qed.

Lemma cmp_leb_Z x y : cmp_leb x y = true <-> x <= y.
Proof. unfold cmp_leb; cbn. rewrite <- Z.leb_le. unfold Z.leb. by destruct (x ?= y). Qed.

Definition ZSorted (l : list Z) : Prop := StronglySorted (fun x y => cmp_leb (id x) (id y) = true) l.

Lemma sorted_lookup_le l i j x y : ZSorted l -> (i <= j)%nat ->
  l !! i = Some x -> l !! j = Some y -> x <= y.
Proof.
  intros Hl Hij Hx Hy. destruct (decide (i = j)) as [->|Hne]; [by simplify_eq|].
  apply cmp_leb_Z. apply (StronglySorted_lookup_le _ _ i j x y Hl); [lia|done..].
Qed.

(** How many values are at most, at least [m]. *)
Definition count_le (l : list Z) (m : Z) : nat := length (List.filter (fun x => x <=? m) l).
Definition count_ge (l : list Z) (m : Z) : nat := length (List.filter (fun x => m <=? x) l).

Lemma count_le_sorted l i x m : ZSorted l -> l !! i = Some x -> x <= m -> (i < count_le l m)%nat.
Proof.
  intros Hl Hx Hm. unfold count_le.
  rewrite <- (take_drop (S i) l), List.filter_app, length_app, filter_all.
  - rewrite length_take. apply lookup_lt_Some in Hx. lia.
  - intros y (j & Hj)%list_elem_of_lookup. apply lookup_take_Some in Hj as [Hj ?].
    apply Z.leb_le. assert (y <= x) by (eapply sorted_lookup_le; [done| |done..]; lia). lia.
Qed.

Lemma count_ge_sorted l i x m : ZSorted l -> l !! i = Some x -> m <= x ->
  (length l - i <= count_ge l m)%nat.
Proof.
  intros Hl Hx Hm. unfold count_ge.
  rewrite <- (take_drop i l) at 2. rewrite List.filter_app, length_app, (filter_all _ (drop i l)).
  - rewrite length_drop. lia.
  - intros y (j & Hj)%list_elem_of_lookup. rewrite lookup_drop in Hj.
    apply Z.leb_le. assert (x <= y) by (eapply sorted_lookup_le; [done| |done..]; lia). lia.
Qed.

Lemma count_perm l k m : l ≡ₚ k -> count_le l m = count_le k m /\ count_ge l m = count_ge k m.
Proof. intros Hp. unfold count_le, count_ge. by rewrite Hp. Qed.

(** The middle of a list: the values [a <= b] at the two middle positions
    (the same one when the count is odd) and their mean. *)
Lemma median_Some l m : median l = Some m <-> l <> [] /\
  exists a b, sort_by_key id l !! ((length l - 1) / 2)%nat = Some a /\
    sort_by_key id l !! (length l / 2)%nat = Some b /\ m = (a + b) / 2.
Proof.
  unfold median. pose proof (sort_by_length (fun x y => cmp_leb (id x) (id y)) l) as Hlen.
  change (sort_by _ l) with (sort_by_key id l) in Hlen.
  destruct l as [|x0 l0]; [split; [done|by intros []]|]. set (l := x0 :: l0) in *.
  change (length l) with (S (length l0)). set (n := S (length l0)) in *.
  assert (Hn : length l = n) by done. rewrite Hn in Hlen.
  pose proof (Nat.div_mod n 2 ltac:(lia)) as Hdm. cbn [n]. fold n.
  destruct (Nat.odd n) eqn:Ho.
  - apply Nat.odd_spec in Ho as [k Hk].
    assert (E1 : ((n - 1) / 2 = k)%nat) by (rewrite Hk, Nat.add_sub, Nat.mul_comm; apply Nat.div_mul; lia).
    assert (E2 : (n / 2 = k)%nat)
      by (rewrite Hk, Nat.add_comm, Nat.mul_comm, Nat.div_add by lia; done).
    rewrite E1, E2. split.
    + intros E. split; [done|]. exists m, m. split_and!; try done. rewrite Z.add_diag, Z.mul_comm.
      symmetry. by apply Z.div_mul.
    + intros (_ & a & b & Ea & Eb & ->). rewrite Eb in Ea. simplify_eq. rewrite Eb, Z.add_diag, Z.mul_comm.
      by rewrite Z.div_mul.
  - assert (He : Nat.even n = true) by (rewrite <- Nat.negb_odd; by rewrite Ho).
    apply Nat.even_spec in He as [k Hk].
    assert (E2 : (n / 2 = k)%nat) by (rewrite Hk, Nat.mul_comm; apply Nat.div_mul; lia).
    assert (E1 : ((n - 1) / 2 = k - 1)%nat).
    { replace (n - 1)%nat with (1 + (k - 1) * 2)%nat by lia. rewrite Nat.div_add by lia. done. }
    rewrite E1, E2. destruct (sort_by_key id l !! (k - 1)%nat) as [a|] eqn:Ea.
    + destruct (sort_by_key id l !! k) as [b|] eqn:Eb; simpl; [naive_solver|].
      apply lookup_ge_None in Eb. lia.
    + apply lookup_ge_None in Ea. lia.
Qed.

(** ** Lemmas: jitter *)

Lemma differences_labelled all last : differences_loop all last = snd <$> labelled_diffs all last.
Proof.
  revert last. induction all as [|s all IH]; intros last; simpl; [done|].
  destruct (sample_rtt s); [|apply IH]. destruct (last !! sample_target s); simpl; by rewrite IH.
Qed.

Lemma diffs_of_labelled t all last :
  diffs_of t (labelled_diffs all last) =
    adjacent_diffs (match last !! t with Some p => p :: rtts_of t all | None => rtts_of t all end).
Proof.
  revert last. induction all as [|s all IH]; intros last.
  { simpl. by destruct (last !! t). }
  cbn [labelled_diffs]. unfold rtts_of. cbn [List.filter].
  destruct (sample_rtt s) as [rtt|] eqn:Er.
  - destruct (decide (sample_target s = t)) as [<-|Ht].
    + rewrite bool_decide_eq_true_2 by done. cbn [omap list_omap]. rewrite Er. fold (omap (M:=list) (A:=Sample) (B:=Z)).
      specialize (IH (<[sample_target s := rtt]> last)). rewrite lookup_insert_eq in IH.
      destruct (last !! sample_target s) as [p|].
      * unfold diffs_of in *. cbn [List.filter fst]. rewrite bool_decide_eq_true_2 by done.
        rewrite fmap_cons. by rewrite IH.
      * by rewrite IH.
    + rewrite bool_decide_eq_false_2 by done.
      specialize (IH (<[sample_target s := rtt]> last)). rewrite lookup_insert_ne in IH by done.
      destruct (last !! sample_target s) as [p|]; [|by rewrite IH].
      unfold diffs_of in *. cbn [List.filter fst]. by rewrite bool_decide_eq_false_2.
  - rewrite IH. destruct (bool_decide (sample_target s = t)); [|done].
    cbn [omap list_omap]. by rewrite Er.
Qed.

Lemma lost_replies all :
  Z.of_nat (length (List.filter (fun s => bool_decide (sample_rtt s = None)) all)) +
  Z.of_nat (length (omap sample_rtt all)) = Z.of_nat (length all).
Proof.
  induction all as [|s all IH]; [done|]. cbn [List.filter].
  destruct (sample_rtt s) as [r|] eqn:E.
  - rewrite bool_decide_eq_false_2 by done. cbn [omap list_omap]. rewrite E. simpl length in *. lia.
  - rewrite bool_decide_eq_true_2 by done. cbn [omap list_omap]. rewrite E. simpl length in *. lia.
Qed.

(** One gate of [violations]. *)
Lemma gate_elem_of {L V} (limit : option L) (value : option V) (p : L -> V -> bool)
    (mk : V -> L -> Violation) x :
  x ∈ match limit, value with
      | Some l, Some v => if p l v then [mk v l] else []
      | _, _ => []
      end <->
  exists l v, limit = Some l /\ value = Some v /\ p l v = true /\ x = mk v l.
Proof.
  destruct limit as [l|], value as [v|]; [destruct (p l v) eqn:E|..];
    rewrite ?list_elem_of_singleton, ?elem_of_nil;
    (split; [by eauto 8|intros (l' & v' & ? & ? & ? & ?); simplify_eq; done || congruence]).
Qed.

Ltac gates := split;
  [intros [(? & ? & ? & ? & [? ?] & ?)|[(? & ? & ? & ? & [? ?] & ?)|(? & ? & ? & ? & [? ?] & ?)]];
   simplify_eq; split_and!; done
  |intros (? & ? & ? & ?); by eauto 12].

(** ** Properties *)

(** The window holds exactly the samples of the last [quality_window]
    rounds (at least one), whatever it held before: after any non-empty
    sequence of pushes it is the suffix of that length of everything pushed. *)
Theorem Window_push_suffix (w : Window) (capacity : usize) (rs : list (list Sample))
    (Hrs : rs <> []) (Hw : (length (w_rounds w) <= Z.to_nat (Z.max capacity 1))%nat) :
  let kept := w_rounds (push_all w capacity rs) in
  (exists dropped, w_rounds w ++ rs = dropped ++ kept) /\
  length kept = Nat.min (length (w_rounds w ++ rs)) (Z.to_nat (Z.max capacity 1)).
Proof.
  cbn zeta. rewrite push_all_suffix by done. split.
  - eexists. symmetry. apply take_drop.
  - rewrite length_drop. lia.
Qed.

Lemma Window_push_suffix_witness :
  length (w_rounds (push_all (mkWindow []) 2 [[]; []; []])) = 2%nat.
Proof. apply (Window_push_suffix (mkWindow []) 2 [[]; []; []]); simpl; [done|lia]. Defined.

(** The statistics of a window.  Every sample is either lost or a
    reply; the reported RTT is the median of the replies: the mean of two
    RTTs that were measured, [a <= b], with at least half of the replies at
    most [a] and at least half at least [b] (so it does not depend on the
    order of the samples); and the jitter inputs are, for each target apart,
    the absolute differences of its consecutive RTTs. *)
Theorem Window_stats_spec (w : Window) :
  let all := concat (w_rounds w) in
  let rtts := omap sample_rtt all in
  let stats := Window_stats w in
  q_lost stats + q_replies stats = q_samples stats /\
  (q_rtt stats = None <-> rtts = []) /\
  (forall m, q_rtt stats = Some m -> exists a b, a ∈ rtts /\ b ∈ rtts /\ a <= b /\ m = (a + b) / 2 /\
     (length rtts <= 2 * count_le rtts a)%nat /\ (length rtts <= 2 * count_ge rtts b)%nat) /\
  (exists ds, q_jitter stats = median (snd <$> ds) /\ q_differences stats = Z.of_nat (length ds) /\
     forall t, diffs_of t ds = adjacent_diffs (rtts_of t all)).
Proof.
  cbn zeta. unfold Window_stats; cbn [q_lost q_replies q_samples q_rtt q_jitter q_differences].
  set (rtts := omap sample_rtt (concat (w_rounds w))). split_and!.
  - apply lost_replies.
  - unfold median. destruct rtts as [|r l] eqn:E; [done|]. split; [|done]. intros H.
    assert (exists m, median (r :: l) = Some m) as [m Hm]; [|unfold median in Hm; congruence].
    clear H. exists ((sort_by_key id (r :: l) !!! ((length (r :: l) - 1) / 2)%nat +
      sort_by_key id (r :: l) !!! (length (r :: l) / 2)%nat) / 2).
    apply median_Some. split; [done|]. eexists _, _. split_and!; [..|done];
      apply list_lookup_lookup_total_lt; rewrite sort_by_key_Permutation; simpl length;
      [apply Nat.Div0.div_lt_upper_bound|apply Nat.div_lt]; lia.
  - intros m (Hne & a & b & Ea & Eb & ->)%median_Some. exists a, b.
    pose proof (sort_by_key_sorted id rtts) as Hs. pose proof (sort_by_key_Permutation id rtts) as Hp.
    assert (0 < length rtts)%nat by (destruct rtts; [done|simpl; lia]).
    pose proof (Nat.div_mod (length rtts) 2 ltac:(lia)). pose proof (Nat.div_mod (length rtts - 1) 2 ltac:(lia)).
    pose proof (Nat.mod_upper_bound (length rtts) 2 ltac:(lia)).
    pose proof (Nat.mod_upper_bound (length rtts - 1) 2 ltac:(lia)).
    split_and!; [rewrite <- Hp; by eapply list_elem_of_lookup_2..| |done| |].
    + eapply sorted_lookup_le; [exact Hs| |exact Ea|exact Eb]. apply Nat.Div0.div_le_mono. lia.
    + pose proof (count_le_sorted _ _ _ a Hs Ea ltac:(lia)) as Hc.
      rewrite (proj1 (count_perm _ _ a Hp)) in Hc. lia.
    + pose proof (count_ge_sorted _ _ _ b Hs Eb ltac:(lia)) as Hc.
      rewrite (proj2 (count_perm _ _ b Hp)), (Permutation_length Hp) in Hc. lia.
  - exists (labelled_diffs (concat (w_rounds w)) ∅). rewrite differences_labelled. split_and!; [done| |].
    + by rewrite length_fmap.
    + intros t. by rewrite diffs_of_labelled, lookup_empty.
Qed.

(** A gate is reported exactly when it is configured, its statistic
    exists, it has enough inputs (the configured number of samples for the
    loss, [MIN_RTT_INPUTS] replies or differences for RTT and jitter) and
    the value exceeds the limit; and each gate at most once, in the order
    loss, RTT, jitter. *)
Theorem violations_spec (stats : Stats) (quality : Quality) (min_samples : u16) :
  (forall value limit, V_Loss value limit ∈ violations stats quality min_samples <->
    max_loss quality = Some limit /\ q_loss stats = Some value /\
    min_samples <= q_samples stats /\ SFltb limit value = true) /\
  (forall value limit, V_Rtt value limit ∈ violations stats quality min_samples <->
    max_rtt quality = Some limit /\ q_rtt stats = Some value /\
    MIN_RTT_INPUTS <= q_replies stats /\ limit < value) /\
  (forall value limit, V_Jitter value limit ∈ violations stats quality min_samples <->
    max_jitter quality = Some limit /\ q_jitter stats = Some value /\
    MIN_RTT_INPUTS <= q_differences stats /\ limit < value) /\
  (length (violations stats quality min_samples) <= 3)%nat.
Proof.
  unfold violations. split_and!;
    [intros value limit; rewrite !elem_of_app, !gate_elem_of; setoid_rewrite andb_true_iff;
     setoid_rewrite Z.leb_le; try setoid_rewrite Z.ltb_lt; gates..|].
  rewrite !length_app. repeat case_match; simpl; lia.
Qed.
