(* ===== verification/Plan.v ===== *)
(** * The planner: the routing artifacts PolyWAN wants installed

    Models crates/polywan/src/plan.rs.  [Desired.rules] (a [BTreeSet]) is the
    list of its rules in the derived order; [Desired.routes] is a [gmap]
    keyed by family and table.  The [u32] sums of the layout wrap as in a
    release build; [Layout_wf] (what validation guarantees) excludes it. *)

From stdpp Require Import prelude gmap sorting.
From Stdlib Require Import ZArith Lia.
From S2P Require Import Prelude Text Model Durations Config.

Local Open Scope Z_scope.

(** ** Data *)

Inductive Action :=
  | Lookup (table : u32)
  | LookupMainSuppressDefault
  | Unreachable.

Inductive RuleKind :=
  | ProbeLookup (id : UplinkId)
  | ProbeGuard
  | MainBypass
  | PathLookup (id : UplinkId)
  | PathGuard
  | PolicyBalanceLookup (id : UplinkId)
  | PolicyBlockLookup (id : UplinkId)
  | PolicyBlockGuard
  | SourceLookup (id : UplinkId)
  | SourceGuard
  | BalanceKind
  | FinalGuard.

#[export] Instance Action_eq_dec : EqDecision Action.
Proof. solve_decision. Defined.
#[export] Instance RuleKind_eq_dec : EqDecision RuleKind.
Proof. solve_decision. Defined.

(** [#[derive(Ord)]]: the variant's position, then its fields. *)
Definition Action_code (a : Action) : Z * Z :=
  match a with Lookup t => (0, t) | LookupMainSuppressDefault => (1, 0) | Unreachable => (2, 0) end.
#[export] Instance Action_Cmp : Cmp Action := cmp_by Action_code.

Definition RuleKind_code (k : RuleKind) : Z * option UplinkId :=
  match k with
  | ProbeLookup id => (0, Some id)
  | ProbeGuard => (1, None)
  | MainBypass => (2, None)
  | PathLookup id => (3, Some id)
  | PathGuard => (4, None)
  | PolicyBalanceLookup id => (5, Some id)
  | PolicyBlockLookup id => (6, Some id)
  | PolicyBlockGuard => (7, None)
  | SourceLookup id => (8, Some id)
  | SourceGuard => (9, None)
  | BalanceKind => (10, None)
  | FinalGuard => (11, None)
  end.
#[export] Instance RuleKind_Cmp : Cmp RuleKind := cmp_by RuleKind_code.

Definition RuleKind_is_class_guard (k : RuleKind) : bool :=
  match k with ProbeGuard | PathGuard | PolicyBlockGuard => true | _ => false end.

Record Rule := mkRule {
  rule_family : Family;
  rule_priority : u32;
  rule_fwmark : option (u32 * u32);
  rule_source : option IpAddr;
  rule_action : Action;
  rule_kind : RuleKind
}.

#[export] Instance Rule_eq_dec : EqDecision Rule.
Proof. solve_decision. Defined.

Definition Rule_code (r : Rule) :=
  (rule_family r, (rule_priority r, (rule_fwmark r, (rule_source r, (rule_action r, rule_kind r))))).
#[export] Instance Rule_Cmp : Cmp Rule := cmp_by Rule_code.

Record NextHop := mkNextHop {
  hop_ifindex : u32;
  hop_gateway : option IpAddr;
  hop_onlink : bool;
  hop_weight : u16
}.

#[export] Instance NextHop_eq_dec : EqDecision NextHop.
Proof. solve_decision. Defined.
Definition NextHop_code (h : NextHop) := (hop_ifindex h, (hop_gateway h, (hop_onlink h, hop_weight h))).
#[export] Instance NextHop_Cmp : Cmp NextHop := cmp_by NextHop_code.

Record Route := mkRoute {
  route_family : Family;
  route_table : u32;
  route_source : option IpAddr;
  route_nexthops : list NextHop
}.

#[export] Instance Route_eq_dec : EqDecision Route.
Proof. solve_decision. Defined.

Definition ROUTE_METRIC : u32 := 100.

Record ReadyPath := mkReadyPath {
  rp_ifindex : u32;
  rp_gateway : option IpAddr;
  rp_onlink : bool;
  rp_source : IpAddr
}.

#[export] Instance ReadyPath_eq_dec : EqDecision ReadyPath.
Proof. solve_decision. Defined.

Record PathInput := mkPathInput {
  pi_ready : option ReadyPath;
  pi_local_addresses : gset IpAddr;
  pi_healthy : bool;
  pi_drained : bool
}.

Record Input := mkInput {
  in_paths : gmap PathKey PathInput;
  in_active : gmap Family (gset UplinkId)
}.

Record Desired := mkDesired {
  d_rules : list Rule;
  d_routes : gmap (Family * u32) Route
}.

Definition Desired_default : Desired := mkDesired [] ∅.

(** ** Layout *)

Record Layout := mkLayout { l_table_base : u32; l_priority_base : u32; l_mask : FwMask }.

Definition Layout_of (config : Config) : Layout :=
  mkLayout (rt_table_base (cf_routing config)) (rt_rule_priority_base (cf_routing config))
    (rt_fwmark_mask (cf_routing config)).

Definition balancing_table (l : Layout) : u32 := l_table_base l.
Definition path_table (l : Layout) (id : UplinkId) : u32 := u32_add (l_table_base l) (UplinkId_get id).
Definition is_path_table (l : Layout) (table : u32) : bool :=
  (u32_add (l_table_base l) 1 <=? table) && (table <? u32_add (l_table_base l) 64).
Definition policy_balance_table (l : Layout) (id : UplinkId) : u32 :=
  u32_add (u32_add (l_table_base l) 64) (UplinkId_get id).
Definition policy_block_table (l : Layout) (id : UplinkId) : u32 :=
  u32_add (u32_add (l_table_base l) 128) (UplinkId_get id).

(** The inclusive ranges, as their bounds. *)
Definition tables (l : Layout) : u32 * u32 := (l_table_base l, u32_add (l_table_base l) 191).
Definition priorities (l : Layout) : u32 * u32 := (l_priority_base l, u32_add (l_priority_base l) 699).
Definition range_contains (r : Z * Z) (x : Z) : bool := in_range (fst r) (snd r) x.

Definition layout_value (l : Layout) (v : FieldValue) : u32 * u32 :=
  (FwMask_encode (l_mask l) v, FwMask_mask (l_mask l)).
Definition layout_class (l : Layout) (v : FieldValue) : u32 * u32 :=
  (FwMask_encode (l_mask l) v, FwMask_class_mask (l_mask l)).

(** The body of the first loop of [static_rules]. *)
Definition uplink_rules (l : Layout) (family : Family) (id : UplinkId) : list Rule :=
  let b := l_priority_base l in
  let n := UplinkId_get id in
  [mkRule family (u32_add b n) (Some (layout_value l (FieldValue_probe id))) None
     (Lookup (path_table l id)) (ProbeLookup id);
   mkRule family (u32_add (u32_add b 200) n) (Some (layout_value l (FieldValue_path id))) None
     (Lookup (path_table l id)) (PathLookup id);
   mkRule family (u32_add (u32_add b 300) n) (Some (layout_value l (FieldValue_policy_balance id))) None
     (Lookup (policy_balance_table l id)) (PolicyBalanceLookup id);
   mkRule family (u32_add (u32_add b 400) n) (Some (layout_value l (FieldValue_policy_block id))) None
     (Lookup (policy_block_table l id)) (PolicyBlockLookup id)].

(** The body of the second loop: [bit = 1u8 << k]. *)
Definition path_guard (l : Layout) (family : Family) (k : Z) : Rule :=
  let bit := wrap 8 (Z.shiftl 1 k) in
  mkRule family (u32_add (l_priority_base l) 264)
    (Some (FwMask_encode (l_mask l) (FieldValue_raw bit),
           FwMask_encode (l_mask l) (FieldValue_raw (Z.lor 0xc0 bit))))
    None Unreachable PathGuard.

Definition static_rules (l : Layout) (family : Family) (uplinks : list UplinkId) : list Rule :=
  let b := l_priority_base l in
  concat (uplink_rules l family <$> uplinks) ++
  [mkRule family (u32_add b 64) (Some (layout_class l FieldValue_PROBE_CLASS)) None Unreachable ProbeGuard;
   mkRule family (u32_add b 100) None None LookupMainSuppressDefault MainBypass] ++
  (path_guard l family <$> seqZ 0 6) ++
  [mkRule family (u32_add b 464) (Some (layout_class l FieldValue_POLICY_BLOCK_CLASS)) None
     Unreachable PolicyBlockGuard;
   mkRule family (u32_add b 600) None None (Lookup (balancing_table l)) BalanceKind;
   mkRule family (u32_add b 699) None None Unreachable FinalGuard].

Definition source_lookup (l : Layout) (family : Family) (id : UplinkId) (address : IpAddr) : Rule :=
  mkRule family (u32_add (u32_add (l_priority_base l) 500) (UplinkId_get id))
    (Some (0, FwMask_mask (l_mask l))) (Some address) (Lookup (path_table l id)) (SourceLookup id).
Definition source_guard (l : Layout) (family : Family) (address : IpAddr) : Rule :=
  mkRule family (u32_add (l_priority_base l) 564)
    (Some (0, FwMask_mask (l_mask l))) (Some address) Unreachable SourceGuard.
Definition source_rules (l : Layout) (family : Family) (id : UplinkId) (address : IpAddr) : list Rule :=
  [source_lookup l family id address; source_guard l family address].

(** ** Planning *)

Definition without (input : Input) (paths : gset PathKey) : Input :=
  mkInput
    (map_imap (fun k p => Some (if bool_decide (k ∈ paths)
       then mkPathInput (pi_ready p) (pi_local_addresses p) false (pi_drained p) else p)) (in_paths input))
    (map_imap (fun family set =>
       Some (filter (fun u => mkPathKey u family ∉ paths) set)) (in_active input)).

Definition hop_of (r : ReadyPath) : NextHop := mkNextHop (rp_ifindex r) (rp_gateway r) (rp_onlink r) 1.

Definition path_route (family : Family) (r : ReadyPath) (table : u32) : Route :=
  mkRoute family table (Some (rp_source r)) [hop_of r].

(** One turn of the loop over the uplinks: the artifacts and the members of
    the balancing route so far. *)
Definition plan_uplink (layout : Layout) (family : Family) (input : Input)
    (acc : Desired * list NextHop) (u : Uplink) : Desired * list NextHop :=
  let '(desired, members) := acc in
  match in_paths input !! mkPathKey (u_id u) family with
  | None => acc
  | Some p =>
      let rules := bset_extend (d_rules desired)
        (concat (source_rules layout family (u_id u) <$> bset_iter (pi_local_addresses p))) in
      match pi_ready p with
      | None => (mkDesired rules (d_routes desired), members)
      | Some r =>
          let insert_route t (routes : gmap (Family * u32) Route) :=
            <[(family, t) := path_route family r t]> routes in
          let routes := insert_route (path_table layout (u_id u)) (d_routes desired) in
          let routes :=
            if pi_healthy p && negb (pi_drained p)
            then insert_route (policy_block_table layout (u_id u))
                   (insert_route (policy_balance_table layout (u_id u)) routes)
            else routes in
          let members :=
            if match in_active input !! family with
               | Some a => bool_decide (u_id u ∈ a)
               | None => false
               end
            then members ++ [mkNextHop (rp_ifindex r) (rp_gateway r) (rp_onlink r) (u_weight u)]
            else members in
          (mkDesired rules routes, members)
      end
  end.

(** [members.sort()], and weight 1 for a single member. *)
Definition balancing_nexthops (members : list NextHop) : list NextHop :=
  match sort_by_key id members with
  | [h] => [mkNextHop (hop_ifindex h) (hop_gateway h) (hop_onlink h) 1]
  | l => l
  end.

(** The uplinks that configure the family, in file order. *)
Definition family_uplinks (config : Config) (family : Family) : list Uplink :=
  List.filter (fun u => bool_decide (is_Some (Uplink_path u family))) (cf_uplinks config).

(** One turn of the loop over the families. *)
Definition plan_family (config : Config) (input : Input) (desired : Desired) (family : Family) : Desired :=
  if negb (Config_manages config family) then desired else
  let layout := Layout_of config in
  let uplinks := family_uplinks config family in
  let ids := u_id <$> uplinks in
  let desired := mkDesired (bset_extend (d_rules desired) (static_rules layout family ids)) (d_routes desired) in
  let '(desired, members) := foldl (plan_uplink layout family input) (desired, []) uplinks in
  match members with
  | [] => desired
  | _ =>
      let table := balancing_table layout in
      mkDesired (d_rules desired)
        (<[(family, table) := mkRoute family table None (balancing_nexthops members)]> (d_routes desired))
  end.

Definition plan (config : Config) (input : Input) : Desired :=
  foldl (plan_family config input) Desired_default Family_ALL.

(** ** What validation guarantees of a layout *)

Record Layout_wf (l : Layout) : Prop := {
  lw_tables : 1 <= l_table_base l /\ l_table_base l + 191 <= 2 ^ 32 - 2;
  lw_reserved : l_table_base l + 191 < 253 \/ 255 < l_table_base l;
  lw_priorities : 1 <= l_priority_base l /\ l_priority_base l + 699 <= 32765;
  lw_mask : FwMask_wf (l_mask l)
}.

(** ** Orders *)

#[export] Instance Action_CmpOrder : CmpOrder Action.
Proof. apply CmpOrder_by. by intros [] [] [=]; subst. Qed.
#[export] Instance RuleKind_CmpOrder : CmpOrder RuleKind.
Proof. apply CmpOrder_by. by intros [] [] [=]; subst. Qed.
#[export] Instance Rule_CmpOrder : CmpOrder Rule.
Proof. apply CmpOrder_by. intros [] []; unfold Rule_code; simpl. congruence. Qed.
#[export] Instance NextHop_CmpOrder : CmpOrder NextHop.
Proof. apply CmpOrder_by. intros [] []; unfold NextHop_code; simpl. congruence. Qed.

(** ** Layout arithmetic *)

Section layout.
Context (l : Layout) (Hl : Layout_wf l).

Lemma table_base_add n : 0 <= n <= 191 -> u32_add (l_table_base l) n = l_table_base l + n.
Proof. destruct Hl as [[? ?] _ _ _]. intros. apply u32_add_small. unfold fits. lia. Qed.

Lemma priority_base_add n : 0 <= n <= 699 -> u32_add (l_priority_base l) n = l_priority_base l + n.
Proof. destruct Hl as [_ _ [? ?] _]. intros. apply u32_add_small. unfold fits. lia. Qed.

Lemma table_base_add2 m n : 0 <= m -> 0 <= n -> m + n <= 191 ->
  u32_add (u32_add (l_table_base l) m) n = l_table_base l + m + n.
Proof.
  intros. rewrite table_base_add by lia. destruct Hl as [[? ?] _ _ _].
  apply u32_add_small. unfold fits. lia.
Qed.

Lemma priority_base_add2 m n : 0 <= m -> 0 <= n -> m + n <= 699 ->
  u32_add (u32_add (l_priority_base l) m) n = l_priority_base l + m + n.
Proof.
  intros. rewrite priority_base_add by lia. destruct Hl as [_ _ [? ?] _].
  apply u32_add_small. unfold fits. lia.
Qed.

Lemma path_table_eq id : path_table l id = l_table_base l + UplinkId_get id.
Proof. pose proof (UplinkId_range id). apply table_base_add. lia. Qed.
Lemma policy_balance_table_eq id : policy_balance_table l id = l_table_base l + 64 + UplinkId_get id.
Proof. pose proof (UplinkId_range id). apply table_base_add2; lia. Qed.
Lemma policy_block_table_eq id : policy_block_table l id = l_table_base l + 128 + UplinkId_get id.
Proof. pose proof (UplinkId_range id). apply table_base_add2; lia. Qed.

Lemma tables_contains t :
  range_contains (tables l) t = true <-> l_table_base l <= t <= l_table_base l + 191.
Proof. unfold range_contains, tables; simpl. rewrite in_range_spec, table_base_add by lia. done. Qed.
Lemma priorities_contains p :
  range_contains (priorities l) p = true <-> l_priority_base l <= p <= l_priority_base l + 699.
Proof. unfold range_contains, priorities; simpl. rewrite in_range_spec, priority_base_add by lia. done. Qed.

Lemma is_path_table_spec t : is_path_table l t = true <-> exists id, t = path_table l id.
Proof.
  unfold is_path_table. rewrite andb_true_iff, Z.leb_le, Z.ltb_lt, !table_base_add by lia. split.
  - intros Ht. destruct (UplinkId_new (t - l_table_base l)) as [id|] eqn:E.
    + apply UplinkId_new_Some in E as [E _]. exists id. rewrite path_table_eq. lia.
    + apply UplinkId_new_None in E. lia.
  - intros [id ->]. rewrite path_table_eq. pose proof (UplinkId_range id). lia.
Qed.
End layout.

(** The tables an uplink may use. *)
Definition uplink_tables (l : Layout) (id : UplinkId) : list u32 :=
  [path_table l id; policy_balance_table l id; policy_block_table l id].

Lemma uplink_tables_spec l id t : Layout_wf l -> t ∈ uplink_tables l id ->
  l_table_base l < t <= l_table_base l + 191 /\ (t - l_table_base l) mod 64 = UplinkId_get id.
Proof.
  intros Hl Ht. pose proof (UplinkId_range id). unfold uplink_tables in Ht.
  rewrite path_table_eq, policy_balance_table_eq, policy_block_table_eq in Ht by done.
  assert (exists k, 0 <= k <= 2 /\ t = l_table_base l + (UplinkId_get id + k * 64)) as (k & Hk & ->).
  { rewrite !elem_of_cons, elem_of_nil in Ht.
    destruct Ht as [->|[->|[->|[]]]]; [exists 0|exists 1|exists 2]; lia. }
  split; [lia|]. rewrite Z.add_simpl_l, Z.mod_add by lia. apply Z.mod_small. lia.
Qed.

Lemma uplink_tables_inj l a b t : Layout_wf l ->
  t ∈ uplink_tables l a -> t ∈ uplink_tables l b -> a = b.
Proof.
  intros Hl [_ Ha]%uplink_tables_spec [_ Hb]%uplink_tables_spec; try done.
  apply UplinkId_get_inj. congruence.
Qed.

(** ** The rules of a plan *)

(** Splits membership in the fixed part of the rule list. *)
Ltac rule_cases H :=
  rewrite ?elem_of_app, ?list_elem_of_fmap, ?elem_of_cons, ?elem_of_nil in H; destruct_or? H; try done.

Lemma uplink_rules_concat l family ids r :
  r ∈ concat (uplink_rules l family <$> ids) <-> exists id, id ∈ ids /\ r ∈ uplink_rules l family id.
Proof.
  rewrite list_elem_of_In, in_concat. setoid_rewrite <- list_elem_of_In.
  setoid_rewrite list_elem_of_fmap. naive_solver.
Qed.

Definition family_ids (config : Config) (family : Family) : list UplinkId :=
  u_id <$> family_uplinks config family.

(** The source rules a path asks for. *)
Definition path_source_rules (l : Layout) (family : Family) (input : Input) (u : Uplink) : list Rule :=
  match in_paths input !! mkPathKey (u_id u) family with
  | None => []
  | Some p => concat (source_rules l family (u_id u) <$> bset_iter (pi_local_addresses p))
  end.

Lemma source_rules_elem_of l family id a r :
  r ∈ source_rules l family id a <-> r = source_lookup l family id a \/ r = source_guard l family a.
Proof. unfold source_rules. rewrite !elem_of_cons, elem_of_nil. tauto. Qed.

Lemma path_source_rules_elem_of l family input u r :
  r ∈ path_source_rules l family input u <->
  exists p a, in_paths input !! mkPathKey (u_id u) family = Some p /\ a ∈ pi_local_addresses p /\
    (r = source_lookup l family (u_id u) a \/ r = source_guard l family a).
Proof.
  unfold path_source_rules. destruct (in_paths input !! _) as [p|].
  - rewrite list_elem_of_In, in_concat. setoid_rewrite <- list_elem_of_In. split.
    + intros (rs & (a & -> & Ha%bset_iter_elem_of)%list_elem_of_fmap & Hr). exists p, a. split_and!; [done..|].
      by apply source_rules_elem_of.
    + intros (p' & a & [= <-] & Ha & Hr). exists (source_rules l family (u_id u) a). split.
      * apply list_elem_of_fmap. exists a. split; [done|]. by apply bset_iter_elem_of.
      * by apply source_rules_elem_of.
  - rewrite elem_of_nil. naive_solver.
Qed.

Lemma plan_uplink_rules l family input acc u r :
  r ∈ d_rules (fst (plan_uplink l family input acc u)) <->
  r ∈ d_rules (fst acc) \/ r ∈ path_source_rules l family input u.
Proof.
  destruct acc as [desired members]. unfold plan_uplink, path_source_rules.
  destruct (in_paths input !! _) as [p|]; simpl; [|rewrite elem_of_nil; tauto].
  destruct (pi_ready p); simpl; by rewrite bset_extend_elem_of.
Qed.

Lemma plan_uplinks_rules l family input acc us r :
  r ∈ d_rules (fst (foldl (plan_uplink l family input) acc us)) <->
  r ∈ d_rules (fst acc) \/ exists u, u ∈ us /\ r ∈ path_source_rules l family input u.
Proof.
  revert acc. induction us as [|u us IH]; intros acc; simpl.
  - split; [by left|]. intros [|(u & Hu%not_elem_of_nil & _)]; done.
  - rewrite IH, plan_uplink_rules. setoid_rewrite elem_of_cons. naive_solver.
Qed.

(** The rules of one family. *)
Definition family_rule (config : Config) (input : Input) (family : Family) (r : Rule) : Prop :=
  Config_manages config family = true /\
  (r ∈ static_rules (Layout_of config) family (family_ids config family) \/
   exists u, u ∈ family_uplinks config family /\ r ∈ path_source_rules (Layout_of config) family input u).

Lemma plan_family_rules config input desired family r :
  r ∈ d_rules (plan_family config input desired family) <->
  r ∈ d_rules desired \/ family_rule config input family r.
Proof.
  unfold plan_family, family_rule. destruct (Config_manages config family); simpl; [|naive_solver].
  destruct (foldl _ _ _) as [d members] eqn:E. apply (f_equal (fun x => d_rules (fst x))) in E. simpl in E.
  assert (r ∈ d_rules (match members with [] => d | _ => mkDesired (d_rules d)
    (<[(family, balancing_table (Layout_of config)) := mkRoute family (balancing_table (Layout_of config))
       None (balancing_nexthops members)]> (d_routes d)) end) <-> r ∈ d_rules d) as -> by by destruct members.
  rewrite <- E, plan_uplinks_rules. simpl. rewrite bset_extend_elem_of. unfold family_ids. naive_solver.
Qed.

Lemma plan_rules config input r :
  r ∈ d_rules (plan config input) <-> exists family, family_rule config input family r.
Proof.
  unfold plan, Family_ALL. simpl. rewrite !plan_family_rules. split.
  - intros [[Hr%not_elem_of_nil|Hr]|Hr]; [done|by exists V4|by exists V6].
  - intros [[] Hr]; tauto.
Qed.

(** ** The routes of a plan *)

(** The observed state of an uplink's path, when it is ready. *)
Definition ready_path (input : Input) (family : Family) (u : Uplink) : option ReadyPath :=
  p ← in_paths input !! mkPathKey (u_id u) family; pi_ready p.

(** Whether the path may serve policies: healthy and not drained. *)
Definition serves_policies (input : Input) (family : Family) (u : Uplink) : bool :=
  match in_paths input !! mkPathKey (u_id u) family with
  | Some p => pi_healthy p && negb (pi_drained p)
  | None => false
  end.

Definition is_active (input : Input) (family : Family) (u : Uplink) : bool :=
  match in_active input !! family with Some a => bool_decide (u_id u ∈ a) | None => false end.

(** The tables the path's single-hop route is planned in. *)
Definition planned_tables (l : Layout) (input : Input) (family : Family) (u : Uplink) : list u32 :=
  path_table l (u_id u) ::
  if serves_policies input family u
  then [policy_balance_table l (u_id u); policy_block_table l (u_id u)] else [].

Lemma planned_tables_uplink l input family u t :
  t ∈ planned_tables l input family u -> t ∈ uplink_tables l (u_id u).
Proof. unfold planned_tables, uplink_tables. destruct (serves_policies _ _ _); set_solver. Qed.

(** The hop an uplink contributes to the balancing route. *)
Definition member_of (input : Input) (family : Family) (u : Uplink) : option NextHop :=
  if is_active input family u
  then (fun r => mkNextHop (rp_ifindex r) (rp_gateway r) (rp_onlink r) (u_weight u)) <$>
         ready_path input family u
  else None.

Lemma plan_uplink_members l family input acc u :
  snd (plan_uplink l family input acc u) = snd acc ++ option_list (member_of input family u).
Proof.
  destruct acc as [desired members]. unfold plan_uplink, member_of, is_active, ready_path.
  destruct (in_paths input !! _) as [p|]; simpl; [destruct (pi_ready p); simpl|];
    repeat case_match; simpl; by rewrite ?app_nil_r.
Qed.

Lemma plan_uplinks_members l family input acc us :
  snd (foldl (plan_uplink l family input) acc us) = snd acc ++ omap (member_of input family) us.
Proof.
  revert acc. induction us as [|u us IH]; intros acc; simpl; [by rewrite app_nil_r|].
  rewrite IH, plan_uplink_members, <- app_assoc. f_equal. by destruct (member_of input family u).
Qed.

Lemma plan_uplink_lookup l family input acc u k :
  d_routes (fst (plan_uplink l family input acc u)) !! k =
  match ready_path input family u with
  | Some r => if bool_decide (fst k = family /\ snd k ∈ planned_tables l input family u)
              then Some (path_route family r (snd k)) else d_routes (fst acc) !! k
  | None => d_routes (fst acc) !! k
  end.
Proof.
  destruct acc as [desired members], k as [f t].
  unfold plan_uplink, ready_path, planned_tables, serves_policies.
  destruct (in_paths input !! _) as [p|]; simpl; [|done].
  destruct (pi_ready p) as [r|]; simpl; [|done].
  case_bool_decide as Hk.
  - destruct Hk as [-> Ht]. destruct (pi_healthy p && negb (pi_drained p)).
    + rewrite !elem_of_cons, elem_of_nil in Ht. rewrite !lookup_insert.
      repeat case_decide; simplify_eq; try done. naive_solver.
    + apply list_elem_of_singleton in Ht as ->. by rewrite lookup_insert_eq.
  - destruct (pi_healthy p && negb (pi_drained p)); rewrite ?lookup_insert_ne; try done;
      intros ?; simplify_eq; apply Hk; set_solver.
Qed.

(** With distinct ids, the routes of the uplinks of a family do not meet. *)
Lemma plan_uplinks_lookup l family input acc us k : Layout_wf l -> NoDup (u_id <$> us) ->
  (forall u r, u ∈ us -> ready_path input family u = Some r ->
     fst k = family -> snd k ∈ planned_tables l input family u ->
     d_routes (fst (foldl (plan_uplink l family input) acc us)) !! k = Some (path_route family r (snd k))) /\
  ((forall u, u ∈ us -> is_Some (ready_path input family u) ->
      ~ (fst k = family /\ snd k ∈ planned_tables l input family u)) ->
   d_routes (fst (foldl (plan_uplink l family input) acc us)) !! k = d_routes (fst acc) !! k).
Proof.
  intros Hl. revert acc. induction us as [|u us IH]; intros acc Hnd; simpl.
  { split; [|done]. intros u r Hu. by apply not_elem_of_nil in Hu. }
  rewrite fmap_cons in Hnd. apply NoDup_cons in Hnd as [Hu Hnd].
  specialize (IH (plan_uplink l family input acc u) Hnd) as [IH1 IH2]. split.
  - intros v r [->|Hv]%elem_of_cons Hr Hf Ht; [|by apply (IH1 v)].
    rewrite IH2; [by rewrite plan_uplink_lookup, Hr, bool_decide_eq_true_2|].
    intros w Hw _ [_ Ht']. apply Hu. apply list_elem_of_fmap. exists w. split; [|done].
    apply (uplink_tables_inj l _ _ (snd k) Hl); by eapply planned_tables_uplink.
  - intros Hno. rewrite IH2 by (intros; apply Hno; set_solver). rewrite plan_uplink_lookup.
    destruct (ready_path input family u) as [r|] eqn:E; [|done].
    rewrite bool_decide_eq_false_2; [done|]. apply Hno; [set_solver|by rewrite E].
Qed.

(** The single-hop routes of a family, and the balancing one. *)
Inductive planned_route (config : Config) (input : Input) (family : Family) (t : u32) : Route -> Prop :=
  | planned_single u r :
      u ∈ family_uplinks config family -> ready_path input family u = Some r ->
      t ∈ planned_tables (Layout_of config) input family u ->
      planned_route config input family t (path_route family r t)
  | planned_balancing members :
      t = balancing_table (Layout_of config) ->
      members = omap (member_of input family) (family_uplinks config family) -> members <> [] ->
      planned_route config input family t (mkRoute family t None (balancing_nexthops members)).

Lemma family_uplinks_nodup config family :
  NoDup (u_id <$> cf_uplinks config) -> NoDup (u_id <$> family_uplinks config family).
Proof.
  unfold family_uplinks. induction (cf_uplinks config) as [|u us IH]; [done|].
  rewrite fmap_cons, NoDup_cons. intros [Hu Hnd]. cbn [List.filter].
  destruct (bool_decide _); [|by apply IH]. rewrite fmap_cons. constructor; [|by apply IH].
  intros (v & E & [Hv _]%elem_of_list_filter_bool)%list_elem_of_fmap. apply Hu. rewrite E.
  by apply list_elem_of_fmap_2.
Qed.

Lemma balancing_not_planned l input family u : Layout_wf l ->
  balancing_table l ∉ planned_tables l input family u.
Proof.
  intros Hl Ht%planned_tables_uplink%uplink_tables_spec; [|done]. unfold balancing_table in Ht. lia.
Qed.

Definition config_wf (config : Config) : Prop :=
  Layout_wf (Layout_of config) /\ NoDup (u_id <$> cf_uplinks config).

(** The routes after the loop over the uplinks of a family. *)
Lemma plan_uplinks_routes config input family acc k r : config_wf config ->
  (fst k = family -> d_routes (fst acc) !! k = None) ->
  d_routes (fst (foldl (plan_uplink (Layout_of config) family input) acc (family_uplinks config family))) !! k
    = Some r <->
  d_routes (fst acc) !! k = Some r \/
  (fst k = family /\ exists u r', u ∈ family_uplinks config family /\
     ready_path input family u = Some r' /\
     snd k ∈ planned_tables (Layout_of config) input family u /\ r = path_route family r' (snd k)).
Proof.
  intros [Hl Hnd] Hnone.
  destruct (plan_uplinks_lookup (Layout_of config) family input acc (family_uplinks config family) k Hl
    (family_uplinks_nodup config family Hnd)) as [Hin Hout]. split.
  - intros Hr. destruct (decide (Exists (fun u => is_Some (ready_path input family u) /\
      fst k = family /\ snd k ∈ planned_tables (Layout_of config) input family u)
      (family_uplinks config family))) as [Hex|Hno].
    + apply Exists_exists in Hex as (u & Hu & [r' Hr'] & Hf & Ht). right. split; [done|].
      exists u, r'. rewrite (Hin u r') in Hr by done. by simplify_eq.
    + left. rewrite Hout in Hr; [done|]. intros u Hu Hs Hk. apply Hno, Exists_exists. eauto.
  - intros [Hr|(Hf & u & r' & Hu & Hr' & Ht & ->)]; [|by apply (Hin u)].
    rewrite Hout; [done|]. intros u _ _ [Hf _]. by rewrite Hnone in Hr.
Qed.

Lemma plan_family_lookup config input desired family k r : config_wf config ->
  (fst k = family -> d_routes desired !! k = None) ->
  d_routes (plan_family config input desired family) !! k = Some r <->
  d_routes desired !! k = Some r \/
  (fst k = family /\ Config_manages config family = true /\ planned_route config input family (snd k) r).
Proof.
  intros Hwf Hnone. unfold plan_family.
  destruct (Config_manages config family) eqn:Em; simpl; [|naive_solver].
  set (acc := (mkDesired _ _, [])).
  pose proof (plan_uplinks_members (Layout_of config) family input acc (family_uplinks config family)) as Hmem.
  pose proof (plan_uplinks_routes config input family acc k r Hwf Hnone) as Hr.
  destruct (foldl _ _ _) as [d members] eqn:E. cbn [fst snd d_routes app acc] in *.
  destruct (decide (members <> [] /\ k = (family, balancing_table (Layout_of config)))) as [[Hne ->]|Hk].
  - assert (Hns : forall u, balancing_table (Layout_of config) ∉ planned_tables (Layout_of config) input family u)
      by (intros u; apply balancing_not_planned, Hwf).
    destruct members as [|h hs]; [done|]. cbn [d_routes fst snd]. rewrite lookup_insert_eq.
    rewrite (Hnone eq_refl). split.
    + intros [= <-]. right. split_and!; [done..|]. by apply planned_balancing.
    + intros [|(_ & _ & Hp)]; [done|]. inversion Hp as [u r' _ _ Ht|? ? -> _]; subst; [by apply Hns in Ht|].
      by rewrite <- Hmem.
  - assert (Hd : d_routes d !! k = Some r <-> d_routes desired !! k = Some r \/
      (fst k = family /\ true = true /\ planned_route config input family (snd k) r)).
    { rewrite Hr. split.
      - intros [Hd|(Hf & u & r' & Hu & Hr' & Ht & ->)]; [by left|]. right. split_and!; [done..|].
        by eapply planned_single.
      - intros [Hd|(Hf & _ & Hp)]; [by left|]. inversion Hp as [u r' Hu Hr' Ht|ms Ht Hms Hne]; subst.
        + right. split; [done|]. eauto 10.
        + exfalso. apply Hk. split; [done|]. destruct k; simpl in *. by subst. }
    destruct members as [|h hs]; [done|]. cbn [d_routes]. rewrite lookup_insert_ne; [done|].
    intros <-. by apply Hk.
Qed.

Lemma plan_routes config input family t r : config_wf config ->
  d_routes (plan config input) !! (family, t) = Some r <->
  Config_manages config family = true /\ planned_route config input family t r.
Proof.
  intros Hwf. unfold plan, Family_ALL. simpl.
  assert (H4 : forall k r, d_routes (plan_family config input Desired_default V4) !! k = Some r <->
    fst k = V4 /\ Config_manages config V4 = true /\ planned_route config input V4 (snd k) r).
  { intros k r'. rewrite plan_family_lookup by done. naive_solver. }
  rewrite plan_family_lookup; [|done|].
  - rewrite H4. simpl. destruct family; naive_solver.
  - simpl. intros E. apply eq_None_not_Some. intros [r' [Hf _]%H4]. simpl in *. congruence.
Qed.

(** ** The shapes of the rules, with the sums written out *)

Inductive rule_shape (config : Config) (input : Input) (family : Family) : Rule -> Prop :=
  | shape_probe id : id ∈ family_ids config family ->
      rule_shape config input family
        (mkRule family (l_priority_base (Layout_of config) + UplinkId_get id)
           (Some (layout_value (Layout_of config) (FieldValue_probe id))) None
           (Lookup (path_table (Layout_of config) id)) (ProbeLookup id))
  | shape_probe_guard :
      rule_shape config input family
        (mkRule family (l_priority_base (Layout_of config) + 64)
           (Some (layout_class (Layout_of config) FieldValue_PROBE_CLASS)) None Unreachable ProbeGuard)
  | shape_main :
      rule_shape config input family
        (mkRule family (l_priority_base (Layout_of config) + 100) None None
           LookupMainSuppressDefault MainBypass)
  | shape_path id : id ∈ family_ids config family ->
      rule_shape config input family
        (mkRule family (l_priority_base (Layout_of config) + 200 + UplinkId_get id)
           (Some (layout_value (Layout_of config) (FieldValue_path id))) None
           (Lookup (path_table (Layout_of config) id)) (PathLookup id))
  | shape_path_guard k : 0 <= k < 6 ->
      rule_shape config input family
        (mkRule family (l_priority_base (Layout_of config) + 264)
           (Some (FwMask_encode (l_mask (Layout_of config)) (FieldValue_raw (wrap 8 (Z.shiftl 1 k))),
                  FwMask_encode (l_mask (Layout_of config))
                    (FieldValue_raw (Z.lor 0xc0 (wrap 8 (Z.shiftl 1 k))))))
           None Unreachable PathGuard)
  | shape_balance_lookup id : id ∈ family_ids config family ->
      rule_shape config input family
        (mkRule family (l_priority_base (Layout_of config) + 300 + UplinkId_get id)
           (Some (layout_value (Layout_of config) (FieldValue_policy_balance id))) None
           (Lookup (policy_balance_table (Layout_of config) id)) (PolicyBalanceLookup id))
  | shape_block_lookup id : id ∈ family_ids config family ->
      rule_shape config input family
        (mkRule family (l_priority_base (Layout_of config) + 400 + UplinkId_get id)
           (Some (layout_value (Layout_of config) (FieldValue_policy_block id))) None
           (Lookup (policy_block_table (Layout_of config) id)) (PolicyBlockLookup id))
  | shape_block_guard :
      rule_shape config input family
        (mkRule family (l_priority_base (Layout_of config) + 464)
           (Some (layout_class (Layout_of config) FieldValue_POLICY_BLOCK_CLASS)) None
           Unreachable PolicyBlockGuard)
  | shape_source u p a : u ∈ family_uplinks config family ->
      in_paths input !! mkPathKey (u_id u) family = Some p -> a ∈ pi_local_addresses p ->
      rule_shape config input family
        (mkRule family (l_priority_base (Layout_of config) + 500 + UplinkId_get (u_id u))
           (Some (0, FwMask_mask (l_mask (Layout_of config)))) (Some a)
           (Lookup (path_table (Layout_of config) (u_id u))) (SourceLookup (u_id u)))
  | shape_source_guard u p a : u ∈ family_uplinks config family ->
      in_paths input !! mkPathKey (u_id u) family = Some p -> a ∈ pi_local_addresses p ->
      rule_shape config input family
        (mkRule family (l_priority_base (Layout_of config) + 564)
           (Some (0, FwMask_mask (l_mask (Layout_of config)))) (Some a) Unreachable SourceGuard)
  | shape_balance :
      rule_shape config input family
        (mkRule family (l_priority_base (Layout_of config) + 600) None None
           (Lookup (balancing_table (Layout_of config))) BalanceKind)
  | shape_final :
      rule_shape config input family
        (mkRule family (l_priority_base (Layout_of config) + 699) None None Unreachable FinalGuard).

Lemma family_rule_shape config input family r : Layout_wf (Layout_of config) ->
  family_rule config input family r <->
  Config_manages config family = true /\ rule_shape config input family r.
Proof.
  intros Hl. unfold family_rule. apply and_iff_compat_l. split.
  - intros [Hr|(u & Hu & (p & a & Hp & Ha & Hr)%path_source_rules_elem_of)].
    + unfold static_rules in Hr. rewrite !elem_of_app, uplink_rules_concat, list_elem_of_fmap in Hr.
      rewrite !elem_of_cons, !elem_of_nil in Hr. rewrite !priority_base_add in Hr by (done || lia).
      destruct Hr as [(id & Hid & Hr)|[[->|[->|[]]]|[(k & -> & Hk%elem_of_seqZ)|[->|[->|[->|[]]]]]]];
        try by constructor.
      * pose proof (UplinkId_range id). unfold uplink_rules in Hr.
        rewrite !priority_base_add2, priority_base_add in Hr by (done || lia).
        rewrite !elem_of_cons, elem_of_nil in Hr. destruct Hr as [->|[->|[->|[->|[]]]]]; by constructor.
      * unfold path_guard. rewrite priority_base_add by (done || lia). constructor. lia.
    + pose proof (UplinkId_range (u_id u)). unfold source_lookup, source_guard in Hr.
      rewrite priority_base_add2, priority_base_add in Hr by (done || lia).
      destruct Hr as [->| ->]; by econstructor.
  - intros Hr. unfold static_rules. setoid_rewrite elem_of_app. rewrite uplink_rules_concat.
    rewrite !elem_of_app, list_elem_of_fmap, !elem_of_cons, !elem_of_nil.
    rewrite !priority_base_add by (done || lia). unfold uplink_rules.
    destruct Hr as [id Hid| | |id Hid|k Hk|id Hid|id Hid| |u p a Hu Hp Ha|u p a Hu Hp Ha| |];
      try pose proof (UplinkId_range id); try tauto.
    + left; left. exists id. split; [done|]. rewrite priority_base_add by (done || lia). set_solver.
    + left; left. exists id. split; [done|]. rewrite priority_base_add2 by (done || lia). set_solver.
    + left. right. right. left. exists k. split; [|apply elem_of_seqZ; lia].
      unfold path_guard. by rewrite priority_base_add by (done || lia).
    + left; left. exists id. split; [done|]. rewrite !priority_base_add2 by (done || lia). set_solver.
    + left; left. exists id. split; [done|]. rewrite !priority_base_add2 by (done || lia). set_solver.
    + right. exists u. split; [done|]. apply path_source_rules_elem_of. exists p, a. split_and!; [done..|].
      left. pose proof (UplinkId_range (u_id u)). unfold source_lookup.
      by rewrite priority_base_add2 by (done || lia).
    + right. exists u. split; [done|]. apply path_source_rules_elem_of. exists p, a. split_and!; [done..|].
      right. unfold source_guard. by rewrite priority_base_add by (done || lia).
Qed.

Lemma plan_rule_shape config input r : Layout_wf (Layout_of config) ->
  r ∈ d_rules (plan config input) <->
  exists family, Config_manages config family = true /\ rule_shape config input family r.
Proof. intros Hl. rewrite plan_rules. by setoid_rewrite family_rule_shape. Qed.

(** ** Selecting marks *)

(** Masking a mark with an encoded selector reads the field through it. *)
Lemma land_encode m mark a : FwMask_wf m -> fits 32 mark -> fits 8 a ->
  Z.land mark (FwMask_encode m (FieldValue_raw a)) =
  FwMask_encode m (FieldValue_raw (Z.land (FieldValue_get (FwMask_field m mark)) a)).
Proof.
  intros Hm Hmark Ha. unfold FwMask_encode, FwMask_field; simpl.
  assert (Hf : fits 8 (wrap 8 (Z.shiftr mark (FwMask_shift m)))) by (unfold fits, wrap; apply Z.mod_pos_bound; lia).
  assert (Hland : fits 8 (Z.land (wrap 8 (Z.shiftr mark (FwMask_shift m))) a)).
  { apply Z_testbit_fits; [lia|apply Z.land_nonneg; left; apply Hf|].
    intros i Hi. rewrite Z.land_spec, (testbit_high 8 a) by (done || lia). apply andb_false_r. }
  apply Z.bits_inj'. intros i Hi. rewrite Z.land_spec, !encoded_testbit by done.
  rewrite Z.land_spec. unfold FwMask_wf in Hm. destruct (Z.leb_spec (FwMask_shift m) i); simpl; [|apply andb_false_r].
  rewrite wrap_testbit, Z.shiftr_spec by lia. rewrite Z.sub_add.
  destruct (Z.ltb_spec (i - FwMask_shift m) 8); simpl; [done|].
  rewrite (testbit_high 8 a) by (done || lia). apply andb_false_r.
Qed.

Lemma select_encode m mark a b : FwMask_wf m -> fits 32 mark -> fits 8 a -> fits 8 b ->
  Z.land mark (FwMask_encode m (FieldValue_raw a)) = FwMask_encode m (FieldValue_raw b) <->
  Z.land (FieldValue_get (FwMask_field m mark)) a = b.
Proof.
  intros Hm Hmark Ha Hb. rewrite land_encode by done. split; [|by intros <-].
  intros E%FieldValue_encode_inj; [by injection E|done| |done]. simpl.
  apply Z_testbit_fits; [lia|apply Z.land_nonneg; right; apply Ha|].
  intros i Hi. rewrite Z.land_spec, (testbit_high 8 a) by (done || lia). apply andb_false_r.
Qed.

Lemma field_fits m mark : fits 8 (FieldValue_get (FwMask_field m mark)).
Proof. unfold FwMask_field, fits, wrap; simpl. apply Z.mod_pos_bound. lia. Qed.

(** A statement on bytes, checked on the 256 of them. *)
Lemma byte_forall (P : Z -> bool) v : forallb P (seqZ 0 256) = true -> fits 8 v -> P v = true.
Proof. intros HP [H0 H1]. apply (proj1 (forallb_elem_of P (seqZ 0 256)) HP). apply elem_of_seqZ. lia. Qed.

Lemma land_255 v : fits 8 v -> Z.land v 255 = v.
Proof. intros Hv. apply Z.eqb_eq. by apply (byte_forall (fun v => Z.land v 255 =? v)). Qed.

(** The six path guards together match exactly the path-class values. *)
Lemma path_guards_match v : fits 8 v ->
  existsb (fun k => Z.land v (Z.lor 0xc0 (wrap 8 (Z.shiftl 1 k))) =? wrap 8 (Z.shiftl 1 k)) (seqZ 0 6) =
  in_range 1 63 v.
Proof.
  intros Hv. apply eqb_prop.
  apply (byte_forall (fun v => Bool.eqb (existsb (fun k => Z.land v (Z.lor 0xc0 (wrap 8 (Z.shiftl 1 k))) =?
    wrap 8 (Z.shiftl 1 k)) (seqZ 0 6)) (in_range 1 63 v))); [by vm_compute|done].
Qed.

(** A small configuration and input, on which the statements are exercised. *)
Module Sample.
Definition health : HealthConf :=
  mkHealthConf (from_secs 5) (from_secs 1) 2 1 3 3 [] [] (mkQuality None None None) 10 10.
Definition uplink (n : Z) (weight : u16) : Uplink :=
  mkUplink (uid n) (lit "u") [] (lit "wan") (Some 1) weight
    (Some (mkPathSettings Auto Auto false Nat_Masquerade)) None health.
Definition config : Config :=
  mkConfig (mkRouting 1000 1000 61 FwMask_DEFAULT Ready [] true (from_secs 30) OnShutdown_Keep)
    (mkFirewall Managed 100 (lit "/usr/sbin/nft")) [lit "lan"] [uplink 1 3; uplink 2 1] []
    (mkNotify 0 None [] []) (mkApi [] [] None None) None [] [].
Definition path (ifindex : Z) (a : Z) : PathInput :=
  mkPathInput (Some (mkReadyPath ifindex (Some (IpV4 (a - 1))) false (IpV4 a))) {[IpV4 a]} true false.
Definition input : Input :=
  mkInput (<[mkPathKey (uid 1) V4 := path 5 3221225986]>
           (<[mkPathKey (uid 2) V4 := path 6 1681915906]> ∅))
    (<[V4 := {[uid 1; uid 2]}]> ∅).
Lemma config_ok : config_wf config.
Proof.
  split.
  - split; unfold FwMask_wf; simpl; lia.
  - refine (bool_decide_eq_true_1 _ _). by vm_compute.
Qed.
End Sample.

(** ** Properties *)

Lemma selector_in_mask m a : FwMask_wf m -> fits 8 a ->
  fits 32 (FwMask_encode m (FieldValue_raw a)) /\
  Z.ldiff (FwMask_encode m (FieldValue_raw a)) (FwMask_mask m) = 0.
Proof.
  intros Hm Ha. unfold FwMask_encode; simpl. split.
  - unfold fits, wrap. apply Z.mod_pos_bound. lia.
  - apply Z.bits_inj'. intros i Hi.
    rewrite Z.ldiff_spec, encoded_testbit, FwMask_mask_testbit, Z.bits_0 by done.
    unfold in_range. destruct (Z.leb_spec (FwMask_shift m) i); simpl; [|done].
    destruct (Z.leb_spec i (FwMask_shift m + 7)); simpl; [apply andb_false_r|].
    rewrite (testbit_high 8 a) by (done || lia). done.
Qed.

Lemma class_mask_encode m : FwMask_class_mask m = FwMask_encode m (FieldValue_raw FieldValue_CLASS_BITS).
Proof. done. Qed.
Lemma mask_encode m : FwMask_mask m = FwMask_encode m (FieldValue_raw 0xff).
Proof. done. Qed.
Lemma zero_encode m : FwMask_encode m (FieldValue_raw 0) = 0.
Proof. unfold FwMask_encode; simpl. by rewrite Z.shiftl_0_l. Qed.

Lemma byte_255_fits : fits 8 0xff.
Proof. done. Qed.
#[local] Hint Resolve byte_255_fits : pw.

Lemma guard_bit_fits k : 0 <= k < 6 -> fits 8 (wrap 8 (Z.shiftl 1 k)) /\
  fits 8 (Z.lor 0xc0 (wrap 8 (Z.shiftl 1 k))).
Proof.
  intros Hk. assert (k = 0 \/ k = 1 \/ k = 2 \/ k = 3 \/ k = 4 \/ k = 5) as Hc by lia.
  destruct Hc as [->|[->|[->|[->|[->| ->]]]]]; vm_compute; done.
Qed.

(** Both halves of a selector are encoded bytes. *)
Lemma rule_selector config input family r m k : rule_shape config input family r ->
  rule_fwmark r = Some (m, k) -> exists a b, fits 8 a /\ fits 8 b /\
    m = FwMask_encode (l_mask (Layout_of config)) (FieldValue_raw a) /\
    k = FwMask_encode (l_mask (Layout_of config)) (FieldValue_raw b).
Proof.
  intros Hr Hm.
  destruct Hr as [id Hid| | |id Hid|k' Hk|id Hid|id Hid| |u p a Hu Hp Ha|u p a Hu Hp Ha| |];
    simpl in Hm; try done; injection Hm as <- <-.
  - exists (FieldValue_get (FieldValue_probe id)), 0xff. auto with pw.
  - exists 0x40, FieldValue_CLASS_BITS. done.
  - exists (FieldValue_get (FieldValue_path id)), 0xff. auto with pw.
  - eexists _, _. split_and!; [| |reflexivity..]; by apply guard_bit_fits.
  - exists (FieldValue_get (FieldValue_policy_balance id)), 0xff. auto with pw.
  - exists (FieldValue_get (FieldValue_policy_block id)), 0xff. auto with pw.
  - exists 0xc0, FieldValue_CLASS_BITS. done.
  - exists 0, 0xff. by rewrite zero_encode.
  - exists 0, 0xff. by rewrite zero_encode.
Qed.

Lemma balancing_nexthops_ne members : members <> [] -> balancing_nexthops members <> [].
Proof.
  intros Hne. unfold balancing_nexthops. destruct (sort_by_key id members) as [|h hs] eqn:E.
  - by apply sort_by_key_nil in E.
  - by destruct hs.
Qed.

Lemma planned_route_spec config input family t r : Layout_wf (Layout_of config) ->
  planned_route config input family t r ->
  route_family r = family /\ route_table r = t /\ route_nexthops r <> [] /\
  l_table_base (Layout_of config) <= t <= l_table_base (Layout_of config) + 191.
Proof.
  intros Hl [u r' Hu Hr' Ht|members -> -> Hne]; (split; [done|]; split; [done|]; split; [try done|]).
  - apply planned_tables_uplink, uplink_tables_spec in Ht; [lia|done].
  - by apply balancing_nexthops_ne.
  - unfold balancing_table. lia.
Qed.

(** Every planned artifact stays inside what PolyWAN owns, with no
    wrap-around: rule priorities in its 700 priorities, looked-up and route
    tables in its 192 tables (never a reserved one), selectors and their
    values within the reserved byte of the mark, and only families that the
    configuration manages. *)
Theorem plan_owned (config : Config) (input : Input) (Hwf : config_wf config) :
  (forall r, r ∈ d_rules (plan config input) ->
     Config_manages config (rule_family r) = true /\
     l_priority_base (Layout_of config) < rule_priority r <= l_priority_base (Layout_of config) + 699 /\
     (forall t, rule_action r = Lookup t ->
        l_table_base (Layout_of config) <= t <= l_table_base (Layout_of config) + 191) /\
     (forall m k, rule_fwmark r = Some (m, k) -> fits 32 m /\ fits 32 k /\
        Z.ldiff m (FwMask_mask (l_mask (Layout_of config))) = 0 /\
        Z.ldiff k (FwMask_mask (l_mask (Layout_of config))) = 0)) /\
  (forall family t r, d_routes (plan config input) !! (family, t) = Some r ->
     Config_manages config family = true /\ route_family r = family /\ route_table r = t /\
     route_nexthops r <> [] /\
     l_table_base (Layout_of config) <= t <= l_table_base (Layout_of config) + 191 /\
     (t < 253 \/ 255 < t)).
Proof.
  destruct Hwf as [Hl Hnd]. split.
  - intros r (family & Hman & Hr)%plan_rule_shape; [|done]. split; [|split; [|split]].
    + by destruct Hr.
    + destruct Hr as [i ?| | |i ?| |i ?|i ?| |u ? ? ? ? ?|u ? ? ? ? ?| |]; cbn [rule_priority];
        try pose proof (UplinkId_range i); try pose proof (UplinkId_range (u_id u)); lia.
    + intros t Ht.
      destruct Hr as [i ?| | |i ?| |i ?|i ?| |u ? ? ? ? ?|u ? ? ? ? ?| |]; cbn [rule_action] in Ht; try done;
        injection Ht as <-; try pose proof (UplinkId_range i); try pose proof (UplinkId_range (u_id u));
        unfold balancing_table;
        rewrite ?path_table_eq, ?policy_balance_table_eq, ?policy_block_table_eq by done; (lia || (simpl; lia)).
    + intros m k Hmk. destruct (rule_selector _ _ _ _ _ _ Hr Hmk) as (a & b & Ha & Hb & -> & ->).
      destruct (selector_in_mask (l_mask (Layout_of config)) a), (selector_in_mask (l_mask (Layout_of config)) b);
        try done; apply Hl.
  - intros family t r [Hman Hr]%plan_routes; [|done].
    destruct (planned_route_spec config input family t r Hl Hr) as (Hf & Ht & Hne & Hrange).
    destruct (lw_reserved _ Hl); split_and!; done || lia.
Qed.

Lemma plan_owned_witness :
  exists r, d_routes (plan Sample.config Sample.input) !! (V4, 1065) = Some r /\ route_nexthops r <> [].
Proof.
  destruct (d_routes (plan Sample.config Sample.input) !! (V4, 1065)) as [r|] eqn:E; [|by vm_compute in E].
  exists r. split; [done|].
  apply (proj2 (plan_owned Sample.config Sample.input Sample.config_ok) V4 1065 r E).
Defined.

(** C8: The routes of a plan, exactly.  A managed family has, for each
    configured and ready path, its single-hop route with its source in the
    path table and, while the path is healthy and not drained, in its two
    policy tables; the balancing table holds the sorted hops of the active,
    ready paths with their weights (1 for a single hop) and no source; there
    is no other route. *)
Theorem plan_routes_spec (config : Config) (input : Input) (family : Family) (t : u32) (r : Route)
    (Hwf : config_wf config) :
  d_routes (plan config input) !! (family, t) = Some r <->
  Config_manages config family = true /\
  ((exists u rp, u ∈ cf_uplinks config /\ is_Some (Uplink_path u family) /\
      ready_path input family u = Some rp /\
      (t = path_table (Layout_of config) (u_id u) \/
       serves_policies input family u = true /\
         (t = policy_balance_table (Layout_of config) (u_id u) \/
          t = policy_block_table (Layout_of config) (u_id u))) /\
      r = mkRoute family t (Some (rp_source rp)) [mkNextHop (rp_ifindex rp) (rp_gateway rp) (rp_onlink rp) 1]) \/
   (t = balancing_table (Layout_of config) /\
    exists members, members = omap (member_of input family) (family_uplinks config family) /\
      members <> [] /\ r = mkRoute family t None (balancing_nexthops members))).
Proof.
  rewrite plan_routes by done. apply and_iff_compat_l. split.
  - intros [u rp [Hu Hp]%elem_of_list_filter_bool Hrp Ht|members -> -> Hne]; [left|right; eauto].
    apply bool_decide_eq_true in Hp. exists u, rp. split_and!; try done.
    unfold planned_tables in Ht. destruct (serves_policies input family u);
      rewrite ?elem_of_cons, ?elem_of_nil in Ht; tauto.
  - intros [(u & rp & Hu & Hp & Hrp & Ht & ->)|(-> & members & -> & Hne & ->)]; [|by apply planned_balancing].
    eapply planned_single; [|done|].
    + apply elem_of_list_filter_bool. by rewrite bool_decide_eq_true.
    + unfold planned_tables. destruct (serves_policies input family u);
        rewrite ?elem_of_cons, ?elem_of_nil; naive_solver.
Qed.

Lemma plan_routes_spec_witness :
  Config_manages Sample.config V4 = true /\
  d_routes (plan Sample.config Sample.input) !! (V4, 1000) =
    Some (mkRoute V4 1000 None [mkNextHop 5 (Some (IpV4 3221225985)) false 3;
                                mkNextHop 6 (Some (IpV4 1681915905)) false 1]).
Proof.
  assert (E : d_routes (plan Sample.config Sample.input) !! (V4, 1000) =
    Some (mkRoute V4 1000 None [mkNextHop 5 (Some (IpV4 3221225985)) false 3;
                                mkNextHop 6 (Some (IpV4 1681915905)) false 1])) by by vm_compute.
  split; [|exact E].
  exact (proj1 (proj1 (plan_routes_spec Sample.config Sample.input V4 1000 _ Sample.config_ok) E)).
Defined.

(** ** Taking paths out of service *)

Section without.
Context (config : Config) (input : Input) (paths : gset PathKey).

Lemma without_path k : in_paths (without input paths) !! k =
  (fun p => if bool_decide (k ∈ paths)
            then mkPathInput (pi_ready p) (pi_local_addresses p) false (pi_drained p) else p) <$>
  in_paths input !! k.
Proof. simpl. rewrite map_lookup_imap. by destruct (in_paths input !! k). Qed.

Lemma without_ready family u : ready_path (without input paths) family u = ready_path input family u.
Proof.
  unfold ready_path. rewrite without_path. destruct (in_paths input !! _); simpl; [|done].
  by destruct (bool_decide _).
Qed.

Lemma without_serves family u : serves_policies (without input paths) family u =
  serves_policies input family u && negb (bool_decide (mkPathKey (u_id u) family ∈ paths)).
Proof.
  unfold serves_policies. rewrite without_path. destruct (in_paths input !! _); simpl; [|done].
  destruct (bool_decide _); simpl; [by rewrite andb_false_r|by rewrite andb_true_r].
Qed.

Lemma without_active family u : is_active (without input paths) family u =
  is_active input family u && negb (bool_decide (mkPathKey (u_id u) family ∈ paths)).
Proof.
  unfold is_active. simpl. rewrite map_lookup_imap. destruct (in_active input !! family) as [a|]; simpl; [|done].
  rewrite <- bool_decide_not, <- bool_decide_and. apply bool_decide_ext. rewrite elem_of_filter. tauto.
Qed.

Lemma without_member family u : member_of (without input paths) family u =
  if bool_decide (mkPathKey (u_id u) family ∈ paths) then None else member_of input family u.
Proof.
  unfold member_of. rewrite without_active, without_ready.
  destruct (is_active input family u), (bool_decide _); done.
Qed.

Lemma without_source_rules family u r :
  r ∈ path_source_rules (Layout_of config) family (without input paths) u <->
  r ∈ path_source_rules (Layout_of config) family input u.
Proof.
  unfold path_source_rules. rewrite without_path. destruct (in_paths input !! _); simpl; [|done].
  by destruct (bool_decide _).
Qed.

Lemma without_rules r : r ∈ d_rules (plan config (without input paths)) <-> r ∈ d_rules (plan config input).
Proof. rewrite !plan_rules. unfold family_rule. by setoid_rewrite without_source_rules. Qed.
End without.

(** The routes of the tables of one uplink depend on that uplink alone. *)
Lemma plan_uplink_table config input family id t r : config_wf config ->
  t ∈ uplink_tables (Layout_of config) id ->
  d_routes (plan config input) !! (family, t) = Some r <->
  Config_manages config family = true /\
  exists u rp, u ∈ family_uplinks config family /\ u_id u = id /\ ready_path input family u = Some rp /\
    t ∈ planned_tables (Layout_of config) input family u /\ r = path_route family rp t.
Proof.
  intros Hwf Ht. pose proof Hwf as [Hl _]. rewrite plan_routes by done. apply and_iff_compat_l. split.
  - intros Hr. inversion Hr as [u rp Hu Hrp Htu|? Htu]; subst.
    + exists u, rp. split_and!; try done. by eapply uplink_tables_inj, Ht; [|eapply planned_tables_uplink].
    + apply uplink_tables_spec in Ht; [|done]. unfold balancing_table in *. lia.
  - intros (u & rp & Hu & _ & Hrp & Htu & ->). by eapply planned_single.
Qed.

Lemma policy_not_path l a b : Layout_wf l ->
  path_table l a <> policy_balance_table l b /\ path_table l a <> policy_block_table l b.
Proof.
  intros Hl. rewrite path_table_eq, policy_balance_table_eq, policy_block_table_eq by done.
  pose proof (UplinkId_range a). pose proof (UplinkId_range b). lia.
Qed.

(** Membership of the planned tables, by kind of table. *)
Lemma path_table_planned l input family u : path_table l (u_id u) ∈ planned_tables l input family u.
Proof. unfold planned_tables. set_solver. Qed.

Lemma policy_table_planned l input family u t : Layout_wf l ->
  t = policy_balance_table l (u_id u) \/ t = policy_block_table l (u_id u) ->
  t ∈ planned_tables l input family u <-> serves_policies input family u = true.
Proof.
  intros Hl Ht. destruct (policy_not_path l (u_id u) (u_id u) Hl). unfold planned_tables.
  destruct (serves_policies input family u); rewrite ?elem_of_cons, ?elem_of_nil; naive_solver.
Qed.

Section without_routes.
Context (config : Config) (input : Input) (paths : gset PathKey) (Hwf : config_wf config).

Lemma without_path_table family id :
  d_routes (plan config (without input paths)) !! (family, path_table (Layout_of config) id) =
  d_routes (plan config input) !! (family, path_table (Layout_of config) id).
Proof.
  apply option_eq. intros r. rewrite !(plan_uplink_table _ _ _ id) by (done || set_solver).
  apply and_iff_compat_l.
  split; intros (u & rp & Hu & <- & Hrp & _ & ->); exists u, rp; rewrite without_ready in *;
    eauto using path_table_planned.
Qed.

Lemma without_policy_table family u t : u ∈ cf_uplinks config ->
  t = policy_balance_table (Layout_of config) (u_id u) \/
  t = policy_block_table (Layout_of config) (u_id u) ->
  d_routes (plan config (without input paths)) !! (family, t) =
    if bool_decide (mkPathKey (u_id u) family ∈ paths) then None
    else d_routes (plan config input) !! (family, t).
Proof.
  intros Hu Ht. pose proof Hwf as [Hl _]. apply option_eq. intros r.
  assert (Htu : t ∈ uplink_tables (Layout_of config) (u_id u)) by set_solver.
  rewrite (plan_uplink_table _ _ _ _ _ _ Hwf Htu). case_bool_decide as Hp.
  - split; [|done]. intros (_ & v & rp & Hv & E & _ & Hs & _).
    rewrite policy_table_planned, without_serves, E, bool_decide_eq_true_2, andb_false_r in Hs
      by (rewrite ?E; done). done.
  - rewrite (plan_uplink_table _ _ _ _ _ _ Hwf Htu). apply and_iff_compat_l.
    split; intros (v & rp & Hv & E & Hrp & Hs & ->); exists v, rp; rewrite without_ready in *;
      rewrite policy_table_planned, without_serves, E, bool_decide_eq_false_2, andb_true_r in *
        by (rewrite ?E; done); rewrite ?policy_table_planned by (rewrite ?E; done); done.
Qed.

Lemma without_members family : omap (member_of (without input paths) family) (family_uplinks config family) =
  omap (member_of input family)
    (List.filter (fun u => negb (bool_decide (mkPathKey (u_id u) family ∈ paths)))
       (family_uplinks config family)).
Proof.
  induction (family_uplinks config family) as [|u us IH]; [done|].
  cbn [List.filter omap list_omap]. rewrite without_member.
  destruct (bool_decide _); simpl; [done|]. destruct (member_of input family u); [by f_equal|done].
Qed.
End without_routes.

(** Paths without installed mark assignments are taken out of service
    without touching anything else: [without] leaves every rule and every
    path table as it was, empties exactly the policy tables of those paths,
    and drops exactly their hops from the balancing route. *)
Theorem plan_without (config : Config) (input : Input) (paths : gset PathKey) (Hwf : config_wf config) :
  let l := Layout_of config in
  let before := plan config input in
  let after := plan config (without input paths) in
  (forall r, r ∈ d_rules after <-> r ∈ d_rules before) /\
  (forall family id, d_routes after !! (family, path_table l id) = d_routes before !! (family, path_table l id)) /\
  (forall family u t, u ∈ cf_uplinks config ->
     t = policy_balance_table l (u_id u) \/ t = policy_block_table l (u_id u) ->
     d_routes after !! (family, t) =
       if bool_decide (mkPathKey (u_id u) family ∈ paths) then None else d_routes before !! (family, t)) /\
  (forall family r, d_routes after !! (family, balancing_table l) = Some r ->
     route_nexthops r = balancing_nexthops (omap (member_of input family)
       (List.filter (fun u => negb (bool_decide (mkPathKey (u_id u) family ∈ paths)))
          (family_uplinks config family)))).
Proof.
  cbn zeta. split_and!.
  - intros r. apply without_rules.
  - intros family id. by apply without_path_table.
  - intros family u t. by apply without_policy_table.
  - intros family r [_ Hr]%plan_routes; [|done].
    inversion Hr as [v rp Hv Hrp Htv|members _ Hm Hne]; subst; [|by rewrite <- without_members].
    apply balancing_not_planned in Htv; [done|]. apply Hwf.
Qed.

Lemma plan_without_witness :
  let after := plan Sample.config (without Sample.input {[mkPathKey (uid 1) V4]}) in
  d_routes after !! (V4, 1065) = None /\ is_Some (d_routes after !! (V4, 1066)) /\
  d_routes after !! (V4, 1001) = d_routes (plan Sample.config Sample.input) !! (V4, 1001).
Proof.
  intros after. split_and!; [by vm_compute|by vm_compute; eauto|].
  exact (proj1 (proj2 (plan_without Sample.config Sample.input {[mkPathKey (uid 1) V4]} Sample.config_ok))
    V4 (uid 1)).
Defined.
