(* ===== verification/Forwarding.v ===== *)
(** * What the planned rules do to a packet

    The kernel's rule lookup is not part of the repository; [RuleLookup]
    states what the planner relies on (the documented behaviour of policy
    routing): rules are tried in priority order, a rule applies to a packet
    that its selectors match, and it ends the lookup when it has a verdict:
    a table that has a route for the packet, or [unreachable].
    [first_rule] is a concrete lookup that satisfies the interface.

    The theorems compose the planned rules and routes with any such lookup:
    a marked packet goes where its mark says, an unmarked one to the path of
    its address or to balancing, or they are unreachable. *)

From stdpp Require Import prelude gmap sorting.
From Stdlib Require Import ZArith Lia.
From S2P Require Import Prelude Text Model Durations Config Plan.

Local Open Scope Z_scope.

Record Packet := mkPacket { pkt_family : Family; pkt_mark : u32; pkt_source : IpAddr }.

Definition rule_matches (r : Rule) (p : Packet) : bool :=
  bool_decide (rule_family r = pkt_family p) &&
  match rule_fwmark r with Some (m, k) => Z.land (pkt_mark p) k =? m | None => true end &&
  match rule_source r with Some a => bool_decide (a = pkt_source p) | None => true end.

(** [has_route t]: the table has a route for the packet; [main]: the main
    table has one that is not a default route. *)
Definition rule_resolves (has_route : u32 -> bool) (main : bool) (r : Rule) : bool :=
  match rule_action r with
  | Lookup t => has_route t
  | LookupMainSuppressDefault => main
  | Unreachable => true
  end.

Class RuleLookup (lookup_rule : list Rule -> (u32 -> bool) -> bool -> Packet -> option Rule) : Prop := {
  rule_lookup_Some : forall rules has_route main p r,
    lookup_rule rules has_route main p = Some r ->
    r ∈ rules /\ rule_matches r p = true /\ rule_resolves has_route main r = true /\
    forall r', r' ∈ rules -> rule_matches r' p = true -> rule_resolves has_route main r' = true ->
      rule_priority r <= rule_priority r';
  rule_lookup_None : forall rules has_route main p,
    lookup_rule rules has_route main p = None ->
    forall r, r ∈ rules -> rule_matches r p = true -> rule_resolves has_route main r = false
}.

Definition first_rule (rules : list Rule) (has_route : u32 -> bool) (main : bool) (p : Packet) : option Rule :=
  min_by_key rule_priority
    (List.filter (fun r => rule_matches r p && rule_resolves has_route main r) rules).

#[export] Instance first_rule_RuleLookup : RuleLookup first_rule.
Proof.
  split.
  - intros rules has_route main p r [Hr Hmin]%min_by_key_Some.
    apply elem_of_list_filter_bool in Hr as [Hr Hm]. bool_simpl. split_and!; try done.
    intros r' Hr' Hm' Hres'. specialize (Hmin r').
    assert (cmp_leb (rule_priority r) (rule_priority r') = true) as Hle.
    { apply Hmin, elem_of_list_filter_bool. by rewrite Hm', Hres'. }
    unfold cmp_leb in Hle; cbn in Hle. rewrite <- Z.compare_le_iff.
    by destruct (rule_priority r ?= rule_priority r').
  - intros rules has_route main p Hnone%min_by_key_None r Hr Hm.
    destruct (rule_resolves has_route main r) eqn:E; [|done].
    assert (r ∈ List.filter (fun r => rule_matches r p && rule_resolves has_route main r) rules) as Hin
      by (apply elem_of_list_filter_bool; by rewrite Hm, E).
    rewrite Hnone in Hin. by apply not_elem_of_nil in Hin.
Qed.

(** The tables as the plan fills them. *)
Definition planned_has_route (d : Desired) (family : Family) (t : u32) : bool :=
  bool_decide (is_Some (d_routes d !! (family, t))).

(** ** Which planned rules match which field *)

Section matching.
Context (config : Config) (input : Input) (Hwf : config_wf config).
Context (p : Packet) (Hmark : fits 32 (pkt_mark p)).

Definition pkt_field : Z := FieldValue_get (FwMask_field (l_mask (Layout_of config)) (pkt_mark p)).

Lemma pkt_field_fits : fits 8 pkt_field.
Proof. apply field_fits. Qed.

Lemma mask_wf : FwMask_wf (l_mask (Layout_of config)).
Proof. apply Hwf. Qed.

(** A lookup rule of a value matches exactly the packets with that field. *)
Lemma value_matches v : fits 8 v ->
  (Z.land (pkt_mark p) (FwMask_mask (l_mask (Layout_of config))) =?
     FwMask_encode (l_mask (Layout_of config)) (FieldValue_raw v)) = (pkt_field =? v).
Proof.
  intros Hv. rewrite mask_encode. apply eq_true_iff_eq. rewrite !Z.eqb_eq.
  rewrite select_encode by (done || apply mask_wf). unfold pkt_field. by rewrite land_255 by apply field_fits.
Qed.

Lemma class_matches v : fits 8 v ->
  (Z.land (pkt_mark p) (FwMask_class_mask (l_mask (Layout_of config))) =?
     FwMask_encode (l_mask (Layout_of config)) (FieldValue_raw v)) =
  (Z.land pkt_field FieldValue_CLASS_BITS =? v).
Proof.
  intros Hv. rewrite class_mask_encode. apply eq_true_iff_eq. rewrite !Z.eqb_eq.
  by rewrite select_encode by (done || apply mask_wf).
Qed.

Lemma path_guard_matches k : 0 <= k < 6 ->
  (Z.land (pkt_mark p) (FwMask_encode (l_mask (Layout_of config))
     (FieldValue_raw (Z.lor 0xc0 (wrap 8 (Z.shiftl 1 k))))) =?
   FwMask_encode (l_mask (Layout_of config)) (FieldValue_raw (wrap 8 (Z.shiftl 1 k)))) =
  (Z.land pkt_field (Z.lor 0xc0 (wrap 8 (Z.shiftl 1 k))) =? wrap 8 (Z.shiftl 1 k)).
Proof.
  intros Hk. apply eq_true_iff_eq. rewrite !Z.eqb_eq. destruct (guard_bit_fits k Hk).
  by rewrite select_encode by (done || apply mask_wf).
Qed.

Lemma zero_matches :
  (Z.land (pkt_mark p) (FwMask_mask (l_mask (Layout_of config))) =? 0) = (pkt_field =? 0).
Proof. rewrite <- (value_matches 0) by done. by rewrite zero_encode. Qed.

(** The kinds of rules that match, as a condition on the field. *)
Definition kind_matches (k : RuleKind) : bool :=
  match k with
  | ProbeLookup id => pkt_field =? 64 + UplinkId_get id
  | ProbeGuard => Z.land pkt_field 0xc0 =? 0x40
  | PathLookup id => pkt_field =? UplinkId_get id
  | PathGuard => in_range 1 63 pkt_field
  | PolicyBalanceLookup id => pkt_field =? 128 + UplinkId_get id
  | PolicyBlockLookup id => pkt_field =? 192 + UplinkId_get id
  | PolicyBlockGuard => Z.land pkt_field 0xc0 =? 0xc0
  | SourceLookup _ | SourceGuard => pkt_field =? 0
  | MainBypass | BalanceKind | FinalGuard => true
  end.

Lemma shape_matches family r : rule_shape config input family r ->
  rule_matches r p = true -> kind_matches (rule_kind r) = true.
Proof.
  intros Hr. unfold rule_matches. rewrite !andb_true_iff. intros [[_ Hm] _].
  destruct Hr as [i ?| | |i ?|k ?|i ?|i ?| |u ? ? ? ? ?|u ? ? ? ? ?| |];
    cbn [rule_fwmark rule_kind kind_matches layout_value layout_class] in *; try done.
  - rewrite <- FieldValue_probe_get. rewrite <- value_matches; auto with pw.
  - change FieldValue_PROBE_CLASS with (FieldValue_raw 0x40) in Hm. by rewrite class_matches in Hm.
  - change (UplinkId_get i) with (FieldValue_get (FieldValue_path i)). rewrite <- value_matches; auto with pw.
  - rewrite path_guard_matches in Hm by done. rewrite <- path_guards_match by apply pkt_field_fits.
    apply existsb_elem_of. exists k. split; [apply elem_of_seqZ; lia|done].
  - rewrite <- FieldValue_balance_get. rewrite <- value_matches; auto with pw.
  - rewrite <- FieldValue_block_get. rewrite <- value_matches; auto with pw.
  - change FieldValue_POLICY_BLOCK_CLASS with (FieldValue_raw 0xc0) in Hm. by rewrite class_matches in Hm.
  - by rewrite zero_matches in Hm.
  - by rewrite zero_matches in Hm.
Qed.

(** The rules that are there for the packet's family, found by kind. *)
Lemma path_lookup_matches i : i ∈ family_ids config (pkt_family p) -> pkt_field = UplinkId_get i ->
  exists r, rule_shape config input (pkt_family p) r /\ rule_matches r p = true /\
    rule_action r = Lookup (path_table (Layout_of config) i) /\
    rule_priority r = l_priority_base (Layout_of config) + 200 + UplinkId_get i.
Proof.
  intros Hi Hf. eexists. split; [by apply (shape_path _ _ _ i)|]. split_and!; try done.
  unfold rule_matches. rewrite !andb_true_iff. split_and!; [by apply bool_decide_eq_true| |done].
  cbn [rule_fwmark layout_value].
  change (FieldValue_path i) with (FieldValue_raw (UplinkId_get i)).
  rewrite value_matches by apply (FieldValue_path_fits i). by apply Z.eqb_eq.
Qed.

Lemma path_guard_present : in_range 1 63 pkt_field = true ->
  exists r, rule_shape config input (pkt_family p) r /\ rule_matches r p = true /\
    rule_action r = Unreachable /\ rule_priority r = l_priority_base (Layout_of config) + 264.
Proof.
  intros Hf. rewrite <- path_guards_match in Hf by apply pkt_field_fits.
  apply existsb_elem_of in Hf as (k & Hk%elem_of_seqZ & Hm).
  eexists. split; [apply (shape_path_guard _ _ _ k); lia|]. split_and!; try done.
  unfold rule_matches. rewrite !andb_true_iff. split_and!; [by apply bool_decide_eq_true| |done].
  cbn [rule_fwmark]. by rewrite path_guard_matches by lia.
Qed.

Lemma probe_lookup_matches i : i ∈ family_ids config (pkt_family p) -> pkt_field = 64 + UplinkId_get i ->
  exists r, rule_shape config input (pkt_family p) r /\ rule_matches r p = true /\
    rule_action r = Lookup (path_table (Layout_of config) i) /\
    rule_priority r = l_priority_base (Layout_of config) + UplinkId_get i.
Proof.
  intros Hi Hf. eexists. split; [by apply (shape_probe _ _ _ i)|]. split_and!; try done.
  unfold rule_matches. rewrite !andb_true_iff. split_and!; [by apply bool_decide_eq_true| |done].
  cbn [rule_fwmark layout_value].
  change (FieldValue_probe i) with (FieldValue_raw (FieldValue_get (FieldValue_probe i))).
  rewrite value_matches by auto with pw. rewrite FieldValue_probe_get. by apply Z.eqb_eq.
Qed.

Lemma probe_guard_present : Z.land pkt_field 0xc0 = 0x40 ->
  exists r, rule_shape config input (pkt_family p) r /\ rule_matches r p = true /\
    rule_action r = Unreachable /\ rule_priority r = l_priority_base (Layout_of config) + 64.
Proof.
  intros Hf. eexists. split; [apply shape_probe_guard|]. split_and!; try done.
  unfold rule_matches. rewrite !andb_true_iff. split_and!; [by apply bool_decide_eq_true| |done].
  cbn [rule_fwmark layout_class]. change FieldValue_PROBE_CLASS with (FieldValue_raw 0x40).
  rewrite class_matches by done. by apply Z.eqb_eq.
Qed.

Lemma block_lookup_matches i : i ∈ family_ids config (pkt_family p) -> pkt_field = 192 + UplinkId_get i ->
  exists r, rule_shape config input (pkt_family p) r /\ rule_matches r p = true /\
    rule_action r = Lookup (policy_block_table (Layout_of config) i) /\
    rule_priority r = l_priority_base (Layout_of config) + 400 + UplinkId_get i.
Proof.
  intros Hi Hf. eexists. split; [by apply (shape_block_lookup _ _ _ i)|]. split_and!; try done.
  unfold rule_matches. rewrite !andb_true_iff. split_and!; [by apply bool_decide_eq_true| |done].
  cbn [rule_fwmark layout_value].
  change (FieldValue_policy_block i) with (FieldValue_raw (FieldValue_get (FieldValue_policy_block i))).
  rewrite value_matches by auto with pw. rewrite FieldValue_block_get. by apply Z.eqb_eq.
Qed.

Lemma balance_lookup_matches i : i ∈ family_ids config (pkt_family p) -> pkt_field = 128 + UplinkId_get i ->
  exists r, rule_shape config input (pkt_family p) r /\ rule_matches r p = true /\
    rule_action r = Lookup (policy_balance_table (Layout_of config) i) /\
    rule_priority r = l_priority_base (Layout_of config) + 300 + UplinkId_get i.
Proof.
  intros Hi Hf. eexists. split; [by apply (shape_balance_lookup _ _ _ i)|]. split_and!; try done.
  unfold rule_matches. rewrite !andb_true_iff. split_and!; [by apply bool_decide_eq_true| |done].
  cbn [rule_fwmark layout_value].
  change (FieldValue_policy_balance i) with (FieldValue_raw (FieldValue_get (FieldValue_policy_balance i))).
  rewrite value_matches by auto with pw. rewrite FieldValue_balance_get. by apply Z.eqb_eq.
Qed.

Lemma block_guard_present : Z.land pkt_field 0xc0 = 0xc0 ->
  exists r, rule_shape config input (pkt_family p) r /\ rule_matches r p = true /\
    rule_action r = Unreachable /\ rule_priority r = l_priority_base (Layout_of config) + 464.
Proof.
  intros Hf. eexists. split; [apply shape_block_guard|]. split_and!; try done.
  unfold rule_matches. rewrite !andb_true_iff. split_and!; [by apply bool_decide_eq_true| |done].
  cbn [rule_fwmark layout_class]. change FieldValue_POLICY_BLOCK_CLASS with (FieldValue_raw 0xc0).
  rewrite class_matches by done. by apply Z.eqb_eq.
Qed.

Lemma final_guard_present :
  exists r, rule_shape config input (pkt_family p) r /\ rule_matches r p = true /\
    rule_action r = Unreachable /\ rule_priority r = l_priority_base (Layout_of config) + 699.
Proof.
  eexists. split; [apply shape_final|]. split_and!; try done.
  unfold rule_matches. rewrite !andb_true_iff. split_and!; [by apply bool_decide_eq_true|done..].
Qed.
End matching.

(** ** The deciding rule *)

Section verdict.
Context {lookup_rule : list Rule -> (u32 -> bool) -> bool -> Packet -> option Rule}.
Context `{!RuleLookup lookup_rule}.
Context (config : Config) (input : Input) (Hwf : config_wf config).
Context (p : Packet) (Hmark : fits 32 (pkt_mark p)).
Context (Hman : Config_manages config (pkt_family p) = true) (main : bool).

Definition verdict : option Rule :=
  lookup_rule (d_rules (plan config input)) (planned_has_route (plan config input) (pkt_family p)) main p.

(** [r] decides: it is the first planned rule that matches and resolves. *)
Record decides (r : Rule) : Prop := {
  dec_verdict : verdict = Some r;
  dec_shape : rule_shape config input (pkt_family p) r;
  dec_kind : kind_matches config p (rule_kind r) = true;
  dec_matches : rule_matches r p = true;
  dec_resolves : rule_resolves (planned_has_route (plan config input) (pkt_family p)) main r = true;
  dec_first : forall r', rule_shape config input (pkt_family p) r' -> rule_matches r' p = true ->
    rule_resolves (planned_has_route (plan config input) (pkt_family p)) main r' = true ->
    rule_priority r <= rule_priority r'
}.

Lemma verdict_decides : exists r, decides r.
Proof.
  assert (Hin : forall r, rule_shape config input (pkt_family p) r -> r ∈ d_rules (plan config input)).
  { intros r Hr. apply plan_rule_shape; [apply Hwf|eauto]. }
  destruct (lookup_rule (d_rules (plan config input)) (planned_has_route (plan config input) (pkt_family p))
    main p) as [r|] eqn:E.
  - pose proof E as (Hr & Hm & Hres & Hmin)%rule_lookup_Some.
    apply plan_rule_shape in Hr as (family & Hf & Hr); [|apply Hwf].
    assert (family = pkt_family p) as ->.
    { unfold rule_matches in Hm. bool_simpl. rewrite <- H. by destruct Hr. }
    exists r. split; try done; [by eapply shape_matches|]. intros r' Hr'. by apply Hmin, Hin.
  - destruct (final_guard_present config input p) as (r & Hr & Hm & Ha & _).
    pose proof (rule_lookup_None _ _ _ _ E r (Hin r Hr) Hm) as Hno.
    unfold rule_resolves in Hno. by rewrite Ha in Hno.
Qed.

(** A rule of the family that matches and resolves bounds the deciding priority. *)
Lemma decides_le r r' : decides r -> rule_shape config input (pkt_family p) r' ->
  rule_matches r' p = true -> rule_resolves (planned_has_route (plan config input) (pkt_family p)) main r' = true ->
  rule_priority r <= rule_priority r'.
Proof. intros Hd. apply (dec_first r Hd). Qed.

Lemma unreachable_resolves r : rule_action r = Unreachable ->
  rule_resolves (planned_has_route (plan config input) (pkt_family p)) main r = true.
Proof. unfold rule_resolves. by intros ->. Qed.
End verdict.

(** A path table with a route belongs to a configured uplink. *)
Lemma has_route_family config input family i t : config_wf config ->
  t ∈ uplink_tables (Layout_of config) i ->
  planned_has_route (plan config input) family t = true -> i ∈ family_ids config family.
Proof.
  intros Hwf Ht Hr. unfold planned_has_route in Hr. apply bool_decide_eq_true in Hr as [r Hr].
  rewrite (plan_uplink_table _ _ _ i) in Hr by done. destruct Hr as (_ & u & rp & Hu & <- & _).
  by apply list_elem_of_fmap_2.
Qed.

Lemma class_of_path i : Z.land (UplinkId_get i) 0xc0 = 0.
Proof. pose proof (UplinkId_range i). apply (class_bits_get 0 (UplinkId_get i)); lia. Qed.
Lemma class_of_probe i : Z.land (64 + UplinkId_get i) 0xc0 = 0x40.
Proof. pose proof (UplinkId_range i). apply (class_bits_get 1 (UplinkId_get i)); lia. Qed.
Lemma class_of_balance i : Z.land (128 + UplinkId_get i) 0xc0 = 0x80.
Proof. pose proof (UplinkId_range i). apply (class_bits_get 2 (UplinkId_get i)); lia. Qed.
Lemma class_of_block i : Z.land (192 + UplinkId_get i) 0xc0 = 0xc0.
Proof. pose proof (UplinkId_range i). apply (class_bits_get 3 (UplinkId_get i)); lia. Qed.

(** Goes through the kinds of the deciding rule: the field excludes some,
    the priority bound others. *)
Ltac kinds Hd Hle :=
  destruct (dec_shape _ _ _ _ _ Hd) as [j ?| | |j ?|k ?|j ?|j ?| |u ? ? ? ? ?|u ? ? ? ? ?| |];
  let Hk := fresh "Hk" in let Hres := fresh "Hres" in
  pose proof (dec_kind _ _ _ _ _ Hd) as Hk; pose proof (dec_resolves _ _ _ _ _ Hd) as Hres;
  cbn [rule_kind kind_matches rule_priority rule_action] in *;
  unfold rule_resolves in Hres; cbn [rule_action] in Hres;
  try pose proof (UplinkId_range j); try pose proof (UplinkId_range (u_id u)); bool_simpl; try lia; try congruence.

Section isolation.
Context {lookup_rule : list Rule -> (u32 -> bool) -> bool -> Packet -> option Rule}.
Context `{!RuleLookup lookup_rule}.
Context (config : Config) (input : Input) (Hwf : config_wf config).
Context (p : Packet) (Hmark : fits 32 (pkt_mark p)).
Context (Hman : Config_manages config (pkt_family p) = true) (main : bool).

Local Abbreviation has_route := (planned_has_route (plan config input) (pkt_family p)) (only parsing).
Local Abbreviation base := (l_priority_base (Layout_of config)) (only parsing).

Local Abbreviation deciding r := (decides (lookup_rule := lookup_rule) config input p main r) (only parsing).

Lemma guard_bound r b : deciding r ->
  (exists g, rule_shape config input (pkt_family p) g /\ rule_matches g p = true /\
     rule_action g = Unreachable /\ rule_priority g = b) ->
  rule_priority r <= b.
Proof.
  intros Hd (g & Hg & Hm & Ha & <-). by apply (decides_le _ _ _ _ r g Hd Hg Hm), unreachable_resolves.
Qed.

Lemma lookup_bound r i t b : deciding r -> has_route t = true -> t ∈ uplink_tables (Layout_of config) i ->
  (i ∈ family_ids config (pkt_family p) ->
   exists q, rule_shape config input (pkt_family p) q /\ rule_matches q p = true /\
     rule_action q = Lookup t /\ rule_priority q = b) ->
  rule_priority r <= b.
Proof.
  intros Hd Ht Hti (q & Hq & Hm & Ha & <-); [by eapply has_route_family|].
  apply (decides_le _ _ _ _ r q Hd Hq Hm). unfold rule_resolves. by rewrite Ha.
Qed.

Lemma path_verdict i r : main = false -> pkt_field config p = UplinkId_get i -> deciding r ->
  rule_action r = if has_route (path_table (Layout_of config) i)
                  then Lookup (path_table (Layout_of config) i) else Unreachable.
Proof.
  intros Hmain Hf Hd. pose proof (UplinkId_range i) as Hi. pose proof (class_of_path i) as Hcl.
  rewrite <- Hf in Hcl.
  assert (Hin : in_range 1 63 (pkt_field config p) = true) by (apply in_range_spec; lia).
  assert (Hle := guard_bound r _ Hd (path_guard_present config input Hwf p Hmark Hin)).
  destruct (has_route (path_table (Layout_of config) i)) eqn:E.
  - assert (Hle2 := lookup_bound r i _ _ Hd E ltac:(set_solver)
      (fun Hi => path_lookup_matches config input Hwf p Hmark i Hi Hf)).
    kinds Hd Hle. by assert (j = i) as -> by (apply UplinkId_get_inj; lia).
  - kinds Hd Hle; try done. assert (j = i) as -> by (apply UplinkId_get_inj; lia). congruence.
Qed.

Lemma probe_verdict i r : pkt_field config p = 64 + UplinkId_get i -> deciding r ->
  rule_action r = if has_route (path_table (Layout_of config) i)
                  then Lookup (path_table (Layout_of config) i) else Unreachable.
Proof.
  intros Hf Hd. pose proof (UplinkId_range i) as Hi. pose proof (class_of_probe i) as Hcl.
  rewrite <- Hf in Hcl.
  assert (Hle := guard_bound r _ Hd (probe_guard_present config input Hwf p Hmark Hcl)).
  destruct (has_route (path_table (Layout_of config) i)) eqn:E.
  - assert (Hle2 := lookup_bound r i _ _ Hd E ltac:(set_solver)
      (fun Hi => probe_lookup_matches config input Hwf p Hmark i Hi Hf)).
    kinds Hd Hle. by assert (j = i) as -> by (apply UplinkId_get_inj; lia).
  - kinds Hd Hle; try done. assert (j = i) as -> by (apply UplinkId_get_inj; lia). congruence.
Qed.

Lemma block_verdict i r : main = false -> pkt_field config p = 192 + UplinkId_get i -> deciding r ->
  rule_action r = if has_route (policy_block_table (Layout_of config) i)
                  then Lookup (policy_block_table (Layout_of config) i) else Unreachable.
Proof.
  intros Hmain Hf Hd. pose proof (UplinkId_range i) as Hi. pose proof (class_of_block i) as Hcl.
  rewrite <- Hf in Hcl.
  assert (Hle := guard_bound r _ Hd (block_guard_present config input Hwf p Hmark Hcl)).
  destruct (has_route (policy_block_table (Layout_of config) i)) eqn:E.
  - assert (Hle2 := lookup_bound r i _ _ Hd E ltac:(set_solver)
      (fun Hi => block_lookup_matches config input Hwf p Hmark i Hi Hf)).
    kinds Hd Hle. by assert (j = i) as -> by (apply UplinkId_get_inj; lia).
  - kinds Hd Hle; try done. assert (j = i) as -> by (apply UplinkId_get_inj; lia). congruence.
Qed.

(** The priority of a resolving rule without selectors bounds the deciding one's. *)
Lemma open_bound r q : deciding r -> rule_shape config input (pkt_family p) q ->
  rule_fwmark q = None -> rule_source q = None -> rule_resolves has_route main q = true ->
  rule_priority r <= rule_priority q.
Proof.
  intros Hd Hq Hm Hs Hres. apply (decides_le _ _ _ _ r q Hd Hq); [|done]. unfold rule_matches. rewrite Hm, Hs.
  rewrite bool_decide_eq_true_2; [done|]. by destruct Hq.
Qed.

Lemma balancing_bound r : deciding r -> has_route (balancing_table (Layout_of config)) = true ->
  rule_priority r <= base + 600.
Proof. intros Hd Ht. by apply (open_bound r _ Hd (shape_balance config input (pkt_family p))). Qed.

(** Traffic of a balancing policy: its uplink, or the balancing table. *)
Lemma balance_verdict i r : main = false -> pkt_field config p = 128 + UplinkId_get i -> deciding r ->
  rule_action r = if has_route (policy_balance_table (Layout_of config) i)
                  then Lookup (policy_balance_table (Layout_of config) i)
                  else if has_route (balancing_table (Layout_of config))
                  then Lookup (balancing_table (Layout_of config)) else Unreachable.
Proof.
  intros Hmain Hf Hd. pose proof (UplinkId_range i) as Hi. pose proof (class_of_balance i) as Hcl.
  rewrite <- Hf in Hcl.
  assert (Hle := guard_bound r _ Hd (final_guard_present config input p)).
  destruct (has_route (policy_balance_table (Layout_of config) i)) eqn:E.
  - assert (Hle2 := lookup_bound r i _ _ Hd E ltac:(set_solver)
      (fun Hi => balance_lookup_matches config input Hwf p Hmark i Hi Hf)).
    kinds Hd Hle. by assert (j = i) as -> by (apply UplinkId_get_inj; lia).
  - assert (Hlow := balancing_bound r Hd). destruct (has_route (balancing_table (Layout_of config))) eqn:Eb;
      [specialize (Hlow eq_refl)|]; kinds Hd Hle; try done;
      assert (j = i) as -> by (apply UplinkId_get_inj; lia); congruence.
Qed.

(** A specific route of the main table carries everything but probes. *)
Lemma main_verdict r : main = true -> Z.land (pkt_field config p) 0xc0 <> 0x40 -> deciding r ->
  rule_action r = LookupMainSuppressDefault.
Proof.
  intros Hmain Hcl Hd.
  assert (Hle : rule_priority r <= base + 100) by by apply (open_bound r _ Hd (shape_main config input (pkt_family p))).
  kinds Hd Hle; try done. exfalso. apply Hcl. rewrite Hk. apply class_of_probe.
Qed.

(** The owner of a local address that can carry its traffic. *)
Definition local_owner (u : Uplink) : Prop :=
  u ∈ family_uplinks config (pkt_family p) /\
  (exists q, in_paths input !! mkPathKey (u_id u) (pkt_family p) = Some q /\
     pkt_source p ∈ pi_local_addresses q).

Lemma source_present u : local_owner u -> pkt_field config p = 0 ->
  (exists r, rule_shape config input (pkt_family p) r /\ rule_matches r p = true /\
     rule_action r = Lookup (path_table (Layout_of config) (u_id u)) /\
     rule_priority r = base + 500 + UplinkId_get (u_id u)) /\
  (exists g, rule_shape config input (pkt_family p) g /\ rule_matches g p = true /\
     rule_action g = Unreachable /\ rule_priority g = base + 564).
Proof.
  intros (Hu & q & Hq & Ha) Hf.
  assert (Hz : (Z.land (pkt_mark p) (FwMask_mask (l_mask (Layout_of config))) =? 0) = true)
    by (rewrite (zero_matches config Hwf p Hmark); by apply Z.eqb_eq).
  assert (Hm : forall prio action kind, rule_matches (mkRule (pkt_family p) prio
    (Some (0, FwMask_mask (l_mask (Layout_of config)))) (Some (pkt_source p)) action kind) p = true).
  { intros. unfold rule_matches. cbn [rule_family rule_fwmark rule_source].
    by rewrite !bool_decide_eq_true_2, Hz. }
  split; eexists.
  - split; [by eapply shape_source|]. split; [apply Hm|done].
  - split; [by eapply shape_source_guard|]. split; [apply Hm|done].
Qed.

Lemma source_matches_owner r : rule_shape config input (pkt_family p) r -> rule_matches r p = true ->
  match rule_kind r with
  | SourceLookup _ | SourceGuard => exists u, local_owner u /\
      (rule_kind r = SourceGuard \/ rule_action r = Lookup (path_table (Layout_of config) (u_id u)))
  | _ => True
  end.
Proof.
  intros Hr Hm. unfold rule_matches in Hm. bool_simpl.
  destruct Hr as [i ?| | |i ?|k ?|i ?|i ?| |u q a Hu Hq Ha|u q a Hu Hq Ha| |]; try done;
    cbn [rule_kind rule_source rule_action] in *; bool_simpl; subst a; exists u;
    (split; [split; eauto|eauto]).
Qed.

Lemma local_verdict r : main = false -> pkt_field config p = 0 -> deciding r ->
  (exists u, local_owner u) ->
  (exists v, local_owner v /\ has_route (path_table (Layout_of config) (u_id v)) = true /\
     rule_action r = Lookup (path_table (Layout_of config) (u_id v))) \/
  (rule_action r = Unreachable /\
   forall v, local_owner v -> has_route (path_table (Layout_of config) (u_id v)) = false).
Proof.
  intros Hmain Hf Hd [u0 Hu0].
  pose proof (guard_bound r _ Hd (proj2 (source_present u0 Hu0 Hf))) as Hle.
  pose proof (source_matches_owner r (dec_shape _ _ _ _ _ Hd) (dec_matches _ _ _ _ _ Hd)) as Hown.
  assert (Hcl : Z.land (pkt_field config p) 0xc0 = 0) by by rewrite Hf.
  assert (Hlow : forall v, local_owner v -> has_route (path_table (Layout_of config) (u_id v)) = true ->
    rule_priority r < base + 564).
  { intros v Hv Ht. pose proof (UplinkId_range (u_id v)).
    pose proof (lookup_bound r (u_id v) _ _ Hd Ht ltac:(set_solver)
      (fun _ => proj1 (source_present v Hv Hf))). lia. }
  kinds Hd Hle.
  - destruct Hown as (v & Hv & [|E]); [done|]. left. exists v. split; [done|]. injection E as E.
    split; [by rewrite <- E|]. by rewrite E.
  - right. split; [done|]. intros v Hv. destruct (has_route _) eqn:E; [|done].
    specialize (Hlow v Hv E). lia.
Qed.

Lemma balanced_verdict r : main = false -> pkt_field config p = 0 -> deciding r ->
  (forall u, ~ local_owner u) ->
  rule_action r = if has_route (balancing_table (Layout_of config))
                  then Lookup (balancing_table (Layout_of config)) else Unreachable.
Proof.
  intros Hmain Hf Hd Hno.
  pose proof (source_matches_owner r (dec_shape _ _ _ _ _ Hd) (dec_matches _ _ _ _ _ Hd)) as Hown.
  assert (Hcl : Z.land (pkt_field config p) 0xc0 = 0) by by rewrite Hf.
  assert (Hle := guard_bound r _ Hd (final_guard_present config input p)).
  assert (Hlow : has_route (balancing_table (Layout_of config)) = true -> rule_priority r <= base + 600).
  { by apply balancing_bound. }
  destruct (has_route (balancing_table (Layout_of config))) eqn:E.
  - specialize (Hlow eq_refl). kinds Hd Hle; try (destruct Hown as (v & Hv & _); by apply Hno in Hv); try done.
  - kinds Hd Hle; try (destruct Hown as (v & Hv & _); by apply Hno in Hv); try done.
Qed.
End isolation.

(** ** Properties *)

(** C3: Marked traffic goes where its mark says.  Under any lookup that
    behaves as the kernel documents, in a managed family, for each of the four
    classes of marks and each uplink: a probe is resolved by its path's table
    when the plan has a route in it and is unreachable otherwise, whatever the
    main table has.  Any other marked packet follows a specific (non-default)
    route of the main table when there is one.  When there is none, a packet
    whose field names a path is resolved by that path's table and a packet of
    a blocking policy by its policy table, or they are unreachable; a packet
    of a balancing policy is resolved by its policy table, else by the
    balancing table, else it is unreachable.  No default route of the main
    table ever carries any of them. *)
Theorem marked_traffic_isolated
    {lookup_rule : list Rule -> (u32 -> bool) -> bool -> Packet -> option Rule}
    `{!RuleLookup lookup_rule}
    (config : Config) (input : Input) (p : Packet) (main : bool) (i : UplinkId)
    (Hwf : config_wf config) (Hmark : fits 32 (pkt_mark p))
    (Hman : Config_manages config (pkt_family p) = true) :
  let l := Layout_of config in
  let has_route := planned_has_route (plan config input) (pkt_family p) in
  let field := FwMask_field (l_mask l) (pkt_mark p) in
  let own t := if has_route t then Lookup t else Unreachable in
  exists r, lookup_rule (d_rules (plan config input)) has_route main p = Some r /\
    (field = FieldValue_probe i -> rule_action r = own (path_table l i)) /\
    (field ∈ [FieldValue_path i; FieldValue_policy_balance i; FieldValue_policy_block i] -> main = true ->
       rule_action r = LookupMainSuppressDefault) /\
    (field = FieldValue_path i -> main = false -> rule_action r = own (path_table l i)) /\
    (field = FieldValue_policy_balance i -> main = false ->
       rule_action r = if has_route (policy_balance_table l i) then Lookup (policy_balance_table l i)
                       else own (balancing_table l)) /\
    (field = FieldValue_policy_block i -> main = false -> rule_action r = own (policy_block_table l i)).
Proof.
  cbn zeta. destruct (verdict_decides (lookup_rule := lookup_rule) config input Hwf p Hmark Hman main) as [r Hd].
  exists r. split; [apply Hd|]. split_and!.
  - intros E%(f_equal FieldValue_get). rewrite FieldValue_probe_get in E. by eapply probe_verdict.
  - intros Hf Hmain. eapply main_verdict; [done| |done]. unfold pkt_field.
    rewrite !elem_of_cons, elem_of_nil in Hf. destruct Hf as [->|[->|[->|[]]]];
      rewrite ?FieldValue_balance_get, ?FieldValue_block_get, ?class_of_balance, ?class_of_block; [|done..].
    change (FieldValue_get (FieldValue_path i)) with (UplinkId_get i). by rewrite class_of_path.
  - intros E%(f_equal FieldValue_get) Hmain. by eapply path_verdict.
  - intros E%(f_equal FieldValue_get) Hmain. rewrite FieldValue_balance_get in E. by eapply balance_verdict.
  - intros E%(f_equal FieldValue_get) Hmain. rewrite FieldValue_block_get in E.
    by eapply block_verdict.
Qed.

Lemma marked_traffic_isolated_witness :
  exists r, first_rule (d_rules (plan Sample.config Sample.input))
      (planned_has_route (plan Sample.config Sample.input) V4) false (mkPacket V4 0x20000 (IpV4 1)) = Some r /\
    rule_action r = Lookup 1002.
Proof.
  destruct (marked_traffic_isolated (lookup_rule := first_rule) Sample.config Sample.input
    (mkPacket V4 0x20000 (IpV4 1)) false (uid 2) Sample.config_ok) as (r & Hr & _ & _ & Hpath & _);
    [split; simpl; lia|by vm_compute|].
  exists r. split; [exact Hr|]. rewrite Hpath; by vm_compute.
Defined.

(** C4: Unmarked traffic never escapes the layout.  In a managed family a
    packet without assignment (and without a specific route in the main
    table) always gets a verdict of a planned rule: from a local address of
    some path, the table of a path that owns that address and has a route,
    or unreachable when none has; from any other source, the balancing
    table, or unreachable when the plan has no balancing route. *)
Theorem unmarked_traffic_routed
    {lookup_rule : list Rule -> (u32 -> bool) -> bool -> Packet -> option Rule}
    `{!RuleLookup lookup_rule}
    (config : Config) (input : Input) (p : Packet)
    (Hwf : config_wf config) (Hmark : fits 32 (pkt_mark p))
    (Hman : Config_manages config (pkt_family p) = true)
    (Hfield : FwMask_field (l_mask (Layout_of config)) (pkt_mark p) = FieldValue_NONE) :
  let l := Layout_of config in
  let has_route := planned_has_route (plan config input) (pkt_family p) in
  exists r, lookup_rule (d_rules (plan config input)) has_route false p = Some r /\
    ((exists u, local_owner config input p u) ->
     (exists v, local_owner config input p v /\ has_route (path_table l (u_id v)) = true /\
        rule_action r = Lookup (path_table l (u_id v))) \/
     (rule_action r = Unreachable /\
      forall v, local_owner config input p v -> has_route (path_table l (u_id v)) = false)) /\
    ((forall u, ~ local_owner config input p u) ->
     rule_action r = if has_route (balancing_table l) then Lookup (balancing_table l) else Unreachable).
Proof.
  cbn zeta. destruct (verdict_decides (lookup_rule := lookup_rule) config input Hwf p Hmark Hman false) as [r Hd].
  apply (f_equal FieldValue_get) in Hfield. exists r. split; [apply Hd|]. split.
  - intros Hown. by eapply local_verdict.
  - intros Hno. by eapply balanced_verdict.
Qed.

Lemma unmarked_traffic_routed_witness :
  exists r, first_rule (d_rules (plan Sample.config Sample.input))
      (planned_has_route (plan Sample.config Sample.input) V4) false (mkPacket V4 0xff00abcd (IpV4 7)) = Some r /\
    rule_action r = Lookup 1000.
Proof.
  destruct (unmarked_traffic_routed (lookup_rule := first_rule) Sample.config Sample.input
    (mkPacket V4 0xff00abcd (IpV4 7)) Sample.config_ok) as (r & Hr & _ & _);
    [split; simpl; lia|by vm_compute|by vm_compute|].
  exists r. split; [exact Hr|]. vm_compute in Hr. by injection Hr as <-.
Defined.
