(* ===== verification/Msg.v ===== *)
(** * Netlink messages: construction, parsing and normalisation

    Models crates/polywan/src/netlink/msg.rs.  The message types are those of
    the [netlink-packet-route] crate, as data (attributes the code never
    names are [..._Other]); a route protocol is its byte, flag sets are the
    bits of the kernel ABI.  [Instant::now()] is an argument. *)

From stdpp Require Import prelude gmap sorting.
From Stdlib Require Import ZArith Lia.
From S2P Require Import Prelude Text Model Durations Config Plan.

Local Open Scope Z_scope.

(** ** Message types *)

Inductive AddressFamily := AF_Inet | AF_Inet6 | AF_Other (n : u8).
Inductive RuleAction := RuleAction_ToTable | RuleAction_Unreachable | RuleAction_Other (n : u8).

Inductive RuleAttribute :=
  | RuleAttr_Priority (p : u32)
  | RuleAttr_Protocol (p : u8)
  | RuleAttr_Table (t : u32)
  | RuleAttr_FwMark (v : u32)
  | RuleAttr_FwMask (v : u32)
  | RuleAttr_Source (a : IpAddr)
  | RuleAttr_SuppressPrefixLen (v : u32)
  | RuleAttr_L3MDev (b : bool)
  | RuleAttr_SuppressIfGroup (v : u32)
  | RuleAttr_Other (kind : u16) (value : list u8).

Record RuleMessage := mkRuleMessage {
  rm_family : AddressFamily;
  rm_dst_len : u8;
  rm_src_len : u8;
  rm_tos : u8;
  rm_table : u8;
  rm_action : RuleAction;
  rm_flags : u32;
  rm_attributes : list RuleAttribute
}.

#[export] Instance AddressFamily_eq_dec : EqDecision AddressFamily.
Proof. solve_decision. Defined.
#[export] Instance RuleAction_eq_dec : EqDecision RuleAction.
Proof. solve_decision. Defined.
#[export] Instance RuleAttribute_eq_dec : EqDecision RuleAttribute.
Proof. solve_decision. Defined.
#[export] Instance RuleMessage_eq_dec : EqDecision RuleMessage.
Proof. solve_decision. Defined.

Definition RuleMessage_default : RuleMessage :=
  mkRuleMessage (AF_Other 0) 0 0 0 0 (RuleAction_Other 0) 0 [].

Inductive RouteAddress := RA_Inet (a : u32) | RA_Inet6 (a : u128) | RA_Other (b : list u8).
Inductive RouteType := RT_Unspec | RT_Unicast | RT_Other (n : u8).
Inductive RoutePreference := Pref_High | Pref_Low | Pref_Other (n : u8).

Inductive RouteAttribute :=
  | RouteAttr_CacheInfo (expires : u32)
  | RouteAttr_Table (t : u32)
  | RouteAttr_Priority (p : u32)
  | RouteAttr_Destination (d : RouteAddress)
  | RouteAttr_PrefSource (s : RouteAddress)
  | RouteAttr_Gateway (g : RouteAddress)
  | RouteAttr_Oif (i : u32)
  | RouteAttr_NhId (i : u32)
  | RouteAttr_MultiPath (hops : list RouteNextHop)
  | RouteAttr_Preference (p : RoutePreference)
  | RouteAttr_Other (kind : u16) (value : list u8)
with RouteNextHop :=
  | mkRouteNextHop (flags : u8) (hops : u8) (interface_index : u32) (attributes : list RouteAttribute).

Record RouteMessage := mkRouteMessage {
  rtm_address_family : AddressFamily;
  rtm_destination_prefix_length : u8;
  rtm_table : u8;
  rtm_protocol : u8;
  rtm_scope : u8;
  rtm_kind : RouteType;
  rtm_flags : u32;
  rtm_attributes : list RouteAttribute
}.

#[export] Instance RouteType_eq_dec : EqDecision RouteType.
Proof. solve_decision. Defined.

Definition RouteMessage_default : RouteMessage :=
  mkRouteMessage (AF_Other 0) 0 0 0 0 RT_Unspec 0 [].

(** [RTNH_F_*], shared by route and next-hop flags; [RT_SCOPE_UNIVERSE],
    [RT_TABLE_UNSPEC]; [flags.contains(f)]. *)
Definition RTNH_F_DEAD : u32 := 1.
Definition RTNH_F_ONLINK : u32 := 4.
Definition RTNH_F_LINKDOWN : u32 := 16.
Definition RT_SCOPE_UNIVERSE : u8 := 0.
Definition RT_TABLE_UNSPEC : u8 := 0.
Definition flag_contains (flags f : Z) : bool := Z.land flags f =? f.

(** ** Conversions *)

Definition TABLE_MAIN : u32 := 254.
Definition U32_MAX : u32 := 2 ^ 32 - 1.

Definition address_family (f : Family) : AddressFamily := match f with V4 => AF_Inet | V6 => AF_Inet6 end.
Definition family (af : AddressFamily) : option Family :=
  match af with AF_Inet => Some V4 | AF_Inet6 => Some V6 | AF_Other _ => None end.
Definition host_len (a : IpAddr) : u8 := match a with IpV4 _ => 32 | IpV6 _ => 128 end.

(** Instants are nanoseconds; [Instant::checked_sub] fails below the
    smallest 64-bit second. *)
Abbreviation Instant := Z (only parsing).
Definition INSTANT_MIN : Z := - 2 ^ 63 * NANOS_PER_SEC.
Definition instant_checked_sub (t : Instant) (d : Duration) : option Instant :=
  if t - d <? INSTANT_MIN then None else Some (t - d).

(** [ticks as i32]. *)
Definition as_i32 (x : u32) : i32 := if x <? 2 ^ 31 then x else x - 2 ^ 32.

Definition expiry (now : Instant) (ticks : u32) : option Instant :=
  let ticks := as_i32 ticks in
  let left := from_millis (Z.abs ticks * 10) in
  if ticks =? 0 then None
  else if 0 <? ticks then Some (now + left)
  else Some (default now (instant_checked_sub now left)).

Definition ip (a : RouteAddress) : option IpAddr :=
  match a with RA_Inet v => Some (IpV4 v) | RA_Inet6 v => Some (IpV6 v) | RA_Other _ => None end.
Definition route_address (a : IpAddr) : RouteAddress :=
  match a with IpV4 v => RA_Inet v | IpV6 v => RA_Inet6 v end.

(** ** Rules *)

Definition rule_message (r : Rule) (protocol : u8) : RuleMessage :=
  let '(action, action_attributes) :=
    match rule_action r with
    | Lookup t => (RuleAction_ToTable, [RuleAttr_Table t])
    | LookupMainSuppressDefault =>
        (RuleAction_ToTable, [RuleAttr_Table TABLE_MAIN; RuleAttr_SuppressPrefixLen 0])
    | Unreachable => (RuleAction_Unreachable, [])
    end in
  mkRuleMessage (address_family (rule_family r)) (rm_dst_len RuleMessage_default)
    (match rule_source r with Some a => host_len a | None => rm_src_len RuleMessage_default end)
    (rm_tos RuleMessage_default) 0 action (rm_flags RuleMessage_default)
    ([RuleAttr_Priority (rule_priority r); RuleAttr_Protocol protocol] ++ action_attributes ++
     match rule_fwmark r with
     | Some (mark, mask) => [RuleAttr_FwMark mark; RuleAttr_FwMask mask]
     | None => []
     end ++
     match rule_source r with Some a => [RuleAttr_Source a] | None => [] end).

Inductive ObservedAction :=
  | OA_Lookup (table : u32) (suppress_prefixlen : option u32)
  | OA_Unreachable
  | OA_Other.

#[export] Instance ObservedAction_eq_dec : EqDecision ObservedAction.
Proof. solve_decision. Defined.

Record ObservedRule := mkObservedRule {
  or_family : Family;
  or_priority : u32;
  or_protocol : u8;
  or_fwmark : option (u32 * u32);
  or_source : option (IpAddr * u8);
  or_action : ObservedAction;
  or_foreign_selectors : bool;
  or_l3mdev : bool;
  or_message : RuleMessage
}.

(** The mutable variables of the loop of [ObservedRule::parse]. *)
Record RuleScan := mkRuleScan {
  sc_priority : u32; sc_protocol : u8; sc_table : u32;
  sc_mark : option u32; sc_mask : option u32; sc_source : option (IpAddr * u8); sc_spl : option u32;
  sc_foreign : bool; sc_l3mdev : bool
}.

Definition scan_rule_attribute (src_len : u8) (s : RuleScan) (a : RuleAttribute) : RuleScan :=
  let '(mkRuleScan priority protocol table mark mask source spl foreign l3mdev) := s in
  match a with
  | RuleAttr_Priority p => mkRuleScan p protocol table mark mask source spl foreign l3mdev
  | RuleAttr_Protocol p => mkRuleScan priority p table mark mask source spl foreign l3mdev
  | RuleAttr_Table t => mkRuleScan priority protocol t mark mask source spl foreign l3mdev
  | RuleAttr_FwMark v => mkRuleScan priority protocol table (Some v) mask source spl foreign l3mdev
  | RuleAttr_FwMask v => mkRuleScan priority protocol table mark (Some v) source spl foreign l3mdev
  | RuleAttr_Source a => mkRuleScan priority protocol table mark mask (Some (a, src_len)) spl foreign l3mdev
  | RuleAttr_SuppressPrefixLen v =>
      mkRuleScan priority protocol table mark mask source
        (if v =? U32_MAX then None else Some v) foreign l3mdev
  | RuleAttr_L3MDev true => mkRuleScan priority protocol table mark mask source spl foreign true
  | RuleAttr_L3MDev false | RuleAttr_SuppressIfGroup _ => s
  | RuleAttr_Other _ _ => mkRuleScan priority protocol table mark mask source spl true l3mdev
  end.

Definition ObservedRule_parse (m : RuleMessage) : option ObservedRule :=
  f ← family (rm_family m);
  let s := foldl (scan_rule_attribute (rm_src_len m))
    (mkRuleScan 0 0 (rm_table m) None None None None
       (negb (rm_dst_len m =? 0) || negb (rm_tos m =? 0) || negb (rm_flags m =? 0)) false)
    (rm_attributes m) in
  let fwmark :=
    match sc_mark s, sc_mask s with
    | None, None => None
    | m, k => Some (default 0 m, default U32_MAX k)
    end in
  let action :=
    if sc_l3mdev s then OA_Other else
    match rm_action m with
    | RuleAction_ToTable => OA_Lookup (sc_table s) (sc_spl s)
    | RuleAction_Unreachable => OA_Unreachable
    | RuleAction_Other _ => OA_Other
    end in
  Some (mkObservedRule f (sc_priority s) (sc_protocol s) fwmark (sc_source s) action
          (sc_foreign s || sc_l3mdev s) (sc_l3mdev s) m).

Definition observed_action (a : Action) : ObservedAction :=
  match a with
  | Lookup t => OA_Lookup t None
  | LookupMainSuppressDefault => OA_Lookup TABLE_MAIN (Some 0)
  | Unreachable => OA_Unreachable
  end.

Definition ObservedRule_is (o : ObservedRule) (r : Rule) (protocol : u8) : bool :=
  bool_decide (or_family o = rule_family r) &&
  (or_priority o =? rule_priority r) &&
  (or_protocol o =? protocol) &&
  negb (or_foreign_selectors o) &&
  bool_decide (or_fwmark o = rule_fwmark r) &&
  bool_decide (or_source o = (fun a => (a, host_len a)) <$> rule_source r) &&
  bool_decide (or_action o = observed_action (rule_action r)).

(** ** Routes *)

(** [route_header] on a default message. *)
Definition route_header (f : Family) (table : u32) (protocol : u8) : RouteMessage :=
  mkRouteMessage (address_family f) (rtm_destination_prefix_length RouteMessage_default)
    RT_TABLE_UNSPEC protocol RT_SCOPE_UNIVERSE RT_Unicast (rtm_flags RouteMessage_default)
    [RouteAttr_Table table; RouteAttr_Priority ROUTE_METRIC].

Definition push_route_attributes (m : RouteMessage) (l : list RouteAttribute) (flags : u32) : RouteMessage :=
  mkRouteMessage (rtm_address_family m) (rtm_destination_prefix_length m) (rtm_table m) (rtm_protocol m)
    (rtm_scope m) (rtm_kind m) (Z.lor (rtm_flags m) flags) (rtm_attributes m ++ l).

Definition clamp (lo hi x : Z) : Z := Z.max lo (Z.min hi x).

(** One hop of [RTA_MULTIPATH]: the kernel's [hops] is the weight less one. *)
Definition multipath_hop (h : NextHop) : RouteNextHop :=
  mkRouteNextHop (if hop_onlink h then RTNH_F_ONLINK else 0)
    (Z.min (clamp 1 256 (hop_weight h) - 1) 255)
    (hop_ifindex h)
    (match hop_gateway h with Some g => [RouteAttr_Gateway (route_address g)] | None => [] end).

Definition route_message (r : Route) (protocol : u8) : RouteMessage :=
  let m := route_header (route_family r) (route_table r) protocol in
  let source :=
    match route_source r with Some s => [RouteAttr_PrefSource (route_address s)] | None => [] end in
  match route_nexthops r with
  | [h] =>
      push_route_attributes m
        (source ++
         match hop_gateway h with Some g => [RouteAttr_Gateway (route_address g)] | None => [] end ++
         [RouteAttr_Oif (hop_ifindex h)])
        (if hop_onlink h then RTNH_F_ONLINK else 0)
  | hops => push_route_attributes m (source ++ [RouteAttr_MultiPath (multipath_hop <$> hops)]) 0
  end.

Definition route_delete_key (f : Family) (table : u32) (protocol : u8) : RouteMessage :=
  route_header f table protocol.

Record ObservedHop := mkObservedHop {
  oh_ifindex : u32;
  oh_gateway : option IpAddr;
  oh_weight : u16;
  oh_onlink : bool;
  oh_dead : bool;
  oh_linkdown : bool
}.

Record ObservedRoute := mkObservedRoute {
  ort_family : Family;
  ort_table : u32;
  ort_protocol : u8;
  ort_metric : u32;
  ort_destination : option (IpAddr * u8);
  ort_kind : RouteType;
  ort_source : option IpAddr;
  ort_nexthops : list ObservedHop;
  ort_nexthop_id : option u32;
  ort_preference : i8;
  ort_expires_at : option Instant;
  ort_message : RouteMessage
}.

(** The mutable variables of the loop of [ObservedRoute::parse]. *)
Record RouteScan := mkRouteScan {
  rs_table : u32; rs_metric : u32; rs_dst : option IpAddr; rs_source : option IpAddr;
  rs_gateway : option IpAddr; rs_oif : option u32; rs_nh_id : option u32;
  rs_multipath : option (list RouteNextHop); rs_preference : i8; rs_expires : option Instant
}.

Definition scan_route_attribute (now : Instant) (s : RouteScan) (a : RouteAttribute) : RouteScan :=
  let '(mkRouteScan table metric dst source gateway oif nh_id multipath preference expires) := s in
  match a with
  | RouteAttr_CacheInfo e =>
      mkRouteScan table metric dst source gateway oif nh_id multipath preference (expiry now e)
  | RouteAttr_Table t => mkRouteScan t metric dst source gateway oif nh_id multipath preference expires
  | RouteAttr_Priority p => mkRouteScan table p dst source gateway oif nh_id multipath preference expires
  | RouteAttr_Destination d =>
      mkRouteScan table metric (ip d) source gateway oif nh_id multipath preference expires
  | RouteAttr_PrefSource x =>
      mkRouteScan table metric dst (ip x) gateway oif nh_id multipath preference expires
  | RouteAttr_Gateway g =>
      mkRouteScan table metric dst source (ip g) oif nh_id multipath preference expires
  | RouteAttr_Oif i => mkRouteScan table metric dst source gateway (Some i) nh_id multipath preference expires
  | RouteAttr_NhId i => mkRouteScan table metric dst source gateway oif (Some i) multipath preference expires
  | RouteAttr_MultiPath h => mkRouteScan table metric dst source gateway oif nh_id (Some h) preference expires
  | RouteAttr_Preference p =>
      mkRouteScan table metric dst source gateway oif nh_id multipath
        (match p with Pref_High => 1 | Pref_Low => -1 | Pref_Other _ => 0 end) expires
  | RouteAttr_Other _ _ => s
  end.

(** [find_map] over the attributes of a hop. *)
Definition hop_attribute_gateway (attributes : list RouteAttribute) : option IpAddr :=
  head (omap (fun a => match a with RouteAttr_Gateway g => ip g | _ => None end) attributes).

Definition observed_multipath_hop (h : RouteNextHop) : ObservedHop :=
  let '(mkRouteNextHop flags hops interface_index attributes) := h in
  mkObservedHop interface_index (hop_attribute_gateway attributes) (hops + 1)
    (flag_contains flags RTNH_F_ONLINK) (flag_contains flags RTNH_F_DEAD)
    (flag_contains flags RTNH_F_LINKDOWN).

Definition ObservedRoute_parse (now : Instant) (m : RouteMessage) : option ObservedRoute :=
  f ← family (rtm_address_family m);
  let s := foldl (scan_route_attribute now)
    (mkRouteScan (rtm_table m) 0 None None None None None None 0 None) (rtm_attributes m) in
  let flags := rtm_flags m in
  let nexthops :=
    match rs_multipath s with
    | Some hops => observed_multipath_hop <$> hops
    | None =>
        option_list ((fun i => mkObservedHop i (rs_gateway s) 1
          (flag_contains flags RTNH_F_ONLINK) (flag_contains flags RTNH_F_DEAD)
          (flag_contains flags RTNH_F_LINKDOWN)) <$> rs_oif s)
    end in
  let len := rtm_destination_prefix_length m in
  let destination :=
    if len =? 0 then None
    else match rs_dst s with
         | Some d => Some (d, len)
         | None => Some (if decide (f = V4) then IpV4 0 else IpV6 0, len)
         end in
  Some (mkObservedRoute f (rs_table s) (rtm_protocol m) (rs_metric s) destination (rtm_kind m)
          (rs_source s) nexthops (rs_nh_id s) (rs_preference s) (rs_expires s) m).

Definition ObservedRoute_expired (o : ObservedRoute) (now : Instant) : bool :=
  match ort_expires_at o with Some t => t <=? now | None => false end.

Definition ObservedRoute_is_default (o : ObservedRoute) : bool := bool_decide (ort_destination o = None).

Definition as_planned_hop (single : bool) (h : ObservedHop) : NextHop :=
  mkNextHop (oh_ifindex h) (oh_gateway h) (oh_onlink h) (if single then 1 else oh_weight h).

Definition ObservedRoute_as_planned (o : ObservedRoute) : option Route :=
  if negb (ObservedRoute_is_default o) || negb (bool_decide (ort_kind o = RT_Unicast)) ||
     negb (ort_metric o =? ROUTE_METRIC) || bool_decide (ort_nexthops o = [])
  then None
  else
    let single := Nat.eqb (length (ort_nexthops o)) 1 in
    Some (mkRoute (ort_family o) (ort_table o) (ort_source o)
            (sort_by_key id (as_planned_hop single <$> ort_nexthops o))).

(** ** Links *)

Inductive LinkAttribute := LinkAttr_IfName (n : str) | LinkAttr_Other (kind : u16) (value : list u8).
Record LinkMessage := mkLinkMessage { lm_index : u32; lm_flags : u32; lm_attributes : list LinkAttribute }.

Definition IFF_UP : u32 := 1.
Definition IFF_POINTOPOINT : u32 := 0x10.
Definition IFF_LOWER_UP : u32 := 0x10000.

Record ObservedLink := mkObservedLink {
  ol_index : u32; ol_name : str; ol_up : bool; ol_lower_up : bool; ol_point_to_point : bool
}.

#[export] Instance ObservedLink_eq_dec : EqDecision ObservedLink.
Proof. solve_decision. Defined.

Definition ObservedLink_parse (m : LinkMessage) : option ObservedLink :=
  name ← head (omap (fun a => match a with LinkAttr_IfName n => Some n | LinkAttr_Other _ _ => None end)
                (lm_attributes m));
  let f := lm_flags m in
  Some (mkObservedLink (lm_index m) name (flag_contains f IFF_UP) (flag_contains f IFF_LOWER_UP)
          (flag_contains f IFF_POINTOPOINT)).

Definition ObservedLink_usable (l : ObservedLink) : bool := ol_up l && ol_lower_up l.

(** ** Addresses *)

Inductive AddressAttribute :=
  | AddrAttr_Local (a : IpAddr)
  | AddrAttr_Address (a : IpAddr)
  | AddrAttr_Flags (f : u32)
  | AddrAttr_Other (kind : u16) (value : list u8).

Record AddressMessage := mkAddressMessage {
  am_family : AddressFamily;
  am_prefix_len : u8;
  am_flags : u8;
  am_scope : u8;
  am_index : u32;
  am_attributes : list AddressAttribute
}.

Definition IFA_F_SECONDARY : u32 := 0x01.
Definition IFA_F_DADFAILED : u32 := 0x08.
Definition IFA_F_DEPRECATED : u32 := 0x20.
Definition IFA_F_TENTATIVE : u32 := 0x40.
Definition IFA_F_PERMANENT : u32 := 0x80.

Record ObservedAddress := mkObservedAddress {
  oa_index : u32;
  oa_family : Family;
  oa_address : IpAddr;
  oa_prefix_len : u8;
  oa_scope : u8;
  oa_flags : u32
}.

#[export] Instance ObservedAddress_eq_dec : EqDecision ObservedAddress.
Proof. solve_decision. Defined.

Definition scan_address_attribute (s : option IpAddr * option IpAddr * option u32) (a : AddressAttribute)
    : option IpAddr * option IpAddr * option u32 :=
  let '(local, address, flags) := s in
  match a with
  | AddrAttr_Local l => (Some l, address, flags)
  | AddrAttr_Address x => (local, Some x, flags)
  | AddrAttr_Flags f => (local, address, Some f)
  | AddrAttr_Other _ _ => s
  end.

Definition ObservedAddress_parse (m : AddressMessage) : option ObservedAddress :=
  f ← family (am_family m);
  let '(local, address, flags) := foldl scan_address_attribute (None, None, None) (am_attributes m) in
  a ← (match local with Some l => Some l | None => address end);
  Some (mkObservedAddress (am_index m) f a (am_prefix_len m) (am_scope m) (default (am_flags m) flags)).

Definition address_global (a : ObservedAddress) : bool := oa_scope a =? 0.
Definition address_tentative (a : ObservedAddress) : bool := flag_contains (oa_flags a) IFA_F_TENTATIVE.
Definition address_dad_failed (a : ObservedAddress) : bool := flag_contains (oa_flags a) IFA_F_DADFAILED.
Definition address_deprecated (a : ObservedAddress) : bool := flag_contains (oa_flags a) IFA_F_DEPRECATED.
Definition address_temporary (a : ObservedAddress) : bool :=
  bool_decide (oa_family a = V6) && flag_contains (oa_flags a) IFA_F_SECONDARY.
Definition address_secondary (a : ObservedAddress) : bool :=
  bool_decide (oa_family a = V4) && flag_contains (oa_flags a) IFA_F_SECONDARY.
Definition address_permanent (a : ObservedAddress) : bool := flag_contains (oa_flags a) IFA_F_PERMANENT.

(** ** Lemmas *)

Lemma family_address_family f : family (address_family f) = Some f.
Proof. by destruct f. Qed.

Lemma ip_route_address a : ip (route_address a) = Some a.
Proof. by destruct a. Qed.

(** What the parser reads back of a message PolyWAN builds. *)
Lemma rule_message_parse r protocol :
  ObservedRule_parse (rule_message r protocol) =
    Some (mkObservedRule (rule_family r) (rule_priority r) protocol (rule_fwmark r)
            ((fun a => (a, host_len a)) <$> rule_source r) (observed_action (rule_action r))
            false false (rule_message r protocol)).
Proof.
  destruct r as [f priority fwmark source action kind]. unfold ObservedRule_parse.
  destruct action, fwmark as [[mark mask]|], source as [a|], f; reflexivity.
Qed.

(** The fields of a rule that are its identity in the kernel. *)
Definition same_identity (r r' : Rule) : Prop :=
  rule_family r = rule_family r' /\ rule_priority r = rule_priority r' /\
  rule_fwmark r = rule_fwmark r' /\ rule_source r = rule_source r' /\ rule_action r = rule_action r'.

#[export] Instance same_identity_dec r r' : Decision (same_identity r r').
Proof. unfold same_identity. apply _. Defined.

#[export] Instance same_identity_equivalence : Equivalence same_identity.
Proof.
  unfold same_identity. split; [intros r|intros r r'|intros r r' r'']; intuition congruence.
Qed.

Lemma observed_action_inj a b : observed_action a = observed_action b -> a = b.
Proof. by destruct a, b; intros [=]; subst. Qed.

Lemma host_source_inj (s s' : option IpAddr) :
  (fun a => (a, host_len a)) <$> s = (fun a => (a, host_len a)) <$> s' -> s = s'.
Proof. destruct s, s'; simpl; congruence. Qed.

Lemma ObservedRule_is_true o r protocol : ObservedRule_is o r protocol = true <->
  or_family o = rule_family r /\ or_priority o = rule_priority r /\ or_protocol o = protocol /\
  or_foreign_selectors o = false /\ or_fwmark o = rule_fwmark r /\
  or_source o = (fun a => (a, host_len a)) <$> rule_source r /\
  or_action o = observed_action (rule_action r).
Proof.
  unfold ObservedRule_is. rewrite !andb_true_iff, !bool_decide_eq_true, !Z.eqb_eq, negb_true_iff. tauto.
Qed.

Lemma ObservedRule_is_unique o r r' protocol protocol' :
  ObservedRule_is o r protocol = true -> ObservedRule_is o r' protocol' = true ->
  same_identity r r' /\ protocol = protocol'.
Proof.
  rewrite !ObservedRule_is_true. intros (? & ? & ? & ? & ? & E1 & E2) (? & ? & ? & ? & ? & E3 & E4).
  rewrite E1 in E3. rewrite E2 in E4. apply observed_action_inj in E4. apply host_source_inj in E3.
  unfold same_identity. split_and!; congruence.
Qed.

(** ** Routes: lemmas *)

(** The shape of the routes the planner produces. *)
Definition Route_wf (r : Route) : Prop :=
  route_nexthops r <> [] /\
  StronglySorted (fun x y => cmp_leb (id x) (id y) = true) (route_nexthops r) /\
  (forall h, h ∈ route_nexthops r -> 1 <= hop_weight h <= 256) /\
  (forall h, route_nexthops r = [h] -> hop_weight h = 1).

Lemma observed_multipath h : 1 <= hop_weight h <= 256 ->
  observed_multipath_hop (multipath_hop h) =
    mkObservedHop (hop_ifindex h) (hop_gateway h) (hop_weight h) (hop_onlink h) false false.
Proof.
  intros Hw. destruct h as [i g onlink w]. unfold multipath_hop, observed_multipath_hop; cbn -[Z.add Z.sub Z.min] in *.
  f_equal.
  - by destruct g as [[]|].
  - unfold clamp. lia.
  - by destruct onlink.
  - by destruct onlink.
  - by destruct onlink.
Qed.

Lemma as_planned_multipath (hops : list NextHop) : (forall h, h ∈ hops -> 1 <= hop_weight h <= 256) ->
  as_planned_hop false <$> (observed_multipath_hop <$> (multipath_hop <$> hops)) = hops.
Proof.
  intros Hw. induction hops as [|h hops IH]; [done|]. rewrite !fmap_cons, IH, observed_multipath by set_solver.
  f_equal. by destruct h.
Qed.

(** A planned route survives its message and the parser. *)
Lemma route_message_parse now r protocol : Route_wf r ->
  exists o, ObservedRoute_parse now (route_message r protocol) = Some o /\
    ort_family o = route_family r /\ ort_table o = route_table r /\
    ort_protocol o = protocol /\ ort_destination o = None /\ ort_nexthop_id o = None /\
    ort_message o = route_message r protocol /\ ObservedRoute_as_planned o = Some r.
Proof.
  destruct r as [f t source hops]. intros (Hne & Hsort & Hw & H1). simpl in *.
  destruct hops as [|h [|h2 hops]]; [done| |].
  - specialize (H1 h eq_refl). destruct h as [i g onlink w]; simpl in H1; subst w.
    destruct source as [[]|], f, g as [[]|], onlink; (eexists; split; [reflexivity|]); split_and!; done.
  - assert (Hplanned := as_planned_multipath (h :: h2 :: hops) Hw).
    destruct source as [[]|], f; (eexists; split; [reflexivity|]); (split_and!; try done);
      unfold ObservedRoute_as_planned, ObservedRoute_is_default;
      cbn -[sort_by_key fmap list_fmap observed_multipath_hop multipath_hop];
      rewrite length_fmap, length_fmap; cbn [length Nat.eqb];
      rewrite Hplanned, sort_by_key_sorted_id by done; done.
Qed.

(** The weights validation admits. *)
Definition weights_wf (config : Config) : Prop := forall u, u ∈ cf_uplinks config -> 1 <= u_weight u <= 256.

Lemma balancing_nexthops_elem_of members h : h ∈ balancing_nexthops members ->
  exists h', h' ∈ members /\ hop_ifindex h = hop_ifindex h' /\
    (hop_weight h = hop_weight h' \/ hop_weight h = 1).
Proof.
  unfold balancing_nexthops. intros Hh.
  assert (Hs : forall x, x ∈ sort_by_key id members -> x ∈ members) by (intros x; apply sort_by_key_elem_of).
  destruct (sort_by_key id members) as [|a [|b l]]; [by apply not_elem_of_nil in Hh| |by exists h; auto].
  apply list_elem_of_singleton in Hh as ->. exists a. split; [apply Hs; set_solver|]. simpl. auto.
Qed.

Lemma balancing_nexthops_sorted members :
  StronglySorted (fun x y => cmp_leb (id x) (id y) = true) (balancing_nexthops members).
Proof.
  unfold balancing_nexthops. pose proof (sort_by_key_sorted id members) as Hs.
  destruct (sort_by_key id members) as [|a [|b l]]; [done|repeat constructor|done].
Qed.

Lemma balancing_nexthops_single members h : balancing_nexthops members = [h] -> hop_weight h = 1.
Proof.
  unfold balancing_nexthops. destruct (sort_by_key id members) as [|a [|b l]]; [done|by intros [= <-]|done].
Qed.

Lemma planned_route_wf config input f t r : weights_wf config ->
  planned_route config input f t r -> Route_wf r.
Proof.
  intros Hw [u rp Hu Hrp Ht|members -> -> Hne]; unfold Route_wf; simpl; split_and!.
  - done.
  - repeat constructor.
  - intros h ->%list_elem_of_singleton. simpl. lia.
  - intros h [= <-]. done.
  - by apply balancing_nexthops_ne.
  - apply balancing_nexthops_sorted.
  - intros h (h' & (u & Hu & Hh)%list_elem_of_omap & _ & Hwt)%balancing_nexthops_elem_of.
    apply elem_of_list_filter_bool in Hu as [Hu _]. specialize (Hw u Hu).
    unfold member_of in Hh. destruct (is_active input f u); [|done].
    destruct (ready_path input f u); simplify_eq/=. lia.
  - intros h. apply balancing_nexthops_single.
Qed.

(** ** Properties *)

(** C34: The identity of a rule survives the wire: parsing the message that
    installs a planned rule gives a rule that [is] exactly the planned rules
    with the same family, priority, selectors and action, under exactly the
    protocol it was installed with. *)
Theorem rule_message_identity (r r' : Rule) (protocol protocol' : u8) :
  exists o, ObservedRule_parse (rule_message r protocol) = Some o /\
    (ObservedRule_is o r' protocol' = true <-> same_identity r r' /\ protocol = protocol').
Proof.
  eexists. split; [apply rule_message_parse|]. split.
  - intros H. eapply ObservedRule_is_unique; [|exact H]. by apply ObservedRule_is_true.
  - intros [(E1 & E2 & E3 & E4 & E5) <-]. apply ObservedRule_is_true. simpl.
    by rewrite E1, E2, E3, E4, E5.
Qed.

(** A planned route survives the wire: parsing the message that
    installs it and normalising gives the planned route back (single hop or
    multipath, weights, on-link flags and source included), as a default
    route of its table with the protocol it was installed with. *)
Theorem route_message_roundtrip (config : Config) (input : Input) (f : Family) (t : u32) (r : Route)
    (protocol : u8) (now : Instant)
    (Hwf : config_wf config) (Hweights : weights_wf config)
    (Hr : d_routes (plan config input) !! (f, t) = Some r) :
  exists o, ObservedRoute_parse now (route_message r protocol) = Some o /\
    ort_family o = f /\ ort_table o = t /\ ort_protocol o = protocol /\
    ObservedRoute_is_default o = true /\ ObservedRoute_as_planned o = Some r.
Proof.
  apply plan_routes in Hr as [_ Hr]; [|done].
  destruct (route_message_parse now r protocol (planned_route_wf _ _ _ _ _ Hweights Hr))
    as (o & Ho & Hf & Ht & Hp & Hd & _ & _ & Hplanned).
  destruct (planned_route_spec _ _ _ _ _ (proj1 Hwf) Hr) as (Ef & Et & _).
  exists o. split_and!; try done; try congruence. unfold ObservedRoute_is_default. by rewrite Hd.
Qed.

Lemma route_message_roundtrip_witness :
  exists r o, d_routes (plan Sample.config Sample.input) !! (V4, 1000) = Some r /\
    length (route_nexthops r) = 2%nat /\
    ObservedRoute_parse 0 (route_message r 61) = Some o /\ ObservedRoute_as_planned o = Some r.
Proof.
  destruct (d_routes (plan Sample.config Sample.input) !! (V4, 1000)) as [r|] eqn:E; [|by vm_compute in E].
  destruct (route_message_roundtrip Sample.config Sample.input V4 1000 r 61 0 Sample.config_ok) as (o & Ho & H);
    [|exact E|].
  - intros u. simpl. rewrite !elem_of_cons, elem_of_nil. intros [->|[->|[]]]; simpl; lia.
  - exists r, o. split_and!; [done| |done|apply H]. vm_compute in E. by injection E as <-.
Defined.
