(* ===== verification/Netlink.v ===== *)
(** * Netlink transport data: TLV attributes, acknowledgements, nexthop objects

    Models the pure parts of crates/polywan/src/netlink/mod.rs (the attribute
    iterator, the extended acknowledgement, mutation flags, the payload of a
    dump) and crates/polywan/src/netlink/nexthop.rs (parsing of nexthop
    objects).  Bytes are 8-bit [Z]; native byte order is little-endian.
    Sockets and tasks are not modelled.

    [attribute_loop] runs on a fuel of the payload's length: an attribute
    advances the offset by at least four, see [attribute_loop_fuel]. *)

From stdpp Require Import prelude gmap sorting.
From Stdlib Require Import ZArith Lia.
From S2P Require Import Prelude Text Model.

Local Open Scope Z_scope.

Definition bytes : Type := list u8.

(** [uN::from_ne_bytes] and [to_ne_bytes], little-endian. *)
Fixpoint from_ne_bytes (b : bytes) : Z :=
  match b with [] => 0 | x :: b' => x + 256 * from_ne_bytes b' end.
Fixpoint to_ne_bytes (w : nat) (n : Z) : bytes :=
  match w with O => [] | S w' => n mod 256 :: to_ne_bytes w' (n / 256) end.

(** [u32::from_be_bytes] and [u128::from_be_bytes]: an address from its octets. *)
Definition from_be_bytes (b : bytes) : Z := foldl (fun acc x => acc * 256 + x) 0 b.

(** [payload[a..b]]. *)
Definition slice (b : bytes) (from to : Z) : bytes :=
  take (Z.to_nat (to - from)) (drop (Z.to_nat from) b).

Inductive AttributeError := BadAttribute (kind len off : Z).

(** The iterator of [attributes], as the list of what it yields. *)
Fixpoint attribute_loop (fuel : nat) (payload : bytes) (off : Z) : list (result (u16 * bytes) AttributeError) :=
  match fuel with
  | O => []
  | S fuel' =>
      if Z.of_nat (length payload) <? off + 4 then [] else
      let len := from_ne_bytes (slice payload off (off + 2)) in
      let kind := Z.land (from_ne_bytes (slice payload (off + 2) (off + 4))) 0x3fff in
      if (len <? 4) || (Z.of_nat (length payload) <? off + len) then [Err (BadAttribute kind len off)] else
      Ok (kind, slice payload (off + 4) (off + len)) ::
        attribute_loop fuel' payload (off + Z.land (len + 3) (Z.lnot 3))
  end.

Definition attributes (payload : bytes) (offset : Z) : list (result (u16 * bytes) AttributeError) :=
  attribute_loop (length payload) payload offset.

(** [map_while(Result::ok)]. *)
Fixpoint map_while_ok {A E} (l : list (result A E)) : list A :=
  match l with Ok a :: l' => a :: map_while_ok l' | _ => [] end.

(** The bytes of the message up to the first NUL; [from_utf8_lossy] is left to the reader. *)
Definition parse_extack (payload : bytes) : option bytes :=
  '(_, s) ← find_first (fun a => fst a =? 1) (map_while_ok (attributes payload 16));
  Some (take_while (fun b => negb (b =? 0)) s).

Inductive Mutation := Create | Replace | Delete.

#[export] Instance Mutation_eq_dec : EqDecision Mutation.
Proof. solve_decision. Defined.

Definition NLM_F_REQUEST : u16 := 1.
Definition NLM_F_ACK : u16 := 4.
Definition NLM_F_REPLACE : u16 := 0x100.
Definition NLM_F_EXCL : u16 := 0x200.
Definition NLM_F_CREATE : u16 := 0x400.
Definition NLM_F_APPEND : u16 := 0x800.

Definition Mutation_flags (m : Mutation) : u16 :=
  Z.lor (Z.lor NLM_F_REQUEST NLM_F_ACK)
    match m with
    | Create => Z.lor NLM_F_CREATE NLM_F_EXCL
    | Replace => Z.lor NLM_F_CREATE NLM_F_REPLACE
    | Delete => 0
    end.

Record KernelError := mkKernelError { ke_errno : i32; ke_extack : option str }.

Definition ENOENT : i32 := 2.
Definition ESRCH : i32 := 3.
Definition EEXIST : i32 := 17.

(** ** Nexthop objects *)

Definition RTM_NEWNEXTHOP : u16 := 104.
Definition RTM_DELNEXTHOP : u16 := 105.
Definition RTM_GETNEXTHOP : u16 := 106.
Definition NHA_ID : u16 := 1.
Definition NHA_GROUP : u16 := 2.
Definition NHA_BLACKHOLE : u16 := 4.
Definition NHA_OIF : u16 := 5.
Definition NHA_GATEWAY : u16 := 6.
Definition NHA_FDB : u16 := 11.
Definition NH_F_DEAD : u32 := 1.
Definition NH_F_ONLINK : u32 := 4.
Definition NH_F_LINKDOWN : u32 := 16.

Record NexthopMessage := mkNexthopMessage {
  nh_id : u32;
  nh_group : list u32;
  nh_blackhole : bool;
  nh_fdb : bool;
  nh_ifindex : option u32;
  nh_gateway : option IpAddr;
  nh_onlink : bool;
  nh_dead : bool;
  nh_linkdown : bool
}.

(** [as_chunks::<8>().0] mapped to the ids; [fuel] is the length. *)
Fixpoint group_ids (fuel : nat) (value : bytes) : list u32 :=
  match fuel with
  | O => []
  | S fuel' =>
      if (length value <? 8)%nat then [] else from_ne_bytes (take 4 value) :: group_ids fuel' (drop 8 value)
  end.

Definition nexthop_attribute (m : NexthopMessage) (a : u16 * bytes) : NexthopMessage :=
  let '(mkNexthopMessage id group blackhole fdb ifindex gateway onlink dead linkdown) := m in
  let '(kind, value) := a in
  let n := Z.of_nat (length value) in
  if (kind =? NHA_ID) && (n =? 4) then
    mkNexthopMessage (from_ne_bytes value) group blackhole fdb ifindex gateway onlink dead linkdown
  else if (kind =? NHA_OIF) && (n =? 4) then
    mkNexthopMessage id group blackhole fdb (Some (from_ne_bytes value)) gateway onlink dead linkdown
  else if (kind =? NHA_GATEWAY) && (n =? 4) then
    mkNexthopMessage id group blackhole fdb ifindex (Some (IpV4 (from_be_bytes value))) onlink dead linkdown
  else if (kind =? NHA_GATEWAY) && (n =? 16) then
    mkNexthopMessage id group blackhole fdb ifindex (Some (IpV6 (from_be_bytes value))) onlink dead linkdown
  else if (kind =? NHA_GROUP) && (n mod 8 =? 0) then
    mkNexthopMessage id (group_ids (length value) value) blackhole fdb ifindex gateway onlink dead linkdown
  else if kind =? NHA_BLACKHOLE then
    mkNexthopMessage id group true fdb ifindex gateway onlink dead linkdown
  else if kind =? NHA_FDB then
    mkNexthopMessage id group blackhole true ifindex gateway onlink dead linkdown
  else m.

Inductive NexthopError := ShortNexthop (len : Z) | NexthopAttribute (e : AttributeError).

(** The [for] loop with its early return. *)
Fixpoint nexthop_attributes (m : NexthopMessage) (l : list (result (u16 * bytes) AttributeError))
    : result NexthopMessage NexthopError :=
  match l with
  | [] => Ok m
  | Ok a :: l' => nexthop_attributes (nexthop_attribute m a) l'
  | Err e :: _ => Err (NexthopAttribute e)
  end.

Definition NexthopMessage_parse (payload : bytes) : result NexthopMessage NexthopError :=
  if Z.of_nat (length payload) <? 8 then Err (ShortNexthop (Z.of_nat (length payload))) else
  let flags := from_ne_bytes (slice payload 4 8) in
  let m := mkNexthopMessage 0 [] false false None None (negb (Z.land flags NH_F_ONLINK =? 0))
    (negb (Z.land flags NH_F_DEAD =? 0)) (negb (Z.land flags NH_F_LINKDOWN =? 0)) in
  nexthop_attributes m (attributes payload 8).

(** ** The encoding the kernel uses *)

Definition padding (n : nat) : bytes := replicate (Z.to_nat ((- Z.of_nat n) mod 4)) 0.

(** An attribute: length, type, value, padding to four bytes. *)
Definition tlv (kind : u16) (value : bytes) : bytes :=
  to_ne_bytes 2 (4 + Z.of_nat (length value)) ++ to_ne_bytes 2 kind ++ value ++ padding (length value).

(** ** Lemmas *)

Lemma to_ne_bytes_length w n : length (to_ne_bytes w n) = w.
Proof. revert n. induction w as [|w IH]; intros n; simpl; [done|]. by rewrite IH. Qed.

Lemma from_to_ne_bytes w n : fits (8 * Z.of_nat w) n -> from_ne_bytes (to_ne_bytes w n) = n.
Proof.
  revert n. induction w as [|w IH]; intros n [H0 H1].
  { simpl in *. lia. }
  replace (8 * Z.of_nat (S w)) with (8 + 8 * Z.of_nat w) in H1 by lia. rewrite Z.pow_add_r in H1 by lia.
  cbn [to_ne_bytes from_ne_bytes]. rewrite IH.
  - pose proof (Z.div_mod n 256). lia.
  - split; [apply Z.div_pos; lia|]. apply Z.div_lt_upper_bound; [lia|]. change (2 ^ 8) with 256 in H1. lia.
Qed.

Lemma slice_app l b r from to : from = Z.of_nat (length l) -> to = from + Z.of_nat (length b) ->
  slice (l ++ b ++ r) from to = b.
Proof.
  intros -> ->. unfold slice. rewrite Z.add_simpl_l, !Nat2Z.id, drop_app_length, take_app_length. done.
Qed.

Lemma padding_length n : Z.of_nat (length (padding n)) = (- Z.of_nat n) mod 4.
Proof.
  unfold padding. rewrite length_replicate. apply Z2Nat.id. apply Z.mod_pos_bound. lia.
Qed.

(** [(len + 3) & !3] rounds up to a multiple of four. *)
Lemma round_up_4 n : Z.land (n + 3) (Z.lnot 3) = n + (- n) mod 4.
Proof.
  assert (Z.land (n + 3) (Z.lnot 3) = (n + 3) / 4 * 4) as ->.
  { change 3 with (Z.ones 2) at 2. rewrite <- Z.ldiff_land, Z.ldiff_ones_r by lia.
    rewrite Z.shiftr_div_pow2, Z.shiftl_mul_pow2 by lia. done. }
  pose proof (Z.div_mod (n + 3) 4 ltac:(lia)). pose proof (Z.div_mod (- n) 4 ltac:(lia)).
  pose proof (Z.mod_pos_bound (n + 3) 4 ltac:(lia)). pose proof (Z.mod_pos_bound (- n) 4 ltac:(lia)). lia.
Qed.

Lemma tlv_length kind value : Z.of_nat (length (tlv kind value)) =
  4 + Z.of_nat (length value) + (- Z.of_nat (length value)) mod 4.
Proof.
  unfold tlv. rewrite !length_app, !to_ne_bytes_length, !Nat2Z.inj_add, padding_length. lia.
Qed.

Definition attr_wf (a : u16 * bytes) : Prop := fits 14 (fst a) /\ Z.of_nat (length (snd a)) + 4 < 2 ^ 16.

(** One attribute is read off the payload whatever surrounds it. *)
Lemma attribute_step fuel pre kind value rest : attr_wf (kind, value) ->
  attribute_loop (S fuel) (pre ++ tlv kind value ++ rest) (Z.of_nat (length pre)) =
  Ok (kind, value) :: attribute_loop fuel (pre ++ tlv kind value ++ rest)
    (Z.of_nat (length (pre ++ tlv kind value))).
Proof.
  intros [Hk Hv]. simpl in Hk, Hv. cbn [attribute_loop].
  set (payload := pre ++ tlv kind value ++ rest). set (n := Z.of_nat (length value)) in *.
  set (off := Z.of_nat (length pre)).
  assert (Hlen : Z.of_nat (length payload) =
    off + (4 + n + (- n) mod 4) + Z.of_nat (length rest)).
  { unfold payload. rewrite !length_app, !Nat2Z.inj_add, tlv_length. fold n off. lia. }
  pose proof (Z.mod_pos_bound (- n) 4 ltac:(lia)).
  assert (E1 : slice payload off (off + 2) = to_ne_bytes 2 (4 + n)).
  { unfold payload, tlv. rewrite <- !app_assoc. apply slice_app; rewrite ?to_ne_bytes_length; done. }
  assert (E2 : slice payload (off + 2) (off + 4) = to_ne_bytes 2 kind).
  { unfold payload, tlv. rewrite <- !app_assoc, app_assoc.
    apply slice_app; rewrite ?length_app, ?to_ne_bytes_length; unfold off, n; lia. }
  assert (E3 : slice payload (off + 4) (off + (4 + n)) = value).
  { unfold payload, tlv. rewrite <- !app_assoc, app_assoc, app_assoc.
    apply slice_app; rewrite ?length_app, ?to_ne_bytes_length; unfold off, n; lia. }
  rewrite E1, E2, !from_to_ne_bytes;
    [|change (8 * Z.of_nat 2) with 16; unfold fits in *; lia..].
  rewrite (proj2 (Z.ltb_ge _ _)) by lia. rewrite (proj2 (Z.ltb_ge (4 + n) 4)) by lia.
  rewrite (proj2 (Z.ltb_ge (Z.of_nat (length payload)) (off + (4 + n)))) by lia. cbn [orb].
  rewrite E3. change 0x3fff with (Z.ones 14). rewrite Z.land_ones, Z.mod_small by (unfold fits in *; lia).
  f_equal. f_equal. rewrite length_app, Nat2Z.inj_add, tlv_length, round_up_4. fold n off.
  replace (- (4 + n)) with (- n + (-1) * 4) by lia. rewrite Z.mod_add by lia. lia.
Qed.

Definition encode_attributes (l : list (u16 * bytes)) : bytes := concat ((fun a => tlv (fst a) (snd a)) <$> l).

Lemma attribute_loop_encode fuel pre l : Forall attr_wf l -> (length l <= fuel)%nat ->
  attribute_loop fuel (pre ++ encode_attributes l) (Z.of_nat (length pre)) = inl <$> l.
Proof.
  intros Hl. revert fuel pre. induction Hl as [|[kind value] l Ha Hl IH]; intros fuel pre Hf.
  - destruct fuel; [done|]. cbn. rewrite app_nil_r.
    by rewrite (proj2 (Z.ltb_lt _ _)) by lia.
  - destruct fuel as [|fuel]; [simpl in Hf; lia|]. unfold encode_attributes. rewrite !fmap_cons. cbn [concat fst snd].
    rewrite attribute_step by done. f_equal. rewrite app_assoc. apply IH. simpl in Hf. lia.
Qed.

Lemma encode_attributes_length l : (length l <= length (encode_attributes l))%nat.
Proof.
  induction l as [|[k v] l IH]; [done|]. unfold encode_attributes in *. rewrite fmap_cons. cbn [concat].
  rewrite length_app. pose proof (tlv_length k v) as Ht. simpl fst; simpl snd.
  pose proof (Z.mod_pos_bound (- Z.of_nat (length v)) 4 ltac:(lia)). simpl length. lia.
Qed.

Lemma attributes_encode pre l : Forall attr_wf l ->
  attributes (pre ++ encode_attributes l) (Z.of_nat (length pre)) = inl <$> l.
Proof.
  intros Hl. apply attribute_loop_encode; [done|]. rewrite length_app.
  pose proof (encode_attributes_length l). lia.
Qed.

(** What is yielded lies in the payload, and an error ends the iteration. *)
Lemma attribute_loop_safe fuel payload off : 0 <= off ->
  forall i r, attribute_loop fuel payload off !! i = Some r ->
  match r with
  | Ok (_, value) => exists pre post, payload = pre ++ value ++ post /\ (off <= Z.of_nat (length pre))
  | Err _ => S i = length (attribute_loop fuel payload off)
  end.
Proof.
  revert off. induction fuel as [|fuel IH]; intros off Hoff i r; [done|]. cbn [attribute_loop].
  destruct (Z.ltb_spec (Z.of_nat (length payload)) (off + 4)) as [|H4]; [done|].
  set (len := from_ne_bytes _). set (kind := Z.land _ _).
  destruct (Z.ltb_spec len 4) as [|Hl4], (Z.ltb_spec (Z.of_nat (length payload)) (off + len)) as [|Hlen];
    cbn [orb]; try (intros Hr; destruct i as [|[|]]; simplify_eq/=; done).
  destruct i as [|i]; cbn [lookup list_lookup length].
  - intros [= <-]. exists (take (Z.to_nat (off + 4)) payload), (drop (Z.to_nat (off + len)) payload). split.
    + unfold slice. replace (Z.to_nat (off + len)) with (Z.to_nat (off + 4) + Z.to_nat (off + len - (off + 4)))%nat by lia.
      rewrite <- drop_drop, !take_drop. done.
    + rewrite length_take. lia.
  - intros Hr. rewrite round_up_4 in *. pose proof (Z.mod_pos_bound (- len) 4 ltac:(lia)).
    specialize (IH (off + (len + - len mod 4)) ltac:(lia) i r Hr). destruct r as [[k v]|e].
    + destruct IH as (pre & post & -> & Hpre). exists pre, post. split; [done|lia].
    + by rewrite IH.
Qed.

(** An attribute takes four bytes or more, so any fuel that covers the rest
    of the payload gives the same: the fuel of [attributes] never cuts the
    iteration short. *)
Lemma attribute_loop_fuel fuel payload off : 0 <= off -> Z.of_nat (length payload) <= off + Z.of_nat fuel ->
  attribute_loop fuel payload off = attribute_loop (S fuel) payload off.
Proof.
  revert off. induction fuel as [|fuel IH]; intros off Ho Hf.
  - cbn [attribute_loop]. by rewrite (proj2 (Z.ltb_lt _ _)) by lia.
  - change (attribute_loop (S (S fuel)) payload off) with (
      if Z.of_nat (length payload) <? off + 4 then [] else
      let len := from_ne_bytes (slice payload off (off + 2)) in
      let kind := Z.land (from_ne_bytes (slice payload (off + 2) (off + 4))) 0x3fff in
      if (len <? 4) || (Z.of_nat (length payload) <? off + len) then [Err (BadAttribute kind len off)] else
      Ok (kind, slice payload (off + 4) (off + len)) ::
        attribute_loop (S fuel) payload (off + Z.land (len + 3) (Z.lnot 3))).
    cbn [attribute_loop]. destruct (Z.of_nat (length payload) <? off + 4); [done|]. cbv zeta.
    set (len := from_ne_bytes _). destruct (Z.ltb_spec len 4); [done|]. cbn [orb].
    destruct (Z.of_nat (length payload) <? off + len); [done|]. f_equal.
    rewrite round_up_4. pose proof (Z.mod_pos_bound (- len) 4 ltac:(lia)). apply IH; lia.
Qed.

(** ** Nexthop objects: the encoding of a message *)

Definition group_entry (id : u32) : bytes := to_ne_bytes 4 id ++ [0; 0; 0; 0].

Definition to_be_bytes (w : nat) (n : Z) : bytes := rev (to_ne_bytes w n).

Definition flag_bit (b : bool) (f : Z) : Z := if b then f else 0.

Definition nexthop_flags (m : NexthopMessage) : u32 :=
  flag_bit (nh_onlink m) NH_F_ONLINK + flag_bit (nh_dead m) NH_F_DEAD +
  flag_bit (nh_linkdown m) NH_F_LINKDOWN.

Definition nexthop_attrs (m : NexthopMessage) : list (u16 * bytes) :=
  [(NHA_ID, to_ne_bytes 4 (nh_id m))] ++
  match nh_group m with [] => [] | g => [(NHA_GROUP, concat (group_entry <$> g))] end ++
  (if nh_blackhole m then [(NHA_BLACKHOLE, [])] else []) ++
  (if nh_fdb m then [(NHA_FDB, [])] else []) ++
  match nh_ifindex m with Some i => [(NHA_OIF, to_ne_bytes 4 i)] | None => [] end ++
  match nh_gateway m with
  | Some (IpV4 a) => [(NHA_GATEWAY, to_be_bytes 4 a)]
  | Some (IpV6 a) => [(NHA_GATEWAY, to_be_bytes 16 a)]
  | None => []
  end.

Definition nexthop_encode (family scope protocol : u8) (m : NexthopMessage) : bytes :=
  ([family; scope; protocol; 0] ++ to_ne_bytes 4 (nexthop_flags m)) ++ encode_attributes (nexthop_attrs m).

Record NexthopMessage_wf (m : NexthopMessage) : Prop := {
  nw_id : fits 32 (nh_id m);
  nw_group : Forall (fits 32) (nh_group m);
  nw_group_len : Z.of_nat (length (nh_group m)) < 8191;
  nw_ifindex : forall i, nh_ifindex m = Some i -> fits 32 i;
  nw_gateway : match nh_gateway m with
               | Some (IpV4 a) => fits 32 a
               | Some (IpV6 a) => fits 128 a
               | None => True
               end
}.

Lemma from_be_rev b : from_be_bytes (rev b) = from_ne_bytes b.
Proof.
  unfold from_be_bytes. induction b as [|x b IH]; [done|]. cbn [rev from_ne_bytes].
  rewrite foldl_app. simpl. rewrite IH. lia.
Qed.

Lemma from_to_be_bytes w n : fits (8 * Z.of_nat w) n -> from_be_bytes (to_be_bytes w n) = n.
Proof. intros. unfold to_be_bytes. rewrite from_be_rev. by apply from_to_ne_bytes. Qed.

Lemma group_bytes_length g : length (concat (group_entry <$> g)) = (8 * length g)%nat.
Proof.
  induction g as [|i g IH]; [done|]. rewrite fmap_cons. cbn [concat]. rewrite length_app, IH.
  unfold group_entry. rewrite length_app, to_ne_bytes_length. simpl length. lia.
Qed.

Lemma group_ids_encode fuel g : Forall (fits 32) g -> (length g <= fuel)%nat ->
  group_ids fuel (concat (group_entry <$> g)) = g.
Proof.
  intros Hg. revert fuel. induction Hg as [|i g Hi Hg IH]; intros fuel Hf; [by destruct fuel|].
  destruct fuel as [|fuel]; [simpl in Hf; lia|]. rewrite fmap_cons. cbn [concat group_ids].
  set (rest := concat (group_entry <$> g)) in *.
  assert (Hlen : length (group_entry i) = 8%nat)
    by (unfold group_entry; rewrite length_app, to_ne_bytes_length; done).
  rewrite (proj2 (Nat.ltb_ge _ _)) by (rewrite length_app, Hlen; lia). f_equal.
  - unfold group_entry. rewrite <- app_assoc.
    rewrite <- (to_ne_bytes_length 4 i) at 1. rewrite take_app_length. by apply from_to_ne_bytes.
  - rewrite <- Hlen, drop_app_length. apply IH. simpl in Hf. lia.
Qed.

Lemma nexthop_attributes_ok m l : nexthop_attributes m (inl <$> l) = Ok (foldl nexthop_attribute m l).
Proof. revert m. induction l as [|a l IH]; intros m; [done|]. apply IH. Qed.

Lemma nexthop_attribute_id m id : fits 32 id ->
  nexthop_attribute m (NHA_ID, to_ne_bytes 4 id) =
    mkNexthopMessage id (nh_group m) (nh_blackhole m) (nh_fdb m) (nh_ifindex m) (nh_gateway m)
      (nh_onlink m) (nh_dead m) (nh_linkdown m).
Proof.
  intros Hid. destruct m. unfold nexthop_attribute. rewrite to_ne_bytes_length.
  cbn -[from_ne_bytes to_ne_bytes]. by rewrite from_to_ne_bytes.
Qed.

Lemma nexthop_attribute_oif m i : fits 32 i ->
  nexthop_attribute m (NHA_OIF, to_ne_bytes 4 i) =
    mkNexthopMessage (nh_id m) (nh_group m) (nh_blackhole m) (nh_fdb m) (Some i) (nh_gateway m)
      (nh_onlink m) (nh_dead m) (nh_linkdown m).
Proof.
  intros Hi. destruct m. unfold nexthop_attribute. rewrite to_ne_bytes_length.
  cbn -[from_ne_bytes to_ne_bytes]. by rewrite from_to_ne_bytes.
Qed.

Lemma nexthop_attribute_gateway m a :
  match a with IpV4 n => fits 32 n | IpV6 n => fits 128 n end ->
  nexthop_attribute m (NHA_GATEWAY, match a with IpV4 n => to_be_bytes 4 n | IpV6 n => to_be_bytes 16 n end) =
    mkNexthopMessage (nh_id m) (nh_group m) (nh_blackhole m) (nh_fdb m) (nh_ifindex m) (Some a)
      (nh_onlink m) (nh_dead m) (nh_linkdown m).
Proof.
  intros Ha. destruct m, a as [n|n]; unfold nexthop_attribute, to_be_bytes; rewrite length_rev, to_ne_bytes_length;
    cbn -[from_be_bytes to_ne_bytes rev]; fold (to_be_bytes 4 n); fold (to_be_bytes 16 n);
    by rewrite from_to_be_bytes.
Qed.

Lemma nexthop_attribute_group m g : Forall (fits 32) g ->
  nexthop_attribute m (NHA_GROUP, concat (group_entry <$> g)) =
    mkNexthopMessage (nh_id m) g (nh_blackhole m) (nh_fdb m) (nh_ifindex m) (nh_gateway m)
      (nh_onlink m) (nh_dead m) (nh_linkdown m).
Proof.
  intros Hg. destruct m. unfold nexthop_attribute. rewrite group_bytes_length.
  cbn -[Z.mul Z.of_nat Nat.mul group_ids concat fmap list_fmap Z.modulo].
  replace (Z.of_nat (8 * length g) mod 8) with 0.
  - rewrite Z.eqb_refl. rewrite group_ids_encode by (done || lia). done.
  - rewrite Nat2Z.inj_mul, Z.mul_comm, Z.mod_mul by lia. done.
Qed.

Lemma nexthop_attrs_wf m : NexthopMessage_wf m -> Forall attr_wf (nexthop_attrs m).
Proof.
  intros [? ? Hlen ? ?].
  assert (H1 : forall k v, fits 14 k -> Z.of_nat (length v) + 4 < 2 ^ 16 -> Forall attr_wf [(k, v)])
    by (intros; apply Forall_singleton; by split).
  unfold nexthop_attrs. rewrite !Forall_app. split_and!.
  - by apply H1.
  - destruct (nh_group m) as [|g gs]; [done|]. apply H1; [done|]. rewrite group_bytes_length. lia.
  - destruct (nh_blackhole m); [by apply H1|done].
  - destruct (nh_fdb m); [by apply H1|done].
  - destruct (nh_ifindex m); [by apply H1|done].
  - destruct (nh_gateway m) as [[]|]; [by apply H1..|done].
Qed.

(** The attributes of a message, applied to its flags, rebuild it. *)
Lemma nexthop_attrs_fold m : NexthopMessage_wf m ->
  foldl nexthop_attribute (mkNexthopMessage 0 [] false false None None (nh_onlink m) (nh_dead m) (nh_linkdown m))
    (nexthop_attrs m) = m.
Proof.
  intros [Hid Hg _ Hif Hgw]. destruct m as [id g bh fdb oif gw onlink dead linkdown].
  unfold nexthop_attrs.
  cbn [nh_id nh_group nh_blackhole nh_fdb nh_ifindex nh_gateway nh_onlink nh_dead nh_linkdown] in *.
  rewrite !foldl_app. cbn [foldl]. rewrite nexthop_attribute_id by done.
  destruct g as [|x gs]; [|pose proof (fun m => nexthop_attribute_group m (x :: gs) Hg) as Hgr];
  (destruct oif as [i|]; [specialize (Hif i eq_refl)|clear Hif]);
    (destruct gw as [[a|a]|];
      [pose proof (fun m => nexthop_attribute_gateway m (IpV4 a) Hgw) as Hga
      |pose proof (fun m => nexthop_attribute_gateway m (IpV6 a) Hgw) as Hga|]);
    cbn [foldl]; rewrite ?Hgr, ?Hga, ?nexthop_attribute_oif by done; by destruct bh, fdb.
Qed.

(** ** Properties *)

(** The attribute iterator.  On an encoded sequence of attributes,
    after any prefix, it yields exactly those attributes; on arbitrary bytes
    every value it yields is a piece of the payload, and a malformed
    attribute is reported as the last item. *)
Theorem attributes_spec (pre : bytes) (l : list (u16 * bytes)) (payload : bytes)
    (Hl : Forall attr_wf l) :
  attributes (pre ++ encode_attributes l) (Z.of_nat (length pre)) = inl <$> l /\
  (forall i r, attributes payload (Z.of_nat (length pre)) !! i = Some r ->
     match r with
     | Ok (_, value) => exists p q, payload = p ++ value ++ q /\ Z.of_nat (length pre) <= Z.of_nat (length p)
     | Err _ => S i = length (attributes payload (Z.of_nat (length pre)))
     end).
Proof. split; [by apply attributes_encode|]. apply attribute_loop_safe. lia. Qed.

Lemma attributes_spec_witness :
  attributes ([9] ++ encode_attributes [(1, [7; 8]); (5, [])]) 1 = [Ok (1, [7; 8]); Ok (5, [])].
Proof.
  apply (attributes_spec [9] [(1, [7; 8]); (5, [])] []).
  repeat constructor; simpl; unfold fits; lia.
Defined.

(** A nexthop object as the kernel encodes it (header, flags, id, group
    members, blackhole and fdb markers, interface, IPv4 or IPv6 gateway) is
    parsed back exactly. *)
Theorem nexthop_roundtrip (family scope protocol : u8) (m : NexthopMessage) (Hm : NexthopMessage_wf m) :
  NexthopMessage_parse (nexthop_encode family scope protocol m) = Ok m.
Proof.
  assert (Hat := attributes_encode ([family; scope; protocol; 0] ++ to_ne_bytes 4 (nexthop_flags m))
    (nexthop_attrs m) (nexthop_attrs_wf m Hm)).
  fold (nexthop_encode family scope protocol m) in Hat.
  rewrite length_app, to_ne_bytes_length in Hat. change (Z.of_nat (length [family; scope; protocol; 0] + 4)) with 8 in Hat.
  assert (Hfl : slice (nexthop_encode family scope protocol m) 4 8 = to_ne_bytes 4 (nexthop_flags m)).
  { unfold nexthop_encode. rewrite <- app_assoc. apply slice_app; [done|]. by rewrite to_ne_bytes_length. }
  unfold NexthopMessage_parse. rewrite Hat, Hfl, nexthop_attributes_ok.
  rewrite (proj2 (Z.ltb_ge _ _)).
  - rewrite from_to_ne_bytes by (by destruct m as [? ? ? ? ? ? [] [] []]). f_equal.
    rewrite <- nexthop_attrs_fold by done. f_equal. by destruct m as [? ? ? ? ? ? [] [] []].
  - unfold nexthop_encode. rewrite !length_app, to_ne_bytes_length. simpl length. lia.
Qed.

Lemma nexthop_roundtrip_witness :
  NexthopMessage_parse (nexthop_encode 10 0 4
    (mkNexthopMessage 20 [10; 11] false false (Some 2) (Some (IpV4 3221225985)) true false true)) =
  Ok (mkNexthopMessage 20 [10; 11] false false (Some 2) (Some (IpV4 3221225985)) true false true).
Proof.
  apply (nexthop_roundtrip 10 0 4
    (mkNexthopMessage 20 [10; 11] false false (Some 2) (Some (IpV4 3221225985)) true false true)).
  split; simpl; try done; [repeat constructor; done|]. intros i [= <-]. done.
Defined.
