(* ===== verification/System.v ===== *)
(** * The observed system

    Models crates/polywan/src/system.rs: the view of links, addresses,
    routes, rules and nexthop objects that dumps and notifications build.
    The [BTreeMap]s are [gmap]s; [Instant::now()] is an argument (one reading
    per call).  The view's invariant ([System_wf]) is what the reconciler
    relies on: a route is stored under its own identity, a rule's stored
    message parses to the rule, and no two stored rules are the same rule. *)

From stdpp Require Import prelude gmap sorting.
From Stdlib Require Import ZArith Lia.
From S2P Require Import Prelude Text Model Durations Config Plan Msg Netlink.

Local Open Scope Z_scope.

Inductive Via :=
  | Via_Table
  | Via_Object (id : u32)
  | Via_Hop (ifindex : u32) (gateway : option IpAddr)
  | Via_Other.

#[export] Instance Via_eq_dec : EqDecision Via.
Proof. solve_decision. Defined.
Definition Via_code (v : Via) : Z * (Z * option IpAddr) :=
  match v with
  | Via_Table => (0, (0, None))
  | Via_Object id => (1, (id, None))
  | Via_Hop i g => (2, (i, g))
  | Via_Other => (3, (0, None))
  end.
#[export] Instance Via_countable : Countable Via.
Proof.
  apply (inj_countable' Via_code (fun c =>
    if fst c =? 0 then Via_Table else if fst c =? 1 then Via_Object (fst (snd c))
    else if fst c =? 2 then Via_Hop (fst (snd c)) (snd (snd c)) else Via_Other)).
  by intros [].
Defined.
#[export] Instance Via_Cmp : Cmp Via := cmp_by Via_code.
#[export] Instance Via_CmpOrder : CmpOrder Via.
Proof. apply CmpOrder_by. by intros [] [] [=]; subst. Qed.

Definition RouteKey : Type := Family * u32 * option (IpAddr * u8) * u32 * Via.

#[export] Instance RouteKey_eq_dec : EqDecision RouteKey.
Proof. unfold RouteKey. apply _. Defined.
#[export] Instance RouteKey_countable : Countable RouteKey.
Proof. unfold RouteKey. apply _. Defined.
#[export] Instance RouteKey_Cmp : Cmp RouteKey.
Proof. unfold RouteKey. apply _. Defined.

Record Scope := mkScope {
  sco_polywan_tables : list (u32 * u32);
  sco_discovery_tables : list u32
}.

Definition is_polywan (s : Scope) (table : u32) : bool :=
  existsb (fun t => range_contains t table) (sco_polywan_tables s).

Definition scope_keeps (s : Scope) (r : ObservedRoute) : bool :=
  is_polywan s (ort_table r) ||
  (ObservedRoute_is_default r && existsb (Z.eqb (ort_table r)) (sco_discovery_tables s)) ||
  ((ort_table r =? TABLE_MAIN) && negb (ObservedRoute_is_default r) &&
   forallb (fun h => bool_decide (oh_gateway h = None)) (ort_nexthops r)).

Record System := mkSystem {
  sys_links : gmap u32 ObservedLink;
  sys_addresses : gmap (u32 * IpAddr) ObservedAddress;
  sys_routes : gmap RouteKey ObservedRoute;
  sys_rules : list ObservedRule;
  sys_nexthops : gmap u32 NexthopMessage
}.

Definition System_default : System := mkSystem ∅ ∅ ∅ [] ∅.

Inductive Change :=
  | Change_Link (i : u32)
  | Change_Address (i : u32)
  | Change_Route (family : Family) (table : u32) (removed : bool)
  | Change_Rule (family : Family) (removed : bool)
  | Change_Nexthop (removed : bool)
  | Change_None.

#[export] Instance Change_eq_dec : EqDecision Change.
Proof. solve_decision. Defined.

Definition route_via (s : Scope) (r : ObservedRoute) : Via :=
  if is_polywan s (ort_table r) then Via_Table else
  match ort_nexthop_id r with
  | Some id => Via_Object id
  | None => match ort_nexthops r with [h] => Via_Hop (oh_ifindex h) (oh_gateway h) | _ => Via_Other end
  end.

Definition route_key (s : Scope) (r : ObservedRoute) : RouteKey :=
  (ort_family r, ort_table r, ort_destination r, ort_metric r, route_via s r).

(** The first link of that name in index order. *)
Definition link_by_name (sys : System) (name : str) : option ObservedLink :=
  find_first (fun l => bool_decide (ol_name l = name)) (btree_values (sys_links sys)).

Definition with_expiry (r : ObservedRoute) (t : option Instant) : ObservedRoute :=
  mkObservedRoute (ort_family r) (ort_table r) (ort_protocol r) (ort_metric r) (ort_destination r)
    (ort_kind r) (ort_source r) (ort_nexthops r) (ort_nexthop_id r) (ort_preference r) t (ort_message r).

Definition keep_expiry (now : Instant) (old : option Instant) (new : ObservedRoute) : ObservedRoute :=
  match ort_expires_at new, old with
  | None, Some t => if t <=? now + from_secs 1 then with_expiry new (Some t) else new
  | _, _ => new
  end.

Definition same_rule (a b : ObservedRule) : bool :=
  if or_foreign_selectors a || or_foreign_selectors b then bool_decide (or_message a = or_message b) else
  bool_decide (or_family a = or_family b) && (or_priority a =? or_priority b) &&
  (or_protocol a =? or_protocol b) && bool_decide (or_fwmark a = or_fwmark b) &&
  bool_decide (or_source a = or_source b) && bool_decide (or_action a = or_action b).

(** [RouteNetlinkMessage] and [netlink::Message]. *)
Inductive RouteNetlinkMessage :=
  | NewLink (l : LinkMessage)
  | DelLink (l : LinkMessage)
  | NewAddress (a : AddressMessage)
  | DelAddress (a : AddressMessage)
  | NewRoute (r : RouteMessage)
  | DelRoute (r : RouteMessage)
  | NewRule (r : RuleMessage)
  | DelRule (r : RuleMessage)
  | OtherMessage (kind : u16).

Inductive Message :=
  | Message_Route (m : RouteNetlinkMessage)
  | Message_NewNexthop (n : NexthopMessage)
  | Message_DelNexthop (n : NexthopMessage)
  | Message_GetNexthops.

Definition set_links (s : System) l := mkSystem l (sys_addresses s) (sys_routes s) (sys_rules s) (sys_nexthops s).
Definition set_addresses (s : System) a := mkSystem (sys_links s) a (sys_routes s) (sys_rules s) (sys_nexthops s).
Definition set_routes (s : System) r := mkSystem (sys_links s) (sys_addresses s) r (sys_rules s) (sys_nexthops s).
Definition set_rules (s : System) r := mkSystem (sys_links s) (sys_addresses s) (sys_routes s) r (sys_nexthops s).
Definition set_nexthops (s : System) n := mkSystem (sys_links s) (sys_addresses s) (sys_routes s) (sys_rules s) n.

Definition apply_route (sys : System) (scope : Scope) (now : Instant) (r : ObservedRoute) (deleted : bool)
    : System * Change :=
  if negb (scope_keeps scope r) then (sys, Change_None) else
  let key := route_key scope r in
  let routes :=
    if deleted then delete key (sys_routes sys)
    else <[key := keep_expiry now (sys_routes sys !! key ≫= ort_expires_at) r]> (sys_routes sys) in
  (set_routes sys routes, Change_Route (ort_family r) (ort_table r) deleted).

Definition drop_rule (r : ObservedRule) (rules : list ObservedRule) : list ObservedRule :=
  List.filter (fun o => negb (same_rule o r)) rules.

Definition System_apply (sys : System) (scope : Scope) (now : Instant) (m : RouteNetlinkMessage)
    : System * Change :=
  match m with
  | NewLink l =>
      match ObservedLink_parse l with
      | Some l => (set_links sys (<[ol_index l := l]> (sys_links sys)), Change_Link (ol_index l))
      | None => (sys, Change_None)
      end
  | DelLink l =>
      let i := lm_index l in
      (set_addresses (set_links sys (delete i (sys_links sys)))
         (filter (fun kv => fst (fst kv) <> i) (sys_addresses sys)), Change_Link i)
  | NewAddress a =>
      match ObservedAddress_parse a with
      | Some a =>
          if decide (sys_addresses sys !! (oa_index a, oa_address a) = Some a) then (sys, Change_None)
          else (set_addresses sys (<[(oa_index a, oa_address a) := a]> (sys_addresses sys)),
                Change_Address (oa_index a))
      | None => (sys, Change_None)
      end
  | DelAddress a =>
      match ObservedAddress_parse a with
      | Some a => (set_addresses sys (delete (oa_index a, oa_address a) (sys_addresses sys)),
                   Change_Address (oa_index a))
      | None => (sys, Change_None)
      end
  | NewRoute r =>
      match ObservedRoute_parse now r with
      | Some r => apply_route sys scope now r false
      | None => (sys, Change_None)
      end
  | DelRoute r =>
      match ObservedRoute_parse now r with
      | Some r => apply_route sys scope now r true
      | None => (sys, Change_None)
      end
  | NewRule r =>
      match ObservedRule_parse r with
      | Some r => (set_rules sys (drop_rule r (sys_rules sys) ++ [r]), Change_Rule (or_family r) false)
      | None => (sys, Change_None)
      end
  | DelRule r =>
      match ObservedRule_parse r with
      | Some r => (set_rules sys (drop_rule r (sys_rules sys)), Change_Rule (or_family r) true)
      | None => (sys, Change_None)
      end
  | OtherMessage _ => (sys, Change_None)
  end.

Definition apply_message (sys : System) (scope : Scope) (now : Instant) (m : Message) : System * Change :=
  match m with
  | Message_Route r => System_apply sys scope now r
  | Message_NewNexthop n => (set_nexthops sys (<[nh_id n := n]> (sys_nexthops sys)), Change_Nexthop false)
  | Message_DelNexthop n => (set_nexthops sys (delete (nh_id n) (sys_nexthops sys)), Change_Nexthop true)
  | Message_GetNexthops => (sys, Change_None)
  end.

(** The routes of a family and table in a dump, as [replace_table] keeps them. *)
Definition dump_route (scope : Scope) (now : Instant) (family : Family) (table : u32)
    (m : RouteNetlinkMessage) : option ObservedRoute :=
  match m with
  | NewRoute r =>
      r ← ObservedRoute_parse now r;
      if bool_decide (ort_family r = family) && (ort_table r =? table) && scope_keeps scope r
      then Some r else None
  | _ => None
  end.

Definition in_table (family : Family) (table : u32) (k : RouteKey) : bool :=
  let '(f, t, _, _, _) := k in bool_decide (f = family) && (t =? table).

Definition replace_table (sys : System) (scope : Scope) (now : Instant) (family : Family) (table : u32)
    (dump : list RouteNetlinkMessage) : System :=
  let expiries : gmap RouteKey Instant :=
    omap ort_expires_at (filter (fun kv => in_table family table (fst kv) = true) (sys_routes sys)) in
  let kept := filter (fun kv => in_table family table (fst kv) = false) (sys_routes sys) in
  set_routes sys
    (foldl (fun routes r => <[route_key scope r := keep_expiry now (expiries !! route_key scope r) r]> routes)
       kept (omap (dump_route scope now family table) dump)).

Definition keep_expiries (sys : System) (now : Instant) (old : System) : System :=
  set_routes sys
    (map_imap (fun k r => Some (keep_expiry now (sys_routes old !! k ≫= ort_expires_at) r)) (sys_routes sys)).

(** The first four components of a key. *)
Definition key_destination (k : RouteKey) : Family * u32 * option (IpAddr * u8) * u32 := fst k.

Definition stale_after (sys : System) (scope : Scope) (r : ObservedRoute) (deleted : bool) (flags : u16)
    : option (Family * u32) :=
  if is_polywan scope (ort_table r) then None else
  let key := route_key scope r in
  let stale :=
    if deleted then scope_keeps scope r && bool_decide (sys_routes sys !! key = None)
    else if negb (Z.land flags NLM_F_APPEND =? 0) then scope_keeps scope r
    else if negb (Z.land flags NLM_F_REPLACE =? 0) then
      let kept := scope_keeps scope r in
      existsb (fun k => bool_decide (key_destination k = key_destination key) &&
                        (negb (bool_decide (k = key)) || negb kept)) (btree_keys (sys_routes sys))
    else false in
  if stale then Some (ort_family r, ort_table r) else None.

Definition uses_nexthop (sys : System) (id : u32) (r : ObservedRoute) : bool :=
  match ort_nexthop_id r with
  | None => false
  | Some n => (n =? id) ||
      match sys_nexthops sys !! n with Some g => existsb (Z.eqb id) (nh_group g) | None => false end
  end.

Definition nexthop_users (sys : System) (id : u32) : gset (Family * u32) :=
  list_to_set ((fun r => (ort_family r, ort_table r)) <$>
    List.filter (uses_nexthop sys id) (btree_values (sys_routes sys))).

Definition routes_in (sys : System) (family : Family) (table : u32) : list ObservedRoute :=
  List.filter (fun r => bool_decide (ort_family r = family) && (ort_table r =? table))
    (btree_values (sys_routes sys)).

(** ** The invariant of the view *)

(** The route is what its message says, up to the expiry. *)
Definition route_from_message (r : ObservedRoute) : Prop :=
  exists now o, ObservedRoute_parse now (ort_message r) = Some o /\ r = with_expiry o (ort_expires_at r).

Record System_wf (scope : Scope) (sys : System) : Prop := {
  sw_links : forall i l, sys_links sys !! i = Some l -> ol_index l = i;
  sw_addresses : forall k a, sys_addresses sys !! k = Some a -> k = (oa_index a, oa_address a);
  sw_routes : forall k r, sys_routes sys !! k = Some r ->
    k = route_key scope r /\ scope_keeps scope r = true /\ route_from_message r;
  sw_rules : forall o, o ∈ sys_rules sys -> ObservedRule_parse (or_message o) = Some o;
  sw_rules_distinct : StronglySorted (fun a b => same_rule a b = false) (sys_rules sys);
  sw_nexthops : forall i n, sys_nexthops sys !! i = Some n -> nh_id n = i
}.

Lemma System_default_wf scope : System_wf scope System_default.
Proof. split; simpl; try done; [intros o Ho; by apply not_elem_of_nil in Ho|constructor]. Qed.

Lemma ObservedRule_parse_message m o : ObservedRule_parse m = Some o -> or_message o = m.
Proof. unfold ObservedRule_parse. destruct (family (rm_family m)); simpl; [|done]. by intros [= <-]. Qed.

Lemma ObservedRoute_parse_message now m o : ObservedRoute_parse now m = Some o -> ort_message o = m.
Proof.
  unfold ObservedRoute_parse. destruct (family (rtm_address_family m)); simpl; [|done]. by intros [= <-].
Qed.

Lemma keep_expiry_eq now old r : keep_expiry now old r = with_expiry r (ort_expires_at (keep_expiry now old r)).
Proof. unfold keep_expiry. repeat case_match; simpl; destruct r; simpl in *; by subst. Qed.

Lemma with_expiry_key scope r t : route_key scope (with_expiry r t) = route_key scope r.
Proof. done. Qed.
Lemma with_expiry_keeps scope r t : scope_keeps scope (with_expiry r t) = scope_keeps scope r.
Proof. done. Qed.

Lemma keep_expiry_wf scope now old r : scope_keeps scope r = true -> route_from_message r ->
  route_key scope (keep_expiry now old r) = route_key scope r /\
  scope_keeps scope (keep_expiry now old r) = true /\ route_from_message (keep_expiry now old r).
Proof.
  intros Hk (now' & o & Ho & Hr). rewrite keep_expiry_eq. rewrite with_expiry_key, with_expiry_keeps.
  split_and!; try done. exists now', o. split; [done|]. rewrite Hr. done.
Qed.

Lemma parsed_route_from_message now m o : ObservedRoute_parse now m = Some o -> route_from_message o.
Proof.
  intros Ho. exists now, o. rewrite (ObservedRoute_parse_message _ _ _ Ho). split; [done|]. by destruct o.
Qed.

Lemma drop_rule_elem_of r rules o : o ∈ drop_rule r rules <-> o ∈ rules /\ same_rule o r = false.
Proof. unfold drop_rule. by rewrite elem_of_list_filter_bool, negb_true_iff. Qed.

Lemma apply_route_wf scope sys now r deleted : System_wf scope sys -> route_from_message r ->
  System_wf scope (fst (apply_route sys scope now r deleted)).
Proof.
  intros Hs Hr. unfold apply_route. destruct (scope_keeps scope r) eqn:Hk; simpl; [|done].
  split; simpl; try apply Hs. intros k o. destruct deleted.
  - rewrite lookup_delete_Some. intros [_ Ho]. by apply Hs.
  - rewrite lookup_insert_Some. intros [[<- <-]|[_ Ho]]; [|by apply Hs].
    destruct (keep_expiry_wf scope now (sys_routes sys !! route_key scope r ≫= ort_expires_at) r Hk Hr)
      as (-> & ? & ?). done.
Qed.

Lemma System_apply_wf scope sys now m : System_wf scope sys -> System_wf scope (fst (System_apply sys scope now m)).
Proof.
  intros Hs. destruct m as [l|l|a|a|r|r|r|r|]; simpl; [| | | | | | | |done].
  - destruct (ObservedLink_parse l) as [o|]; [|done]. split; simpl; try apply Hs.
    intros i o'. rewrite lookup_insert_Some. intros [[<- <-]|[_ Ho]]; [done|]. by apply Hs.
  - split; simpl; try apply Hs.
    + intros i o. rewrite lookup_delete_Some. intros [_ Ho]. by apply Hs.
    + intros k o. rewrite map_lookup_filter_Some. intros [Ho _]. by apply Hs.
  - destruct (ObservedAddress_parse a) as [o|]; [|done]. case_decide; [done|]. split; simpl; try apply Hs.
    intros k o'. rewrite lookup_insert_Some. intros [[<- <-]|[_ Ho]]; [done|]. by apply Hs.
  - destruct (ObservedAddress_parse a) as [o|]; [|done]. split; simpl; try apply Hs.
    intros k o'. rewrite lookup_delete_Some. intros [_ Ho]. by apply Hs.
  - destruct (ObservedRoute_parse now r) as [o|] eqn:E; [|done].
    apply apply_route_wf; [done|]. by eapply parsed_route_from_message.
  - destruct (ObservedRoute_parse now r) as [o|] eqn:E; [|done].
    apply apply_route_wf; [done|]. by eapply parsed_route_from_message.
  - destruct (ObservedRule_parse r) as [o|] eqn:E; [|done]. split; simpl; try apply Hs.
    + intros o' [[Ho' _]%drop_rule_elem_of| ->%list_elem_of_singleton]%elem_of_app; [by apply Hs|].
      by rewrite (ObservedRule_parse_message _ _ E).
    + apply StronglySorted_snoc; [apply StronglySorted_filter, Hs|]. by intros y [_ Hy]%drop_rule_elem_of.
  - destruct (ObservedRule_parse r) as [o|] eqn:E; [|done]. split; simpl; try apply Hs.
    + intros o' [Ho' _]%drop_rule_elem_of. by apply Hs.
    + apply StronglySorted_filter, Hs.
Qed.

Lemma apply_message_wf scope sys now m : System_wf scope sys -> System_wf scope (fst (apply_message sys scope now m)).
Proof.
  intros Hs. destruct m; simpl; [by apply System_apply_wf| | |done]; split; simpl; try apply Hs.
  - intros i o. rewrite lookup_insert_Some. intros [[<- <-]|[_ Ho]]; [done|]. by apply Hs.
  - intros i o. rewrite lookup_delete_Some. intros [_ Ho]. by apply Hs.
Qed.

Lemma dump_route_Some scope now f t m r : dump_route scope now f t m = Some r ->
  ort_family r = f /\ ort_table r = t /\ scope_keeps scope r = true /\ route_from_message r.
Proof.
  unfold dump_route. destruct m; try done. destruct (ObservedRoute_parse now r0) as [o|] eqn:E; simpl; [|done].
  case_match; [|done]. intros [= ->]. bool_simpl. split_and!; try done. by eapply parsed_route_from_message.
Qed.

Lemma replace_table_wf scope sys now f t dump :
  System_wf scope sys -> System_wf scope (replace_table sys scope now f t dump).
Proof.
  intros Hs. unfold replace_table.
  set (expiries := omap ort_expires_at _ : gmap RouteKey Z). set (kept := filter _ _).
  assert (Hk : forall k r, kept !! k = Some r ->
    k = route_key scope r /\ scope_keeps scope r = true /\ route_from_message r).
  { intros k r. unfold kept. rewrite map_lookup_filter_Some. intros [Hr _]. by apply Hs. }
  assert (Hd : forall r, r ∈ omap (dump_route scope now f t) dump ->
    scope_keeps scope r = true /\ route_from_message r).
  { intros r (m & _ & Hm)%list_elem_of_omap. by apply dump_route_Some in Hm as (_ & _ & ? & ?). }
  split; simpl; try apply Hs.
  clearbody kept. revert kept Hk Hd. generalize (omap (dump_route scope now f t) dump). intros rs.
  induction rs as [|r rs IH]; intros kept Hk Hd; simpl; [done|].
  apply IH; [|intros; apply Hd; set_solver]. intros k o. rewrite lookup_insert_Some.
  intros [[<- <-]|[_ Ho]]; [|by apply Hk]. destruct (Hd r) as [? ?]; [set_solver|].
  destruct (keep_expiry_wf scope now (expiries !! route_key scope r) r) as (-> & ? & ?); done.
Qed.

Lemma keep_expiries_wf scope sys now old :
  System_wf scope sys -> System_wf scope (keep_expiries sys now old).
Proof.
  intros Hs. split; simpl; try apply Hs. intros k o. rewrite map_lookup_imap.
  destruct (sys_routes sys !! k) as [r|] eqn:E; simpl; [|done]. intros [= <-].
  destruct (sw_routes scope sys Hs k r E) as (-> & Hk & Hr).
  destruct (keep_expiry_wf scope now (sys_routes old !! route_key scope r ≫= ort_expires_at) r Hk Hr)
    as (-> & ? & ?). done.
Qed.

(** ** PolyWAN's own routes and rules in the view *)

(** The key of the default route of one of PolyWAN's tables. *)
Definition planned_key (f : Family) (t : u32) : RouteKey := (f, t, None, ROUTE_METRIC, Via_Table).

Lemma as_planned_Some o r : ObservedRoute_as_planned o = Some r ->
  ort_destination o = None /\ ort_metric o = ROUTE_METRIC /\ ort_family o = route_family r /\
  ort_table o = route_table r.
Proof.
  unfold ObservedRoute_as_planned, ObservedRoute_is_default. case_match eqn:E; [done|]. intros [= <-].
  bool_simpl. done.
Qed.

Lemma as_planned_with_expiry o t : ObservedRoute_as_planned (with_expiry o t) = ObservedRoute_as_planned o.
Proof. done. Qed.

(** The planned route of a table that the view holds, tagged with [protocol]. *)
Definition view_route (sys : System) (protocol : u8) (f : Family) (t : u32) : option Route :=
  o ← sys_routes sys !! planned_key f t;
  if ort_protocol o =? protocol then ObservedRoute_as_planned o else None.

Lemma polywan_key scope o r : is_polywan scope (ort_table o) = true -> ObservedRoute_as_planned o = Some r ->
  route_key scope o = planned_key (route_family r) (route_table r).
Proof.
  intros Hp (Hd & Hm & Hf & Ht)%as_planned_Some. unfold route_key, planned_key, route_via.
  by rewrite Hp, Hd, Hm, Hf, Ht.
Qed.

Lemma view_route_Some scope sys protocol f t r : System_wf scope sys -> is_polywan scope t = true ->
  view_route sys protocol f t = Some r <->
  exists o, o ∈ btree_values (sys_routes sys) /\ ort_family o = f /\ ort_table o = t /\
    ort_protocol o = protocol /\ ObservedRoute_as_planned o = Some r.
Proof.
  intros Hs Hp. unfold view_route. split.
  - destruct (sys_routes sys !! planned_key f t) as [o|] eqn:E; simpl; [|done].
    destruct (Z.eqb_spec (ort_protocol o) protocol) as [Hpr|]; [|done]. intros Hr.
    destruct (sw_routes scope sys Hs _ _ E) as (Hk & _ & _).
    exists o. unfold planned_key, route_key in Hk. split_and!; try congruence.
    apply btree_values_elem_of. eauto.
  - intros (o & [k Hk]%btree_values_elem_of & <- & <- & <- & Hr).
    destruct (sw_routes scope sys Hs _ _ Hk) as (-> & _ & _).
    rewrite (polywan_key scope o r Hp Hr) in Hk.
    apply as_planned_Some in Hr as Hr'. destruct Hr' as (_ & _ & -> & ->). rewrite Hk. simpl.
    by rewrite Z.eqb_refl.
Qed.

(** Installing a planned route makes it the planned route of its table and
    touches no other table. *)
Lemma apply_new_route scope sys now protocol r : Route_wf r -> is_polywan scope (route_table r) = true ->
  let sys' := fst (System_apply sys scope now (NewRoute (route_message r protocol))) in
  view_route sys' protocol (route_family r) (route_table r) = Some r /\
  (forall k, k <> planned_key (route_family r) (route_table r) -> sys_routes sys' !! k = sys_routes sys !! k) /\
  sys_rules sys' = sys_rules sys.
Proof.
  intros Hr Hp. cbn zeta.
  destruct (route_message_parse now r protocol Hr) as (o & Ho & Hf & Ht & Hpr & Hd & _ & _ & Hpl).
  simpl. rewrite Ho. unfold apply_route.
  assert (Hkeep : scope_keeps scope o = true) by (unfold scope_keeps; by rewrite Ht, Hp).
  rewrite Hkeep. simpl. rewrite (polywan_key scope o r) by (congruence || done).
  split_and!; [|by intros k Hk; apply lookup_insert_ne|done].
  unfold view_route. simpl. rewrite lookup_insert_eq. simpl. rewrite keep_expiry_eq. simpl.
  rewrite as_planned_with_expiry, Hpr, Z.eqb_refl. done.
Qed.

(** Withdrawing the route of a table leaves the table without a planned
    route and touches no other table. *)
Lemma apply_del_route scope sys now protocol f t : is_polywan scope t = true ->
  let sys' := fst (System_apply sys scope now (DelRoute (route_delete_key f t protocol))) in
  sys_routes sys' !! planned_key f t = None /\
  (forall k, k <> planned_key f t -> sys_routes sys' !! k = sys_routes sys !! k) /\
  sys_rules sys' = sys_rules sys.
Proof.
  intros Hp. cbn zeta.
  assert (exists o, ObservedRoute_parse now (route_delete_key f t protocol) = Some o /\
    ort_table o = t /\ route_key scope o = planned_key f t) as (o & Ho & Ht & Hk).
  { unfold route_key, planned_key, route_via. destruct f; (eexists; split; [reflexivity|]; split; [done|]);
      cbn; by rewrite Hp. }
  simpl. rewrite Ho. unfold apply_route.
  assert (Hkeep : scope_keeps scope o = true) by (unfold scope_keeps; by rewrite Ht, Hp).
  rewrite Hkeep. simpl. rewrite Hk.
  split_and!; [|by intros k Hne; apply lookup_delete_ne|done]. simpl. apply lookup_delete_eq.
Qed.

Lemma same_rule_refl o : same_rule o o = true.
Proof.
  unfold same_rule. case_match; [by apply bool_decide_eq_true|].
  rewrite !bool_decide_eq_true_2, !Z.eqb_refl by done. done.
Qed.

(** Rules of the view that are the same rule answer [is] alike. *)
Lemma same_rule_is o o' r protocol :
  ObservedRule_parse (or_message o) = Some o -> ObservedRule_parse (or_message o') = Some o' ->
  same_rule o' o = true -> ObservedRule_is o' r protocol = ObservedRule_is o r protocol.
Proof.
  intros Ho Ho' Hs. unfold same_rule in Hs.
  destruct (or_foreign_selectors o') eqn:F1, (or_foreign_selectors o) eqn:F2; simpl in Hs; bool_simpl;
    try (rewrite Hs in Ho'; simplify_eq; done).
  unfold ObservedRule_is. by rewrite F1, F2, H, H0, H1, H2, H3, H4.
Qed.

(** Whether the view has the planned rule. *)
Definition has_rule (sys : System) (protocol : u8) (r : Rule) : bool :=
  existsb (fun o => ObservedRule_is o r protocol) (sys_rules sys).

Lemma apply_new_rule scope sys now protocol r : System_wf scope sys ->
  let sys' := fst (System_apply sys scope now (NewRule (rule_message r protocol))) in
  (forall o, o ∈ sys_rules sys' -> o ∈ sys_rules sys \/ ObservedRule_is o r protocol = true) /\
  (forall r', has_rule sys' protocol r' = has_rule sys protocol r' || bool_decide (same_identity r r')) /\
  sys_routes sys' = sys_routes sys.
Proof.
  intros Hs. cbn zeta. simpl. rewrite rule_message_parse. set (o := mkObservedRule _ _ _ _ _ _ _ _ _). simpl.
  assert (Hpo : ObservedRule_parse (or_message o) = Some o) by apply rule_message_parse.
  assert (His : forall r', ObservedRule_is o r' protocol = bool_decide (same_identity r r')).
  { intros r'. apply eq_true_iff_eq. rewrite bool_decide_eq_true. split.
    - intros H. eapply ObservedRule_is_unique; [|exact H]. by apply ObservedRule_is_true.
    - intros (E1 & E2 & E3 & E4 & E5). apply ObservedRule_is_true. simpl. by rewrite E1, E2, E3, E4, E5. }
  split_and!; [| |done].
  - intros o' [[Ho' _]%drop_rule_elem_of| ->%list_elem_of_singleton]%elem_of_app; [by left|right].
    rewrite His. by apply bool_decide_eq_true.
  - intros r'. unfold has_rule. simpl. rewrite existsb_app. simpl. rewrite orb_false_r, His.
    destruct (bool_decide (same_identity r r')) eqn:E; [by rewrite !orb_true_r|]. rewrite !orb_false_r.
    apply eq_true_iff_eq. rewrite !existsb_elem_of. split.
    + intros (o' & [Ho' _]%drop_rule_elem_of & H). eauto.
    + intros (o' & Ho' & H). exists o'. split; [|done]. apply drop_rule_elem_of. split; [done|].
      destruct (same_rule o' o) eqn:Es; [|done]. exfalso.
      rewrite (same_rule_is o o' r' protocol Hpo (sw_rules _ _ Hs o' Ho') Es), His in H. congruence.
Qed.

(** The same rule has the same owner: protocol and priority. *)
Lemma same_rule_owner o o' :
  ObservedRule_parse (or_message o) = Some o -> ObservedRule_parse (or_message o') = Some o' ->
  same_rule o o' = true -> or_protocol o = or_protocol o' /\ or_priority o = or_priority o'.
Proof.
  intros Ho Ho' E. unfold same_rule in E. case_match; bool_simpl; [|split; congruence].
  rewrite E in Ho. by simplify_eq.
Qed.

(** Adding a rule keeps every rule of another owner. *)
Lemma apply_new_rule_kept scope sys now protocol r o : System_wf scope sys -> o ∈ sys_rules sys ->
  ~ (or_protocol o = protocol /\ or_priority o = rule_priority r) ->
  o ∈ sys_rules (fst (System_apply sys scope now (NewRule (rule_message r protocol)))).
Proof.
  intros Hs Ho Hne. simpl. rewrite rule_message_parse. set (n := mkObservedRule _ _ _ _ _ _ _ _ _). simpl.
  apply elem_of_app. left. apply drop_rule_elem_of. split; [done|].
  destruct (same_rule o n) eqn:E; [|done]. exfalso. apply Hne.
  apply same_rule_owner in E as [-> ->]; [done|by apply (sw_rules _ _ Hs)|apply rule_message_parse].
Qed.

Lemma apply_del_rule scope sys now protocol o : System_wf scope sys ->
  ObservedRule_parse (or_message o) = Some o ->
  let sys' := fst (System_apply sys scope now (DelRule (or_message o))) in
  (forall o', o' ∈ sys_rules sys' <-> o' ∈ sys_rules sys /\ same_rule o' o = false) /\
  (forall r', ObservedRule_is o r' protocol = false -> has_rule sys' protocol r' = has_rule sys protocol r') /\
  sys_routes sys' = sys_routes sys.
Proof.
  intros Hs Ho. cbn zeta. simpl. rewrite Ho. simpl. split_and!; [| |done].
  - intros o'. apply drop_rule_elem_of.
  - intros r' Hno. unfold has_rule. simpl. apply eq_true_iff_eq. rewrite !existsb_elem_of. split.
    + intros (o' & [Ho' _]%drop_rule_elem_of & H). eauto.
    + intros (o' & Ho' & H). exists o'. split; [|done]. apply drop_rule_elem_of. split; [done|].
      destruct (same_rule o' o) eqn:Es; [|done]. exfalso.
      rewrite (same_rule_is o o' r' protocol Ho (sw_rules _ _ Hs o' Ho') Es) in H. congruence.
Qed.

(** ** Replacing a table *)

Lemma in_table_route_key scope f t r : ort_family r = f -> ort_table r = t -> in_table f t (route_key scope r) = true.
Proof. intros <- <-. unfold in_table, route_key. by rewrite bool_decide_eq_true_2, Z.eqb_refl. Qed.

(** Inserting routes one after the other: the last one of a key stays. *)
Lemma insert_routes_lookup (key : ObservedRoute -> RouteKey) (value : ObservedRoute -> ObservedRoute) rs
    (m : gmap RouteKey ObservedRoute) k :
  let m' := foldl (fun m r => <[key r := value r]> m) m rs in
  ((exists r, r ∈ rs /\ key r = k /\ m' !! k = Some (value r)) \/
   ((forall r, r ∈ rs -> key r <> k) /\ m' !! k = m !! k)).
Proof.
  cbn zeta. revert m. induction rs as [|r rs IH]; intros m; simpl.
  { right. split; [|done]. intros r Hr. by apply not_elem_of_nil in Hr. }
  destruct (IH (<[key r := value r]> m)) as [(r' & Hr' & Hk & Hl)|[Hno Hl]].
  - left. exists r'. split; [set_solver|done].
  - rewrite Hl. destruct (decide (key r = k)) as [<-|Hne].
    + left. exists r. split; [set_solver|]. by rewrite lookup_insert_eq.
    + right. rewrite lookup_insert_ne by done. split; [|done].
      intros r' [->|Hr']%elem_of_cons; [done|by apply Hno].
Qed.

(** The routes of the view after a table was re-read. *)
Lemma replace_table_lookup (sys : System) (scope : Scope) (now : Instant) (f : Family) (t : u32)
    (dump : list RouteNetlinkMessage) :
  let sys' := replace_table sys scope now f t dump in
  let dumped := omap (dump_route scope now f t) dump in
  (forall k, in_table f t k = false -> sys_routes sys' !! k = sys_routes sys !! k) /\
  (forall r, r ∈ dumped -> is_Some (sys_routes sys' !! route_key scope r)) /\
  (forall k r, in_table f t k = true -> sys_routes sys' !! k = Some r ->
     exists d, d ∈ dumped /\ k = route_key scope d /\
       (r = d \/ exists e, ort_expires_at d = None /\ r = with_expiry d (Some e) /\
          (sys_routes sys !! k ≫= ort_expires_at) = Some e /\ e <= now + from_secs 1)) /\
  sys_rules sys' = sys_rules sys /\ sys_links sys' = sys_links sys.
Proof.
  cbn zeta. unfold replace_table. set (dumped := omap (dump_route scope now f t) dump).
  set (expiries := omap ort_expires_at _ : gmap RouteKey Z). set (kept := filter _ (sys_routes sys)).
  assert (Hin : forall r, r ∈ dumped -> in_table f t (route_key scope r) = true).
  { intros r (m & _ & (? & ? & _)%dump_route_Some)%list_elem_of_omap. by apply in_table_route_key. }
  pose proof (insert_routes_lookup (route_key scope)
    (fun r => keep_expiry now (expiries !! route_key scope r) r) dumped kept) as Hl.
  cbn [sys_routes set_routes]. split_and!; try done.
  - intros k Hk. destruct (Hl k) as [(r & Hr & Ek & _)|[_ ->]].
    { apply Hin in Hr. congruence. }
    unfold kept. apply option_eq. intros r. rewrite map_lookup_filter_Some. naive_solver.
  - intros r Hr. destruct (Hl (route_key scope r)) as [(r' & _ & _ & ->)|[Hno _]]; [done|by apply Hno in Hr].
  - intros k r Hk. destruct (Hl k) as [(d & Hd & <- & ->)|[_ ->]].
    + intros [= <-]. exists d. split_and!; [done..|]. unfold keep_expiry.
      destruct (ort_expires_at d) eqn:Ed; [by left|].
      destruct (expiries !! route_key scope d) as [e|] eqn:Ee; [|by left].
      destruct (Z.leb_spec e (now + from_secs 1)); [|by left]. right. exists e. split_and!; try done.
      unfold expiries in Ee. rewrite lookup_omap in Ee.
      destruct (filter _ (sys_routes sys) !! route_key scope d) as [o|] eqn:Eo; simpl in Ee; [|done].
      apply map_lookup_filter_Some in Eo as [-> _]. done.
    + unfold kept. rewrite map_lookup_filter_Some. simpl. intros [_ Hf]. congruence.
Qed.

(** ** Properties *)

(** C33: The view's invariant is established and kept: it holds of the empty
    view, and every notification or dumped message, every table re-read and
    the transfer of expiries preserve it. Routes are stored under their own
    identity and only when in scope, rules parse back from their stored
    message and are pairwise different, links, addresses and nexthop objects
    are stored under their own keys. *)
Theorem System_invariant (scope : Scope) :
  System_wf scope System_default /\
  (forall sys now m, System_wf scope sys -> System_wf scope (fst (apply_message sys scope now m))) /\
  (forall sys now f t dump, System_wf scope sys -> System_wf scope (replace_table sys scope now f t dump)) /\
  (forall sys now old, System_wf scope sys -> System_wf scope (keep_expiries sys now old)).
Proof.
  split_and!; [apply System_default_wf|intros; by apply apply_message_wf|intros; by apply replace_table_wf|].
  intros; by apply keep_expiries_wf.
Qed.

(** A table re-read replaces exactly that table: afterwards its routes
    are those of the dump that the scope keeps (the last one of each
    identity), each with its expiry at most completed from the old view, and
    every other route of the view is as it was. *)
Theorem replace_table_spec (sys : System) (scope : Scope) (now : Instant) (f : Family) (t : u32)
    (dump : list RouteNetlinkMessage) :
  let sys' := replace_table sys scope now f t dump in
  let dumped := omap (dump_route scope now f t) dump in
  (forall k, in_table f t k = false -> sys_routes sys' !! k = sys_routes sys !! k) /\
  (forall r, r ∈ dumped -> is_Some (sys_routes sys' !! route_key scope r)) /\
  (forall k r, in_table f t k = true -> sys_routes sys' !! k = Some r ->
     exists d, d ∈ dumped /\ k = route_key scope d /\
       (r = d \/ exists e, ort_expires_at d = None /\ r = with_expiry d (Some e) /\
          (sys_routes sys !! k ≫= ort_expires_at) = Some e /\ e <= now + from_secs 1)) /\
  sys_rules sys' = sys_rules sys /\ sys_links sys' = sys_links sys.
Proof. apply replace_table_lookup. Qed.
