(* ===== verification/Reconcile.v ===== *)
(** * The reconciler: ordered operations from the observed to the desired state

    Models crates/polywan/src/reconcile.rs.  [diff] and [teardown] are the
    source's, on the view of System.v.  The kernel is a parameter of
    [execute]: a state and a [mutate] function that may fail.  The test hooks
    of the source are no-ops in a release build; the texts of a failure are
    represented by the operation and the kernel error they are built from. *)

From stdpp Require Import prelude gmap sorting.
From Stdlib Require Import ZArith Lia.
From S2P Require Import Prelude Text Model Durations Config Plan Msg Netlink System.

Local Open Scope Z_scope.

Inductive Op :=
  | ReplaceRoute (r : Route)
  | AddRule (r : Rule)
  | ApplyNft
  | DeleteRule (o : ObservedRule)
  | DeleteRoute (family : Family) (table : u32) (protocol : u8).

Definition classify (layout : Layout) (priority : u32) : option RuleKind :=
  off ← checked_sub priority (l_priority_base layout);
  (* [u8::try_from(off - base)], in range in every arm that uses it *)
  let id base := if off - base <? 256 then UplinkId_new (off - base) else None in
  if in_range 1 63 off then ProbeLookup <$> id 0
  else if off =? 64 then Some ProbeGuard
  else if off =? 100 then Some MainBypass
  else if in_range 201 263 off then PathLookup <$> id 200
  else if off =? 264 then Some PathGuard
  else if in_range 301 363 off then PolicyBalanceLookup <$> id 300
  else if in_range 401 463 off then PolicyBlockLookup <$> id 400
  else if off =? 464 then Some PolicyBlockGuard
  else if in_range 501 563 off then SourceLookup <$> id 500
  else if off =? 564 then Some SourceGuard
  else if off =? 600 then Some BalanceKind
  else if off =? 699 then Some FinalGuard
  else None.

Definition install_rank (kind : RuleKind) : u8 :=
  match kind with
  | ProbeGuard | PathGuard | PolicyBlockGuard => 0
  | ProbeLookup _ => 1
  | MainBypass => 2
  | PathLookup _ => 3
  | PolicyBalanceLookup _ | PolicyBlockLookup _ => 4
  | SourceLookup _ | SourceGuard => 5
  | BalanceKind => 6
  | FinalGuard => 7
  end.

Definition removal_rank (kind : option RuleKind) : u8 :=
  match kind with
  | Some FinalGuard => 0
  | Some BalanceKind => 1
  | Some (SourceLookup _ | SourceGuard) => 2
  | Some (PolicyBalanceLookup _ | PolicyBlockLookup _) => 3
  | Some (PathLookup _) | None => 4
  | Some MainBypass => 5
  | Some (ProbeLookup _) => 6
  | Some (ProbeGuard | PathGuard | PolicyBlockGuard) => 7
  end.

Definition observed_rules (system : System) (layout : Layout) (protocol : u8) : list ObservedRule :=
  List.filter (fun r => (or_protocol r =? protocol) && range_contains (priorities layout) (or_priority r))
    (sys_rules system).

Definition route_present (system : System) (protocol : u8) (r : Route) : bool :=
  existsb (fun o => (ort_protocol o =? protocol) && bool_decide (ObservedRoute_as_planned o = Some r))
    (routes_in system (route_family r) (route_table r)).

Record DiffInput := mkDiffInput {
  di_layout : Layout;
  di_protocol : u8;
  di_families : list Family;
  di_before_nft : Desired;
  di_desired : Desired;
  di_nft_pending : bool
}.

(** The tables holding a PolyWAN route, in order. *)
Definition observed_tables (system : System) (layout : Layout) (protocol : u8) : gset (Family * u32) :=
  list_to_set ((fun r => (ort_family r, ort_table r)) <$>
    List.filter (fun r => (ort_protocol r =? protocol) && range_contains (tables layout) (ort_table r) &&
                          bool_decide (is_Some (ObservedRoute_as_planned r)))
      (btree_values (sys_routes system))).

(** The key of [adds.sort_by_key]. *)
Definition install_key (r : Rule) :=
  (install_rank (rule_kind r), (rule_source r,
    (if decide (rule_kind r = SourceGuard) then 1 else 0, (rule_family r, rule_priority r)))).

(** [Reverse(priority)] is ordered as the opposite. *)
Definition removal_key (layout : Layout) (o : ObservedRule) :=
  let kind := classify layout (or_priority o) in
  (removal_rank kind, (or_source o,
    (if decide (kind = Some SourceGuard) then 0 else 1, (or_family o, - or_priority o)))).

(** *** The parts of [diff] *)

Definition early_tables (system : System) (d : DiffInput) : list (Family * u32) :=
  List.filter (fun key => bool_decide (d_routes (di_before_nft d) !! key = None))
    (List.filter (fun key => negb (is_path_table (di_layout d) (snd key)))
       (bset_iter (observed_tables system (di_layout d) (di_protocol d)))).

Definition stale_path_tables (system : System) (d : DiffInput) : list (Family * u32) :=
  List.filter (fun key => bool_decide (d_routes (di_desired d) !! key = None))
    (List.filter (fun key => is_path_table (di_layout d) (snd key))
       (bset_iter (observed_tables system (di_layout d) (di_protocol d)))).

Definition still_looked_up (d : DiffInput) (key : Family * u32) : bool :=
  existsb (fun r => bool_decide (rule_family r = fst key) && bool_decide (rule_action r = Lookup (snd key)))
    (d_rules (di_desired d)).

Definition withdrawn_tables (system : System) (d : DiffInput) : list (Family * u32) :=
  List.filter (still_looked_up d) (stale_path_tables system d).
Definition late_tables (system : System) (d : DiffInput) : list (Family * u32) :=
  List.filter (fun key => negb (still_looked_up d key)) (stale_path_tables system d).

Definition delete_route (d : DiffInput) (key : Family * u32) : Op :=
  DeleteRoute (fst key) (snd key) (di_protocol d).

Definition adds (system : System) (d : DiffInput) : list Rule :=
  sort_by_key install_key
    (List.filter (fun r => negb (existsb (fun o => ObservedRule_is o r (di_protocol d))
       (observed_rules system (di_layout d) (di_protocol d)))) (d_rules (di_desired d))).

Definition deletes (system : System) (d : DiffInput) : list ObservedRule :=
  sort_by_key (removal_key (di_layout d))
    (List.filter (fun o => negb (existsb (fun r => ObservedRule_is o r (di_protocol d)) (d_rules (di_desired d))))
       (List.filter (fun o => bool_decide (or_family o ∈ di_families d) ||
            negb (existsb (fun r => bool_decide (rule_family r = or_family o)) (d_rules (di_desired d))))
          (observed_rules system (di_layout d) (di_protocol d)))).

Definition diff (system : System) (d : DiffInput) : list Op :=
  (ReplaceRoute <$>
     List.filter (fun r => negb (route_present system (di_protocol d) r))
       (btree_values (d_routes (di_before_nft d)))) ++
  (delete_route d <$> early_tables system d ++ withdrawn_tables system d) ++
  (AddRule <$> adds system d) ++
  (if di_nft_pending d then [ApplyNft] else []) ++
  (ReplaceRoute <$> (snd <$>
     List.filter (fun kr => negb (bool_decide (d_routes (di_before_nft d) !! fst kr = Some (snd kr))) &&
         (bool_decide (fst kr ∈ early_tables system d) ||
          negb (route_present system (di_protocol d) (snd kr))))
       (btree_iter (d_routes (di_desired d))))) ++
  (DeleteRule <$> deletes system d) ++
  (delete_route d <$> late_tables system d).

(** *** Teardown *)

Definition has_role (layout : Layout) (o : ObservedRule) : bool :=
  match classify layout (or_priority o) with
  | None => false
  | Some kind =>
      let shaped r := bool_decide (rule_kind r = kind) && ObservedRule_is o r (or_protocol o) in
      match kind, or_source o with
      | SourceLookup id, Some (address, _) => existsb shaped (source_rules layout (or_family o) id address)
      | SourceGuard, Some (address, _) =>
          match UplinkId_new 1 with
          | Some id => existsb shaped (source_rules layout (or_family o) id address)
          | None => false
          end
      | _, _ => existsb shaped (static_rules layout (or_family o) UplinkId_all)
      end
  end.

(** The layouts of [layouts] that own a rule, in order. *)
Definition owners (layouts : list (Layout * u8)) (o : ObservedRule) : list Layout :=
  fst <$> List.filter (fun lp => (or_protocol o =? snd lp) && range_contains (priorities (fst lp)) (or_priority o))
    layouts.

Definition owner_key (layouts : list (Layout * u8)) (o : ObservedRule) :=
  match owners layouts o with
  | [] => None
  | first :: _ =>
      let layout := default first (find_first (fun l => has_role l o) (owners layouts o)) in
      Some (removal_key layout o, o)
  end.

Definition teardown (system : System) (layouts : list (Layout * u8)) : list Op :=
  let rules := omap (owner_key layouts) (sys_rules system) in
  let routes : gset (u8 * (Family * u32)) :=
    list_to_set (concat ((fun lp => (fun key => (snd lp, key)) <$>
      bset_iter (observed_tables system (fst lp) (snd lp))) <$> layouts)) in
  (DeleteRule <$> (snd <$> sort_by_key fst rules)) ++
  ((fun k => DeleteRoute (fst (snd k)) (snd (snd k)) (fst k)) <$> bset_iter routes).

(** ** Execution *)

Inductive FailureKind := FailRoute | FailRule | FailNftables | FailSysctl.

Record Failure := mkFailure {
  fail_op : Op;
  fail_kind : FailureKind;
  fail_errno : option i32;
  fail_extack : option str;
  fail_route : option (Family * u32)
}.

Definition failure_kind (op : Op) : FailureKind :=
  match op with
  | ReplaceRoute _ | DeleteRoute _ _ _ => FailRoute
  | AddRule _ | DeleteRule _ => FailRule
  | ApplyNft => FailNftables
  end.

Definition failure_route (op : Op) : option (Family * u32) :=
  match op with ReplaceRoute r => Some (route_family r, route_table r) | _ => None end.

(** [None] for [ApplyNft], which the caller handles. *)
Definition netlink_op (op : Op) (protocol : u8) : option (RouteNetlinkMessage * Mutation * list i32) :=
  match op with
  | ReplaceRoute r => Some (NewRoute (route_message r protocol), Replace, [])
  | AddRule r => Some (NewRule (rule_message r protocol), Create, [EEXIST])
  | DeleteRule o => Some (DelRule (or_message o), Delete, [ENOENT])
  | DeleteRoute family table protocol => Some (DelRoute (route_delete_key family table protocol), Delete, [ESRCH; ENOENT])
  | ApplyNft => None
  end.

Section execute.
Context {K : Type} (mutate : K -> RouteNetlinkMessage -> Mutation -> K * option KernelError).
Context (scope : Scope) (protocol : u8) (now : Instant).

(** One operation other than the nftables step. *)
Definition execute_op (k : K) (system : System) (op : Op) (message : RouteNetlinkMessage) (kind : Mutation)
    (tolerated : list i32) : K * result System Failure :=
  let '(k', outcome) := mutate k message kind in
  match outcome with
  | Some e =>
      if existsb (Z.eqb (ke_errno e)) tolerated
      then (k', Ok (fst (System_apply system scope now message)))
      else (k', Err (mkFailure op (failure_kind op) (Some (ke_errno e)) (ke_extack e) (failure_route op)))
  | None => (k', Ok (fst (System_apply system scope now message)))
  end.

Fixpoint execute (k : K) (system : System) (ops : list Op) : K * System * result bool Failure :=
  match ops with
  | [] => (k, system, Ok false)
  | op :: rest =>
      match netlink_op op protocol with
      | None => (k, system, Ok true)
      | Some (message, kind, tolerated) =>
          match execute_op k system op message kind tolerated with
          | (k', Ok system') => execute k' system' rest
          | (k', Err f) => (k', system, Err f)
          end
      end
  end.
End execute.

(** ** The effect of operations on the view *)

(** What the reconciler needs of a desired state: what the planner gives. *)
Record desired_ok (layout : Layout) (d : Desired) : Prop := {
  do_routes : forall k r, d_routes d !! k = Some r ->
    k = (route_family r, route_table r) /\ Route_wf r /\ range_contains (tables layout) (route_table r) = true;
  do_rules : forall r, r ∈ d_rules d -> range_contains (priorities layout) (rule_priority r) = true
}.

Lemma plan_desired_ok config input : config_wf config -> weights_wf config ->
  desired_ok (Layout_of config) (plan config input).
Proof.
  intros Hwf Hw. pose proof Hwf as [Hl _]. split.
  - intros [f t] r [_ Hr]%plan_routes; [|done].
    destruct (planned_route_spec _ _ _ _ _ Hl Hr) as (Hf & Ht & _ & Hrange).
    split_and!; [by rewrite Hf, Ht|by eapply planned_route_wf|]. apply tables_contains; [done|]. by rewrite Ht.
  - intros r (f & _ & Hr)%plan_rule_shape; [|done]. apply priorities_contains; [done|].
    destruct Hr as [i ?| | |i ?| |i ?|i ?| |u ? ? ? ? ?|u ? ? ? ? ?| |]; cbn [rule_priority];
      try pose proof (UplinkId_range i); try pose proof (UplinkId_range (u_id u)); lia.
Qed.

Section view.
Context (scope : Scope) (protocol : u8) (now : Instant).

Definition op_view (sys : System) (op : Op) : System :=
  match netlink_op op protocol with
  | Some (m, _, _) => fst (System_apply sys scope now m)
  | None => sys
  end.

Definition view_after (sys : System) (ops : list Op) : System := foldl op_view sys ops.

(** The table an operation writes. *)
Definition touches (op : Op) : option (Family * u32) :=
  match op with
  | ReplaceRoute r => Some (route_family r, route_table r)
  | DeleteRoute f t _ => Some (f, t)
  | _ => None
  end.

Definition op_ok (op : Op) : Prop :=
  match op with
  | ReplaceRoute r => Route_wf r /\ is_polywan scope (route_table r) = true
  | DeleteRoute _ t _ => is_polywan scope t = true
  | DeleteRule o => ObservedRule_parse (or_message o) = Some o
  | AddRule _ | ApplyNft => True
  end.

Lemma op_view_wf sys op : System_wf scope sys -> System_wf scope (op_view sys op).
Proof. intros Hs. unfold op_view. destruct (netlink_op op protocol) as [[[m k] t]|]; [by apply System_apply_wf|done]. Qed.

Lemma view_after_wf sys ops : System_wf scope sys -> System_wf scope (view_after sys ops).
Proof. revert sys. induction ops as [|op ops IH]; intros sys Hs; [done|]. by apply IH, op_view_wf. Qed.

Lemma planned_key_inj f t f' t' : planned_key f t = planned_key f' t' -> (f, t) = (f', t').
Proof. unfold planned_key. congruence. Qed.

(** Route entries other than the planned routes of the tables written stay
    as they are. *)
Lemma op_routes_frame sys op k : System_wf scope sys -> op_ok op ->
  (forall f t, touches op = Some (f, t) -> k <> planned_key f t) ->
  sys_routes (op_view sys op) !! k = sys_routes sys !! k.
Proof.
  intros Hs Hop Ht. unfold op_view. destruct op as [r|r| |o|f' t' p]; cbn [netlink_op].
  - destruct (apply_new_route scope sys now protocol r (proj1 Hop) (proj2 Hop)) as (_ & Hk & _). by apply Hk, Ht.
  - by destruct (apply_new_rule scope sys now protocol r Hs) as (_ & _ & ->).
  - done.
  - by destruct (apply_del_rule scope sys now protocol o Hs Hop) as (_ & _ & ->).
  - destruct (apply_del_route scope sys now p f' t' Hop) as (_ & Hk & _). by apply Hk, Ht.
Qed.

Lemma ops_routes_frame sys ops k : System_wf scope sys -> Forall op_ok ops ->
  (forall op f t, op ∈ ops -> touches op = Some (f, t) -> k <> planned_key f t) ->
  sys_routes (view_after sys ops) !! k = sys_routes sys !! k.
Proof.
  intros Hs Hops. revert sys Hs. induction Hops as [|op ops Hop Hops IH]; intros sys Hs Hno; [done|].
  simpl. rewrite IH; [|by apply op_view_wf|intros; eapply Hno; [|done]; set_solver].
  apply op_routes_frame; [done..|]. intros f t. apply Hno. set_solver.
Qed.

Lemma ops_untouched sys ops f t : System_wf scope sys -> Forall op_ok ops -> (f, t) ∉ omap touches ops ->
  view_route (view_after sys ops) protocol f t = view_route sys protocol f t.
Proof.
  intros Hs Hops Hno. unfold view_route. rewrite ops_routes_frame; [done..|].
  intros op f' t' Hop Ht [= <- <-]%planned_key_inj. apply Hno, list_elem_of_omap. eauto.
Qed.

(** The route an operation on a table leaves there. *)
Definition written (op : Op) : option Route := match op with ReplaceRoute r => Some r | _ => None end.

Lemma op_written sys op f t : op_ok op -> touches op = Some (f, t) ->
  view_route (op_view sys op) protocol f t = written op.
Proof.
  intros Hop Ht. destruct op as [r|r| |o|f' t' p]; try done; simpl in Ht; simplify_eq.
  - exact (proj1 (apply_new_route scope sys now protocol r (proj1 Hop) (proj2 Hop))).
  - destruct (apply_del_route scope sys now p f t Hop) as (Hn & _).
    unfold op_view, view_route. cbn [netlink_op]. by rewrite Hn.
Qed.

(** The last writer of a table decides its route. *)
Lemma ops_last_write sys ops f t : System_wf scope sys -> Forall op_ok ops ->
  (((f, t) ∉ omap touches ops) /\ view_route (view_after sys ops) protocol f t = view_route sys protocol f t) \/
  (exists l1 op l2, ops = l1 ++ op :: l2 /\ touches op = Some (f, t) /\ ((f, t) ∉ omap touches l2) /\
     view_route (view_after sys ops) protocol f t = written op).
Proof.
  intros Hs Hops. destruct (decide ((f, t) ∈ omap touches ops)) as [Hin|Hno];
    [right|left; split; [done|by apply ops_untouched]].
  induction ops as [|op ops IH] using rev_ind; [by apply not_elem_of_nil in Hin|].
  apply Forall_app in Hops as [Hops [Hop _]%Forall_cons].
  unfold view_after. rewrite foldl_app. simpl. fold (view_after sys ops).
  destruct (decide (touches op = Some (f, t))) as [Ht|Ht].
  - exists ops, op, []. split_and!; [done..|apply not_elem_of_nil|by apply op_written].
  - rewrite omap_app in Hin. apply elem_of_app in Hin as [Hin|Hin]; [|exfalso; cbn [omap list_omap] in Hin; case_match; set_solver].
    destruct (IH Hops Hin) as (l1 & op' & l2 & E & Ht' & Hl2 & Ev). exists l1, op', (l2 ++ [op]).
    split_and!; [by rewrite E, <- app_assoc|done| |].
    + rewrite omap_app. cbn [omap list_omap]. rewrite elem_of_app. intros [|H]; [done|]. case_match; set_solver.
    + rewrite <- Ev. unfold view_route. rewrite op_routes_frame; [done|by apply view_after_wf|done|].
      intros f' t' E' [= <- <-]%planned_key_inj. done.
Qed.

(** With every table written at most once, the writer of a table decides it. *)
Lemma ops_touched sys ops op f t : System_wf scope sys -> Forall op_ok ops -> NoDup (omap touches ops) ->
  op ∈ ops -> touches op = Some (f, t) ->
  view_route (view_after sys ops) protocol f t = written op.
Proof.
  intros Hs Hops Hnd Hin Ht. destruct (ops_last_write sys ops f t Hs Hops) as [[Hno _]|(l1 & op' & l2 & E & Ht' & Hl2 & ->)].
  { exfalso. apply Hno, list_elem_of_omap. eauto. }
  rewrite E in Hin, Hnd. rewrite omap_app in Hnd. apply NoDup_app in Hnd as (_ & Hnd & _).
  apply elem_of_app in Hin as [Hin|[->|Hin]%elem_of_cons]; [exfalso|done|exfalso].
  - apply (Hnd (f, t)); [apply list_elem_of_omap; eauto|]. cbn [omap list_omap]. rewrite Ht'. set_solver.
  - apply Hl2, list_elem_of_omap. eauto.
Qed.

(** A rule of the final view was there and not deleted, or was added. *)
Lemma ops_rules sys ops o : System_wf scope sys -> Forall op_ok ops -> o ∈ sys_rules (view_after sys ops) ->
  (o ∈ sys_rules sys /\ forall o', DeleteRule o' ∈ ops -> same_rule o o' = false) \/
  (exists r, AddRule r ∈ ops /\ ObservedRule_is o r protocol = true).
Proof.
  intros Hs Hops. revert sys Hs. induction Hops as [|op ops Hop Hops IH]; intros sys Hs Ho.
  { left. split; [done|]. intros o' Ho'. by apply not_elem_of_nil in Ho'. }
  simpl in Ho. apply IH in Ho as [[Ho Hdel]|(r & Hr & His)]; [|right; exists r; set_solver|by apply op_view_wf].
  unfold op_view in Ho. destruct op as [r|r| |o'|f' t' p]; cbn [netlink_op] in Ho.
  - destruct (apply_new_route scope sys now protocol r (proj1 Hop) (proj2 Hop)) as (_ & _ & Er).
    rewrite Er in Ho. left. set_solver.
  - destruct (apply_new_rule scope sys now protocol r Hs) as (Hin & _).
    destruct (Hin o Ho) as [|]; [left; set_solver|right; exists r; set_solver].
  - left. set_solver.
  - destruct (apply_del_rule scope sys now protocol o' Hs Hop) as (Hin & _).
    apply Hin in Ho as [Ho Hsame]. left. split; [done|]. intros o'' [[= ->]|]%elem_of_cons; [done|by apply Hdel].
  - destruct (apply_del_route scope sys now p f' t' Hop) as (_ & _ & Er). rewrite Er in Ho. left. set_solver.
Qed.

Lemma op_has_rule sys op r : System_wf scope sys -> op_ok op ->
  (forall o, op = DeleteRule o -> ObservedRule_is o r protocol = false) ->
  has_rule sys protocol r = true \/ op = AddRule r -> has_rule (op_view sys op) protocol r = true.
Proof.
  intros Hs Hop Hno Hr. unfold op_view. destruct op as [r'|r'| |o'|f' t' p]; cbn [netlink_op].
  - destruct (apply_new_route scope sys now protocol r' (proj1 Hop) (proj2 Hop)) as (_ & _ & Er).
    unfold has_rule. rewrite Er. by destruct Hr.
  - destruct (apply_new_rule scope sys now protocol r' Hs) as (_ & Hin & _). rewrite Hin.
    destruct Hr as [-> | [= ->]]; [done|]. rewrite bool_decide_eq_true_2 by done. apply orb_true_r.
  - by destruct Hr.
  - destruct (apply_del_rule scope sys now protocol o' Hs Hop) as (_ & Hin & _).
    rewrite Hin by by apply Hno. by destruct Hr.
  - destruct (apply_del_route scope sys now p f' t' Hop) as (_ & _ & Er).
    unfold has_rule. rewrite Er. by destruct Hr.
Qed.

Lemma ops_has_rule sys ops r : System_wf scope sys -> Forall op_ok ops ->
  (forall o, DeleteRule o ∈ ops -> ObservedRule_is o r protocol = false) ->
  has_rule sys protocol r = true \/ AddRule r ∈ ops -> has_rule (view_after sys ops) protocol r = true.
Proof.
  intros Hs Hops. revert sys Hs. induction Hops as [|op ops Hop Hops IH]; intros sys Hs Hno Hr.
  { destruct Hr as [|Hr]; [done|]. by apply not_elem_of_nil in Hr. }
  simpl. assert (Hnow : has_rule sys protocol r = true \/ op = AddRule r \/ AddRule r ∈ ops)
    by (rewrite elem_of_cons in Hr; naive_solver).
  apply IH; [by apply op_view_wf|intros; apply Hno; set_solver|].
  destruct Hnow as [Hnow|[Hnow|Hnow]]; [left|left|by right];
    (apply op_has_rule; [done..|intros o ->; apply Hno; set_solver|by auto]).
Qed.

(** A rule stays unless an addition with its owner or its deletion comes. *)
Lemma ops_rules_frame sys ops o : System_wf scope sys -> Forall op_ok ops -> o ∈ sys_rules sys ->
  (forall r, AddRule r ∈ ops -> ~ (or_protocol o = protocol /\ or_priority o = rule_priority r)) ->
  (forall o', DeleteRule o' ∈ ops -> same_rule o o' = false) ->
  o ∈ sys_rules (view_after sys ops).
Proof.
  intros Hs Hops. revert sys Hs. induction Hops as [|op ops Hop Hops IH]; intros sys Hs Ho Hadd Hdel; [done|].
  simpl. apply IH; [by apply op_view_wf| |intros; apply Hadd; set_solver|intros; apply Hdel; set_solver].
  unfold op_view. destruct op as [r|r| |o'|f' t' p]; cbn [netlink_op].
  - destruct (apply_new_route scope sys now protocol r (proj1 Hop) (proj2 Hop)) as (_ & _ & ->). done.
  - apply (apply_new_rule_kept scope); [done..|]. apply Hadd. set_solver.
  - done.
  - destruct (apply_del_rule scope sys now protocol o' Hs Hop) as (-> & _). split; [done|]. apply Hdel. set_solver.
  - destruct (apply_del_route scope sys now p f' t' Hop) as (_ & _ & ->). done.
Qed.
End view.

(** ** What the parts of a diff contain *)

Section parts.
Context (scope : Scope) (sys : System) (d : DiffInput).
Context (Hsys : System_wf scope sys).
Context (Htables : forall t, range_contains (tables (di_layout d)) t = true -> is_polywan scope t = true).

Lemma observed_tables_elem_of f t :
  (f, t) ∈ observed_tables sys (di_layout d) (di_protocol d) <->
  range_contains (tables (di_layout d)) t = true /\ is_Some (view_route sys (di_protocol d) f t).
Proof.
  unfold observed_tables. rewrite elem_of_list_to_set, list_elem_of_fmap. split.
  - intros (o & [= -> ->] & [Ho Hp]%elem_of_list_filter_bool). rewrite !andb_true_iff in Hp.
    destruct Hp as [[Hpr%Z.eqb_eq Ht] [r Hr]%bool_decide_eq_true]. split; [done|]. exists r.
    apply (view_route_Some scope); [done|by apply Htables|]. eauto 10.
  - intros [Ht [r Hr]]. apply (view_route_Some scope) in Hr as (o & Ho & <- & <- & Hpr & Hr); [|done|by apply Htables].
    exists o. split; [done|]. apply elem_of_list_filter_bool. split; [done|].
    rewrite !andb_true_iff. split_and!; [by apply Z.eqb_eq|done|]. apply bool_decide_eq_true. eauto.
Qed.

Lemma route_present_spec r : range_contains (tables (di_layout d)) (route_table r) = true ->
  route_present sys (di_protocol d) r = true <->
  view_route sys (di_protocol d) (route_family r) (route_table r) = Some r.
Proof.
  intros Ht. rewrite (view_route_Some scope) by (done || by apply Htables).
  unfold route_present, routes_in. rewrite existsb_elem_of. split.
  - intros (o & [Ho Hf]%elem_of_list_filter_bool & Hp). bool_simpl. eauto 10.
  - intros (o & Ho & Hf & Ht' & Hpr & Hr). exists o. split.
    + apply elem_of_list_filter_bool. split; [done|]. by rewrite Hf, Ht', bool_decide_eq_true_2, Z.eqb_refl.
    + by rewrite Hpr, Z.eqb_refl, bool_decide_eq_true_2.
Qed.

Lemma early_tables_elem_of f t : (f, t) ∈ early_tables sys d <->
  (f, t) ∈ observed_tables sys (di_layout d) (di_protocol d) /\ is_path_table (di_layout d) t = false /\
  d_routes (di_before_nft d) !! (f, t) = None.
Proof.
  unfold early_tables. rewrite !elem_of_list_filter_bool, bset_iter_elem_of, bool_decide_eq_true. simpl.
  rewrite negb_true_iff. tauto.
Qed.

Lemma stale_path_tables_elem_of f t : (f, t) ∈ stale_path_tables sys d <->
  (f, t) ∈ observed_tables sys (di_layout d) (di_protocol d) /\ is_path_table (di_layout d) t = true /\
  d_routes (di_desired d) !! (f, t) = None.
Proof.
  unfold stale_path_tables. rewrite !elem_of_list_filter_bool, bset_iter_elem_of, bool_decide_eq_true. simpl. tauto.
Qed.

Lemma adds_elem_of r : r ∈ adds sys d <-> r ∈ d_rules (di_desired d) /\
  existsb (fun o => ObservedRule_is o r (di_protocol d)) (observed_rules sys (di_layout d) (di_protocol d)) = false.
Proof. unfold adds. by rewrite sort_by_key_elem_of, elem_of_list_filter_bool, negb_true_iff. Qed.

Lemma observed_rules_elem_of o : o ∈ observed_rules sys (di_layout d) (di_protocol d) <->
  o ∈ sys_rules sys /\ or_protocol o = di_protocol d /\
  range_contains (priorities (di_layout d)) (or_priority o) = true.
Proof. unfold observed_rules. by rewrite elem_of_list_filter_bool, andb_true_iff, Z.eqb_eq. Qed.

(** A rule the configuration no longer wants, in a family it may clean. *)
Definition unwanted (o : ObservedRule) : Prop :=
  (or_family o ∈ di_families d \/ forall r, r ∈ d_rules (di_desired d) -> rule_family r <> or_family o) /\
  forall r, r ∈ d_rules (di_desired d) -> ObservedRule_is o r (di_protocol d) = false.

Lemma deletes_elem_of o : o ∈ deletes sys d <->
  o ∈ observed_rules sys (di_layout d) (di_protocol d) /\ unwanted o.
Proof.
  unfold deletes, unwanted. rewrite sort_by_key_elem_of, !elem_of_list_filter_bool, orb_true_iff, !negb_true_iff.
  rewrite bool_decide_eq_true, <- !not_true_iff_false, !existsb_elem_of. setoid_rewrite bool_decide_eq_true.
  split.
  - intros [[Ho Hf] Hno]. split_and!; [done| |].
    + destruct Hf as [|Hf]; [by left|right]. intros r Hr E. apply Hf. eauto.
    + intros r Hr. apply not_true_iff_false. intros E. apply Hno. eauto.
  - intros (Ho & Hf & Hno). split_and!; [done| |].
    + destruct Hf as [|Hf]; [by left|right]. intros (r & Hr & E). by apply (Hf r).
    + intros (r & Hr & E). by rewrite Hno in E.
Qed.

Lemma has_rule_observed r : range_contains (priorities (di_layout d)) (rule_priority r) = true ->
  existsb (fun o => ObservedRule_is o r (di_protocol d)) (observed_rules sys (di_layout d) (di_protocol d)) =
  has_rule sys (di_protocol d) r.
Proof.
  intros Hr. apply eq_true_iff_eq. unfold has_rule. rewrite !existsb_elem_of.
  setoid_rewrite observed_rules_elem_of. split; [naive_solver|]. intros (o & Ho & His). exists o.
  pose proof His as (_ & Hp & Hpr & _)%ObservedRule_is_true. split_and!; try done. by rewrite Hp.
Qed.
End parts.

(** ** Convergence *)

Lemma not_elem_of_fmap {A B} (f : A -> B) (l : list A) y : (forall x, y <> f x) -> y ∈ f <$> l <-> False.
Proof. intros Hf. rewrite list_elem_of_fmap. naive_solver. Qed.

Lemma btree_iter_NoDup {K V} `{Countable K, Cmp K} (m : gmap K V) : NoDup (fst <$> btree_iter m).
Proof.
  unfold btree_iter. rewrite sort_by_key_Permutation. apply NoDup_fst_map_to_list.
Qed.

Lemma bset_iter_NoDup `{Countable K, Cmp K} (s : gset K) : NoDup (bset_iter s).
Proof. unfold bset_iter. rewrite sort_by_key_Permutation. apply NoDup_elements. Qed.

Definition route_table_key (r : Route) : Family * u32 := (route_family r, route_table r).

(** ** The operations of a diff *)

Section members.
Context (scope : Scope) (sys : System) (d : DiffInput).
Context (Hsys : System_wf scope sys).
Context (Htables : forall t, range_contains (tables (di_layout d)) t = true -> is_polywan scope t = true).
Context (Hbok : desired_ok (di_layout d) (di_before_nft d)).
Context (Hok : desired_ok (di_layout d) (di_desired d)).

Lemma delete_route_key f t p (l : list (Family * u32)) :
  DeleteRoute f t p ∈ delete_route d <$> l <-> p = di_protocol d /\ (f, t) ∈ l.
Proof.
  rewrite list_elem_of_fmap. unfold delete_route. split; [|intros [-> Hl]; by exists (f, t)].
  intros ([f' t'] & E & Hy). simpl in E. by simplify_eq.
Qed.

Lemma nft_step_elem_of op : op ∈ (if di_nft_pending d then [ApplyNft] else []) <->
  op = ApplyNft /\ di_nft_pending d = true.
Proof. destruct (di_nft_pending d); rewrite ?list_elem_of_singleton, ?elem_of_nil; naive_solver. Qed.

Lemma withdrawn_late_elem_of k :
  k ∈ withdrawn_tables sys d \/ k ∈ late_tables sys d <-> k ∈ stale_path_tables sys d.
Proof.
  unfold withdrawn_tables, late_tables. rewrite !elem_of_list_filter_bool, negb_true_iff.
  destruct (still_looked_up d k); naive_solver.
Qed.

(** Sides of the membership in each part of a diff that cannot hold. *)
Local Ltac parts := unfold diff; rewrite !elem_of_app, nft_step_elem_of;
  rewrite ?(not_elem_of_fmap ReplaceRoute), ?(not_elem_of_fmap AddRule), ?(not_elem_of_fmap DeleteRule),
    ?(not_elem_of_fmap (delete_route d)) by done.

Lemma AddRule_elem_of r : AddRule r ∈ diff sys d <->
  r ∈ d_rules (di_desired d) /\ has_rule sys (di_protocol d) r = false.
Proof.
  parts. rewrite (list_elem_of_fmap AddRule). transitivity (r ∈ adds sys d); [naive_solver|].
  rewrite adds_elem_of. split; intros [Hr H]; (split; [done|]);
    rewrite has_rule_observed in * by (by apply (do_rules _ _ Hok)); done.
Qed.

Lemma DeleteRule_elem_of o : DeleteRule o ∈ diff sys d <->
  o ∈ observed_rules sys (di_layout d) (di_protocol d) /\ unwanted d o.
Proof. parts. rewrite (list_elem_of_fmap DeleteRule). rewrite <- deletes_elem_of. naive_solver. Qed.


Lemma DeleteRoute_elem_of f t p : DeleteRoute f t p ∈ diff sys d <->
  p = di_protocol d /\ (f, t) ∈ observed_tables sys (di_layout d) (di_protocol d) /\
  d_routes (if is_path_table (di_layout d) t then di_desired d else di_before_nft d) !! (f, t) = None.
Proof.
  parts. rewrite !delete_route_key, elem_of_app. pose proof (withdrawn_late_elem_of (f, t)) as Hwl.
  rewrite stale_path_tables_elem_of in Hwl. rewrite early_tables_elem_of in *.
  destruct (is_path_table (di_layout d) t) eqn:E; intuition congruence.
Qed.

Lemma desired_key (layout : Layout) (des : Desired) k r : desired_ok layout des -> d_routes des !! k = Some r ->
  k = route_table_key r /\ range_contains (tables layout) (route_table r) = true.
Proof. intros Hd Hk. destruct (do_routes _ _ Hd k r Hk) as (-> & _ & Ht). done. Qed.

Lemma not_present r : range_contains (tables (di_layout d)) (route_table r) = true ->
  route_present sys (di_protocol d) r = false <->
  view_route sys (di_protocol d) (route_family r) (route_table r) <> Some r.
Proof. intros Ht. rewrite <- (route_present_spec scope sys d Hsys Htables r Ht). by rewrite not_true_iff_false. Qed.

Lemma ReplaceRoute_elem_of r : ReplaceRoute r ∈ diff sys d <->
  (d_routes (di_before_nft d) !! route_table_key r = Some r /\
   view_route sys (di_protocol d) (route_family r) (route_table r) <> Some r) \/
  (d_routes (di_desired d) !! route_table_key r = Some r /\
   d_routes (di_before_nft d) !! route_table_key r <> Some r /\
   (route_table_key r ∈ early_tables sys d \/
    view_route sys (di_protocol d) (route_family r) (route_table r) <> Some r)).
Proof.
  parts. rewrite !(list_elem_of_fmap ReplaceRoute). split.
  - intros [(r' & [= <-] & [[k Hk]%btree_values_elem_of Hp]%elem_of_list_filter_bool)|
      [[]|[[]|[[? _]|[(r' & [= <-] & ([k rk] & E & [Hk Hp]%elem_of_list_filter_bool)%list_elem_of_fmap)|[[]|[]]]]]]]; try done.
    + left. destruct (desired_key _ _ _ _ Hbok Hk) as [-> Ht]. rewrite negb_true_iff, not_present in Hp by done. done.
    + right. simpl in E. subst rk. apply btree_iter_elem_of in Hk. destruct (desired_key _ _ _ _ Hok Hk) as [-> Ht].
      simpl in Hp. rewrite andb_true_iff, orb_true_iff, !negb_true_iff, not_present, bool_decide_eq_false,
        bool_decide_eq_true in Hp by done. tauto.
  - intros [[Hk Hv]|(Hk & Hb & Hv)].
    + left. exists r. split; [done|]. apply elem_of_list_filter_bool. rewrite btree_values_elem_of, negb_true_iff.
      split; [eauto|]. apply not_present; [|done]. by destruct (desired_key _ _ _ _ Hbok Hk).
    + do 4 right. left. exists r. split; [done|]. apply list_elem_of_fmap. exists (route_table_key r, r).
      split; [done|]. apply elem_of_list_filter_bool. rewrite btree_iter_elem_of. split; [done|]. simpl.
      destruct (desired_key _ _ _ _ Hok Hk) as [_ Ht].
      by rewrite andb_true_iff, orb_true_iff, !negb_true_iff, not_present, bool_decide_eq_false, bool_decide_eq_true by done.
Qed.

Lemma diff_op_ok : Forall (op_ok scope) (diff sys d).
Proof.
  apply Forall_forall. intros [r|r| |o|f t p]; try done.
  - intros [[Hk _]|[Hk _]]%ReplaceRoute_elem_of.
    + destruct (do_routes _ _ Hbok _ r Hk) as (_ & Hwf & Ht). split; [done|by apply Htables].
    + destruct (do_routes _ _ Hok _ r Hk) as (_ & Hwf & Ht). split; [done|by apply Htables].
  - intros [[Ho _]%observed_rules_elem_of _]%DeleteRule_elem_of. by apply (sw_rules scope sys).
  - intros (_ & [Ht _]%(observed_tables_elem_of scope) & _)%DeleteRoute_elem_of; [|done..]. by apply Htables.
Qed.

(** A table of which a diff writes the route. *)
Lemma diff_touches_table op f t : op ∈ diff sys d -> touches op = Some (f, t) ->
  range_contains (tables (di_layout d)) t = true /\
  (is_Some (view_route sys (di_protocol d) f t) \/ is_Some (d_routes (di_before_nft d) !! (f, t)) \/
   is_Some (d_routes (di_desired d) !! (f, t))).
Proof.
  destruct op as [r|r| |o|f' t' p]; try done; intros Hop [= <- <-].
  - apply ReplaceRoute_elem_of in Hop as [[Hk _]|[Hk _]].
    + split; [by destruct (desired_key _ _ _ _ Hbok Hk)|]. right; left. unfold route_table_key in Hk. by rewrite Hk.
    + split; [by destruct (desired_key _ _ _ _ Hok Hk)|]. right; right. unfold route_table_key in Hk. by rewrite Hk.
  - apply DeleteRoute_elem_of in Hop as (_ & [Ht Hv]%(observed_tables_elem_of scope) & _); [|done..]. auto.
Qed.

(** A rule that is not PolyWAN's. *)
Definition foreign_rule (o : ObservedRule) : Prop :=
  ~ (or_protocol o = di_protocol d /\ range_contains (priorities (di_layout d)) (or_priority o) = true).

(** The frame of a diff, and of each of its prefixes: foreign rules and the
    routes of other tables, or of tables that no plan and no PolyWAN route
    concerns, stay. *)
Lemma diff_frame now ran : ran ⊆ diff sys d ->
  let sys' := view_after scope (di_protocol d) now sys ran in
  (forall o, foreign_rule o -> o ∈ sys_rules sys' <-> o ∈ sys_rules sys) /\
  (forall k, (forall f t, k = planned_key f t -> range_contains (tables (di_layout d)) t = true ->
      view_route sys (di_protocol d) f t = None /\ d_routes (di_before_nft d) !! (f, t) = None /\
      d_routes (di_desired d) !! (f, t) = None) ->
    sys_routes sys' !! k = sys_routes sys !! k).
Proof.
  intros Hran. cbn zeta.
  assert (Hops : Forall (op_ok scope) ran).
  { apply Forall_forall. intros op Hop%Hran. by apply (proj1 (Forall_forall _ _) diff_op_ok). }
  split.
  - intros o Hf. split; intros Ho.
    + apply ops_rules in Ho as [[Ho _]|(r & [Hr _]%Hran%AddRule_elem_of & His)]; [done| |done..].
      exfalso. apply Hf. apply ObservedRule_is_true in His as (_ & -> & -> & _). split; [done|].
      by apply (do_rules _ _ Hok).
    + apply ops_rules_frame; [done..| |].
      * intros r [Hr _]%Hran%AddRule_elem_of [Hp Hpr]. apply Hf. split; [done|]. rewrite Hpr. by apply (do_rules _ _ Hok).
      * intros o' [(Ho' & Hp & Hpr)%observed_rules_elem_of _]%Hran%DeleteRule_elem_of.
        destruct (same_rule o o') eqn:E; [|done]. exfalso. apply Hf.
        apply same_rule_owner in E as [-> ->]; [done|by apply (sw_rules _ _ Hsys)..].
  - intros k Hk. apply (ops_routes_frame scope); [done..|]. intros op f t Hop%Hran Ht ->.
    destruct (diff_touches_table op f t Hop Ht) as [Hr Hsome]. destruct (Hk f t eq_refl Hr) as (E1 & E2 & E3).
    rewrite E1, E2, E3 in Hsome. by destruct Hsome as [[]|[[]|[]]].
Qed.
End members.

Section convergence.
Context (scope : Scope) (now : Instant) (sys : System) (d : DiffInput).
Context (Hsys : System_wf scope sys).
Context (Htables : forall t, range_contains (tables (di_layout d)) t = true -> is_polywan scope t = true).
Context (Hok : desired_ok (di_layout d) (di_desired d)).
Context (Hbefore : di_before_nft d = di_desired d).

Local Abbreviation final := (view_after scope (di_protocol d) now sys (diff sys d)) (only parsing).

(** The routes to install. *)
Definition missing_routes : list Route :=
  List.filter (fun r => negb (route_present sys (di_protocol d) r)) (btree_values (d_routes (di_desired d))).

Lemma diff_settled : diff sys d =
  (ReplaceRoute <$> missing_routes) ++
  (delete_route d <$> early_tables sys d ++ withdrawn_tables sys d) ++
  (AddRule <$> adds sys d) ++ (if di_nft_pending d then [ApplyNft] else []) ++
  (DeleteRule <$> deletes sys d) ++ (delete_route d <$> late_tables sys d).
Proof.
  unfold diff, missing_routes. rewrite Hbefore. do 4 f_equal.
  rewrite (filter_none _ (btree_iter (d_routes (di_desired d)))); [done|].
  intros [k r] Hk%btree_iter_elem_of. simpl. by rewrite bool_decide_eq_true_2.
Qed.

Lemma missing_routes_elem_of r : r ∈ missing_routes <->
  d_routes (di_desired d) !! (route_family r, route_table r) = Some r /\
  view_route sys (di_protocol d) (route_family r) (route_table r) <> Some r.
Proof.
  unfold missing_routes. rewrite elem_of_list_filter_bool, btree_values_elem_of, negb_true_iff, <- not_true_iff_false.
  split.
  - intros [[k Hk] Hno]. destruct (do_routes _ _ Hok k r Hk) as (-> & _ & Ht). split; [done|].
    by rewrite (route_present_spec scope) in Hno.
  - intros [Hk Hno]. split; [eauto|]. destruct (do_routes _ _ Hok _ r Hk) as (_ & _ & Ht).
    by rewrite (route_present_spec scope).
Qed.

Lemma before_ok : desired_ok (di_layout d) (di_before_nft d).
Proof. by rewrite Hbefore. Qed.

(** The tables deleted are those observed that the desired state does not have. *)
Lemma deleted_tables f t :
  DeleteRoute f t (di_protocol d) ∈ diff sys d <->
  (f, t) ∈ observed_tables sys (di_layout d) (di_protocol d) /\ d_routes (di_desired d) !! (f, t) = None.
Proof. rewrite DeleteRoute_elem_of, Hbefore. destruct (is_path_table (di_layout d) t); naive_solver. Qed.

Lemma settled_op_ok : Forall (op_ok scope) (diff sys d).
Proof. apply (diff_op_ok scope); try done. apply before_ok. Qed.

Lemma omap_touches_none {A} (f : A -> Op) (l : list A) : (forall x, touches (f x) = None) -> omap touches (f <$> l) = [].
Proof. intros Hf. induction l as [|x l IH]; [done|]. rewrite fmap_cons. cbn [omap list_omap]. by rewrite Hf. Qed.

Lemma omap_touches_some {A} (f : A -> Op) (g : A -> Family * u32) (l : list A) :
  (forall x, touches (f x) = Some (g x)) -> omap touches (f <$> l) = g <$> l.
Proof.
  intros Hf. induction l as [|x l IH]; [done|]. rewrite !fmap_cons. cbn [omap list_omap]. by rewrite Hf, IH.
Qed.

Lemma diff_touches : omap touches (diff sys d) =
  (route_table_key <$> missing_routes) ++ early_tables sys d ++ withdrawn_tables sys d ++ late_tables sys d.
Proof.
  rewrite diff_settled, !omap_app.
  rewrite (omap_touches_none AddRule), (omap_touches_none DeleteRule) by done.
  rewrite (omap_touches_some ReplaceRoute route_table_key) by done.
  rewrite !(omap_touches_some (delete_route d) id) by (by intros []). rewrite !list_fmap_id.
  destruct (di_nft_pending d); simpl; by rewrite <- !app_assoc.
Qed.

Lemma NoDup_fmap_filter {A B} (f : A -> B) (p : A -> bool) (l : list A) : NoDup (f <$> l) -> NoDup (f <$> List.filter p l).
Proof.
  induction l as [|x l IH]; [done|]. rewrite fmap_cons, NoDup_cons. intros [Hx Hl]. cbn [List.filter].
  destruct (p x); [|by apply IH]. rewrite fmap_cons. constructor; [|by apply IH].
  intros (y & E & [Hy _]%elem_of_list_filter_bool)%list_elem_of_fmap. apply Hx. rewrite E. by apply list_elem_of_fmap_2.
Qed.

Lemma missing_routes_NoDup : NoDup (route_table_key <$> missing_routes).
Proof.
  apply NoDup_fmap_filter. unfold btree_values. rewrite <- list_fmap_compose.
  assert (E : (route_table_key ∘ snd) <$> btree_iter (d_routes (di_desired d)) =
    fst <$> btree_iter (d_routes (di_desired d))); [|rewrite E; apply btree_iter_NoDup].
  apply list_fmap_ext. intros i [k r] Hi%list_elem_of_lookup_2%btree_iter_elem_of.
  destruct (do_routes _ _ Hok k r Hi) as (-> & _). done.
Qed.

Lemma diff_touches_NoDup : NoDup (omap touches (diff sys d)).
Proof.
  assert (Hstale : NoDup (stale_path_tables sys d))
    by (unfold stale_path_tables; repeat apply NoDup_filter_bool; apply bset_iter_NoDup).
  assert (Hes : forall k, k ∈ early_tables sys d -> k ∉ stale_path_tables sys d).
  { intros [f t] (_ & Hp & _)%early_tables_elem_of (_ & Hp' & _)%stale_path_tables_elem_of. congruence. }
  rewrite diff_touches. apply NoDup_app. split_and!; [apply missing_routes_NoDup| |apply NoDup_app; split_and!].
  - intros k (r & -> & [Hr _]%missing_routes_elem_of)%list_elem_of_fmap.
    rewrite !elem_of_app. intros [(_ & _ & He)%early_tables_elem_of|Hk%withdrawn_late_elem_of].
    + rewrite Hbefore in He. unfold route_table_key in *. congruence.
    + apply stale_path_tables_elem_of in Hk as (_ & _ & Hk). congruence.
  - unfold early_tables. repeat apply NoDup_filter_bool. apply bset_iter_NoDup.
  - intros k Hk. rewrite elem_of_app. intros Hk'%withdrawn_late_elem_of. by apply (Hes k).
  - apply NoDup_app. split_and!; [by apply NoDup_filter_bool| |by apply NoDup_filter_bool].
    intros k [_ Hk]%elem_of_list_filter_bool [_ Hk']%elem_of_list_filter_bool. rewrite Hk in Hk'. done.
Qed.

Lemma final_wf : System_wf scope final.
Proof. by apply view_after_wf. Qed.

(** The planned route of each table of the layout, in the final view. *)
Lemma final_route f t : range_contains (tables (di_layout d)) t = true ->
  view_route final (di_protocol d) f t = d_routes (di_desired d) !! (f, t).
Proof.
  intros Ht. destruct (d_routes (di_desired d) !! (f, t)) as [r|] eqn:E.
  - destruct (do_routes _ _ Hok _ r E) as (Ek & _). injection Ek as -> ->.
    destruct (decide (view_route sys (di_protocol d) (route_family r) (route_table r) = Some r)) as [Hp|Hp].
    + rewrite ops_untouched; [done..|apply settled_op_ok|]. rewrite diff_touches, !elem_of_app.
      intros [(r' & Ek & [Hr' Hno]%missing_routes_elem_of)%list_elem_of_fmap|[He|Hk%(withdrawn_late_elem_of sys d)]].
      * unfold route_table_key in Ek. injection Ek as E1 E2. rewrite <- E1, <- E2 in *. congruence.
      * apply early_tables_elem_of in He as (_ & _ & He). rewrite Hbefore in He. congruence.
      * apply stale_path_tables_elem_of in Hk as (_ & _ & Hk). congruence.
    + apply (ops_touched scope (di_protocol d) now sys (diff sys d) (ReplaceRoute r)); try done.
      * apply settled_op_ok.
      * apply diff_touches_NoDup.
      * rewrite diff_settled, elem_of_app. left. apply list_elem_of_fmap_2. by apply missing_routes_elem_of.
  - destruct (view_route sys (di_protocol d) f t) as [r|] eqn:Ev.
    + apply (ops_touched scope (di_protocol d) now sys (diff sys d) (DeleteRoute f t (di_protocol d))); try done.
      * apply settled_op_ok.
      * apply diff_touches_NoDup.
      * apply deleted_tables. split; [|done]. apply (observed_tables_elem_of scope); [done..|]. by rewrite Ev.
    + rewrite ops_untouched; [done..|apply settled_op_ok|]. rewrite diff_touches, !elem_of_app.
      intros [(r' & Ek & [Hr' Hno]%missing_routes_elem_of)%list_elem_of_fmap|[He|Hk%(withdrawn_late_elem_of sys d)]].
      * unfold route_table_key in Ek. injection Ek as -> ->. congruence.
      * apply early_tables_elem_of in He as (He & _). apply (observed_tables_elem_of scope) in He as [_ [? ?]]; [|done..].
        congruence.
      * apply stale_path_tables_elem_of in Hk as (Hk & _).
        apply (observed_tables_elem_of scope) in Hk as [_ [? ?]]; [|done..]. congruence.
Qed.

Lemma final_rule r : r ∈ d_rules (di_desired d) -> has_rule final (di_protocol d) r = true.
Proof.
  intros Hr. apply (ops_has_rule scope); [done|apply settled_op_ok| |].
  - intros o [_ [_ Hno]]%DeleteRule_elem_of. by apply Hno.
  - rewrite (AddRule_elem_of sys d Hok). destruct (has_rule sys (di_protocol d) r); auto.
Qed.

Lemma final_no_unwanted o : o ∈ observed_rules final (di_layout d) (di_protocol d) -> ~ unwanted d o.
Proof.
  intros (Ho & Hp & Hr)%observed_rules_elem_of Hun.
  apply (ops_rules scope) in Ho as [[Ho Hdel]|(r & Hadd & His)]; [| |done|apply settled_op_ok].
  - assert (DeleteRule o ∈ diff sys d) as H.
    { apply DeleteRule_elem_of. split; [|done]. by apply observed_rules_elem_of. }
    apply Hdel in H. rewrite same_rule_refl in H. done.
  - apply (AddRule_elem_of sys d Hok) in Hadd as [Hadd _]. destruct Hun as [_ Hun].
    rewrite (Hun r Hadd) in His. done.
Qed.
End convergence.

(** A view in which the desired state is fully applied. *)
Record applied (scope : Scope) (sys : System) (d : DiffInput) : Prop := {
  ap_routes : forall f t, range_contains (tables (di_layout d)) t = true ->
    view_route sys (di_protocol d) f t = d_routes (di_desired d) !! (f, t);
  ap_rules : forall r, r ∈ d_rules (di_desired d) -> has_rule sys (di_protocol d) r = true;
  ap_unwanted : forall o, o ∈ observed_rules sys (di_layout d) (di_protocol d) -> ~ unwanted d o
}.

Lemma empty_no_elem {A} (l : list A) : (forall x, x ∉ l) -> l = [].
Proof. destruct l as [|x l]; [done|]. intros H. exfalso. apply (H x). set_solver. Qed.

Lemma applied_diff scope sys d : System_wf scope sys ->
  (forall t, range_contains (tables (di_layout d)) t = true -> is_polywan scope t = true) ->
  desired_ok (di_layout d) (di_desired d) -> di_before_nft d = di_desired d ->
  applied scope sys d <-> diff sys d = if di_nft_pending d then [ApplyNft] else [].
Proof.
  intros Hs Ht Hok Hb.
  assert (Hsplit : diff sys d = (if di_nft_pending d then [ApplyNft] else []) <->
    missing_routes sys d = [] /\ early_tables sys d = [] /\ withdrawn_tables sys d = [] /\
    adds sys d = [] /\ deletes sys d = [] /\ late_tables sys d = []).
  { rewrite (diff_settled sys d) by done. split.
    - intros E. apply (f_equal length) in E. rewrite !length_app, !length_fmap, length_app in E.
      split_and!; apply nil_length_inv; lia.
    - intros (-> & -> & -> & -> & -> & ->). simpl. by rewrite app_nil_r. }
  rewrite Hsplit. split.
  - intros [Hr Hru Hun].
    assert (Hstale : stale_path_tables sys d = []).
    { apply empty_no_elem. intros [f t] (Ho & _ & Hd)%stale_path_tables_elem_of.
      apply (observed_tables_elem_of scope) in Ho as [Htt [r Hv]]; [|done..]. rewrite Hr in Hv; congruence. }
    unfold withdrawn_tables, late_tables. rewrite Hstale. split_and!; try done; apply empty_no_elem.
    + intros r [Hd Hv]%(missing_routes_elem_of scope); [|done..]. rewrite Hr in Hv; [done|].
      by destruct (do_routes _ _ Hok _ r Hd) as (_ & _ & ?).
    + intros [f t] (Ho & _ & Hd)%early_tables_elem_of.
      apply (observed_tables_elem_of scope) in Ho as [Htt [r Hv]]; [|done..]. rewrite Hr in Hv; congruence.
    + intros r [Hr' Hno]%adds_elem_of. rewrite has_rule_observed in Hno by (by apply (do_rules _ _ Hok)).
      rewrite Hru in Hno; done.
    + intros o [Ho Hu]%deletes_elem_of. by apply (Hun o).
  - intros (Hm & He & Hw & Ha & Hde & Hla).
    assert (Hfin := final_route scope 0 sys d Hs Ht Hok Hb).
    assert (Hfr := final_rule scope 0 sys d Hs Ht Hok Hb).
    assert (Hfu := final_no_unwanted scope 0 sys d Hs Ht Hok Hb).
    assert (E : view_after scope (di_protocol d) 0 sys (diff sys d) = sys).
    { rewrite (diff_settled sys d) by done. rewrite Hm, He, Hw, Ha, Hde, Hla. by destruct (di_nft_pending d). }
    rewrite E in *. by split.
Qed.

(** ** Execution *)

Section execution.
Context {K : Type} (mutate : K -> RouteNetlinkMessage -> Mutation -> K * option KernelError).
Context (scope : Scope) (protocol : u8) (now : Instant).

(** Execution goes through a prefix of the operations, all applied to the
    view, and ends at the end, at the nftables step or at a failure. *)
Lemma execute_prefix k sys ops k' sys' res : execute mutate scope protocol now k sys ops = (k', sys', res) ->
  exists ran rest, ops = ran ++ rest /\ sys' = view_after scope protocol now sys ran /\
    (ApplyNft ∉ ran) /\
    match res with
    | Ok false => rest = []
    | Ok true => exists rest', rest = ApplyNft :: rest'
    | Err f => exists rest', rest = fail_op f :: rest' /\ fail_op f <> ApplyNft
    end.
Proof.
  revert k sys. induction ops as [|op ops IH]; intros k sys; simpl.
  { intros [= <- <- <-]. exists [], []. split_and!; try done. apply not_elem_of_nil. }
  destruct (netlink_op op protocol) as [[[m kind] tol]|] eqn:En.
  - assert (Hn : op <> ApplyNft) by (by intros ->).
    unfold execute_op. destruct (mutate k m kind) as [k1 outcome].
    set (next := fst (System_apply sys scope now m)).
    assert (Hnext : op_view scope protocol now sys op = next) by (unfold op_view; by rewrite En).
    assert (Hgo : execute mutate scope protocol now k1 next ops = (k', sys', res) ->
      exists ran rest, op :: ops = ran ++ rest /\ sys' = view_after scope protocol now sys ran /\
        (ApplyNft ∉ ran) /\
        match res with
        | Ok false => rest = []
        | Ok true => exists rest', rest = ApplyNft :: rest'
        | Err f => exists rest', rest = fail_op f :: rest' /\ fail_op f <> ApplyNft
        end).
    { intros (ran & rest & -> & -> & Hno & Hres)%IH. exists (op :: ran), rest.
      split_and!; [done| |set_solver|done]. unfold view_after. simpl. by rewrite Hnext. }
    destruct outcome as [e|]; [|done]. destruct (existsb _ tol); [done|].
    intros [= <- <- <-]. exists [], (op :: ops). split_and!; [done..|apply not_elem_of_nil|]. by exists ops.
  - intros [= <- <- <-]. exists [], (op :: ops).
    assert (op = ApplyNft) as -> by by destruct op. split_and!; [done..|apply not_elem_of_nil|]. by exists ops.
Qed.

Lemma execute_accepted k sys ops : (forall k m kind, snd (mutate k m kind) = None) -> ApplyNft ∉ ops ->
  exists k', execute mutate scope protocol now k sys ops = (k', view_after scope protocol now sys ops, Ok false).
Proof.
  intros Hacc. revert k sys. induction ops as [|op ops IH]; intros k sys Hno; [by exists k|].
  simpl. destruct (netlink_op op protocol) as [[[m kind] tol]|] eqn:En.
  - unfold execute_op. specialize (Hacc k m kind). destruct (mutate k m kind) as [k1 outcome]. simpl in Hacc. subst.
    destruct (IH k1 (fst (System_apply sys scope now m))) as [k' ->]; [set_solver|]. exists k'.
    unfold view_after, op_view. simpl. by rewrite En.
  - destruct op; try done. set_solver.
Qed.
End execution.

(** ** Order *)















(** ** Every prefix of a pass *)



Section prefixes.
Context (scope : Scope) (now : Instant) (sys : System) (d : DiffInput).
Context (Hsys : System_wf scope sys).
Context (Htables : forall t, range_contains (tables (di_layout d)) t = true -> is_polywan scope t = true).
Context (Hbok : desired_ok (di_layout d) (di_before_nft d)).
Context (Hok : desired_ok (di_layout d) (di_desired d)).
Context (ran rest : list Op) (Hsplit : diff sys d = ran ++ rest).

Local Abbreviation v := (view_after scope (di_protocol d) now sys ran) (only parsing).














End prefixes.

(** The scope of a daemon. *)
Definition layout_scope (config : Config) : Scope :=
  mkScope [tables (Layout_of config)] (rt_discovery_tables (cf_routing config)).

Lemma layout_scope_tables config t : range_contains (tables (Layout_of config)) t = true ->
  is_polywan (layout_scope config) t = true.
Proof. intros Ht. unfold is_polywan, layout_scope. simpl. by rewrite Ht. Qed.

Definition managed_families (config : Config) : list Family := List.filter (Config_manages config) Family_ALL.

(** The input of a pass: the plan without the paths whose marks are not yet
    assigned, and the plan. *)
Definition pass_input (config : Config) (before input : Input) (pending : bool) : DiffInput :=
  mkDiffInput (Layout_of config) (rt_route_protocol (cf_routing config)) (managed_families config)
    (plan config before) (plan config input) pending.

Definition settled_input (config : Config) (input : Input) : DiffInput := pass_input config input input false.

Lemma settled_no_nft config input sys : ApplyNft ∉ diff sys (settled_input config input).
Proof.
  rewrite diff_settled by done. rewrite !elem_of_app, !list_elem_of_fmap. cbn [di_nft_pending settled_input].
  rewrite elem_of_nil. unfold delete_route. naive_solver.
Qed.


(** C1: Reconciliation converges.  From any well-formed view, executing the
    diff against the plan of a valid configuration on a kernel that accepts
    its mutations succeeds, and from any kernel, when it succeeds, the new
    view is well formed and exactly the plan: each of PolyWAN's tables holds
    the planned route or none, every planned rule is there, no unwanted one
    is, and the next diff is empty.  Everything else is as it was: a rule
    without PolyWAN's protocol or outside its priorities is there after the
    pass if and only if it was before, and so is, unchanged, every route
    entry that is not the planned entry of one of PolyWAN's tables, or is one
    of a table where the plan wants no route and no PolyWAN route was. *)
Theorem reconcile_converges {K : Type}
    (mutate : K -> RouteNetlinkMessage -> Mutation -> K * option KernelError)
    (config : Config) (input : Input) (sys : System) (k : K) (now : Instant)
    (Hwf : config_wf config) (Hweights : weights_wf config)
    (Hsys : System_wf (layout_scope config) sys) :
  let d := settled_input config input in
  let run := execute mutate (layout_scope config) (di_protocol d) now k sys (diff sys d) in
  ((forall k m kind, snd (mutate k m kind) = None) -> exists k' sys', run = (k', sys', Ok false)) /\
  (forall k' sys' nft, run = (k', sys', Ok nft) ->
     nft = false /\ System_wf (layout_scope config) sys' /\ diff sys' d = [] /\
     (forall f t, range_contains (tables (Layout_of config)) t = true ->
        view_route sys' (di_protocol d) f t = d_routes (plan config input) !! (f, t)) /\
     (forall r, r ∈ d_rules (plan config input) -> has_rule sys' (di_protocol d) r = true) /\
     (forall o, ~ (or_protocol o = di_protocol d /\
                   range_contains (priorities (Layout_of config)) (or_priority o) = true) ->
        o ∈ sys_rules sys' <-> o ∈ sys_rules sys) /\
     (forall key,
        (forall f t, key = planned_key f t -> range_contains (tables (Layout_of config)) t = true ->
           view_route sys (di_protocol d) f t = None /\ d_routes (plan config input) !! (f, t) = None) ->
        sys_routes sys' !! key = sys_routes sys !! key)).
Proof.
  cbn zeta. set (d := settled_input config input).
  assert (Hok : desired_ok (di_layout d) (di_desired d)) by by apply plan_desired_ok.
  assert (Ht := layout_scope_tables config).
  assert (Hno := settled_no_nft config input sys). fold d in Hno. split.
  - intros Hacc. destruct (execute_accepted mutate (layout_scope config) (di_protocol d) now k sys
      (diff sys d) Hacc Hno) as [k' ->]. eauto.
  - intros k' sys' nft (ran & rest & Eops & -> & _ & Hres)%execute_prefix.
    destruct nft; [destruct Hres as [rest' ->]; exfalso; apply Hno; rewrite Eops; set_solver|].
    subst rest. rewrite app_nil_r in Eops. subst ran. split; [done|].
    assert (Hap : applied (layout_scope config)
      (view_after (layout_scope config) (di_protocol d) now sys (diff sys d)) d).
    { split; intros.
      - by apply final_route.
      - by apply (final_rule (layout_scope config)).
      - by apply (final_no_unwanted (layout_scope config) now sys). }
    assert (Hw : System_wf (layout_scope config)
      (view_after (layout_scope config) (di_protocol d) now sys (diff sys d))) by by apply view_after_wf.
    destruct (diff_frame (layout_scope config) sys d Hsys Ht Hok Hok now (diff sys d) (fun _ H => H)) as [Hfr Hfk].
    split_and!; [done| |apply Hap|apply Hap|exact Hfr|].
    + by apply (applied_diff (layout_scope config)) in Hap.
    + intros key Hkey. apply Hfk. intros f t E Hr. destruct (Hkey f t E Hr). done.
Qed.

(** A kernel that counts the mutations it accepts. *)
Definition counting_kernel (n : nat) (_ : RouteNetlinkMessage) (_ : Mutation) : nat * option KernelError :=
  (S n, None).

Lemma sample_weights : weights_wf Sample.config.
Proof. intros u. simpl. rewrite !elem_of_cons, elem_of_nil. intros [->|[->|[]]]; simpl; lia. Qed.

Lemma reconcile_converges_witness :
  exists n sys', execute counting_kernel (layout_scope Sample.config)
      (di_protocol (settled_input Sample.config Sample.input)) 0 O
      System_default (diff System_default (settled_input Sample.config Sample.input)) = (n, sys', Ok false) /\
    n = 30%nat /\ diff sys' (settled_input Sample.config Sample.input) = [].
Proof.
  destruct (reconcile_converges counting_kernel Sample.config Sample.input System_default O 0
    Sample.config_ok sample_weights (System_default_wf _)) as [Hacc Hres].
  destruct (Hacc (fun _ _ _ => eq_refl)) as (n & sys' & E).
  exists n, sys'. split; [exact E|]. split.
  - apply (f_equal (fun x => fst (fst x))) in E. cbn [fst] in E. rewrite <- E. by vm_compute.
  - exact (proj1 (proj2 (proj2 (Hres n sys' false E)))).
Defined.




(** ** Classification and teardown *)

Lemma classify_id (layout : Layout) (id : UplinkId) base :
  checked_sub (l_priority_base layout + base + UplinkId_get id) (l_priority_base layout) =
    if base + UplinkId_get id <? 0 then None else Some (base + UplinkId_get id).
Proof. unfold checked_sub. repeat case_match; bool_simpl; try lia; try done. f_equal. lia. Qed.

Lemma checked_sub_add b n : 0 <= n -> checked_sub (b + n) b = Some n.
Proof. intros. unfold checked_sub. case_match; bool_simpl; [lia|]. f_equal. lia. Qed.

Lemma UplinkId_new_offset id base : (if base + UplinkId_get id - base <? 256
  then UplinkId_new (base + UplinkId_get id - base) else None) = Some id.
Proof.
  pose proof (UplinkId_range id). rewrite Z.add_simpl_l, UplinkId_new_get.
  by rewrite (proj2 (Z.ltb_lt _ _)) by lia.
Qed.

(** An offset decides its role. *)
Ltac role := unfold classify; rewrite checked_sub_add by lia; cbn [mbind option_bind];
  repeat match goal with
  | |- context [in_range ?a ?b ?x] =>
      first [rewrite (proj2 (in_range_spec a b x)) by lia | rewrite (proj2 (in_range_false a b x)) by lia]
  | |- context [?x =? ?y] =>
      first [rewrite (proj2 (Z.eqb_eq x y)) by lia | rewrite (proj2 (Z.eqb_neq x y)) by lia]
  end.

Lemma classify_shape config input f r : rule_shape config input f r ->
  classify (Layout_of config) (rule_priority r) = Some (rule_kind r).
Proof.
  assert (Hid : forall base (id : UplinkId), l_priority_base (Layout_of config) + base + UplinkId_get id =
    l_priority_base (Layout_of config) + (base + UplinkId_get id)) by (intros; lia).
  intros Hr. destruct Hr as [i ?| | |i ?| |i ?|i ?| |u ? ? ? ? ?|u ? ? ? ? ?| |]; cbn [rule_priority rule_kind];
    try pose proof (UplinkId_range i); try pose proof (UplinkId_range (u_id u)); rewrite ?Hid; role; try done;
    try (by rewrite UplinkId_new_offset).
  pose proof (UplinkId_new_offset i 0) as E. rewrite Z.add_0_l in E. by rewrite E.
Qed.

Section teardown.
Context (scope : Scope) (protocol : u8) (now : Instant).

Definition only_deletes (ops : list Op) : Prop :=
  forall op, op ∈ ops -> match op with DeleteRule _ | DeleteRoute _ _ _ => True | _ => False end.

Lemma deletes_rules sys ops o : System_wf scope sys -> Forall (op_ok scope) ops -> only_deletes ops ->
  o ∈ sys_rules (view_after scope protocol now sys ops) <->
  o ∈ sys_rules sys /\ forall o', DeleteRule o' ∈ ops -> same_rule o o' = false.
Proof.
  intros Hs Hops. revert sys Hs. induction Hops as [|op ops Hop Hops IH]; intros sys Hs Hd; simpl.
  { split; [|by intros []]. intros Ho. split; [done|]. intros o' Ho'. by apply not_elem_of_nil in Ho'. }
  rewrite IH; [|by apply op_view_wf|intros op' ?; apply Hd; set_solver].
  specialize (Hd op ltac:(set_solver)). unfold op_view. destruct op as [| | |o'|f t p]; try done; cbn [netlink_op].
  - destruct (apply_del_rule scope sys now protocol o' Hs Hop) as (Hin & _). rewrite Hin.
    setoid_rewrite elem_of_cons. naive_solver.
  - destruct (apply_del_route scope sys now p f t Hop) as (_ & _ & ->). setoid_rewrite elem_of_cons. naive_solver.
Qed.

Lemma deletes_routes sys ops f t o : System_wf scope sys -> Forall (op_ok scope) ops -> only_deletes ops ->
  sys_routes (view_after scope protocol now sys ops) !! planned_key f t = Some o ->
  sys_routes sys !! planned_key f t = Some o /\ forall p, DeleteRoute f t p ∉ ops.
Proof.
  intros Hs Hops. revert sys Hs. induction Hops as [|op ops Hop Hops IH]; intros sys Hs Hd; simpl.
  { intros Ho. split; [done|]. intros p. apply not_elem_of_nil. }
  intros [Ho Hno]%IH; [|by apply op_view_wf|intros op' ?; apply Hd; set_solver].
  specialize (Hd op ltac:(set_solver)). unfold op_view in Ho. destruct op as [| | |o'|f' t' p]; try done; cbn [netlink_op] in Ho.
  - destruct (apply_del_rule scope sys now protocol o' Hs Hop) as (_ & _ & Er). rewrite Er in Ho.
    split; [done|]. intros p. rewrite elem_of_cons. naive_solver.
  - destruct (apply_del_route scope sys now p f' t' Hop) as (Hn & Hk & _).
    destruct (decide ((f, t) = (f', t'))) as [[= -> ->]|Hne]; [congruence|].
    rewrite Hk in Ho by (intros E%planned_key_inj; done). split; [done|].
    intros p'. rewrite elem_of_cons. naive_solver.
Qed.
End teardown.

Definition owned_by (layouts : list (Layout * u8)) (o : ObservedRule) : Prop :=
  exists l p, (l, p) ∈ layouts /\ or_protocol o = p /\ range_contains (priorities l) (or_priority o) = true.

Lemma owner_key_Some layouts o : (exists k, owner_key layouts o = Some (k, o)) <-> owned_by layouts o.
Proof.
  unfold owner_key, owned_by. assert (Hown : owners layouts o <> [] <-> exists l p, (l, p) ∈ layouts /\
    or_protocol o = p /\ range_contains (priorities l) (or_priority o) = true).
  { unfold owners. split.
    - destruct (List.filter _ layouts) as [|[l p] rest] eqn:E; [done|]. intros _.
      assert ((l, p) ∈ List.filter (fun lp : Layout * u8 => (or_protocol o =? snd lp) &&
        range_contains (priorities (fst lp)) (or_priority o)) layouts) as H by (rewrite E; set_solver).
      apply elem_of_list_filter_bool in H as [H Hp]. exists l, p. bool_simpl. simpl in *. done.
    - intros (l & p & Hin & Hp & Hr) E%fmap_nil_inv.
      assert ((l, p) ∈ List.filter (fun lp : Layout * u8 => (or_protocol o =? snd lp) &&
        range_contains (priorities (fst lp)) (or_priority o)) layouts) as H.
      { apply elem_of_list_filter_bool. simpl. by rewrite Hp, Z.eqb_refl, Hr. }
      rewrite E in H. by apply not_elem_of_nil in H. }
  rewrite <- Hown. destruct (owners layouts o) as [|l ls]; split; try done; [by intros [k Hk]|]. by eexists.
Qed.

Lemma owner_key_snd layouts o k o' : owner_key layouts o = Some (k, o') -> o' = o.
Proof. unfold owner_key. destruct (owners layouts o); [done|]. by intros [= _ <-]. Qed.

Lemma teardown_rule sys layouts o : DeleteRule o ∈ teardown sys layouts <-> o ∈ sys_rules sys /\ owned_by layouts o.
Proof.
  unfold teardown. rewrite elem_of_app, !(list_elem_of_fmap _ _ (DeleteRule o)). split.
  - intros [(o' & [= <-] & ([k o''] & -> & Hk)%list_elem_of_fmap)|(? & ? & _)]; [|done].
    apply sort_by_key_elem_of in Hk. apply list_elem_of_omap in Hk as (o3 & Ho3 & Hk).
    pose proof (owner_key_snd _ _ _ _ Hk) as ->. simpl. split; [done|]. apply owner_key_Some. eauto.
  - intros [Ho [k Hk]%owner_key_Some]. left. exists o. split; [done|]. apply list_elem_of_fmap. exists (k, o).
    split; [done|]. apply sort_by_key_elem_of. apply list_elem_of_omap. eauto.
Qed.

Lemma teardown_route sys layouts f t p : DeleteRoute f t p ∈ teardown sys layouts <->
  exists l, (l, p) ∈ layouts /\ (f, t) ∈ observed_tables sys l p.
Proof.
  unfold teardown. rewrite elem_of_app, !(list_elem_of_fmap _ _ (DeleteRoute f t p)).
  assert (Hin : forall x, x ∈ bset_iter (list_to_set (concat ((fun lp : Layout * u8 => (fun key => (snd lp, key)) <$>
      bset_iter (observed_tables sys (fst lp) (snd lp))) <$> layouts)) : gset (u8 * (Family * u32))) <->
    exists l, (l, fst x) ∈ layouts /\ snd x ∈ observed_tables sys l (fst x)).
  { intros [q key]. rewrite bset_iter_elem_of, elem_of_list_to_set, list_elem_of_In, in_concat.
    setoid_rewrite <- list_elem_of_In. setoid_rewrite list_elem_of_fmap. simpl. split.
    - intros (ks & ([l p'] & -> & Hl) & (key' & [= -> ->] & Hk%bset_iter_elem_of)%list_elem_of_fmap). eauto.
    - intros (l & Hl & Hk). eexists. split; [by exists (l, q)|]. apply list_elem_of_fmap. exists key.
      split; [done|]. by apply bset_iter_elem_of. }
  split.
  - intros [(? & ? & _)|([q [f' t']] & [= -> -> ->] & H)]; [done|]. by apply Hin in H.
  - intros H. right. exists (p, (f, t)). split; [done|]. by apply Hin.
Qed.

(** Execution stops at the first failure and reports it: for any kernel
    the operations that ran are a prefix of the given ones, the view is
    exactly that prefix applied (a tolerated errno counts as done), and
    execution ends at the end, just before the nftables step, or at the
    operation that the failure names, with its kind, errno and table. *)
Theorem execute_stops_at_failure {K : Type}
    (mutate : K -> RouteNetlinkMessage -> Mutation -> K * option KernelError)
    (scope : Scope) (protocol : u8) (now : Instant) (k : K) (sys : System) (ops : list Op) :
  let '(_, sys', res) := execute mutate scope protocol now k sys ops in
  exists ran rest, ops = ran ++ rest /\ sys' = view_after scope protocol now sys ran /\ (ApplyNft ∉ ran) /\
    match res with
    | Ok false => rest = []
    | Ok true => exists rest', rest = ApplyNft :: rest'
    | Err f => exists rest', rest = fail_op f :: rest' /\ fail_op f <> ApplyNft
    end.
Proof.
  destruct (execute mutate scope protocol now k sys ops) as [[k' sys'] res] eqn:E.
  by apply execute_prefix in E.
Qed.

(** The priority of every planned rule determines its role: reading a
    planned rule back by its offset in the layout gives its kind (which
    orders its removal), for every kind and every uplink. *)
Theorem classify_plan (config : Config) (input : Input) (r : Rule)
    (Hwf : config_wf config) (Hr : r ∈ d_rules (plan config input)) :
  classify (Layout_of config) (rule_priority r) = Some (rule_kind r).
Proof. apply plan_rule_shape in Hr as (f & _ & Hr); [by eapply classify_shape|apply Hwf]. Qed.

Lemma classify_plan_witness :
  exists r, r ∈ d_rules (plan Sample.config Sample.input) /\ rule_kind r = SourceLookup (uid 2) /\
    classify (Layout_of Sample.config) (rule_priority r) = Some (SourceLookup (uid 2)).
Proof.
  set (r := source_lookup (Layout_of Sample.config) V4 (uid 2) (IpV4 1681915906)).
  assert (Hr : r ∈ d_rules (plan Sample.config Sample.input))
    by (refine (bool_decide_eq_true_1 _ _); by vm_compute).
  exists r. split_and!; [exact Hr|done|].
  exact (classify_plan Sample.config Sample.input r Sample.config_ok Hr).
Defined.

(** C31: Teardown removes everything PolyWAN owns under any of the given
    layouts and nothing else: once its operations are applied, no rule of a
    layout's priorities with that layout's protocol and no planned-shaped
    route of its tables remains in the view, while every other rule is there
    if and only if it was, and every route entry other than the planned
    entries that hold such a route is unchanged. *)
Theorem teardown_clean (scope : Scope) (protocol : u8) (now : Instant) (sys : System)
    (layouts : list (Layout * u8)) (Hsys : System_wf scope sys)
    (Htables : forall l p t, (l, p) ∈ layouts -> range_contains (tables l) t = true -> is_polywan scope t = true) :
  let sys' := view_after scope protocol now sys (teardown sys layouts) in
  (forall l p, (l, p) ∈ layouts -> observed_rules sys' l p = [] /\ observed_tables sys' l p = ∅) /\
  (forall o, ~ owned_by layouts o -> o ∈ sys_rules sys' <-> o ∈ sys_rules sys) /\
  (forall key,
     (forall l p f t, (l, p) ∈ layouts -> range_contains (tables l) t = true -> key = planned_key f t ->
        view_route sys p f t = None) ->
     sys_routes sys' !! key = sys_routes sys !! key).
Proof.
  cbn zeta.
  assert (Hdel : only_deletes (teardown sys layouts)).
  { intros op Hop. unfold teardown in Hop. apply elem_of_app in Hop as [Hop|Hop];
      by apply list_elem_of_fmap in Hop as (? & -> & _). }
  assert (Hop : Forall (op_ok scope) (teardown sys layouts)).
  { apply Forall_forall. intros op Hin. pose proof (Hdel op Hin) as Hd. destruct op as [| | |o|f t p]; try done.
    - apply teardown_rule in Hin as [Ho _]. by apply (sw_rules scope sys).
    - apply teardown_route in Hin as (l & Hl & Hk). unfold observed_tables in Hk.
      rewrite elem_of_list_to_set, list_elem_of_fmap in Hk.
      destruct Hk as (o & [= -> ->] & [_ Hp]%elem_of_list_filter_bool). bool_simpl. by eapply Htables. }
  split_and!.
  - intros l p Hl. split.
    + apply empty_no_elem. intros o [Ho Hp]%elem_of_list_filter_bool. bool_simpl.
      rewrite (deletes_rules scope) in Ho by done. destruct Ho as [Ho Hno].
      specialize (Hno o). rewrite same_rule_refl in Hno. discriminate Hno. apply teardown_rule. split; [done|].
      by exists l, p.
    + pose (d := mkDiffInput l p [] Desired_default Desired_default false).
      assert (Hw' : System_wf scope (view_after scope protocol now sys (teardown sys layouts))) by by apply view_after_wf.
      assert (Ht : forall t, range_contains (tables (di_layout d)) t = true -> is_polywan scope t = true)
        by (intros t; by apply (Htables l p)).
      apply set_eq. intros [f t]. split; [|done].
      intros [Hr [r Hv]]%(observed_tables_elem_of scope _ d Hw' Ht).
      unfold view_route in Hv. destruct (sys_routes (view_after scope protocol now sys (teardown sys layouts)) !!
        planned_key f t) as [o|] eqn:Eo; simpl in Hv; [|done].
      apply (deletes_routes scope) in Eo as [Eo Hno]; [|done..]. exfalso. apply (Hno p), teardown_route.
      exists l. split; [done|]. apply (observed_tables_elem_of scope sys d Hsys Ht). split; [done|].
      exists r. unfold view_route. by rewrite Eo.
  - intros o Hnot. rewrite (deletes_rules scope) by done. split; [by intros [? _]|]. intros Ho. split; [done|].
    intros o' [Ho' (l & p & Hl & Hp & Hr)]%teardown_rule. destruct (same_rule o o') eqn:E; [|done].
    exfalso. apply Hnot. exists l, p. apply same_rule_owner in E as [-> ->]; [done|by apply (sw_rules _ _ Hsys)..].
  - intros key Hkey. apply (ops_routes_frame scope); [done..|]. intros op f t Hin Ht ->.
    pose proof (Hdel op Hin) as Hd. destruct op as [| | |o|f' t' p]; try done. injection Ht as -> ->.
    apply teardown_route in Hin as (l & Hl & Hk).
    pose (d := mkDiffInput l p [] Desired_default Desired_default false).
    apply (observed_tables_elem_of scope sys d Hsys) in Hk as [Hr [r Hv]]; [|intros ?; by apply (Htables l p)].
    simpl in Hv. by rewrite (Hkey l p f t Hl Hr eq_refl) in Hv.
Qed.

Lemma teardown_clean_witness :
  let sys := view_after (layout_scope Sample.config) 61 0 System_default
    (diff System_default (settled_input Sample.config Sample.input)) in
  length (sys_rules sys) = 23%nat /\
  observed_rules (view_after (layout_scope Sample.config) 61 0 sys
    (teardown sys [(Layout_of Sample.config, 61)])) (Layout_of Sample.config) 61 = [].
Proof.
  intros sys. split; [by vm_compute|].
  apply (teardown_clean (layout_scope Sample.config) 61 0 sys [(Layout_of Sample.config, 61)]).
  - apply view_after_wf, System_default_wf.
  - intros l p t [= -> ->]%list_elem_of_singleton. apply layout_scope_tables.
  - set_solver.
Defined.
