(* ===== verification/Discover.v ===== *)
(** * Uplink discovery

    Models crates/polywan/src/discover.rs: readiness, local addresses, source
    and next hop of every configured path, from the view of System.v.
    [Instant::now()] is an argument. *)

From stdpp Require Import prelude gmap sorting.
From Stdlib Require Import ZArith Lia.
From S2P Require Import Prelude Text Model Durations Config Health Plan Msg Netlink System.

Local Open Scope Z_scope.

Record Discovered := mkDiscovered {
  dv_ifindex : option u32;
  dv_ready : result ReadyPath Reason;
  dv_local_addresses : gset IpAddr;
  dv_gateway_missing : bool;
  dv_group_only : bool
}.

Definition usable (a : ObservedAddress) : bool :=
  address_global a && negb (address_tentative a) && negb (address_dad_failed a).

Definition static_source_elsewhere (system : System) (p : PathSettings) (ifindex : option u32) : option IpAddr :=
  match ps_source p with
  | Auto => None
  | Static s =>
      oa_address <$> find_first (fun a => bool_decide (oa_address a = s) &&
        negb (bool_decide (Some (oa_index a) = ifindex)) && usable a) (btree_values (sys_addresses system))
  end.

Definition auto_source (on_link : list ObservedAddress) : option IpAddr :=
  oa_address <$> min_by_key (fun a => (negb (address_permanent a), (address_secondary a, oa_address a)))
    (List.filter (fun a => negb (address_temporary a) && negb (address_deprecated a)) on_link).

(** [<<] on [u32] and [u128]. *)
Definition contains (net : IpAddr) (len : u8) (a : IpAddr) : bool :=
  match net, a with
  | IpV4 n, IpV4 a =>
      let mask := if len =? 0 then 0 else wrap 32 (Z.shiftl (2 ^ 32 - 1) (32 - Z.min len 32)) in
      Z.land n mask =? Z.land a mask
  | IpV6 n, IpV6 a =>
      let mask := if len =? 0 then 0 else wrap 128 (Z.shiftl (2 ^ 128 - 1) (128 - Z.min len 128)) in
      Z.land n mask =? Z.land a mask
  | _, _ => false
  end.

Definition connected (system : System) (family : Family) (ifindex : u32) (gw : IpAddr) : bool :=
  existsb (fun r =>
    match ort_destination r with
    | None => false
    | Some (net, len) =>
        existsb (fun h => (oh_ifindex h =? ifindex) && bool_decide (oh_gateway h = None)) (ort_nexthops r) &&
        contains net len gw
    end) (routes_in system family TABLE_MAIN).

Definition candidates (system : System) (own_protocol : u8) (family : Family) (table : u32) (now : Instant)
    : list ObservedRoute :=
  List.filter (fun r => ObservedRoute_is_default r && bool_decide (ort_kind r = RT_Unicast) &&
      negb (ort_protocol r =? own_protocol) && negb (ObservedRoute_expired r now))
    (routes_in system family table).

Definition all_gateways (r : ObservedRoute) (nexthops : gmap u32 NexthopMessage) (ifindex : u32)
    : list (IpAddr * bool) :=
  match ort_nexthop_id r with
  | Some id =>
      match nexthops !! id with
      | Some n =>
          if bool_decide (nh_group n = []) && negb (nh_blackhole n) && negb (nh_fdb n) && negb (nh_dead n) &&
             negb (nh_linkdown n) && bool_decide (nh_ifindex n = Some ifindex)
          then match nh_gateway n with Some g => [(g, nh_onlink n)] | None => [] end
          else []
      | None => []
      end
  | None =>
      omap (fun h => (fun g => (g, oh_onlink h)) <$> oh_gateway h)
        (List.filter (fun h => (oh_ifindex h =? ifindex) && negb (oh_dead h) && negb (oh_linkdown h))
           (ort_nexthops r))
  end.

Definition route_gateways (r : ObservedRoute) (nexthops : gmap u32 NexthopMessage) (ifindex : u32)
    : list (IpAddr * bool) :=
  List.filter (fun g => bool_decide (Family_of (fst g) = ort_family r)) (all_gateways r nexthops ifindex).

(** Metric, router preference (highest first), table order, gateway. *)
Definition Rank : Type := u32 * (i8 * (usize * IpAddr)).

#[export] Instance Rank_Cmp : Cmp Rank.
Proof. unfold Rank. apply _. Defined.
#[export] Instance Rank_CmpOrder : CmpOrder Rank.
Proof. unfold Rank, Rank_Cmp. apply _. Defined.

(** What the three nested loops of [auto_gateway] go through, in order. *)
Definition ranked_gateways (config : Config) (system : System) (own_protocol : u8) (family : Family)
    (ifindex : u32) (now : Instant) : list (Rank * (option IpAddr * bool)) :=
  concat (imap (fun order table =>
    concat ((fun r =>
      (fun g => ((ort_metric r, (- ort_preference r, (Z.of_nat order, fst g))), (Some (fst g), snd g))) <$>
        route_gateways r (sys_nexthops system) ifindex) <$>
      candidates system own_protocol family table now)) (rt_discovery_tables (cf_routing config))).

(** The accumulator [best]. *)
Definition better (best : option (Rank * (option IpAddr * bool))) (x : Rank * (option IpAddr * bool))
    : option (Rank * (option IpAddr * bool)) :=
  match best with
  | None => Some x
  | Some (k, _) => if cmp_ltb (fst x) k then Some x else best
  end.

Definition auto_gateway (config : Config) (system : System) (own_protocol : u8) (family : Family)
    (ifindex : u32) (now : Instant) : option (option IpAddr * bool) :=
  snd <$> foldl better None (ranked_gateways config system own_protocol family ifindex now).

Definition group_routes (config : Config) (system : System) (own_protocol : u8) (family : Family)
    (ifindex : u32) (now : Instant) : bool :=
  existsb (fun t =>
    existsb (fun r =>
      match ort_nexthop_id r ≫= (fun id => sys_nexthops system !! id) with
      | Some n =>
          negb (bool_decide (nh_group n = [])) &&
          (existsb (fun h => oh_ifindex h =? ifindex) (ort_nexthops r) ||
           existsb (fun m => match sys_nexthops system !! m with
                             | Some o => bool_decide (nh_ifindex o = Some ifindex)
                             | None => false
                             end) (nh_group n))
      | None => false
      end) (candidates system own_protocol family t now)) (rt_discovery_tables (cf_routing config)).

Definition discover_path (config : Config) (system : System) (own_protocol : u8) (u : Uplink)
    (family : Family) (p : PathSettings) (now : Instant) : Discovered :=
  match link_by_name system (u_interface u) with
  | None =>
      mkDiscovered None (Err R_InterfaceRemoved)
        (list_to_set (option_list (static_source_elsewhere system p None))) false false
  | Some link =>
      let ifindex := ol_index link in
      let on_link := List.filter (fun a => (oa_index a =? ifindex) && bool_decide (oa_family a = family) && usable a)
        (btree_values (sys_addresses system)) in
      let local : gset IpAddr := list_to_set ((oa_address <$> on_link) ++
        option_list (static_source_elsewhere system p (Some ifindex))) in
      let point := bool_decide (family = V4) && ol_point_to_point link in
      let automatic := bool_decide (ps_gateway p = Auto) && negb point in
      let auto_hop :=
        if automatic && ObservedLink_usable link
        then auto_gateway config system own_protocol family ifindex now else None in
      let gateway_missing := automatic && ObservedLink_usable link && bool_decide (auto_hop = None) in
      let group_only := gateway_missing && group_routes config system own_protocol family ifindex now in
      let discovered ready := mkDiscovered (Some ifindex) ready local gateway_missing group_only in
      if negb (ObservedLink_usable link) then discovered (Err R_CarrierLost) else
      let source :=
        match ps_source p with
        | Static s =>
            if existsb (fun a => bool_decide (oa_address a = s) && usable a && negb (address_deprecated a))
                 (btree_values (sys_addresses system)) then Some s else None
        | Auto => auto_source on_link
        end in
      match source with
      | None => discovered (Err R_AddressLost)
      | Some source =>
          let hop :=
            match ps_gateway p with
            | Static gw =>
                if ps_gateway_onlink p || connected system family ifindex gw
                then Some (Some gw, ps_gateway_onlink p) else None
            | Auto => if point then Some (None, false) else auto_hop
            end in
          match hop with
          | Some (gateway, onlink) => discovered (Ok (mkReadyPath ifindex gateway onlink source))
          | None => discovered (Err R_GatewayLost)
          end
      end
  end.

(** The first loop of [discover]. *)
Definition discover_uplink (config : Config) (system : System) (own_protocol : u8) (now : Instant)
    (out : gmap PathKey Discovered) (u : Uplink) : gmap PathKey Discovered :=
  foldl (fun out family =>
    match Uplink_path u family with
    | Some p => <[mkPathKey (u_id u) family := discover_path config system own_protocol u family p now]> out
    | None => out
    end) out (Uplink_families u).

Definition conflict (out : gmap PathKey Discovered) (a b : PathKey) : bool :=
  bool_decide (pk_family a = pk_family b) &&
  match out !! a, out !! b with
  | Some x, Some y => negb (bool_decide (dv_local_addresses x ## dv_local_addresses y))
  | _, _ => false
  end.

(** The second loop: every pair of keys in order. *)
Fixpoint conflicted (out : gmap PathKey Discovered) (keys : list PathKey) : gset PathKey :=
  match keys with
  | [] => ∅
  | a :: rest =>
      list_to_set (concat ((fun b => if conflict out a b then [a; b] else []) <$> rest)) ∪ conflicted out rest
  end.

Definition set_ready_error (d : Discovered) (e : Reason) : Discovered :=
  mkDiscovered (dv_ifindex d) (Err e) (dv_local_addresses d) (dv_gateway_missing d) (dv_group_only d).

Definition discover (config : Config) (system : System) (own_protocol : u8) (now : Instant)
    : gmap PathKey Discovered :=
  let out := foldl (discover_uplink config system own_protocol now) ∅ (cf_uplinks config) in
  let conflicts := conflicted out (btree_keys out) in
  map_imap (fun k d => Some (if bool_decide (k ∈ conflicts) then set_ready_error d R_AddressConflict else d)) out.

(** ** Lemmas *)

(** [contains] compares the leading [len] bits. *)
Lemma prefix_mask w len n : 0 < w -> 0 <= len -> fits w n ->
  Z.land n (if len =? 0 then 0 else wrap w (Z.shiftl (2 ^ w - 1) (w - Z.min len w))) =
    n / 2 ^ (w - Z.min len w) * 2 ^ (w - Z.min len w).
Proof.
  intros Hw Hlen [Hn Hn']. destruct (Z.eqb_spec len 0) as [->|Hz].
  { rewrite Z.land_0_r, Z.min_l, Z.sub_0_r by lia. by rewrite Z.div_small. }
  set (s := w - Z.min len w). assert (0 <= s < w) by lia.
  rewrite <- Z.shiftr_div_pow2, <- Z.shiftl_mul_pow2 by lia.
  apply Z.bits_inj'. intros i Hi. unfold wrap.
  rewrite Z.land_spec.
  destruct (Z.lt_ge_cases i w).
  - rewrite Z.mod_pow2_bits_low by lia. rewrite !Z.shiftl_spec by lia.
    destruct (Z.lt_ge_cases i s).
    + rewrite !(Z.testbit_neg_r _ (i - s)) by lia. by rewrite andb_false_r.
    + rewrite Z.shiftr_spec by lia. replace (i - s + s) with i by lia.
      replace (2 ^ w - 1) with (Z.ones w) by (rewrite Z.ones_equiv; lia).
      rewrite Z.ones_spec_low by lia. by rewrite andb_true_r.
  - rewrite Z.mod_pow2_bits_high by lia. rewrite andb_false_r, Z.shiftl_spec, Z.shiftr_spec by lia.
    replace (i - s + s) with i by lia. symmetry.
    apply (testbit_high w); [done|lia].
Qed.

Definition address_width (f : Family) : Z := match f with V4 => 32 | V6 => 128 end.
Definition address_value (a : IpAddr) : Z := match a with IpV4 n => n | IpV6 n => n end.
Definition address_fits (a : IpAddr) : Prop := fits (address_width (Family_of a)) (address_value a).

Lemma contains_spec net len a : 0 <= len -> address_fits net -> address_fits a ->
  contains net len a = true <->
  Family_of net = Family_of a /\
  let w := address_width (Family_of a) in
  address_value net / 2 ^ (w - Z.min len w) = address_value a / 2 ^ (w - Z.min len w).
Proof.
  intros Hlen Hn Ha. unfold address_fits in *.
  assert (Hm : forall w x y, 0 < w -> x * 2 ^ (w - Z.min len w) = y * 2 ^ (w - Z.min len w) <-> x = y).
  { intros w x y Hw. split; [|by intros ->]. apply Z.mul_reg_r. pose proof (Z.pow_pos_nonneg 2 (w - Z.min len w)). lia. }
  destruct net as [n|n], a as [a|a]; cbn -[Z.pow Z.shiftl Z.land Z.min Z.sub Z.div] in *;
    try (split; [done|by intros []]).
  - rewrite Z.eqb_eq, !prefix_mask, Hm by (done || lia). tauto.
  - rewrite Z.eqb_eq, !prefix_mask, Hm by (done || lia). tauto.
Qed.

Lemma better_min l : foldl better None l = min_by_key fst l.
Proof.
  destruct l as [|x l]; simpl; [done|]. revert x.
  induction l as [|y l IH]; intros [k h]; [done|]. simpl. destruct (cmp_ltb y.1 k); apply IH.
Qed.

Lemma ranked_gateways_elem_of config system own family ifindex now key hop :
  (key, hop) ∈ ranked_gateways config system own family ifindex now <->
  exists (order : nat) table r gw onlink,
    rt_discovery_tables (cf_routing config) !! order = Some table /\
    r ∈ candidates system own family table now /\
    (gw, onlink) ∈ route_gateways r (sys_nexthops system) ifindex /\
    key = (ort_metric r, (- ort_preference r, (Z.of_nat order, gw))) /\ hop = (Some gw, onlink).
Proof.
  unfold ranked_gateways. rewrite list_elem_of_In, in_concat. setoid_rewrite <- list_elem_of_In. split.
  - intros (l & (order & table & -> & Hl)%elem_of_lookup_imap & Hin).
    rewrite list_elem_of_In, in_concat in Hin. setoid_rewrite <- list_elem_of_In in Hin.
    destruct Hin as (l' & (r & -> & Hr)%list_elem_of_fmap & ([gw onlink] & [= -> ->] & Hg)%list_elem_of_fmap).
    by exists order, table, r, gw, onlink.
  - intros (order & table & r & gw & onlink & Ho & Hr & Hg & -> & ->).
    eexists. split; [apply elem_of_lookup_imap; by exists order, table|].
    rewrite list_elem_of_In, in_concat. setoid_rewrite <- list_elem_of_In.
    eexists. split; [by apply list_elem_of_fmap_2|]. apply list_elem_of_fmap. by exists (gw, onlink).
Qed.

(** The discovered state of the configured paths before conflicts. *)
Definition discovered_paths (config : Config) (system : System) (own_protocol : u8) (now : Instant)
    : gmap PathKey Discovered :=
  foldl (discover_uplink config system own_protocol now) ∅ (cf_uplinks config).

Section lookups.
Context (config : Config) (system : System) (own : u8) (now : Instant).

(** The entry [k] is the discovery of a configured path. *)
Definition path_entry (k : PathKey) (d : Discovered) : Prop :=
  exists u p, u ∈ cf_uplinks config /\ u_id u = pk_uplink k /\ Uplink_path u (pk_family k) = Some p /\
    d = discover_path config system own u (pk_family k) p now.

Lemma discover_uplink_lookup out u k :
  discover_uplink config system own now out u !! k =
    if bool_decide (u_id u = pk_uplink k)
    then match Uplink_path u (pk_family k) with
         | Some p => Some (discover_path config system own u (pk_family k) p now)
         | None => out !! k
         end
    else out !! k.
Proof.
  destruct k as [i f]. unfold discover_uplink, Uplink_families, Family_ALL. simpl.
  destruct (u_ipv4 u) as [p4|] eqn:E4, (u_ipv6 u) as [p6|] eqn:E6; simpl; rewrite ?E4, ?E6;
    case_bool_decide as E; try subst i; destruct f; simpl; rewrite ?E4, ?E6;
    repeat first [rewrite lookup_insert_eq | rewrite lookup_insert_ne by congruence]; done.
Qed.

Lemma discovered_paths_Some k d :
  discovered_paths config system own now !! k = Some d -> path_entry k d.
Proof.
  unfold discovered_paths. assert (Hd : forall k d, (∅ : gmap PathKey Discovered) !! k = Some d -> path_entry k d) by done.
  assert (Hu : forall u, u ∈ cf_uplinks config -> u ∈ cf_uplinks config) by done.
  revert Hd Hu. generalize (∅ : gmap PathKey Discovered). generalize (cf_uplinks config) at 1 3.
  intros us. induction us as [|u us IH]; intros out Hd Hu; simpl; [apply Hd|]. apply IH; [|set_solver].
  intros k' d'. rewrite discover_uplink_lookup. case_bool_decide as E; [|apply Hd].
  destruct (Uplink_path u (pk_family k')) as [p|] eqn:Ep; [|apply Hd]. intros [= <-].
  exists u, p. split_and!; [apply Hu; set_solver|done..].
Qed.

Lemma discovered_paths_is_Some u f : u ∈ cf_uplinks config -> is_Some (Uplink_path u f) ->
  is_Some (discovered_paths config system own now !! mkPathKey (u_id u) f).
Proof.
  unfold discovered_paths. generalize (∅ : gmap PathKey Discovered). intros out Hu Hp.
  assert (Hmono : forall us out, is_Some (out !! mkPathKey (u_id u) f) ->
    is_Some (foldl (discover_uplink config system own now) out us !! mkPathKey (u_id u) f)).
  { induction us as [|v us IH]; intros out' Ho; simpl; [done|]. apply IH. rewrite discover_uplink_lookup.
    case_bool_decide; [|done]. by case_match. }
  revert out. induction (cf_uplinks config) as [|v us IH]; intros out; [by apply not_elem_of_nil in Hu|].
  apply elem_of_cons in Hu as [<-|Hu]; simpl; [|by apply IH].
  apply Hmono. rewrite discover_uplink_lookup. rewrite bool_decide_eq_true_2 by done. simpl.
  destruct Hp as [p ->]. done.
Qed.

Lemma conflicted_elem_of out keys k : k ∈ conflicted out keys ->
  exists k', (exists i j, keys !! i = Some k /\ keys !! j = Some k' /\ i <> j) /\
    (conflict out k k' = true \/ conflict out k' k = true).
Proof.
  induction keys as [|a keys IH]; [set_solver|]. cbn [conflicted]. rewrite elem_of_union, elem_of_list_to_set. intros [Hk|Hk].
  - rewrite list_elem_of_In, in_concat in Hk. setoid_rewrite <- list_elem_of_In in Hk.
    destruct Hk as (l & (b & -> & [j Hj]%list_elem_of_lookup)%list_elem_of_fmap & Hk).
    destruct (conflict out a b) eqn:E; [|by apply not_elem_of_nil in Hk].
    rewrite elem_of_cons, list_elem_of_singleton in Hk. destruct Hk as [->| ->].
    + exists b. split; [|by left]. by exists 0%nat, (S j).
    + exists a. split; [|by right]. by exists (S j), 0%nat.
  - destruct (IH Hk) as (k' & (i & j & Hi & Hj & Hij) & Hc). exists k'. split; [|done].
    exists (S i), (S j). split_and!; [done..|lia].
Qed.

Lemma conflicted_pair out keys k k' : k ∈ keys -> k' ∈ keys -> k <> k' ->
  conflict out k k' = true -> conflict out k' k = true -> k ∈ conflicted out keys.
Proof.
  intros Hk Hk' Hne Hc Hc'. induction keys as [|a keys IH]; [by apply not_elem_of_nil in Hk|].
  cbn [conflicted]. rewrite elem_of_union, elem_of_list_to_set, list_elem_of_In, in_concat.
  setoid_rewrite <- list_elem_of_In.
  apply elem_of_cons in Hk as [E|Hk]; apply elem_of_cons in Hk' as [E'|Hk']; try subst a; try congruence.
  - left. exists [k; k']. split; [|set_solver]. apply list_elem_of_fmap. exists k'. by rewrite Hc.
  - left. exists [k'; k]. split; [|set_solver]. apply list_elem_of_fmap. exists k. by rewrite Hc'.
  - right. by apply IH.
Qed.

Lemma conflict_spec out a b x y : out !! a = Some x -> out !! b = Some y ->
  conflict out a b = true <->
  pk_family a = pk_family b /\ ~ (dv_local_addresses x ## dv_local_addresses y).
Proof.
  intros Ha Hb. unfold conflict. rewrite Ha, Hb.
  repeat case_bool_decide; simpl; naive_solver.
Qed.

Lemma discover_lookup k d : discover config system own now !! k = Some d <->
  exists d0, discovered_paths config system own now !! k = Some d0 /\
    d = if bool_decide (k ∈ conflicted (discovered_paths config system own now)
                             (btree_keys (discovered_paths config system own now)))
        then set_ready_error d0 R_AddressConflict else d0.
Proof.
  unfold discover. rewrite map_lookup_imap. fold (discovered_paths config system own now).
  destruct (discovered_paths config system own now !! k) as [d0|]; simpl; naive_solver.
Qed.

Lemma discover_path_not_conflict u f p :
  dv_ready (discover_path config system own u f p now) <> Err R_AddressConflict.
Proof. unfold discover_path. cbn zeta. repeat case_match; done. Qed.
End lookups.

Lemma auto_source_Some on_link s : auto_source on_link = Some s ->
  exists a, a ∈ on_link /\ oa_address a = s /\ address_temporary a = false /\ address_deprecated a = false.
Proof.
  unfold auto_source. intros (a & [Ha _]%min_by_key_Some & E)%fmap_Some. subst s.
  apply elem_of_list_filter_bool in Ha as [Ha Hb]. bool_simpl. by exists a.
Qed.

Lemma auto_gateway_Some config system own family ifindex now gw onlink :
  auto_gateway config system own family ifindex now = Some (gw, onlink) ->
  exists table r g, table ∈ rt_discovery_tables (cf_routing config) /\
    r ∈ candidates system own family table now /\
    (g, onlink) ∈ route_gateways r (sys_nexthops system) ifindex /\ gw = Some g /\ Family_of g = family.
Proof.
  unfold auto_gateway. rewrite better_min.
  intros ([key hop] & [Hin _]%min_by_key_Some & E)%fmap_Some. simpl in E. subst hop.
  apply ranked_gateways_elem_of in Hin as (o & t & r & g & l & Ht & Hr & Hg & _ & [= -> ->]).
  exists t, r, g. split_and!; [by eapply list_elem_of_lookup_2|done..|].
  apply elem_of_list_filter_bool in Hg as [_ Hg]. apply elem_of_list_filter_bool in Hr as [Hr _].
  apply elem_of_list_filter_bool in Hr as [_ Hr]. bool_simpl. simpl in *. congruence.
Qed.

(** ** Properties *)

(** A default route and one of its next hops: what makes the gateway usable
    on an interface. *)
Definition usable_hop (system : System) (r : ObservedRoute) (ifindex : u32) (g : IpAddr) (onlink : bool) : Prop :=
  match ort_nexthop_id r with
  | Some id => exists n, sys_nexthops system !! id = Some n /\
      nh_group n = [] /\ nh_blackhole n = false /\ nh_fdb n = false /\ nh_dead n = false /\ nh_linkdown n = false /\
      nh_ifindex n = Some ifindex /\ nh_gateway n = Some g /\ nh_onlink n = onlink
  | None => exists h, h ∈ ort_nexthops r /\ oh_ifindex h = ifindex /\ oh_dead h = false /\ oh_linkdown h = false /\
      oh_gateway h = Some g /\ oh_onlink h = onlink
  end.

(** A ready path: what its link, source and next hop are, in terms of the
    entries of the view. *)
Record ready_path (config : Config) (system : System) (own : u8) (now : Instant) (f : Family) (u : Uplink)
    (p : PathSettings) (link : ObservedLink) (rp : ReadyPath) : Prop := {
  rdy_link : (exists i, sys_links system !! i = Some link) /\ ol_name link = u_interface u /\
    ol_up link = true /\ ol_lower_up link = true /\ rp_ifindex rp = ol_index link;
  (* scope 0 is RT_SCOPE_UNIVERSE; bits 6, 3, 5 and 0 of the flags are
     IFA_F_TENTATIVE, IFA_F_DADFAILED, IFA_F_DEPRECATED and IFA_F_TEMPORARY *)
  rdy_source : exists i a, sys_addresses system !! i = Some a /\ oa_address a = rp_source rp /\
    oa_scope a = 0 /\ Z.testbit (oa_flags a) 6 = false /\ Z.testbit (oa_flags a) 3 = false /\
    Z.testbit (oa_flags a) 5 = false /\
    match ps_source p with
    | Static s => rp_source rp = s
    | Auto => oa_index a = ol_index link /\ oa_family a = f /\ (f = V6 -> Z.testbit (oa_flags a) 0 = false)
    end;
  rdy_gateway :
    match ps_gateway p with
    | Static gw => rp_gateway rp = Some gw /\ rp_onlink rp = ps_gateway_onlink p /\
        (ps_gateway_onlink p = true \/
         exists i r net len h, sys_routes system !! i = Some r /\ ort_family r = f /\ ort_table r = 254 /\
           ort_destination r = Some (net, len) /\ h ∈ ort_nexthops r /\ oh_ifindex h = ol_index link /\
           oh_gateway h = None /\ Family_of net = Family_of gw /\
           let w := address_width (Family_of gw) in
           forall bit, w - Z.min len w <= bit < w ->
             Z.testbit (address_value net) bit = Z.testbit (address_value gw) bit)
    | Auto =>
        (f = V4 /\ ol_point_to_point link = true /\ rp_gateway rp = None /\ rp_onlink rp = false) \/
        exists i r g, sys_routes system !! i = Some r /\ ort_family r = f /\
          ort_table r ∈ rt_discovery_tables (cf_routing config) /\
          ort_destination r = None /\ ort_kind r = RT_Unicast /\ ort_protocol r <> own /\
          (forall t, ort_expires_at r = Some t -> now < t) /\
          usable_hop system r (ol_index link) g (rp_onlink rp) /\
          rp_gateway rp = Some g /\ Family_of g = f
    end
}.

Lemma flag_bit flags n : 0 <= n -> flag_contains flags (2 ^ n) = Z.testbit flags n.
Proof.
  intros Hn. unfold flag_contains. destruct (Z.testbit flags n) eqn:E.
  - apply Z.eqb_eq, Z.bits_inj'. intros i Hi. rewrite Z.land_spec, Z.pow2_bits_eqb by done.
    destruct (Z.eqb_spec n i) as [->|]; [by rewrite E|by rewrite andb_false_r].
  - apply Z.eqb_neq. intros H. apply (f_equal (fun z => Z.testbit z n)) in H.
    by rewrite Z.land_spec, Z.pow2_bits_true, E in H by done.
Qed.

Lemma usable_bits a : usable a = true ->
  oa_scope a = 0 /\ Z.testbit (oa_flags a) 6 = false /\ Z.testbit (oa_flags a) 3 = false.
Proof.
  unfold usable, address_global, address_tentative, address_dad_failed. rewrite !andb_true_iff, !negb_true_iff, Z.eqb_eq.
  intros [[Hs H6] H3]. split_and!; [done|by rewrite <- (flag_bit _ 6)|by rewrite <- (flag_bit _ 3)].
Qed.

Lemma deprecated_bit a : address_deprecated a = Z.testbit (oa_flags a) 5.
Proof. by apply (flag_bit _ 5). Qed.

Lemma temporary_bit a : address_temporary a = false -> oa_family a = V6 -> Z.testbit (oa_flags a) 0 = false.
Proof.
  unfold address_temporary. intros H Hf. rewrite bool_decide_eq_true_2 in H by done. by rewrite <- (flag_bit _ 0).
Qed.

(** The bits that a prefix mask keeps. *)
Lemma masked_bit w len n bit : 0 <= w -> w - Z.min len w <= bit < w ->
  Z.testbit (Z.land n (if len =? 0 then 0 else wrap w (Z.shiftl (2 ^ w - 1) (w - Z.min len w)))) bit = Z.testbit n bit.
Proof.
  intros Hw Hb. destruct (Z.eqb_spec len 0) as [->|Hne]; [lia|]. rewrite Z.land_spec. unfold wrap.
  rewrite Z.mod_pow2_bits_low, Z.shiftl_spec by lia.
  replace (2 ^ w - 1) with (Z.ones w) by (rewrite Z.ones_equiv; lia).
  rewrite Z.ones_spec_low by lia. apply andb_true_r.
Qed.

Lemma contains_bits net len a : contains net len a = true ->
  Family_of net = Family_of a /\
  let w := address_width (Family_of a) in
  forall bit, w - Z.min len w <= bit < w -> Z.testbit (address_value net) bit = Z.testbit (address_value a) bit.
Proof.
  intros H. destruct net as [n|n], a as [a|a]; try done; (split; [done|]);
    cbn -[Z.pow Z.shiftl Z.land Z.min Z.sub] in *; intros bit Hbit;
    apply Z.eqb_eq in H; apply (f_equal (fun z => Z.testbit z bit)) in H; by rewrite !masked_bit in H by lia.
Qed.

Lemma connected_spec system f ifindex gw : connected system f ifindex gw = true ->
  exists i r net len h, sys_routes system !! i = Some r /\ ort_family r = f /\ ort_table r = 254 /\
    ort_destination r = Some (net, len) /\ h ∈ ort_nexthops r /\ oh_ifindex h = ifindex /\
    oh_gateway h = None /\ contains net len gw = true.
Proof.
  unfold connected. intros (r & [[i Hi]%btree_values_elem_of Hr]%elem_of_list_filter_bool & H)%existsb_elem_of.
  destruct (ort_destination r) as [[net len]|] eqn:Ed; [|done]. apply andb_true_iff in H as [H Hc].
  apply existsb_elem_of in H as (h & Hh & Hb). bool_simpl. exists i, r, net, len, h. done.
Qed.

Lemma auto_gateway_usable config system own family ifindex now gw onlink :
  auto_gateway config system own family ifindex now = Some (gw, onlink) ->
  exists i r g, sys_routes system !! i = Some r /\ ort_family r = family /\
    ort_table r ∈ rt_discovery_tables (cf_routing config) /\
    ort_destination r = None /\ ort_kind r = RT_Unicast /\ ort_protocol r <> own /\
    (forall t, ort_expires_at r = Some t -> now < t) /\
    usable_hop system r ifindex g onlink /\ gw = Some g /\ Family_of g = family.
Proof.
  intros (table & r & g & Ht & [Hr Hc]%elem_of_list_filter_bool & [Hg _]%elem_of_list_filter_bool & Hgw & Hf)%auto_gateway_Some.
  apply elem_of_list_filter_bool in Hr as [[i Hi]%btree_values_elem_of Hr]. rewrite !andb_true_iff, !negb_true_iff in Hc.
  destruct Hc as [[[Hdef Hk] Hown] Hexp]. unfold ObservedRoute_is_default in Hdef. bool_simpl.
  exists i, r, g. split_and!; try done; [congruence| |].
  - intros t Et. unfold ObservedRoute_expired in Hexp. rewrite Et in Hexp. by apply Z.leb_gt.
  - unfold usable_hop. unfold all_gateways in Hg. destruct (ort_nexthop_id r) as [id|].
    + destruct (sys_nexthops system !! id) as [n|]; [|by apply not_elem_of_nil in Hg]. case_match; [|by apply not_elem_of_nil in Hg].
      destruct (nh_gateway n) eqn:Eg; [|by apply not_elem_of_nil in Hg]. apply list_elem_of_singleton in Hg as [= -> ->].
      exists n. bool_simpl. done.
    + apply list_elem_of_omap in Hg as (h & [Hh Hb]%elem_of_list_filter_bool & Eh). exists h. bool_simpl.
      destruct (oh_gateway h); simpl in Eh; [|done]. by simplify_eq.
Qed.

(** The source of a path on a link. *)
Lemma source_ready system p link f s :
  match ps_source p with
  | Static s =>
      if existsb (fun a => bool_decide (oa_address a = s) && usable a && negb (address_deprecated a))
           (btree_values (sys_addresses system)) then Some s else None
  | Auto => auto_source (List.filter (fun a => (oa_index a =? ol_index link) && bool_decide (oa_family a = f) && usable a)
      (btree_values (sys_addresses system)))
  end = Some s ->
  exists i a, sys_addresses system !! i = Some a /\ oa_address a = s /\
    oa_scope a = 0 /\ Z.testbit (oa_flags a) 6 = false /\ Z.testbit (oa_flags a) 3 = false /\
    Z.testbit (oa_flags a) 5 = false /\
    match ps_source p with
    | Static s' => s = s'
    | Auto => oa_index a = ol_index link /\ oa_family a = f /\ (f = V6 -> Z.testbit (oa_flags a) 0 = false)
    end.
Proof.
  intros Es. destruct (ps_source p) as [|s'].
  - apply auto_source_Some in Es as (a & [[i Hi]%btree_values_elem_of Hb]%elem_of_list_filter_bool & Hs & Ht & Hd).
    rewrite !andb_true_iff in Hb. destruct Hb as [[Hx Hf] (? & ? & ?)%usable_bits]. bool_simpl.
    rewrite deprecated_bit in Hd.
    exists i, a. split_and!; try done. intros E. apply temporary_bit; congruence.
  - destruct (existsb _ _) eqn:Ex in Es; [|done].
    apply existsb_elem_of in Ex as (a & [i Hi]%btree_values_elem_of & Hb). simplify_eq.
    rewrite !andb_true_iff, negb_true_iff, deprecated_bit, bool_decide_eq_true in Hb.
    destruct Hb as [[Ha (? & ? & ?)%usable_bits] Hd]. by exists i, a.
Qed.

Lemma discover_path_ready config system own now u f p rp :
  dv_ready (discover_path config system own u f p now) = Ok rp ->
  exists link, ready_path config system own now f u p link rp /\
    dv_ifindex (discover_path config system own u f p now) = Some (ol_index link) /\
    dv_gateway_missing (discover_path config system own u f p now) = false.
Proof.
  unfold discover_path. destruct (link_by_name system (u_interface u)) as [link|] eqn:El; [|done]. cbn zeta.
  destruct (ObservedLink_usable link) eqn:Eu; [|done]. cbn [negb andb]. rewrite !andb_true_r.
  set (source := match ps_source p with Auto => _ | Static _ => _ end).
  destruct source as [s|] eqn:Es; [|done]. unfold source in Es. clear source.
  intros H. exists link.
  assert (Hl : (exists i, sys_links system !! i = Some link) /\ ol_name link = u_interface u /\
    ol_up link = true /\ ol_lower_up link = true).
  { apply find_first_Some in El as [Hi%btree_values_elem_of Hn]. unfold ObservedLink_usable in Eu. by bool_simpl. }
  apply source_ready in Es as Hs.
  destruct (ps_gateway p) as [|gw] eqn:Eg.
  - rewrite (bool_decide_eq_true_2 (Auto = Auto)) in * by done. cbn [andb] in *.
    destruct (bool_decide (f = V4) && ol_point_to_point link) eqn:Ep; cbn [negb] in *.
    + simpl in H. simplify_eq/=. bool_simpl. split_and!; [split|done..]; [naive_solver|done|]. rewrite Eg. by left.
    + destruct (auto_gateway config system own f (ol_index link) now) as [[gw onlink]|] eqn:Ea; [|done].
      simpl in H. simplify_eq/=. split_and!; [split|done..]; [naive_solver|done|]. rewrite Eg. right.
      by apply auto_gateway_usable in Ea.
  - rewrite (bool_decide_eq_false_2 (Static gw = Auto)) by done. cbn [andb].
    destruct (ps_gateway_onlink p || connected system f (ol_index link) gw) eqn:Ec; [|done].
    simpl in H. simplify_eq/=. split_and!; [split|done..]; [naive_solver|done|]. rewrite Eg.
    split_and!; [done..|]. apply orb_true_iff in Ec as [Ec|Ec]; [by left|right].
    apply connected_spec in Ec as (i & r & net & len & h & Hi & Hf & Ht & Hd & Hh & Hx & Hg & Hc%contains_bits).
    exists i, r, net, len, h. by destruct Hc.
Qed.

(** C26: A path that discovery reports ready can be used as reported: its
    interface exists, is up and has carrier; its source is an assigned global
    address that is neither tentative, duplicate nor deprecated (an automatic
    one is of the path's interface and family and not temporary); a static
    next hop is on-link or covered by a connected route of the main table, an automatic one is
    a live gateway of the path's family on the interface, from an unexpired
    foreign default route of a discovery table, or none on a point-to-point
    IPv4 link. *)
Theorem discover_ready_sound (config : Config) (system : System) (own : u8) (now : Instant)
    (k : PathKey) (d : Discovered) (rp : ReadyPath)
    (Hd : discover config system own now !! k = Some d) (Hr : dv_ready d = Ok rp) :
  exists u p link, u ∈ cf_uplinks config /\ u_id u = pk_uplink k /\ Uplink_path u (pk_family k) = Some p /\
    ready_path config system own now (pk_family k) u p link rp /\
    dv_ifindex d = Some (ol_index link) /\ dv_gateway_missing d = false.
Proof.
  apply discover_lookup in Hd as (d0 & Hd0%discovered_paths_Some & ->).
  destruct (bool_decide _); [done|]. destruct Hd0 as (u & p & Hu & Hid & Hp & ->).
  destruct (discover_path_ready _ _ _ _ _ _ _ _ Hr) as (link & Hrp & Hi & Hg). by exists u, p, link.
Qed.

(** Address conflicts are found exactly: every configured path has an
    entry; a path is refused for a conflict if and only if one of its local
    addresses is also a local address of another path of the same family. In
    particular the local addresses of two ready paths of a family are
    disjoint, so a source rule belongs to one path only. *)
Theorem discover_conflicts (config : Config) (system : System) (own : u8) (now : Instant) :
  let out := discover config system own now in
  (forall u f, u ∈ cf_uplinks config -> is_Some (Uplink_path u f) -> is_Some (out !! mkPathKey (u_id u) f)) /\
  (forall k d, out !! k = Some d ->
     (dv_ready d = Err R_AddressConflict <->
      exists k' d', out !! k' = Some d' /\ k' <> k /\ pk_family k' = pk_family k /\
        ~ (dv_local_addresses d ## dv_local_addresses d'))) /\
  (forall k k' d d' rp rp', out !! k = Some d -> out !! k' = Some d' -> k <> k' ->
     pk_family k = pk_family k' -> dv_ready d = Ok rp -> dv_ready d' = Ok rp' ->
     dv_local_addresses d ## dv_local_addresses d').
Proof.
  cbn zeta. set (paths := discovered_paths config system own now).
  assert (Hlocal : forall k d, discover config system own now !! k = Some d ->
    exists d0, paths !! k = Some d0 /\ dv_local_addresses d = dv_local_addresses d0).
  { intros k d (d0 & Hd0 & ->)%discover_lookup. exists d0. split; [done|]. by case_bool_decide. }
  assert (Hiff : forall k d, discover config system own now !! k = Some d ->
     (dv_ready d = Err R_AddressConflict <->
      exists k' d', discover config system own now !! k' = Some d' /\ k' <> k /\ pk_family k' = pk_family k /\
        ~ (dv_local_addresses d ## dv_local_addresses d'))).
  { intros k d Hd. destruct (Hlocal k d Hd) as (d0 & Hd0 & El).
    pose proof Hd as (d1 & Hd1 & E)%discover_lookup. fold paths in Hd1, E. simplify_eq.
    case_bool_decide as Hc; split; intros Hx; try done.
    - apply conflicted_elem_of in Hc as (k' & (i & j & Hi & Hj & Hij) & Hc).
      assert (Hk' : is_Some (paths !! k')) by by eapply btree_keys_elem_of, list_elem_of_lookup_2.
      destruct Hk' as [d' Hd'].
      assert (k' <> k).
      { intros ->. apply Hij. eapply NoDup_lookup; [|done..]. apply btree_keys_NoDup. }
      exists k', (if bool_decide (k' ∈ conflicted paths (btree_keys paths)) then set_ready_error d' R_AddressConflict else d').
      split; [apply discover_lookup; by exists d'|]. split; [done|].
      destruct Hc as [Hc|Hc]; (eapply conflict_spec in Hc; [|done..]); destruct Hc as [Hf Hl];
        (split; [done|]); case_bool_decide; simpl; first [done|intros Hs; by symmetry in Hs].
    - apply discovered_paths_Some in Hd0 as (u & p & _ & _ & _ & ->). by apply discover_path_not_conflict in Hx.
    - exfalso. apply Hc. destruct Hx as (k' & d' & Hd' & Hne & Hf & Hl).
      destruct (Hlocal k' d' Hd') as (d0' & Hd0' & El').
      eapply (conflicted_pair paths _ k k'); [by apply btree_keys_elem_of|by apply btree_keys_elem_of|done|..];
        (eapply conflict_spec; [done..|]); rewrite ?El, ?El' in *; by split. }
  split_and!; [| exact Hiff |].
  - intros u f Hu Hp. destruct (discovered_paths_is_Some config system own now u f Hu Hp) as [d0 Hd0].
    eexists. apply discover_lookup. by exists d0.
  - intros k k' d d' rp rp' Hd Hd' Hne Hf Hr Hr'. destruct (decide (dv_local_addresses d ## dv_local_addresses d')) as [|Hn]; [done|].
    enough (dv_ready d = Err R_AddressConflict) by congruence. apply (Hiff k d Hd). by exists k', d'.
Qed.

(** The automatic next hop is the best one: it is absent only when no
    considered default route has a usable gateway on the interface, and
    otherwise it comes from one whose (metric, negated router preference,
    position of its table, gateway) is least among all of them. *)
Theorem auto_gateway_best (config : Config) (system : System) (own : u8) (family : Family)
    (ifindex : u32) (now : Instant) :
  let tables := rt_discovery_tables (cf_routing config) in
  let offered (order : nat) (r : ObservedRoute) (gw : IpAddr) (onlink : bool) :=
    exists table, tables !! order = Some table /\ r ∈ candidates system own family table now /\
      (gw, onlink) ∈ route_gateways r (sys_nexthops system) ifindex in
  let rank (order : nat) (r : ObservedRoute) (gw : IpAddr) : Rank :=
    (ort_metric r, (- ort_preference r, (Z.of_nat order, gw))) in
  match auto_gateway config system own family ifindex now with
  | None => forall order r gw onlink, ~ offered order r gw onlink
  | Some (gateway, onlink) =>
      exists order r gw, gateway = Some gw /\ offered order r gw onlink /\
        forall order' r' gw' onlink', offered order' r' gw' onlink' ->
          cmp_leb (rank order r gw) (rank order' r' gw') = true
  end.
Proof.
  cbn zeta. unfold auto_gateway. rewrite better_min.
  destruct (min_by_key fst _) as [[key [gateway onlink]]|] eqn:E; cbn [fmap option_fmap option_map snd].
  - apply min_by_key_Some in E as [Hin Hmin].
    apply ranked_gateways_elem_of in Hin as (o & t & r & g & l & Ht & Hr & Hg & -> & [= -> ->]).
    exists o, r, g. split_and!; [done|by exists t|].
    intros o' r' g' l' (t' & Ht' & Hr' & Hg'). simpl in Hmin.
    apply (Hmin ((ort_metric r', (- ort_preference r', (Z.of_nat o', g'))), (Some g', l'))).
    apply ranked_gateways_elem_of. by exists o', t', r', g', l'.
  - apply min_by_key_None in E. intros o r g l (t & Ht & Hr & Hg).
    assert (Hin : ((ort_metric r, (- ort_preference r, (Z.of_nat o, g))), (Some g, l)) ∈
      ranked_gateways config system own family ifindex now).
    { apply ranked_gateways_elem_of. by exists o, t, r, g, l. }
    rewrite E in Hin. by apply not_elem_of_nil in Hin.
Qed.

(** ** A link with one address and two default routes *)
Module DiscoverSample.
Definition config : Config :=
  mkConfig (mkRouting 1000 1000 61 FwMask_DEFAULT Ready [254] true (from_secs 30) OnShutdown_Keep)
    (mkFirewall Managed 100 (lit "/usr/sbin/nft")) [lit "lan"] [Sample.uplink 1 3] []
    (mkNotify 0 None [] []) (mkApi [] [] None None) None [] [].
Definition route (metric : u32) (gw : Z) : ObservedRoute :=
  mkObservedRoute V4 254 16 metric None RT_Unicast None
    [mkObservedHop 5 (Some (IpV4 gw)) 1 false false false] None 0 None
    (mkRouteMessage AF_Inet 0 254 16 0 RT_Unicast 0 []).
Definition system : System :=
  mkSystem {[5 := mkObservedLink 5 (lit "wan") true true false]}
    {[(5, IpV4 3221225986) := mkObservedAddress 5 V4 (IpV4 3221225986) 24 0 0x80]}
    (<[(V4, 254, None, 200, Via_Hop 5 (Some (IpV4 3221225985))) := route 200 3221225985]>
     {[(V4, 254, None, 100, Via_Hop 5 (Some (IpV4 3221225994))) := route 100 3221225994]})
    [] ∅.
Definition ready : ReadyPath := mkReadyPath 5 (Some (IpV4 3221225994)) false (IpV4 3221225986).
End DiscoverSample.

Lemma discover_ready_sound_witness :
  exists u p link, u ∈ cf_uplinks DiscoverSample.config /\ u_id u = uid 1 /\ Uplink_path u V4 = Some p /\
    ready_path DiscoverSample.config DiscoverSample.system 61 0 V4 u p link DiscoverSample.ready.
Proof.
  destruct (discover_ready_sound DiscoverSample.config DiscoverSample.system 61 0 (mkPathKey (uid 1) V4)
    (mkDiscovered (Some 5) (Ok DiscoverSample.ready) {[IpV4 3221225986]} false false) DiscoverSample.ready)
    as (u & p & link & Hu & Hid & Hp & Hr & _); [by vm_compute|by vm_compute|].
  exists u, p, link. split_and!; [exact Hu|exact Hid|exact Hp|exact Hr].
Defined.
