(* ===== verification/Observer.v ===== *)
(** * The observer: full dumps, resynchronisation and re-reads

    Models crates/polywan/src/observer.rs.  The [Dumper] trait is a class:
    the kernel's dumps and the sockets are a parameter of the model, and so
    is the clock.  A dump beyond the deadline is [None].  What is proved
    relies on the laws of [DumperLaws] only: a dump holds messages of the
    kind that was asked for. *)

From stdpp Require Import prelude gmap sorting.
From Stdlib Require Import ZArith Lia.
From S2P Require Import Prelude Text Model Durations Config Plan Msg Netlink System.

Local Open Scope Z_scope.

(** ** Dumps *)

(** The requests that [link_dump], [Message::GetNexthops], [address_dump],
    [rule_dump] and [route_dump] build. *)
Inductive Filter :=
  | LinkDump
  | NexthopDump
  | AddressDump (f : Family)
  | RuleDump (f : Family)
  | RouteDump (f : Family) (table : option u32).

#[export] Instance Filter_eq_dec : EqDecision Filter.
Proof. solve_decision. Defined.

Record Dump := mkDump { dp_messages : list Message; dp_interrupted : bool }.

Definition Dump_routing (d : Dump) : list RouteNetlinkMessage :=
  omap (fun m => match m with Message_Route r => Some r | _ => None end) (dp_messages d).

Definition KernelError_transport (e : str) : KernelError :=
  mkKernelError 5 (Some (lit "netlink transport failure: " ++ e)).

(** [Instant::now] and the trait [Dumper], over the state [W] of the world. *)
Class Clock (W : Type) := { clock_now : W -> Instant * W }.
#[global] Hint Mode Clock ! : typeclass_instances.
Class Dumper (D W : Type) := {
  dumper_dump : D -> Filter -> W -> option (result Dump KernelError) * W;
  dumper_fresh : D -> W -> result D str * W
}.
#[global] Hint Mode Dumper ! ! : typeclass_instances.

Definition INTERRUPTED_RETRIES : nat := 5.
Definition DUMP_DEADLINE : Duration := from_secs 5.
Definition DEADLINE_RETRIES : nat := 3.

(** Computations that read dumps and can fail. *)
Definition io (W A : Type) : Type := W -> result A KernelError * W.
Definition io_ret {W A} (a : A) : io W A := fun w => (Ok a, w).
Definition io_bind {W A B} (m : io W A) (k : A -> io W B) : io W B := fun w =>
  match m w with
  | (Ok a, w') => k a w'
  | (Err e, w') => (Err e, w')
  end.
Notation "x '←?' m ; k" := (io_bind m (fun x => k))
  (at level 20, m at level 100, k at level 200, right associativity) : polywan_scope.
Local Open Scope polywan_scope.

Record View := mkView { vw_system : System; vw_interrupted : bool }.

Section observer.
Context {D W : Type} `{Clock W, Dumper D W}.

(** The loop of [bounded] over fresh sockets. *)
Fixpoint bounded_fresh (n : nat) (c : D) (filter : Filter) : io W Dump := fun w =>
  match n with
  | O => (Err (KernelError_transport (lit "dump not completed within " ++
             to_decimal (Z.of_nat DEADLINE_RETRIES + 1) ++ lit " attempts")), w)
  | S n =>
      match dumper_fresh c w with
      | (Err e, w) => (Err (KernelError_transport e), w)
      | (Ok fresh, w) =>
          match dumper_dump fresh filter w with
          | (Some r, w) => (r, w)
          | (None, w) => bounded_fresh n c filter w
          end
      end
  end.

Definition bounded (c : D) (filter : Filter) : io W Dump := fun w =>
  match dumper_dump c filter w with
  | (Some r, w) => (r, w)
  | (None, w) => bounded_fresh DEADLINE_RETRIES c filter w
  end.

Fixpoint dump_retry (n : nat) (c : D) (filter : Filter) (last : Dump) : io W Dump :=
  match n with
  | O => io_ret last
  | S n =>
      if negb (dp_interrupted last) then io_ret last else
      last ←? bounded c filter; dump_retry n c filter last
  end.

Definition dump (c : D) (filter : Filter) : io W Dump :=
  last ←? bounded c filter; dump_retry INTERRUPTED_RETRIES c filter last.

(** Applying messages in order, with a clock reading each. *)
Fixpoint apply_messages (scope : Scope) (sys : System) (ms : list Message) : io W System := fun w =>
  match ms with
  | [] => (Ok sys, w)
  | m :: ms => let '(now, w) := clock_now w in apply_messages scope (fst (apply_message sys scope now m)) ms w
  end.

Fixpoint full_loop (c : D) (scope : Scope) (filters : list Filter) (v : View) : io W View :=
  match filters with
  | [] => io_ret v
  | filter :: filters =>
      d ←? dump c filter;
      sys ←? apply_messages scope (vw_system v) (dp_messages d);
      full_loop c scope filters (mkView sys (vw_interrupted v || dp_interrupted d))
  end.

Definition full_filters : list Filter :=
  [LinkDump; NexthopDump] ++ concat ((fun f => [AddressDump f; RuleDump f; RouteDump f None]) <$> Family_ALL).

Definition full (c : D) (scope : Scope) : io W View :=
  full_loop c scope full_filters (mkView System_default false).

Definition is_new_route (m : RouteNetlinkMessage) : bool := match m with NewRoute _ => true | _ => false end.

(** The first loop of [resync]: tables with routes that the dump lacks. *)
Fixpoint confirm_tables (c : D) (scope : Scope) (tables : list (Family * u32)) (new : System) : io W System :=
  match tables with
  | [] => io_ret new
  | (f, t) :: tables =>
      d ←? dump c (RouteDump f (Some t));
      new ←? apply_messages scope new (Message_Route <$> List.filter is_new_route (Dump_routing d));
      confirm_tables c scope tables new
  end.

Fixpoint confirm_rules (c : D) (scope : Scope) (families : list Family) (new : System) : io W System :=
  match families with
  | [] => io_ret new
  | f :: families =>
      d ←? dump c (RuleDump f);
      new ←? apply_messages scope new (Message_Route <$> Dump_routing d);
      confirm_rules c scope families new
  end.

Fixpoint confirm_addresses (c : D) (scope : Scope) (families : list Family) (v : View) : io W View :=
  match families with
  | [] => io_ret v
  | f :: families =>
      d ←? dump c (AddressDump f);
      new ←? apply_messages scope (vw_system v) (Message_Route <$> Dump_routing d);
      confirm_addresses c scope families (mkView new (vw_interrupted v || dp_interrupted d))
  end.

Definition missing_tables (old new : System) : list (Family * u32) :=
  bset_iter (list_to_set ((fun k : RouteKey => let '(f, t, _, _, _) := k in (f, t)) <$>
    List.filter (fun k => bool_decide (sys_routes new !! k = None)) (btree_keys (sys_routes old)))).

Definition rules_missing (old new : System) : bool :=
  existsb (fun o => negb (existsb (fun n => bool_decide (or_message n = or_message o)) (sys_rules new)))
    (sys_rules old).

Definition nexthops_missing (old new : System) : bool :=
  existsb (fun id => bool_decide (sys_nexthops new !! id = None)) (btree_keys (sys_nexthops old)).

Definition addresses_missing (old new : System) : bool :=
  existsb (fun k => bool_decide (sys_addresses new !! k = None)) (btree_keys (sys_addresses old)).

(** The expiries, with one clock reading. *)
Definition keep_expiries_now (new old : System) : io W System := fun w =>
  let '(now, w) := clock_now w in (Ok (keep_expiries new now old), w).

Definition resync (c : D) (scope : Scope) (old : System) : io W View :=
  v ←? full c scope;
  new ←? confirm_tables c scope (missing_tables old (vw_system v)) (vw_system v);
  new ←? (if rules_missing old new then confirm_rules c scope Family_ALL new else io_ret new);
  v ←? (if nexthops_missing old new then
          d ←? dump c NexthopDump;
          new ←? apply_messages scope new (dp_messages d);
          io_ret (mkView new (vw_interrupted v || dp_interrupted d))
        else io_ret (mkView new (vw_interrupted v)));
  v ←? (if addresses_missing old (vw_system v) then confirm_addresses c scope Family_ALL v else io_ret v);
  new ←? keep_expiries_now (vw_system v) old;
  io_ret (mkView new (vw_interrupted v)).

(** [replace_table] with one clock reading. *)
Definition replace_table_now (sys : System) (scope : Scope) (f : Family) (t : u32)
    (dump : list RouteNetlinkMessage) : io W System := fun w =>
  let '(now, w) := clock_now w in (Ok (replace_table sys scope now f t dump), w).

(** Whether a route of the view in the table is not among the messages. *)
Definition table_missing (system seen : System) (f : Family) (t : u32) : bool :=
  existsb (fun k => in_table f t k && bool_decide (sys_routes seen !! k = None)) (btree_keys (sys_routes system)).

(** The reads of one table: its messages, read a second time when a route
    of the view is missing from the first read. *)
Definition reread_messages (c : D) (scope : Scope) (system : System) (f : Family) (t : u32)
    : io W (list RouteNetlinkMessage) :=
  d ←? dump c (RouteDump f (Some t));
  seen ←? replace_table_now System_default scope f t (Dump_routing d);
  if table_missing system seen f t then
    d' ←? dump c (RouteDump f (Some t)); io_ret (Dump_routing d ++ Dump_routing d')
  else io_ret (Dump_routing d).

(** The view is updated in place: the tables before a failure stay replaced. *)
Fixpoint reread (c : D) (scope : Scope) (system : System) (tables : list (Family * u32)) (w : W)
    : System * result unit KernelError * W :=
  match tables with
  | [] => (system, Ok tt, w)
  | (f, t) :: tables =>
      match reread_messages c scope system f t w with
      | (Err e, w) => (system, Err e, w)
      | (Ok messages, w) =>
          let '(now, w) := clock_now w in
          reread c scope (replace_table system scope now f t messages) tables w
      end
  end.
End observer.

(** ** What the kernel's dumps promise *)

(** The messages a dump can hold, by its filter. *)
Definition answers (filter : Filter) (m : Message) : Prop :=
  match filter, m with
  | LinkDump, Message_Route (NewLink _) => True
  | NexthopDump, Message_NewNexthop _ => True
  | AddressDump _, Message_Route (NewAddress _) => True
  | RuleDump _, Message_Route (NewRule _) => True
  | RouteDump _ _, Message_Route (NewRoute _) => True
  | _, _ => False
  end.

(** The completed dumps so far, oldest first. *)
Class Traced (W : Type) := { trace : W -> list (Filter * Dump) }.
#[global] Hint Mode Traced ! : typeclass_instances.
Class DumperLaws (D W : Type) `{Clock W, Traced W, Dumper D W} := {
  trace_now : forall w : W, trace (snd (clock_now w)) = trace w;
  trace_fresh : forall (c : D) (w : W), trace (snd (dumper_fresh c w)) = trace w;
  trace_dump : forall (c : D) filter (w : W),
    match dumper_dump c filter w with
    | (Some (Ok d), w') => trace w' = trace w ++ [(filter, d)] /\ Forall (answers filter) (dp_messages d)
    | (_, w') => trace w' = trace w
    end
}.
#[global] Hint Mode DumperLaws ! ! - - - : typeclass_instances.

(** ** The entry a message names *)

(** Entries of the view. *)
Inductive Entry :=
  | E_Link (index : u32)
  | E_Address (k : u32 * IpAddr)
  | E_Route (k : RouteKey)
  | E_Rule (r : ObservedRule)
  | E_Nexthop (id : u32).

Definition names (scope : Scope) (m : Message) : option Entry :=
  match m with
  | Message_Route (NewLink l) => E_Link ∘ ol_index <$> ObservedLink_parse l
  | Message_Route (NewAddress a) => (fun o => E_Address (oa_index o, oa_address o)) <$> ObservedAddress_parse a
  | Message_Route (NewRoute r) =>
      o ← ObservedRoute_parse 0 r; if scope_keeps scope o then Some (E_Route (route_key scope o)) else None
  | Message_Route (NewRule r) => E_Rule <$> ObservedRule_parse r
  | Message_NewNexthop n => Some (E_Nexthop (nh_id n))
  | _ => None
  end.

Definition present (sys : System) (e : Entry) : Prop :=
  match e with
  | E_Link i => is_Some (sys_links sys !! i)
  | E_Address k => is_Some (sys_addresses sys !! k)
  | E_Route k => is_Some (sys_routes sys !! k)
  | E_Rule r => exists o, o ∈ sys_rules sys /\ same_rule o r = true
  | E_Nexthop id => is_Some (sys_nexthops sys !! id)
  end.

(** The dump that confirms the absence of an entry of the old view: of the
    entry's own family, and table. *)
Definition confirming (filter : Filter) (e : Entry) : Prop :=
  match e with
  | E_Link _ => False
  | E_Address (_, a) => filter = AddressDump (Family_of a)
  | E_Route (f, t, _, _, _) => filter = RouteDump f (Some t)
  | E_Rule r => filter = RuleDump (or_family r)
  | E_Nexthop _ => filter = NexthopDump
  end.

(** Everything the given dumps name is in the view. *)
Definition holds (scope : Scope) (sys : System) (used : list (Filter * Dump)) : Prop :=
  forall e m x, e ∈ used -> m ∈ dp_messages (snd e) -> names scope m = Some x -> present sys x.

(** Parsing a route message depends on the clock in the expiry only. *)
Lemma ObservedRoute_parse_clock now now' m o : ObservedRoute_parse now m = Some o ->
  exists t, ObservedRoute_parse now' m = Some (with_expiry o t).
Proof.
  unfold ObservedRoute_parse. destruct (family (rtm_address_family m)) as [f|]; simpl; [|done].
  assert (Hs : forall l s s', (exists t, s' = mkRouteScan (rs_table s) (rs_metric s) (rs_dst s) (rs_source s)
      (rs_gateway s) (rs_oif s) (rs_nh_id s) (rs_multipath s) (rs_preference s) t) ->
    let r := foldl (scan_route_attribute now) s l in
    exists t, foldl (scan_route_attribute now') s' l = mkRouteScan (rs_table r) (rs_metric r) (rs_dst r)
      (rs_source r) (rs_gateway r) (rs_oif r) (rs_nh_id r) (rs_multipath r) (rs_preference r) t).
  { induction l as [|a l IH]; intros s s' [t ->]; [by exists t|]. simpl. apply IH.
    destruct s, a; simpl; eauto. }
  destruct (Hs (rtm_attributes m) (mkRouteScan (rtm_table m) 0 None None None None None None 0 None)
    (mkRouteScan (rtm_table m) 0 None None None None None None 0 None)) as [t ->]; [by exists None|].
  intros [= <-]. by exists t.
Qed.

Lemma same_rule_sym a b : same_rule a b = same_rule b a.
Proof.
  unfold same_rule. rewrite (orb_comm (or_foreign_selectors a)). destruct (_ || _).
  - by apply bool_decide_ext.
  - rewrite !(Z.eqb_sym (or_priority a)), !(Z.eqb_sym (or_protocol a)).
    repeat f_equal; by apply bool_decide_ext.
Qed.

Lemma same_rule_trans a b c :
  ObservedRule_parse (or_message a) = Some a -> ObservedRule_parse (or_message b) = Some b ->
  ObservedRule_parse (or_message c) = Some c ->
  same_rule a b = true -> same_rule b c = true -> same_rule a c = true.
Proof.
  intros Ha Hb Hc Hab Hbc. unfold same_rule in *.
  destruct (or_foreign_selectors a) eqn:Fa, (or_foreign_selectors b) eqn:Fb, (or_foreign_selectors c) eqn:Fc;
    simpl in *; bool_simpl; try (apply bool_decide_eq_true); try congruence.
  repeat (apply andb_true_iff; split); try apply bool_decide_eq_true; try apply Z.eqb_eq; congruence.
Qed.

Section apply.
Context (scope : Scope).

(** A message of a dump keeps every entry of the view and adds its own. *)
Lemma apply_present sys now f m x : System_wf scope sys -> answers f m ->
  (present sys x -> (match x with E_Rule r => ObservedRule_parse (or_message r) = Some r | _ => True end) ->
   present (fst (apply_message sys scope now m)) x) /\
  (names scope m = Some x -> present (fst (apply_message sys scope now m)) x).
Proof.
  intros Hs Ha. destruct m as [[l|l|a|a|r|r|r|r|]|n|n|]; simpl in *; try by destruct f.
  - destruct (ObservedLink_parse l) as [o|]; simpl; [|done]. split.
    + destruct x; simpl; try done. intros [? ?] _. rewrite lookup_insert. by case_decide.
    + intros [= <-]. simpl. by rewrite lookup_insert_eq.
  - destruct (ObservedAddress_parse a) as [o|]; simpl; [|done]. case_decide as Hd; simpl; split.
    + done.
    + intros [= <-]. simpl. by rewrite Hd.
    + destruct x; simpl; try done. intros [? ?] _. rewrite lookup_insert. by case_decide.
    + intros [= <-]. simpl. by rewrite lookup_insert_eq.
  - destruct (ObservedRoute_parse now r) as [o|] eqn:Eo.
    + destruct (ObservedRoute_parse_clock now 0 r o Eo) as [t Ho]. rewrite Ho. simpl.
      rewrite with_expiry_keeps, with_expiry_key. unfold apply_route.
      destruct (scope_keeps scope o); simpl; [|done]. split.
      * destruct x; simpl; try done. intros [? ?] _. rewrite lookup_insert. by case_decide.
      * intros [= <-]. simpl. by rewrite lookup_insert_eq.
    + destruct (ObservedRoute_parse 0 r) as [o|] eqn:Eo'; simpl; [|done].
      by destruct (ObservedRoute_parse_clock 0 now r o Eo') as [t ?]; simplify_eq.
  - destruct (ObservedRule_parse r) as [o|] eqn:Eo; simpl; [|done]. split.
    + destruct x as [| | |r'|]; simpl; try done. intros (o' & Ho' & Hsame) Hr'.
      destruct (same_rule o' o) eqn:Eso; [exists o|exists o'].
      * split; [set_solver|]. apply same_rule_trans with o'; try done;
          [by rewrite (ObservedRule_parse_message _ _ Eo)|by apply Hs|by rewrite same_rule_sym].
      * split; [|done]. rewrite elem_of_app, drop_rule_elem_of. by left.
    + intros [= <-]. exists o. split; [set_solver|apply same_rule_refl].
  - split; [destruct x; simpl; try done; intros [? ?] _; rewrite lookup_insert; by case_decide|].
    intros [= <-]. simpl. by rewrite lookup_insert_eq.
Qed.
End apply.

(** ** Reading dumps *)

Lemma io_bind_Ok {W A B} (m : io W A) (k : A -> io W B) w b w' :
  io_bind m k w = (Ok b, w') -> exists a w1, m w = (Ok a, w1) /\ k a w1 = (Ok b, w').
Proof. unfold io_bind. destruct (m w) as [[a|e] w1]; naive_solver. Qed.

Section laws.
Context {D W : Type} `{DumperLaws D W}.
Context (c : D) (scope : Scope).
Implicit Types w : W.

(** From [w] to [w'] the dumps in [used] were read and used; a dump that was
    read and not used was interrupted (and read again). *)
Definition reads (w : W) (used : list (Filter * Dump)) (w' : W) : Prop :=
  exists log, trace w' = trace w ++ log /\ (forall e, e ∈ used -> e ∈ log) /\
    (forall e, e ∈ log -> dp_interrupted (snd e) = false -> e ∈ used).

Lemma reads_nil w w' : trace w' = trace w -> reads w [] w'.
Proof. intros E. exists []. by rewrite app_nil_r. Qed.

Lemma reads_app w1 w2 w3 u v : reads w1 u w2 -> reads w2 v w3 -> reads w1 (u ++ v) w3.
Proof.
  intros (l & E & Hu & Hl) (l' & E' & Hv & Hl'). exists (l ++ l').
  rewrite E', E, app_assoc. split; [done|]. split; intros e; rewrite !elem_of_app; naive_solver.
Qed.

Lemma bounded_fresh_reads n filter w r w' : bounded_fresh n c filter w = (r, w') ->
  match r with
  | Ok d => trace w' = trace w ++ [(filter, d)] /\ Forall (answers filter) (dp_messages d)
  | Err _ => trace w' = trace w
  end.
Proof.
  revert w. induction n as [|n IH]; intros w; simpl; [by intros [= <- <-]|].
  pose proof (trace_fresh c w) as Hf. destruct (dumper_fresh c w) as [[fresh|e] w1]; simpl in Hf;
    [|by intros [= <- <-]].
  pose proof (trace_dump fresh filter w1) as Hd. rewrite Hf in Hd.
  destruct (dumper_dump fresh filter w1) as [[[d|e]|] w2]; [by intros [= <- <-]..|].
  intros Hb%IH. by rewrite Hd in Hb.
Qed.

Lemma bounded_reads filter w r w' : bounded c filter w = (r, w') ->
  match r with
  | Ok d => trace w' = trace w ++ [(filter, d)] /\ Forall (answers filter) (dp_messages d)
  | Err _ => trace w' = trace w
  end.
Proof.
  unfold bounded. pose proof (trace_dump c filter w) as Hd.
  destruct (dumper_dump c filter w) as [[[d|e]|] w1]; [by intros [= <- <-]..|].
  intros Hb%bounded_fresh_reads. by rewrite Hd in Hb.
Qed.

Lemma dump_retry_reads n filter last w d w' : Forall (answers filter) (dp_messages last) ->
  dump_retry n c filter last w = (Ok d, w') ->
  exists log, trace w' = trace w ++ log /\ (d = last \/ (filter, d) ∈ log) /\
    Forall (fun e => fst e = filter /\ (dp_interrupted (snd e) = false -> snd e = d)) ((filter, last) :: log) /\
    Forall (answers filter) (dp_messages d) /\
    (length log <= n)%nat /\ (dp_interrupted d = true -> length log = n).
Proof.
  revert last w. induction n as [|n IH]; intros last w Ha; simpl.
  { intros [= <- <-]. exists []. rewrite app_nil_r. split_and!; auto. }
  destruct (dp_interrupted last) eqn:Ei; simpl.
  - intros (last' & w1 & Hb & Hr)%io_bind_Ok. apply bounded_reads in Hb as [Hb Ha'].
    destruct (IH last' w1 Ha' Hr) as (log & Hlog & Hd & Hall & Had & Hn & Hi).
    exists ((filter, last') :: log). rewrite Hlog, Hb, <- app_assoc. split_and!; try done.
    + right. destruct Hd as [->|Hd]; set_solver.
    + constructor; [|done]. split; [done|]. simpl. congruence.
    + simpl. lia.
    + intros E%Hi. simpl. lia.
  - intros [= <- <-]. exists []. rewrite app_nil_r. split_and!; try done; [by left|by repeat constructor|simpl; lia|congruence].
Qed.

(** A dump that returns was read within [INTERRUPTED_RETRIES + 1] attempts
    and is flagged as interrupted only when every attempt was. *)
Lemma dump_reads filter w d w' : dump c filter w = (Ok d, w') ->
  reads w [(filter, d)] w' /\ Forall (answers filter) (dp_messages d).
Proof.
  intros (last & w1 & Hb & Hr)%io_bind_Ok. apply bounded_reads in Hb as [Hb Ha].
  destruct (dump_retry_reads _ _ _ _ _ _ Ha Hr) as (log & Hlog & Hd & Hall & Had & _).
  split; [|done]. exists ((filter, last) :: log). rewrite Hlog, Hb, <- app_assoc. split_and!; [done| |].
  - intros e ->%list_elem_of_singleton. destruct Hd as [->|Hd]; set_solver.
  - rewrite Forall_forall in Hall. intros [f e] He Hi. apply Hall in He as [E1 E2]. simpl in *.
    rewrite E1, E2 by done. set_solver.
Qed.

(** ** Views along a computation *)

Definition entry_ok (x : Entry) : Prop :=
  match x with E_Rule r => ObservedRule_parse (or_message r) = Some r | _ => True end.

Definition extends (sys sys' : System) : Prop :=
  forall x, entry_ok x -> present sys x -> present sys' x.

Lemma names_ok m x : names scope m = Some x -> entry_ok x.
Proof.
  destruct m as [[]| | |]; simpl; try done; intros E.
  - apply fmap_Some in E as (o & _ & ->). done.
  - apply fmap_Some in E as (o & _ & ->). done.
  - apply bind_Some in E as (o & _ & E). destruct (scope_keeps scope o); [|done]. by simplify_eq.
  - apply fmap_Some in E as (o & Ho & ->). simpl. by rewrite (ObservedRule_parse_message _ _ Ho).
  - by simplify_eq.
Qed.

Lemma apply_messages_spec f sys ms w r w' : System_wf scope sys -> Forall (answers f) ms ->
  apply_messages scope sys ms w = (r, w') ->
  exists sys', r = Ok sys' /\ trace w' = trace w /\ System_wf scope sys' /\ extends sys sys' /\
    (forall m x, m ∈ ms -> names scope m = Some x -> present sys' x).
Proof.
  revert sys w. induction ms as [|m ms IH]; intros sys w Hs Ha; simpl.
  { intros [= <- <-]. exists sys. split_and!; try done; [by intros x|]. intros m x Hm. by apply not_elem_of_nil in Hm. }
  apply Forall_cons in Ha as [Ha Has]. pose proof (trace_now (D:=D) w) as Hn. destruct (clock_now w) as [now w1].
  simpl in Hn. intros Hr. pose proof (fun x => apply_present scope sys now f m x Hs Ha) as Hp.
  destruct (IH _ _ (apply_message_wf _ _ now m Hs) Has Hr) as (sys' & -> & Ht & Hw & He & Hm).
  exists sys'. split_and!; [done|congruence|done| |].
  - intros x Hx Hpx. apply He; [done|]. by apply (proj1 (Hp x)).
  - intros m' x [->|Hm']%elem_of_cons Hx; [|by eapply Hm]. apply He; [by eapply names_ok|]. by apply (proj2 (Hp x)).
Qed.

(** The state of a computation that started at [w0]. *)
Definition good (w0 : W) (used : list (Filter * Dump)) (sys : System) (w : W) : Prop :=
  System_wf scope sys /\ holds scope sys used /\ reads w0 used w.

(** Reading a dump and applying its messages. *)
Lemma good_absorb w0 used sys filter d ms w w1 r w' : good w0 used sys w ->
  dump c filter w = (Ok d, w1) ->
  (forall m, m ∈ ms -> m ∈ dp_messages d) ->
  (forall m x, m ∈ dp_messages d -> names scope m = Some x -> m ∈ ms) ->
  apply_messages scope sys ms w1 = (r, w') ->
  exists sys', r = Ok sys' /\ good w0 (used ++ [(filter, d)]) sys' w' /\ extends sys sys'.
Proof.
  intros (Hs & Hh & Hr) [Hd Ha]%dump_reads Hsub Hall Hap.
  assert (Has : Forall (answers filter) ms).
  { apply Forall_forall. intros m Hm. rewrite Forall_forall in Ha. by apply Ha, Hsub. }
  destruct (apply_messages_spec filter sys ms w1 r w' Hs Has Hap) as (sys' & -> & Ht & Hw & He & Hm).
  exists sys'. split_and!; [done| |done]. split_and!; [done| |].
  - intros e m x [Hin|Hin%list_elem_of_singleton]%elem_of_app Hmm Hx.
    + apply He; [by eapply names_ok|by eapply Hh].
    + subst e. eapply Hm; [|done]. by eapply Hall.
  - eapply reads_app; [done|]. destruct Hd as (log & E & Hd). exists log. by rewrite Ht.
Qed.

Lemma routing_messages filter d m x : Forall (answers filter) (dp_messages d) -> filter <> NexthopDump ->
  m ∈ dp_messages d -> names scope m = Some x -> m ∈ Message_Route <$> Dump_routing d.
Proof.
  intros Ha Hf Hm Hx. rewrite Forall_forall in Ha. apply Ha in Hm as Hans.
  destruct m as [r|n|n|]; [|by destruct filter..].
  apply list_elem_of_fmap. exists r. split; [done|]. apply list_elem_of_omap. by exists (Message_Route r).
Qed.

Lemma routing_sub d m : m ∈ Message_Route <$> Dump_routing d -> m ∈ dp_messages d.
Proof.
  intros (r & -> & (m' & Hm & E)%list_elem_of_omap)%list_elem_of_fmap. destruct m'; by simplify_eq.
Qed.

Lemma extends_refl sys : extends sys sys.
Proof. by intros x. Qed.
Lemma extends_trans a b d : extends a b -> extends b d -> extends a d.
Proof. intros Hab Hbd x Hx Hp. by apply Hbd, Hab. Qed.

(** The loops: what they read is used, and they only add to the view. *)
Lemma full_loop_good w0 filters used v w v' w' : good w0 used (vw_system v) w ->
  full_loop c scope filters v w = (Ok v', w') ->
  exists read, fst <$> read = filters /\ good w0 (used ++ read) (vw_system v') w' /\
    extends (vw_system v) (vw_system v').
Proof.
  revert used v w. induction filters as [|f fs IH]; intros used v w Hg.
  { intros [= <- <-]. exists []. rewrite app_nil_r. split_and!; [done..|apply extends_refl]. }
  intros (d & w1 & Hd & (sys & w2 & Ha & Hl)%io_bind_Ok)%io_bind_Ok.
  destruct (good_absorb w0 used (vw_system v) f d (dp_messages d) w w1 (Ok sys) w2)
    as (sys' & [= <-] & Hg' & He); try done.
  destruct (IH _ (mkView sys (vw_interrupted v || dp_interrupted d)) _ Hg' Hl) as (read & Hr & Hg'' & He').
  exists ((f, d) :: read). rewrite <- app_assoc in Hg''. split_and!; [by rewrite fmap_cons, Hr|done|by eapply extends_trans].
Qed.

(** The step of the confirming loops, whose messages are [ms]. *)
Lemma absorb_routing w0 used sys filter d ms w w1 sys1 w2 : good w0 used sys w -> filter <> NexthopDump ->
  dump c filter w = (Ok d, w1) ->
  apply_messages scope sys ms w1 = (Ok sys1, w2) ->
  ms = Message_Route <$> Dump_routing d ->
  good w0 (used ++ [(filter, d)]) sys1 w2 /\ extends sys sys1.
Proof.
  intros Hg Hf Hd Ha ->. pose proof (proj2 (dump_reads _ _ _ _ Hd)) as Hans.
  destruct (good_absorb w0 used sys filter d _ w w1 (Ok sys1) w2 Hg Hd (routing_sub d)
    (fun m x => routing_messages filter d m x Hans Hf) Ha) as (sys2 & E & Hg' & He). by simplify_eq.
Qed.

Lemma new_routes_all f t d : Forall (answers (RouteDump f t)) (dp_messages d) ->
  List.filter is_new_route (Dump_routing d) = Dump_routing d.
Proof.
  intros Ha. apply filter_all. intros r (m & Hm & E)%list_elem_of_omap. rewrite Forall_forall in Ha.
  apply Ha in Hm. destruct m as [[]| | |]; simplify_eq/=; done.
Qed.

Lemma confirm_tables_good w0 tables used sys w sys' w' : good w0 used sys w ->
  confirm_tables c scope tables sys w = (Ok sys', w') ->
  exists read, fst <$> read = (fun k => RouteDump (fst k) (Some (snd k))) <$> tables /\
    good w0 (used ++ read) sys' w' /\ extends sys sys'.
Proof.
  revert used sys w. induction tables as [|[f t] ts IH]; intros used sys w Hg.
  { intros [= <- <-]. exists []. rewrite app_nil_r. split_and!; [done..|apply extends_refl]. }
  intros (d & w1 & Hd & (sys1 & w2 & Ha & Hl)%io_bind_Ok)%io_bind_Ok.
  rewrite (new_routes_all f (Some t)) in Ha by apply (dump_reads _ _ _ _ Hd).
  destruct (absorb_routing w0 used sys (RouteDump f (Some t)) d _ w w1 sys1 w2 Hg ltac:(done) Hd Ha eq_refl) as [Hg' He].
  destruct (IH _ _ _ Hg' Hl) as (read & Hr & Hg'' & He').
  exists ((RouteDump f (Some t), d) :: read). rewrite <- app_assoc in Hg''.
  split_and!; [by rewrite fmap_cons, Hr|done|by eapply extends_trans].
Qed.

Lemma confirm_rules_good w0 fs used sys w sys' w' : good w0 used sys w ->
  confirm_rules c scope fs sys w = (Ok sys', w') ->
  exists read, fst <$> read = RuleDump <$> fs /\ good w0 (used ++ read) sys' w' /\ extends sys sys'.
Proof.
  revert used sys w. induction fs as [|f fs IH]; intros used sys w Hg.
  { intros [= <- <-]. exists []. rewrite app_nil_r. split_and!; [done..|apply extends_refl]. }
  intros (d & w1 & Hd & (sys1 & w2 & Ha & Hl)%io_bind_Ok)%io_bind_Ok.
  destruct (absorb_routing w0 used sys (RuleDump f) d _ w w1 sys1 w2 Hg ltac:(done) Hd Ha eq_refl) as [Hg' He].
  destruct (IH _ _ _ Hg' Hl) as (read & Hr & Hg'' & He').
  exists ((RuleDump f, d) :: read). rewrite <- app_assoc in Hg''.
  split_and!; [by rewrite fmap_cons, Hr|done|by eapply extends_trans].
Qed.

Lemma confirm_addresses_good w0 fs used v w v' w' : good w0 used (vw_system v) w ->
  confirm_addresses c scope fs v w = (Ok v', w') ->
  exists read, fst <$> read = AddressDump <$> fs /\ good w0 (used ++ read) (vw_system v') w' /\
    extends (vw_system v) (vw_system v').
Proof.
  revert used v w. induction fs as [|f fs IH]; intros used v w Hg.
  { intros [= <- <-]. exists []. rewrite app_nil_r. split_and!; [done..|apply extends_refl]. }
  intros (d & w1 & Hd & (sys1 & w2 & Ha & Hl)%io_bind_Ok)%io_bind_Ok.
  destruct (absorb_routing w0 used (vw_system v) (AddressDump f) d _ w w1 sys1 w2 Hg ltac:(done) Hd Ha eq_refl) as [Hg' He].
  destruct (IH _ (mkView sys1 (vw_interrupted v || dp_interrupted d)) _ Hg' Hl) as (read & Hr & Hg'' & He').
  exists ((AddressDump f, d) :: read). rewrite <- app_assoc in Hg''.
  split_and!; [by rewrite fmap_cons, Hr|done|by eapply extends_trans].
Qed.

Lemma keep_expiries_extends new now old : extends new (keep_expiries new now old).
Proof.
  intros [] _; simpl; try done. rewrite map_lookup_imap. intros [r ->]. by eexists.
Qed.

(** ** A resynchronisation *)

(** An entry of the old view that [resync] must confirm before it drops it. *)
Definition confirmed_entry (old : System) (x : Entry) : Prop :=
  match x with
  | E_Link _ => False
  | E_Rule r => r ∈ sys_rules old
  | _ => present old x
  end.

Lemma missing_tables_elem_of old new k : is_Some (sys_routes old !! k) -> sys_routes new !! k = None ->
  (let '(f, t, _, _, _) := k in (f, t)) ∈ missing_tables old new.
Proof.
  intros Ho Hn. unfold missing_tables. rewrite bset_iter_elem_of, elem_of_list_to_set, list_elem_of_fmap.
  exists k. split; [done|]. rewrite elem_of_list_filter_bool. split; [by apply btree_keys_elem_of|].
  by apply bool_decide_eq_true.
Qed.

Lemma missing_keys_false {K V} `{Countable K, Cmp K} (old new : gmap K V) k :
  existsb (fun k => bool_decide (new !! k = None)) (btree_keys old) = false ->
  is_Some (old !! k) -> is_Some (new !! k).
Proof.
  intros E Ho. destruct (new !! k) eqn:En; [done|]. exfalso.
  assert (Ht : existsb (fun k => bool_decide (new !! k = None)) (btree_keys old) = true).
  { apply existsb_elem_of. exists k. split; [by apply btree_keys_elem_of|by apply bool_decide_eq_true]. }
  congruence.
Qed.

Lemma rules_missing_false old new r : System_wf scope old -> System_wf scope new ->
  rules_missing old new = false -> r ∈ sys_rules old -> present new (E_Rule r).
Proof.
  intros Ho Hn E Hr. destruct (existsb (fun n => bool_decide (or_message n = or_message r)) (sys_rules new)) eqn:En.
  - apply existsb_elem_of in En as (o & Hin & Hm). bool_simpl. exists o. split; [done|].
    assert (o = r) as ->; [|apply same_rule_refl].
    pose proof (sw_rules _ _ Ho r Hr). pose proof (sw_rules _ _ Hn o Hin). congruence.
  - exfalso. assert (Ht : rules_missing old new = true); [|congruence].
    apply existsb_elem_of. exists r. by rewrite En.
Qed.
End laws.

(** ** Properties *)

Section resync.
Context {D W : Type} `{DumperLaws D W}.
Context (c : D) (scope : Scope).
Implicit Types w : W.

Lemma read_filter (read : list (Filter * Dump)) filters f :
  fst <$> read = filters -> f ∈ filters -> exists d, (f, d) ∈ read.
Proof. intros <- Hf. apply list_elem_of_fmap in Hf as ([f' d] & -> & Hin). by exists d. Qed.

(** The nexthop step of [resync]. *)
Lemma nexthops_step_good w0 used v old new w v' w' : good scope w0 used new w ->
  (if nexthops_missing old new then
     d ←? dump c NexthopDump;
     new ←? apply_messages scope new (dp_messages d);
     io_ret (mkView new (vw_interrupted v || dp_interrupted d))
   else io_ret (mkView new (vw_interrupted v))) w = (Ok v', w') ->
  exists read, fst <$> read = (if nexthops_missing old new then [NexthopDump] else []) /\
    good scope w0 (used ++ read) (vw_system v') w' /\ extends new (vw_system v').
Proof.
  intros Hg. destruct (nexthops_missing old new).
  - intros (d & w1 & Hd & (sys & w2 & Ha & [= <- <-])%io_bind_Ok)%io_bind_Ok.
    destruct (good_absorb c scope w0 used new NexthopDump d (dp_messages d) w w1 (Ok sys) w2 Hg Hd)
      as (sys' & [= <-] & Hg' & He); try done. by exists [(NexthopDump, d)].
  - intros [= <- <-]. exists []. rewrite app_nil_r. split_and!; [done..|apply extends_refl].
Qed.

(** The stages of a resynchronisation: the views and the dumps used. *)
Record stages (old : System) (w w' : W) (v : View) (v1 : View) (s2 s3 : System) (v4 v5 : View)
    (r1 r2 r3 r4 r5 : list (Filter * Dump)) : Prop := {
  stg_full : fst <$> r1 = full_filters;
  stg_tables : fst <$> r2 = (fun k => RouteDump (fst k) (Some (snd k))) <$> missing_tables old (vw_system v1);
  stg_rules : fst <$> r3 = (if rules_missing old s2 then RuleDump <$> Family_ALL else []);
  stg_nexthops : fst <$> r4 = (if nexthops_missing old s3 then [NexthopDump] else []);
  stg_addresses : fst <$> r5 = (if addresses_missing old (vw_system v4) then AddressDump <$> Family_ALL else []);
  stg_extends : extends (vw_system v1) s2 /\ extends s2 s3 /\ extends s3 (vw_system v4) /\
    extends (vw_system v4) (vw_system v5) /\ extends (vw_system v5) (vw_system v);
  stg_wf : System_wf scope s2 /\ System_wf scope (vw_system v);
  stg_good : good scope w (r1 ++ r2 ++ r3 ++ r4 ++ r5) (vw_system v5) w'
}.

Lemma resync_stages old w w' v : resync c scope old w = (Ok v, w') ->
  exists v1 s2 s3 v4 v5 r1 r2 r3 r4 r5, stages old w w' v v1 s2 s3 v4 v5 r1 r2 r3 r4 r5.
Proof.
  intros Hr. apply io_bind_Ok in Hr as (v1 & w1 & Hfull & Hr). apply io_bind_Ok in Hr as (s2 & w2 & Htab & Hr).
  apply io_bind_Ok in Hr as (s3 & w3 & Hrul & Hr). apply io_bind_Ok in Hr as (v4 & w4 & Hnh & Hr).
  apply io_bind_Ok in Hr as (v5 & w5 & Hadr & Hr). apply io_bind_Ok in Hr as (s6 & w6 & Hkeep & [= <- <-]).
  assert (Hg0 : good scope w [] System_default w).
  { split_and!; [apply System_default_wf|by intros e m x ?%not_elem_of_nil|by apply reads_nil]. }
  destruct (full_loop_good c scope w _ [] (mkView System_default false) w v1 w1 Hg0 Hfull) as (r1 & Er1 & Hg1 & _).
  destruct (confirm_tables_good c scope w _ _ _ w1 s2 w2 Hg1 Htab) as (r2 & Er2 & Hg2 & He2).
  assert (exists r3, fst <$> r3 = (if rules_missing old s2 then RuleDump <$> Family_ALL else []) /\
    good scope w ((([] ++ r1) ++ r2) ++ r3) s3 w3 /\ extends s2 s3) as (r3 & Er3 & Hg3 & He3).
  { destruct (rules_missing old s2); [by apply (confirm_rules_good c scope w _ _ s2 w2)|].
    injection Hrul as <- <-. exists []. rewrite app_nil_r. split_and!; [done..|apply extends_refl]. }
  destruct (nexthops_step_good w _ v1 old s3 w3 v4 w4 Hg3 Hnh) as (r4 & Er4 & Hg4 & He4).
  assert (exists r5, fst <$> r5 = (if addresses_missing old (vw_system v4) then AddressDump <$> Family_ALL else []) /\
    good scope w ((((([] ++ r1) ++ r2) ++ r3) ++ r4) ++ r5) (vw_system v5) w5 /\
    extends (vw_system v4) (vw_system v5)) as (r5 & Er5 & Hg5 & He5).
  { destruct (addresses_missing old (vw_system v4)); [by apply (confirm_addresses_good c scope w _ _ v4 w4)|].
    injection Hadr as <- <-. exists []. rewrite app_nil_r. split_and!; [done..|apply extends_refl]. }
  unfold keep_expiries_now in Hkeep. pose proof (trace_now (D:=D) w5) as Hn.
  destruct (clock_now w5) as [now w5']. simplify_eq/=. destruct Hg5 as (Hs5 & Hh5 & Hr5).
  rewrite <- !app_assoc in Hh5, Hr5.
  exists v1, s2, s3, v4, v5, r1, r2, r3, r4, r5. split; try done.
  - split_and!; try done. apply keep_expiries_extends.
  - split; [apply Hg2|by apply keep_expiries_wf].
  - split_and!; [done..|]. destruct Hr5 as (log & El & Hlog). exists log. by rewrite Hn.
Qed.

Lemma Family_ALL_elem_of f : f ∈ Family_ALL.
Proof. destruct f; set_solver. Qed.

(** An entry of the old view missing at the end was read for a second time. *)
Lemma stages_confirm old w w' v v1 s2 s3 v4 v5 r1 r2 r3 r4 r5 x : System_wf scope old ->
  stages old w w' v v1 s2 s3 v4 v5 r1 r2 r3 r4 r5 -> confirmed_entry old x -> ~ present (vw_system v) x ->
  exists f d, confirming f x /\ (f, d) ∈ r2 ++ r3 ++ r4 ++ r5.
Proof.
  intros Hold S Hx Hno. destruct (stg_extends _ _ _ _ _ _ _ _ _ _ _ _ _ _ S) as (E12 & E23 & E34 & E45 & E56).
  assert (Hback : forall s, extends s (vw_system v) -> entry_ok x -> ~ present s x).
  { intros s Hs Hok Hp. by apply Hno, Hs. }
  pose proof (extends_trans _ _ _ E45 E56) as E46. pose proof (extends_trans _ _ _ E34 E46) as E36.
  pose proof (extends_trans _ _ _ E23 E36) as E26. pose proof (extends_trans _ _ _ E12 E26) as E16.
  destruct x as [i|k|k|r|id]; simpl in Hx; [done| | | |].
  - pose proof (stg_addresses _ _ _ _ _ _ _ _ _ _ _ _ _ _ S) as Er. destruct (addresses_missing old (vw_system v4)) eqn:Em;
      [|by destruct (Hback (vw_system v4) E46 I (missing_keys_false (sys_addresses old) _ k Em Hx))].
    destruct k as [i a].
    destruct (read_filter _ _ (AddressDump (Family_of a)) Er) as [d Hd]; [apply list_elem_of_fmap_2, Family_ALL_elem_of|].
    exists (AddressDump (Family_of a)), d. split; [done|]. set_solver.
  - destruct (sys_routes (vw_system v1) !! k) eqn:Ek; [by destruct (Hback (vw_system v1) E16 I); eexists|].
    pose proof (missing_tables_elem_of old (vw_system v1) k Hx Ek) as Hm. destruct k as [[[[f t] ?] ?] ?].
    destruct (read_filter _ _ (RouteDump f (Some t)) (stg_tables _ _ _ _ _ _ _ _ _ _ _ _ _ _ S)) as [d Hd];
      [apply list_elem_of_fmap; by exists (f, t)|].
    exists (RouteDump f (Some t)), d. split; [done|]. set_solver.
  - pose proof (stg_rules _ _ _ _ _ _ _ _ _ _ _ _ _ _ S) as Er. destruct (rules_missing old s2) eqn:Em.
    + destruct (read_filter _ _ (RuleDump (or_family r)) Er) as [d Hd]; [apply list_elem_of_fmap_2, Family_ALL_elem_of|].
      exists (RuleDump (or_family r)), d. split; [done|]. set_solver.
    + destruct (Hback s2 E26 (sw_rules _ _ Hold r Hx)). apply (rules_missing_false scope old s2 r Hold); [|done..].
      apply (stg_wf _ _ _ _ _ _ _ _ _ _ _ _ _ _ S).
  - pose proof (stg_nexthops _ _ _ _ _ _ _ _ _ _ _ _ _ _ S) as Er. destruct (nexthops_missing old s3) eqn:Em;
      [|by destruct (Hback s3 E36 I (missing_keys_false (sys_nexthops old) _ id Em Hx))].
    destruct (read_filter _ _ NexthopDump Er) as [d Hd]; [set_solver|].
    exists NexthopDump, d. split; [done|]. set_solver.
Qed.

(** C27: A resynchronisation drops nothing it saw and nothing unconfirmed.
    When it returns, every filter of the full dump was read; the view
    satisfies its invariant and holds every link, address, route, rule and
    nexthop object that a dump it used named (the dumps not used were
    interrupted and read again); and an address, route, rule or nexthop
    object of the old view that is not in the new one was missing from a
    second read that was made for it: of the addresses or the rules of its
    own family, of the routes of its family and table, or of the nexthop
    objects. *)
Theorem resync_confirms (old : System) (w w' : W) (v : View)
    (Hold : System_wf scope old) (Hr : resync c scope old w = (Ok v, w')) :
  exists used confirmations, reads w (used ++ confirmations) w' /\ System_wf scope (vw_system v) /\
    fst <$> used = full_filters /\
    (forall e m x, e ∈ used ++ confirmations -> m ∈ dp_messages (snd e) -> names scope m = Some x ->
       present (vw_system v) x) /\
    (forall x, confirmed_entry old x -> ~ present (vw_system v) x ->
       exists f d, confirming f x /\ (f, d) ∈ confirmations /\
         forall m, m ∈ dp_messages d -> names scope m <> Some x).
Proof.
  destruct (resync_stages old w w' v Hr) as (v1 & s2 & s3 & v4 & v5 & r1 & r2 & r3 & r4 & r5 & S).
  exists r1, (r2 ++ r3 ++ r4 ++ r5). pose proof S as [Hfull _ _ _ _ (_ & _ & _ & _ & He) [_ Hwf] (_ & Hh & Hreads)].
  assert (Hall : forall e m x, e ∈ r1 ++ r2 ++ r3 ++ r4 ++ r5 -> m ∈ dp_messages (snd e) -> names scope m = Some x ->
    present (vw_system v) x).
  { intros e m x Hin Hm Hx. apply He; [by eapply names_ok|by eapply Hh]. }
  split_and!; [done..|]. intros x Hx Hno.
  destruct (stages_confirm old w w' v v1 s2 s3 v4 v5 r1 r2 r3 r4 r5 x Hold S Hx Hno) as (f & d & Hf & Hd).
  exists f, d. split_and!; [done..|]. intros m Hm Hn. apply Hno, (Hall (f, d) m x); [|done..].
  apply elem_of_app. by right.
Qed.
End resync.

(** ** Re-reading tables *)

Definition key_table (k : RouteKey) : Family * u32 := let '(f, t, _, _, _) := k in (f, t).

Lemma in_table_true f t k : in_table f t k = true <-> key_table k = (f, t).
Proof.
  destruct k as [[[[f' t'] ?] ?] ?]. simpl. rewrite andb_true_iff, bool_decide_eq_true, Z.eqb_eq. naive_solver.
Qed.

Lemma dump_route_names scope now f t m k : in_table f t k = true ->
  names scope (Message_Route m) = Some (E_Route k) <->
  exists r, dump_route scope now f t m = Some r /\ route_key scope r = k.
Proof.
  intros Hk. split.
  - destruct m; simpl; try (by intros (? & ? & ?)%fmap_Some); try done.
    intros (o & Ho & E)%bind_Some. destruct (scope_keeps scope o) eqn:Hs; [|done].
    destruct (ObservedRoute_parse_clock 0 now r o Ho) as [e He]. rewrite He. simpl.
    injection E as <-. rewrite with_expiry_keeps, Hs. simpl in Hk. apply andb_true_iff in Hk as [Hf Ht].
    rewrite Hf, Ht. simpl. eexists. split; [done|]. apply with_expiry_key.
  - intros (r & Hr & <-). destruct m; try done. simpl in *. apply bind_Some in Hr as (o & Ho & E).
    destruct (ObservedRoute_parse_clock now 0 r0 o Ho) as [e ->]. simpl. rewrite with_expiry_keeps, with_expiry_key.
    destruct (_ && scope_keeps scope o) eqn:Hs; [|done]. bool_simpl. simplify_eq. by rewrite H0.
Qed.

Lemma replace_table_present scope sys now f t ms k : in_table f t k = true ->
  is_Some (sys_routes (replace_table sys scope now f t ms) !! k) <->
  exists r, r ∈ ms /\ names scope (Message_Route r) = Some (E_Route k).
Proof.
  intros Hk. destruct (replace_table_lookup sys scope now f t ms) as (_ & H1 & H2 & _). split.
  - intros [o Ho]. destruct (H2 k o Hk Ho) as (d & (m & Hm & Hd)%list_elem_of_omap & -> & _).
    exists m. split; [done|]. apply (dump_route_names scope now f t); [done|]. by exists d.
  - intros (m & Hm & (r & Hr & <-)%(dump_route_names scope now f t)); [|done].
    apply H1. apply list_elem_of_omap. by exists m.
Qed.

Section reread.
Context {D W : Type} `{DumperLaws D W}.
Context (c : D) (scope : Scope).
Implicit Types w : W.

Lemma reread_messages_spec system f t w ms w' : reread_messages c scope system f t w = (Ok ms, w') ->
  exists used, reads w used w' /\ Forall (fun e => fst e = RouteDump f (Some t)) used /\
    ms = concat ((fun e => Dump_routing (snd e)) <$> used) /\
    ((2 <= length used)%nat \/
     forall k, in_table f t k = true -> is_Some (sys_routes system !! k) ->
       exists r, r ∈ ms /\ names scope (Message_Route r) = Some (E_Route k)).
Proof.
  unfold reread_messages. intros (d & w1 & [Hd _]%dump_reads & Hr)%io_bind_Ok.
  apply io_bind_Ok in Hr as (seen & w2 & Hseen & Hr). unfold replace_table_now in Hseen.
  pose proof (trace_now (D:=D) w1) as Hn. destruct (clock_now w1) as [now w1']. simplify_eq/=.
  assert (Hd' : reads w [(RouteDump f (Some t), d)] w2) by (destruct Hd as (log & E & Hd); exists log; by rewrite Hn).
  destruct (table_missing _ _ f t) eqn:Em.
  - apply io_bind_Ok in Hr as (d' & w3 & [Hd2 _]%dump_reads & [= <- <-]).
    exists ([(RouteDump f (Some t), d)] ++ [(RouteDump f (Some t), d')]). split; [by eapply reads_app|].
    split; [by repeat constructor|]. simpl. rewrite app_nil_r. split; [done|left; simpl; lia].
  - injection Hr as <- <-. exists [(RouteDump f (Some t), d)]. split; [done|]. split; [by repeat constructor|].
    simpl. rewrite app_nil_r. split; [done|]. right. intros k Hk Hs.
    apply (replace_table_present scope System_default now f t); [done|].
    destruct (sys_routes (replace_table System_default scope now f t (Dump_routing d)) !! k) eqn:E; [done|].
    exfalso. assert (Ht : table_missing system (replace_table System_default scope now f t (Dump_routing d)) f t = true);
      [|congruence].
    apply existsb_elem_of. exists k. rewrite Hk, bool_decide_eq_true_2 by done. split; [|done]. by apply btree_keys_elem_of.
Qed.

(** What the used reads of a table decide. *)
Definition table_read (used : list (Filter * Dump)) (system system' : System) (f : Family) (t : u32)
    (k : RouteKey) : Prop :=
  (is_Some (sys_routes system' !! k) <->
   exists d m, (RouteDump f (Some t), d) ∈ used /\ m ∈ Dump_routing d /\
     names scope (Message_Route m) = Some (E_Route k)) /\
  (is_Some (sys_routes system !! k) -> sys_routes system' !! k = None ->
   (2 <= length (List.filter (fun e => bool_decide (fst e = RouteDump f (Some t))) used))%nat).

Lemma table_read_head system now f t ms u1 u2 k : key_table k = (f, t) ->
  Forall (fun e => fst e = RouteDump f (Some t)) u1 -> (forall d, (RouteDump f (Some t), d) ∉ u2) ->
  ms = concat ((fun e => Dump_routing (snd e)) <$> u1) ->
  ((2 <= length u1)%nat \/
   forall k, in_table f t k = true -> is_Some (sys_routes system !! k) ->
     exists r, r ∈ ms /\ names scope (Message_Route r) = Some (E_Route k)) ->
  table_read (u1 ++ u2) system (replace_table system scope now f t ms) f t k.
Proof.
  intros Hk%in_table_true Hu1 Hu2 Hms Hc. pose proof (replace_table_present scope system now f t ms k Hk) as Hp.
  rewrite Forall_forall in Hu1. split.
  - rewrite Hp, Hms. split.
    + intros (r & Hr & Hn). rewrite list_elem_of_In, in_concat in Hr. setoid_rewrite <- list_elem_of_In in Hr.
      destruct Hr as (l & ([flt d] & -> & He)%list_elem_of_fmap & Hr). pose proof (Hu1 _ He) as E. simpl in E. subst flt.
      exists d, r. set_solver.
    + intros (d & m & [He|He]%elem_of_app & Hm & Hn); [|by destruct (Hu2 d)].
      exists m. split; [|done]. rewrite list_elem_of_In, in_concat. setoid_rewrite <- list_elem_of_In.
      exists (Dump_routing d). split; [|done]. apply list_elem_of_fmap. by exists (RouteDump f (Some t), d).
  - intros Hs Hnone. destruct Hc as [Hc|Hc].
    + rewrite List.filter_app, length_app, filter_all; [lia|]. intros e He. apply bool_decide_eq_true. by apply Hu1.
    + destruct (Hc k Hk Hs) as (r & Hr & Hn). destruct (proj2 Hp) as [o Ho]; [by exists r|congruence].
Qed.

(** Reads of other tables before it do not change what a table's reads decide. *)
Lemma table_read_tail u1 u2 system system1 system' f t f' t' k :
  Forall (fun e => fst e = RouteDump f' (Some t')) u1 -> (f, t) <> (f', t') ->
  sys_routes system1 !! k = sys_routes system !! k ->
  table_read u2 system1 system' f t k -> table_read (u1 ++ u2) system system' f t k.
Proof.
  intros Hu Hne E [H3 H4]. rewrite Forall_forall in Hu. split.
  - rewrite H3. split; intros (d & m & He & Hm); exists d, m; (split; [|done]); [set_solver|].
    apply elem_of_app in He as [He|He]; [|done]. apply Hu in He. simpl in He. congruence.
  - rewrite E in H4. intros Hs Hn. rewrite List.filter_app, length_app. pose proof (H4 Hs Hn). lia.
Qed.

(** Re-reading tables is exact and confirmed: routes of the other tables
    stay, and only the given tables are read; afterwards a re-read table
    holds exactly the routes that one of the used reads of it named; and a
    route of the view disappears only after two reads of its table, neither
    of which named it. *)
Theorem reread_confirms (system : System) (tables : list (Family * u32)) (w w' : W) (system' : System)
    (Hnd : NoDup tables) (Hr : reread c scope system tables w = (system', Ok tt, w')) :
  exists used, reads w used w' /\
    (forall e, e ∈ used -> exists f t, (f, t) ∈ tables /\ fst e = RouteDump f (Some t)) /\
    (forall k, key_table k ∉ tables -> sys_routes system' !! k = sys_routes system !! k) /\
    (forall k f t, key_table k = (f, t) -> (f, t) ∈ tables -> table_read used system system' f t k).
Proof.
  revert system w Hr. induction Hnd as [|[f t] tables Hft Hnd IH]; intros system w Hr.
  { injection Hr as <- <-. exists []. split; [by apply reads_nil|].
    split_and!; [by intros e ?%not_elem_of_nil|done|by intros k f t _ ?%not_elem_of_nil]. }
  simpl in Hr. destruct (reread_messages c scope system f t w) as [[ms|e] w1] eqn:Em; [|done].
  apply reread_messages_spec in Em as (u1 & Hu1 & Hf1 & Ems & Hc1).
  pose proof (trace_now (D:=D) w1) as Hn. destruct (clock_now w1) as [now w2]. simpl in Hn.
  destruct (IH _ _ Hr) as (u2 & Hu2 & Hin & Hother & Hspec). clear IH.
  assert (Hout : forall k, key_table k <> (f, t) ->
    sys_routes (replace_table system scope now f t ms) !! k = sys_routes system !! k).
  { intros k Hk. apply (proj1 (replace_table_lookup system scope now f t ms)).
    destruct (in_table f t k) eqn:E; [by apply in_table_true in E|done]. }
  exists (u1 ++ u2). split_and!.
  - eapply reads_app; [|exact Hu2]. destruct Hu1 as (log & E & Hl). exists log. by rewrite Hn.
  - intros e [He|He]%elem_of_app.
    + exists f, t. rewrite Forall_forall in Hf1. split; [set_solver|by apply Hf1].
    + apply Hin in He as (f' & t' & ? & ?). exists f', t'. split; [set_solver|done].
  - intros k Hk. rewrite Hother, Hout; [done|set_solver..].
  - intros k f' t' Hk [[= -> ->]|Hin']%elem_of_cons.
    + assert (Hl : sys_routes system' !! k = sys_routes (replace_table system scope now f t ms) !! k).
      { apply Hother. by rewrite Hk. }
      unfold table_read. rewrite Hl. apply (table_read_head system now f t ms u1 u2 k Hk Hf1); [|done..].
      intros d (f'' & t'' & Hin'' & [= <- <-])%Hin. done.
    + assert ((f', t') <> (f, t)) by congruence. eapply table_read_tail; [exact Hf1|done| |by apply Hspec].
      apply Hout. congruence.
Qed.
End reread.

(** ** A scripted source, as the program's own tests use *)
Module Scripted.
Definition answersb (f : Filter) (m : Message) : bool :=
  match f, m with
  | LinkDump, Message_Route (NewLink _) => true
  | NexthopDump, Message_NewNexthop _ => true
  | AddressDump _, Message_Route (NewAddress _) => true
  | RuleDump _, Message_Route (NewRule _) => true
  | RouteDump _ _, Message_Route (NewRoute _) => true
  | _, _ => false
  end.
(** The answers still to give, and those given. *)
Record World := mkWorld { script : list (option Dump); given : list (Filter * Dump) }.
Definition answer (f : Filter) (d : Dump) : Dump := mkDump (List.filter (answersb f) (dp_messages d)) (dp_interrupted d).
#[global] Instance World_Clock : Clock World := {| clock_now := fun w => (0, w) |}.
#[global] Instance World_Traced : Traced World := {| trace := given |}.
#[global] Instance World_Dumper : Dumper unit World := {|
  dumper_dump := fun _ f w =>
    match script w with
    | [] => (Some (Ok (mkDump [] false)), mkWorld [] (given w ++ [(f, mkDump [] false)]))
    | None :: rest => (None, mkWorld rest (given w))
    | Some d :: rest => (Some (Ok (answer f d)), mkWorld rest (given w ++ [(f, answer f d)]))
    end;
  dumper_fresh := fun _ w => (Ok tt, w)
|}.
#[global] Instance World_Laws : DumperLaws unit World.
Proof.
  split; [done..|]. intros c f w. simpl. destruct (script w) as [|[d|] rest]; simpl; [by split|split; [done|]|done].
  apply Forall_forall. intros m [_ Hm]%elem_of_list_filter_bool. by destruct f, m as [[]| | |].
Qed.

Definition scope : Scope := mkScope [(1000, 1191)] [254].
Definition route (metric : u32) : RouteMessage :=
  mkRouteMessage AF_Inet 0 254 16 0 RT_Unicast 0
    [RouteAttr_Gateway (RA_Inet 3221225985); RouteAttr_Oif 5; RouteAttr_Priority metric].
(** The old view: two default routes of the main table. *)
Definition old : System :=
  fst (apply_message (fst (apply_message System_default scope 0 (Message_Route (NewRoute (route 100)))))
         scope 0 (Message_Route (NewRoute (route 200)))).
(** A full dump that exceeds the deadline once and shows one of the routes
    only; the confirming read of the table is interrupted once and agrees. *)
Definition world : World :=
  mkWorld [None; Some (mkDump [] false); Some (mkDump [] false); Some (mkDump [] false); Some (mkDump [] false);
           Some (mkDump [Message_Route (NewRoute (route 100))] false);
           Some (mkDump [] false); Some (mkDump [] false); Some (mkDump [] false);
           Some (mkDump [] true); Some (mkDump [Message_Route (NewRoute (route 100))] false)] [].
(** Two reads of the main table that show one of the routes. *)
Definition reads_world : World :=
  mkWorld [Some (mkDump [Message_Route (NewRoute (route 100))] false);
           Some (mkDump [Message_Route (NewRoute (route 100))] false)] [].
Definition kept : RouteKey := (V4, 254, None, 100, Via_Hop 5 (Some (IpV4 3221225985))).
Definition gone : RouteKey := (V4, 254, None, 200, Via_Hop 5 (Some (IpV4 3221225985))).
Lemma old_wf : System_wf scope old.
Proof. apply apply_message_wf, apply_message_wf, System_default_wf. Qed.
End Scripted.

(** Whether an option holds a value. *)
Definition is_some_b {A} (o : option A) : bool := match o with Some _ => true | None => false end.

Lemma resync_confirms_witness :
  exists v w' used confirmations, resync tt Scripted.scope Scripted.old Scripted.world = (Ok v, w') /\
    reads Scripted.world (used ++ confirmations) w' /\
    is_Some (sys_routes (vw_system v) !! Scripted.kept) /\ sys_routes (vw_system v) !! Scripted.gone = None /\
    exists d, (RouteDump V4 (Some 254), d) ∈ confirmations.
Proof.
  destruct (resync tt Scripted.scope Scripted.old Scripted.world) as [[v|e] w'] eqn:E;
    [|exfalso; vm_compute in E; discriminate E].
  destruct (resync_confirms tt Scripted.scope Scripted.old Scripted.world w' v Scripted.old_wf E)
    as (used & conf & Hr & _ & _ & _ & Hc).
  assert (Hv : is_Some (sys_routes (vw_system v) !! Scripted.kept) /\ sys_routes (vw_system v) !! Scripted.gone = None).
  { assert (Hv : match fst (resync tt Scripted.scope Scripted.old Scripted.world) with
                 | Ok v => (is_some_b (sys_routes (vw_system v) !! Scripted.kept),
                            is_some_b (sys_routes (vw_system v) !! Scripted.gone)) = (true, false)
                 | Err _ => False end) by (vm_compute; reflexivity).
    rewrite E in Hv. cbv beta iota delta [fst] in Hv. revert Hv.
    generalize (sys_routes (vw_system v) !! Scripted.kept) (sys_routes (vw_system v) !! Scripted.gone).
    intros [r|] [r'|] [=]. split; [exists r|]; reflexivity. }
  exists v, w', used, conf. split; [reflexivity|]. split; [exact Hr|]. split; [apply Hv|]. split; [apply Hv|].
  destruct (Hc (E_Route Scripted.gone)) as (f & d & Hf & Hd & _).
  - vm_compute. eexists. reflexivity.
  - simpl. rewrite (proj2 Hv). intros [? ?]. discriminate.
  - simpl in Hf. subst f. exists d. exact Hd.
Defined.

Lemma reread_confirms_witness :
  exists sys' w' used, reread tt Scripted.scope Scripted.old [(V4, 254)] Scripted.reads_world = (sys', Ok tt, w') /\
    reads Scripted.reads_world used w' /\
    (is_Some (sys_routes Scripted.old !! Scripted.gone) -> sys_routes sys' !! Scripted.gone = None ->
     (2 <= length (List.filter (fun e => bool_decide (fst e = RouteDump V4 (Some 254%Z))) used))%nat) /\
    sys_routes sys' !! Scripted.gone = None.
Proof.
  destruct (reread tt Scripted.scope Scripted.old [(V4, 254)] Scripted.reads_world) as [[sys' [[]|e]] w'] eqn:E;
    [|exfalso; vm_compute in E; discriminate E].
  assert (Hnd : NoDup [(V4, 254)]) by (refine (bool_decide_eq_true_1 _ _); vm_compute; reflexivity).
  destruct (reread_confirms tt Scripted.scope Scripted.old [(V4, 254)] Scripted.reads_world w' sys' Hnd E)
    as (used & Hr & _ & _ & Hk).
  exists sys', w', used. split; [reflexivity|]. split; [exact Hr|].
  destruct (Hk Scripted.gone V4 254 eq_refl (proj2 (elem_of_cons [] (V4, 254) (V4, 254)) (or_introl eq_refl)))
    as [_ Htwice]. split; [exact Htwice|].
  assert (Hv : is_some_b (sys_routes (fst (fst (reread tt Scripted.scope Scripted.old [(V4, 254)] Scripted.reads_world)))
    !! Scripted.gone) = false) by (vm_compute; reflexivity).
  rewrite E in Hv. cbv beta iota delta [fst] in Hv. revert Hv.
  generalize (sys_routes sys' !! Scripted.gone). intros [r|]; [discriminate|reflexivity].
Defined.
