(* ===== verification/Events.v ===== *)
(** * Events: the bus, its notifier queues and the history

    Models crates/polywan/src/events.rs.  [serde_json] is a parameter: the
    type of its values and the serialisation of an event.  A notifier's
    channel (tokio's bounded [mpsc]) is the list of its entries with its
    capacity and whether the receiver is gone; the byte counter that sender
    and receiver share is a field of its own, and a receiver takes an entry
    and subtracts its size in two steps, as the code does. *)

From stdpp Require Import prelude gmap sorting.
From Stdlib Require Import ZArith Lia.
From S2P Require Import Prelude Text Model.

Local Open Scope Z_scope.

Definition RING_EVENTS : usize := 1000.
Definition RING_BYTES : usize := Z.shiftl 4 20.

(** ** Timestamps *)

(** Year, month and day of a day count since 1970-01-01 ([i64]; division
    and remainder are Euclidean, and truncated where the operands are not
    negative). *)
Definition civil (days : Z) : Z * Z * Z :=
  let z := days + 719468 in
  let era := z / 146097 in
  let doe := z mod 146097 in
  let yoe := (doe - doe / 1460 + doe / 36524 - doe / 146096) / 365 in
  let doy := doe - (365 * yoe + yoe / 4 - yoe / 100) in
  let mp := (5 * doy + 2) / 153 in
  let d := doy - (153 * mp + 2) / 5 + 1 in
  let m := if mp <? 10 then mp + 3 else mp - 9 in
  let y := yoe + era * 400 + (if m <=? 2 then 1 else 0) in
  (y, m, d).

(** [{n:0w}] of an unsigned number. *)
Definition padded (w : nat) (n : Z) : str :=
  replicate (w - length (to_decimal n)) 48 ++ to_decimal n.

(** [t] is the time since the epoch in nanoseconds (0 for an earlier time). *)
Definition rfc3339 (t : Z) : str :=
  let secs := t / 1000000000 in
  let days := secs / 86400 in
  let rem := secs mod 86400 in
  let '(y, m, day) := civil days in
  padded 4 y ++ lit "-" ++ padded 2 m ++ lit "-" ++ padded 2 day ++ lit "T" ++
  padded 2 (rem / 3600) ++ lit ":" ++ padded 2 (rem mod 3600 / 60) ++ lit ":" ++ padded 2 (rem mod 60) ++
  lit "." ++ padded 3 (t mod 1000000000 / 1000000) ++ lit "Z".

Definition hex_digit (n : Z) : Z := if n <? 10 then 48 + n else 87 + n.

(** [n.to_le_bytes()] of a [u128]. *)
Definition le_bytes (n : u128) : list u8 := (fun i => Z.land (Z.shiftr n (8 * i)) 255) <$> seqZ 0 16.

(** [random]: what [getrandom::fill] gave, [None] when it failed. *)
Definition instance_id (random : option (list u8)) (now : u128) : str :=
  concat ((fun x => [hex_digit (x / 16); hex_digit (x mod 16)]) <$> default (le_bytes now) random).

(** ** The history *)

Record Ring := mkRing { rg_instance : str; rg_events : list (u64 * str); rg_bytes : usize }.

Record Page := mkPage { pg_instance : str; pg_reset : bool; pg_truncated : bool; pg_events : list str }.

Definition Ring_new (instance : str) : Ring := mkRing instance [] 0.

(** The loop of [push]. *)
Fixpoint evict (events : list (u64 * str)) (bytes : usize) : list (u64 * str) * usize :=
  if (RING_EVENTS <? Z.of_nat (length events)) || (RING_BYTES <? bytes) then
    match events with
    | (_, old) :: rest => evict rest (bytes - str_len old)
    | [] => ([], bytes)
    end
  else (events, bytes).

Definition Ring_push (r : Ring) (seq : u64) (json : str) : Ring :=
  let '(events, bytes) := evict (rg_events r ++ [(seq, json)]) (rg_bytes r + str_len json) in
  mkRing (rg_instance r) events bytes.

Definition Ring_latest (r : Ring) : u64 := match last (rg_events r) with Some (s, _) => s | None => 0 end.

(** The loop of [page]: what is collected so far, and its bytes. *)
Fixpoint page_loop (events : list (u64 * str)) (after : option u64) (limit max_bytes : usize)
    (out : list str) (bytes : usize) : list str :=
  match events with
  | [] => out
  | (seq, json) :: rest =>
      if match after with Some a => seq <=? a | None => false end
      then page_loop rest after limit max_bytes out bytes else
      if (Z.min limit RING_EVENTS <=? Z.of_nat (length out)) ||
         (negb (bool_decide (out = [])) && (max_bytes <? bytes + str_len json))
      then out
      else page_loop rest after limit max_bytes (out ++ [json]) (bytes + str_len json)
  end.

Definition Ring_page (r : Ring) (instance : option str) (after : option u64) (limit max_bytes : usize) : Page :=
  let latest := Ring_latest r in
  let reset :=
    match instance with Some i => negb (bool_decide (i = rg_instance r)) | None => false end ||
    match after with Some a => latest <? a | None => false end in
  let after := if reset then None else after in
  let oldest := match head (rg_events r) with Some (s, _) => s | None => latest + 1 end in
  let truncated := match after with Some a => a + 1 <? oldest | None => false end in
  mkPage (rg_instance r) reset truncated (page_loop (rg_events r) after limit max_bytes [] 0).

(** ** The bus *)

Section bus.
Context {Value : Type}.

Record Event := mkEvent {
  ev_seq : u64;
  ev_instance : str;
  ev_timestamp : str;
  ev_kind : str;
  ev_uplink : option str;
  ev_family : option str;
  ev_old : option Value;
  ev_new : option Value;
  ev_reason : option str;
  ev_message : str;
  ev_test : bool
}.

Record NewEvent := mkNewEvent {
  ne_kind : str;
  ne_uplink : option str;
  ne_family : option str;
  ne_old : option Value;
  ne_new : option Value;
  ne_reason : option str;
  ne_message : str
}.

Definition NewEvent_new (kind message : str) : NewEvent := mkNewEvent kind None None None None None message.
Definition NewEvent_path (n : NewEvent) (uplink family : str) : NewEvent :=
  mkNewEvent (ne_kind n) (Some uplink) (Some family) (ne_old n) (ne_new n) (ne_reason n) (ne_message n).
Definition NewEvent_uplink (n : NewEvent) (uplink : str) : NewEvent :=
  mkNewEvent (ne_kind n) (Some uplink) (ne_family n) (ne_old n) (ne_new n) (ne_reason n) (ne_message n).
Definition NewEvent_family (n : NewEvent) (family : str) : NewEvent :=
  mkNewEvent (ne_kind n) (ne_uplink n) (Some family) (ne_old n) (ne_new n) (ne_reason n) (ne_message n).
Definition NewEvent_change (n : NewEvent) (old new : Value) : NewEvent :=
  mkNewEvent (ne_kind n) (ne_uplink n) (ne_family n) (Some old) (Some new) (ne_reason n) (ne_message n).
Definition NewEvent_reason (n : NewEvent) (reason : str) : NewEvent :=
  mkNewEvent (ne_kind n) (ne_uplink n) (ne_family n) (ne_old n) (ne_new n) (Some reason) (ne_message n).

(** A notifier with its channel: [nf_queue] the entries sent and not taken,
    [nf_taken] the sizes a receiver took and has not yet subtracted. *)
Record Notifier := mkNotifier {
  nf_name : str;
  nf_capacity : usize;
  nf_queue : list (Event * usize);
  nf_closed : bool;
  nf_taken : list usize;
  nf_bytes : usize;
  nf_max_bytes : usize;
  nf_select : option (list str);
  nf_dropped : u64
}.

Record Bus := mkBus {
  bus_instance : str;
  bus_seq : u64;
  bus_ring : Ring;
  bus_latest : u64;
  bus_notifiers : list Notifier
}.

Definition Bus_new (instance : str) : Bus := mkBus instance 0 (Ring_new instance) 0 [].

Definition add_notifier (b : Bus) (name : str) (capacity max_bytes : usize) : Bus :=
  mkBus (bus_instance b) (bus_seq b) (bus_ring b) (bus_latest b)
    (bus_notifiers b ++ [mkNotifier name capacity [] false [] 0 max_bytes None 0]).

Definition set_select (n : Notifier) (types : option (list str)) : Notifier :=
  mkNotifier (nf_name n) (nf_capacity n) (nf_queue n) (nf_closed n) (nf_taken n) (nf_bytes n) (nf_max_bytes n)
    types (nf_dropped n).

Definition Bus_select (b : Bus) (name : str) (types : option (list str)) : Bus :=
  mkBus (bus_instance b) (bus_seq b) (bus_ring b) (bus_latest b)
    ((fun n => if bool_decide (nf_name n = name) then set_select n types else n) <$> bus_notifiers b).

Definition Bus_dropped (b : Bus) : list (str * u64) :=
  (fun n => (nf_name n, nf_dropped n)) <$> bus_notifiers b.

(** [tx.try_send]: fails when the channel is full or closed. *)
Definition try_send (n : Notifier) (e : Event) (size : usize) : option (list (Event * usize)) :=
  if nf_closed n || (nf_capacity n <=? Z.of_nat (length (nf_queue n))) then None
  else Some (nf_queue n ++ [(e, size)]).

Definition selected (n : Notifier) (e : Event) : bool :=
  match nf_select n with Some types => existsb (fun k => bool_decide (k = ev_kind e)) types | None => true end.

(** The body of the loop of [emit]. *)
Definition offer (n : Notifier) (e : Event) (size : usize) : Notifier :=
  if negb (selected n e) then n else
  let drop := mkNotifier (nf_name n) (nf_capacity n) (nf_queue n) (nf_closed n) (nf_taken n)
    (nf_bytes n + size - size) (nf_max_bytes n) (nf_select n) (nf_dropped n + 1) in
  if nf_max_bytes n <? nf_bytes n + size then drop else
  match try_send n e size with
  | None => drop
  | Some queue => mkNotifier (nf_name n) (nf_capacity n) queue (nf_closed n) (nf_taken n)
      (nf_bytes n + size) (nf_max_bytes n) (nf_select n) (nf_dropped n)
  end.

Context (to_json : Event -> str).

Definition Bus_emit (b : Bus) (now : Z) (new : NewEvent) : Bus * Event :=
  let seq := bus_seq b + 1 in
  let event := mkEvent seq (bus_instance b) (rfc3339 now) (ne_kind new) (ne_uplink new) (ne_family new)
    (ne_old new) (ne_new new) (ne_reason new) (ne_message new) false in
  let json := to_json event in
  (mkBus (bus_instance b) seq (Ring_push (bus_ring b) seq json) seq
     ((fun n => offer n event (str_len json)) <$> bus_notifiers b), event).

(** [Queue::recv] and [try_recv]: taking the oldest entry, then subtracting
    its size; and the receiver's end going away. *)
Definition Queue_take (n : Notifier) : option (Event * Notifier) :=
  match nf_queue n with
  | [] => None
  | (e, size) :: queue =>
      Some (e, mkNotifier (nf_name n) (nf_capacity n) queue (nf_closed n) (nf_taken n ++ [size])
        (nf_bytes n) (nf_max_bytes n) (nf_select n) (nf_dropped n))
  end.
Definition Queue_settle (n : Notifier) : option Notifier :=
  match nf_taken n with
  | [] => None
  | size :: taken => Some (mkNotifier (nf_name n) (nf_capacity n) (nf_queue n) (nf_closed n) taken
      (nf_bytes n - size) (nf_max_bytes n) (nf_select n) (nf_dropped n))
  end.
End bus.
Arguments Event : clear implicits.
Arguments NewEvent : clear implicits.
Arguments Notifier : clear implicits.
Arguments Bus : clear implicits.

(** ** The calendar *)

Definition leap (y : Z) : bool := ((y mod 4 =? 0) && negb (y mod 100 =? 0)) || (y mod 400 =? 0).

Definition days_in_month (y m : Z) : Z :=
  if m =? 2 then (if leap y then 29 else 28)
  else if (m =? 4) || (m =? 6) || (m =? 9) || (m =? 11) then 30 else 31.

(** The calendar day after a date. *)
Definition next_day (date : Z * Z * Z) : Z * Z * Z :=
  let '(y, m, d) := date in
  if d <? days_in_month y m then (y, m, d + 1)
  else if m <? 12 then (y, m + 1, 1) else (y + 1, 1, 1).

Section calendar.
(** Years of an era counted from 1 March: the first day of year [y] of the
    era, the year of a day, and month and day of a day of the year. *)
Definition year_start (y : Z) : Z := 365 * y + y / 4 - y / 100.
Definition year_end (y : Z) : Z := if y =? 399 then 146097 else year_start (y + 1).
Definition year_of_era (doe : Z) : Z := (doe - doe / 1460 + doe / 36524 - doe / 146096) / 365.
Definition month_day (doy : Z) : Z * Z :=
  let mp := (5 * doy + 2) / 153 in (if mp <? 10 then mp + 3 else mp - 9, doy - (153 * mp + 2) / 5 + 1).

Lemma civil_split era doe : 0 <= doe < 146097 ->
  civil (146097 * era + doe - 719468) =
    let y := year_of_era doe in let '(m, d) := month_day (doe - year_start y) in
    (y + era * 400 + (if m <=? 2 then 1 else 0), m, d).
Proof.
  intros Hd. unfold civil. replace (146097 * era + doe - 719468 + 719468) with (doe + era * 146097) by lia.
  rewrite Z.div_add, Z.mod_add, (Z.div_small doe 146097), (Z.mod_small doe 146097) by lia. done.
Qed.

Lemma year_of_era_mono a b : 0 <= a <= b -> b < 146097 -> year_of_era a <= year_of_era b.
Proof.
  intros [Ha Hab] Hb. revert Hb. pattern b. apply Zlt_lower_bound_ind with a; [|done].
  intros x IH Hx Hb. destruct (Z.eq_dec x a) as [->|]; [done|].
  etransitivity; [apply (IH (x - 1)); lia|]. unfold year_of_era. apply Z.div_le_mono; [lia|].
  assert (x - 1 < 146096) by lia. assert ((x - 1) / 146096 = 0) as -> by (apply Z.div_small; lia).
  destruct (Z.eq_dec x 146096) as [->|]; [done|]. assert (x / 146096 = 0) as -> by (apply Z.div_small; lia).
  Z.to_euclidean_division_equations; lia.
Qed.

Lemma year_table y : 0 <= y <= 399 ->
  year_of_era (year_start y) = y /\ year_of_era (year_end y - 1) = y /\
  year_start y < year_end y <= 146097 /\
  year_end y = year_start y + (if leap (y + 1) then 366 else 365).
Proof.
  intros Hy. pose (check := fun y => (year_of_era (year_start y) =? y) && (year_of_era (year_end y - 1) =? y) &&
    (year_start y <? year_end y) && (year_end y <=? 146097) &&
    (year_end y =? year_start y + (if leap (y + 1) then 366 else 365))).
  assert (Hc : check y = true).
  { apply (proj1 (forallb_elem_of check (seqZ 0 400))); [by vm_compute|]. apply elem_of_seqZ. lia. }
  unfold check in Hc. bool_simpl. done.
Qed.

Lemma year_of_era_spec doe : 0 <= doe < 146097 ->
  let y := year_of_era doe in 0 <= y <= 399 /\ year_start y <= doe < year_end y.
Proof.
  intros Hd. assert (Hy : 0 <= year_of_era doe <= 399).
  { split; [apply (year_of_era_mono 0); lia|]. apply (year_of_era_mono doe 146096); lia. }
  split; [done|]. destruct (year_table _ Hy) as (_ & _ & [_ Hle] & _).
  split; apply Z.nlt_ge || apply Z.nle_gt; intros Hlt.
  - assert (0 < year_of_era doe) as Hpos.
    { destruct (Z.eq_dec (year_of_era doe) 0) as [E|]; [|lia]. rewrite E in Hlt. change (year_start 0) with 0 in Hlt. lia. }
    destruct (year_table (year_of_era doe - 1)) as (_ & He & [Hs Hle'] & _); [lia|].
    assert (year_end (year_of_era doe - 1) = year_start (year_of_era doe)) as E.
    { unfold year_end. destruct (Z.eqb_spec (year_of_era doe - 1) 399); [lia|]. f_equal. lia. }
    pose proof (year_of_era_mono doe (year_end (year_of_era doe - 1) - 1)). lia.
  - assert (year_of_era doe <> 399) as Hne.
    { intros E. rewrite E in Hlt. change (year_end 399) with 146097 in Hlt. lia. }
    destruct (year_table (year_of_era doe + 1)) as (He & _ & [Hs Hle'] & _); [lia|].
    assert (year_end (year_of_era doe) = year_start (year_of_era doe + 1)) as E.
    { unfold year_end. destruct (Z.eqb_spec (year_of_era doe) 399); [lia|]. done. }
    assert (0 <= year_start (year_of_era doe + 1)) by (unfold year_start; Z.to_euclidean_division_equations; lia).
    pose proof (year_of_era_mono (year_start (year_of_era doe + 1)) doe). lia.
Qed.

(** The days of a month when a year is leap or not. *)
Definition month_length (lp : bool) (m : Z) : Z :=
  if m =? 2 then (if lp then 29 else 28)
  else if (m =? 4) || (m =? 6) || (m =? 9) || (m =? 11) then 30 else 31.

(** Stepping through the days of a year that ends with a (leap) February. *)
Lemma month_step lp doy : 0 <= doy < (if lp : bool then 365 else 364) ->
  let '(m, d) := month_day doy in
  let '(m', d') := month_day (doy + 1) in
  1 <= m <= 12 /\
  (d < month_length lp m /\ m' = m /\ d' = d + 1 \/
   d = month_length lp m /\ m < 12 /\ m <> 2 /\ m' = m + 1 /\ d' = 1 \/
   d = month_length lp m /\ m = 12 /\ m' = 1 /\ d' = 1).
Proof.
  intros Hd.
  pose (check := fun lp doy => let '(m, d) := month_day doy in let '(m', d') := month_day (doy + 1) in
    (1 <=? m) && (m <=? 12) &&
    ((d <? month_length lp m) && (m' =? m) && (d' =? d + 1) ||
     (d =? month_length lp m) && (m <? 12) && negb (m =? 2) && (m' =? m + 1) && (d' =? 1) ||
     (d =? month_length lp m) && (m =? 12) && (m' =? 1) && (d' =? 1))).
  assert (Hc : check lp doy = true).
  { destruct lp.
    - apply (proj1 (forallb_elem_of (check true) (seqZ 0 365))); [by vm_compute|]. apply elem_of_seqZ. lia.
    - apply (proj1 (forallb_elem_of (check false) (seqZ 0 364))); [by vm_compute|]. apply elem_of_seqZ. lia. }
  unfold check in Hc. clear check Hd. destruct (month_day doy) as [m d], (month_day (doy + 1)) as [m' d'].
  rewrite !andb_true_iff, !orb_true_iff, !andb_true_iff, negb_true_iff, !Z.leb_le, !Z.ltb_lt, !Z.eqb_eq, Z.eqb_neq in Hc.
  tauto.
Qed.

Lemma leap_era y era : leap (y + era * 400) = leap y.
Proof.
  unfold leap. replace (y + era * 400) with (y + (era * 4) * 100) at 2 by lia.
  replace (y + era * 400) with (y + (era * 100) * 4) at 1 by lia. by rewrite !Z.mod_add by lia.
Qed.

(** The day after, within an era. *)
Lemma civil_next_in_year era y doy : 0 <= y <= 399 -> 0 <= doy -> year_start y + doy + 1 < year_end y ->
  let date doy := let '(m, d) := month_day doy in (y + era * 400 + (if m <=? 2 then 1 else 0), m, d) in
  date (doy + 1) = next_day (date doy).
Proof.
  intros Hy H0 Hd. cbn zeta. destruct (year_table y Hy) as (_ & _ & _ & Hlen). rewrite Hlen in Hd.
  pose proof (month_step (leap (y + 1)) doy) as Hs.
  destruct (month_day doy) as [m d], (month_day (doy + 1)) as [m' d'].
  destruct Hs as (Hm & Hs); [destruct (leap (y + 1)); lia|].
  assert (Hlm : days_in_month (y + era * 400 + (if m <=? 2 then 1 else 0)) m = month_length (leap (y + 1)) m).
  { unfold days_in_month, month_length. destruct (Z.eqb_spec m 2) as [->|]; [|done]. simpl.
    replace (y + era * 400 + 1) with (y + 1 + era * 400) by lia. by rewrite leap_era. }
  unfold next_day. rewrite Hlm.
  destruct Hs as [(Hlt & -> & ->)|[(-> & Hm12 & Hm2 & -> & ->)|(-> & -> & -> & ->)]].
  - apply Z.ltb_lt in Hlt. by rewrite Hlt.
  - rewrite Z.ltb_irrefl. apply Z.ltb_lt in Hm12 as Hb. rewrite Hb.
    destruct (Z.leb_spec m 2), (Z.leb_spec (m + 1) 2); done || lia.
  - rewrite Z.ltb_irrefl. simpl. f_equal. f_equal. lia.
Qed.

(** The last day of a year that ends with February. *)
Lemma civil_last era y : 0 <= y <= 399 ->
  let '(m, d) := month_day (year_end y - 1 - year_start y) in
  next_day (y + era * 400 + (if m <=? 2 then 1 else 0), m, d) = (y + 1 + era * 400, 3, 1).
Proof.
  intros Hy. destruct (year_table y Hy) as (_ & _ & _ & ->).
  pose proof (leap_era (y + 1) era) as Hl. destruct (leap (y + 1)).
  - replace (year_start y + 366 - 1 - year_start y) with 365 by lia. change (month_day 365) with (2, 29). simpl.
    unfold days_in_month. simpl. replace (y + era * 400 + 1) with (y + 1 + era * 400) by lia. by rewrite Hl.
  - replace (year_start y + 365 - 1 - year_start y) with 364 by lia. change (month_day 364) with (2, 28). simpl.
    unfold days_in_month. simpl. replace (y + era * 400 + 1) with (y + 1 + era * 400) by lia. by rewrite Hl.
Qed.
End calendar.

(** Timestamps count the calendar: day 0 is 1 January 1970, and the date
    of every following day is the calendar day after it (months of 28 to 31
    days, leap years by the Gregorian rule), for all days, before and after
    the epoch. *)
Theorem civil_calendar (days : Z) :
  civil 0 = (1970, 1, 1) /\ civil (days + 1) = next_day (civil days).
Proof.
  split; [done|].
  pose proof (Z.div_mod (days + 719468) 146097 ltac:(lia)) as Hdm.
  pose proof (Z.mod_pos_bound (days + 719468) 146097 ltac:(lia)) as Hb.
  set (era := (days + 719468) / 146097) in *. set (doe := (days + 719468) mod 146097) in *.
  replace days with (146097 * era + doe - 719468) by lia. rewrite civil_split by done. cbn zeta.
  destruct (year_of_era_spec doe Hb) as [Hy [Hs He]]. set (y := year_of_era doe) in *.
  destruct (year_table y Hy) as (Hys & Hye & [Hlt Hle] & _).
  destruct (Z.eq_dec (doe + 1) (year_end y)) as [Hlast|Hin].
  - pose proof (civil_last era y Hy) as Hcl. replace (year_end y - 1 - year_start y) with (doe - year_start y) in Hcl by lia.
    destruct (month_day (doe - year_start y)) as [m d]. rewrite Hcl.
    destruct (Z.eq_dec y 399) as [E|Hne].
    + assert (doe = 146096) as Hdoe by (rewrite E in Hlast; change (year_end 399) with 146097 in Hlast; lia).
      replace (146097 * era + doe - 719468 + 1) with (146097 * (era + 1) + 0 - 719468) by lia.
      rewrite civil_split by lia. change (year_of_era 0) with 0. cbn zeta.
      change (month_day (0 - year_start 0)) with (3, 1). cbv iota beta. change (3 <=? 2) with false. cbv iota.
      rewrite E. f_equal. f_equal. lia.
    + assert (year_end y = year_start (y + 1)) as Hend by (unfold year_end; destruct (Z.eqb_spec y 399); [lia|done]).
      replace (146097 * era + doe - 719468 + 1) with (146097 * era + year_start (y + 1) - 719468) by lia.
      destruct (year_table (y + 1)) as (Hys' & _ & [Hlt' Hle'] & _); [lia|].
      rewrite civil_split by lia. cbn zeta. rewrite Hys', Z.sub_diag. change (month_day 0) with (3, 1). cbv iota beta.
      change (3 <=? 2) with false. cbv iota. f_equal. f_equal. lia.
  - replace (146097 * era + doe - 719468 + 1) with (146097 * era + (doe + 1) - 719468) by lia.
    rewrite civil_split by lia. cbn zeta.
    assert (year_of_era (doe + 1) = y) as ->.
    { pose proof (year_of_era_mono doe (doe + 1) ltac:(lia) ltac:(lia)) as Hm1. fold y in Hm1.
      pose proof (year_of_era_mono (doe + 1) (year_end y - 1) ltac:(lia) ltac:(lia)) as Hm2. lia. }
    replace (doe + 1 - year_start y) with (doe - year_start y + 1) by lia.
    apply (civil_next_in_year era y (doe - year_start y)); lia.
Qed.

(** ** The history *)

Definition total (events : list (u64 * str)) : Z := foldr (fun e n => str_len (snd e) + n) 0 events.

Definition within (events : list (u64 * str)) : Prop :=
  Z.of_nat (length events) <= RING_EVENTS /\ total events <= RING_BYTES.

(** The ring after the given pushes. *)
Definition history (instance : str) (h : list (u64 * str)) : Ring :=
  foldl (fun r e => Ring_push r (fst e) (snd e)) (Ring_new instance) h.

Lemma total_app a b : total (a ++ b) = total a + total b.
Proof. induction a as [|x a IH]; simpl; [done|]. rewrite IH. lia. Qed.

Lemma str_len_nonneg s : 0 <= str_len s.
Proof.
  induction s as [|c s IH]; simpl; [done|]. unfold char_len_utf8. repeat case_match; lia.
Qed.

Lemma total_nonneg l : 0 <= total l.
Proof. induction l as [|x l IH]; simpl; [done|]. pose proof (str_len_nonneg (snd x)). lia. Qed.

(** [es] is the longest suffix of [l] within the bounds. *)
Definition longest_suffix (l es : list (u64 * str)) : Prop :=
  (exists evicted, l = evicted ++ es) /\ within es /\
  (forall pre suf, l = pre ++ suf -> within suf -> (length suf <= length es)%nat).

Lemma evict_spec events es b : evict events (total events) = (es, b) ->
  b = total es /\ longest_suffix events es.
Proof.
  induction events as [|[s j] events IH]; cbn [evict]; intros E.
  - assert (es = [] /\ b = 0) as [-> ->] by (destruct (_ || _) in E; by simplify_eq).
    split; [done|]. split_and!; [by exists []|done..|].
    intros pre suf H%symmetry. apply app_nil in H as [_ ->]. done.
  - destruct (_ || _) eqn:Ec in E.
    + replace (total ((s, j) :: events) - str_len j) with (total events) in E by (simpl; lia).
      destruct (IH E) as (Hb & (ev & Hev) & Hw & Hmax). split; [done|]. split_and!; [|done|].
      * exists ((s, j) :: ev). by rewrite Hev.
      * intros pre suf Hps Hsuf. destruct pre as [|x pre].
        { exfalso. simpl in Hps. subst suf. destruct Hsuf as [H1 H2].
          apply orb_true_iff in Ec as [Ec|Ec]; bool_simpl; lia. }
        injection Hps as _ Hps. by eapply Hmax.
    + simplify_eq. bool_simpl. split; [done|]. split_and!; [by exists []|by split; lia|].
      intros pre suf -> _. rewrite length_app. lia.
Qed.

(** Dropping elements keeps a list within the bounds. *)
Lemma within_app_r a b : within (a ++ b) -> within b.
Proof.
  unfold within. rewrite length_app, total_app. pose proof (total_nonneg a). lia.
Qed.
Lemma within_app_l a b : within (a ++ b) -> within a.
Proof.
  unfold within. rewrite length_app, total_app. pose proof (total_nonneg b). lia.
Qed.

Lemma Ring_history_spec (instance : str) (h : list (u64 * str)) :
  let r := history instance h in
  rg_instance r = instance /\ rg_bytes r = total (rg_events r) /\ longest_suffix h (rg_events r).
Proof.
  cbn zeta. induction h as [|x h IH] using rev_ind.
  { split_and!; try done. split_and!; [by exists []|done..|]. intros pre suf H%symmetry. apply app_nil in H as [_ ->]. done. }
  unfold history in *. rewrite foldl_app. simpl. destruct IH as (Hi & Hb & (ev & Hev) & Hw & Hmax).
  set (r := foldl _ _ h) in *. unfold Ring_push. destruct x as [s j]. simpl.
  assert (Hbytes : rg_bytes r + str_len j = total (rg_events r ++ [(s, j)])) by (rewrite total_app; simpl; lia).
  rewrite Hbytes. destruct (evict _ _) as [es b] eqn:E. apply evict_spec in E as (-> & (ev' & Hev') & Hw' & Hmax').
  simpl. split_and!; [done|done|]. split_and!; [|done|].
  - exists (ev ++ ev'). rewrite Hev, <- !app_assoc. by rewrite Hev'.
  - intros pre suf Hps Hsuf. destruct suf as [|y suf' _] using rev_ind; [simpl; lia|].
    rewrite app_assoc in Hps. apply app_inj_tail in Hps as [Hps <-].
    assert (Hle : (length suf' <= length (rg_events r))%nat) by (eapply Hmax; [done|by eapply within_app_l]).
    assert (exists mid, rg_events r = mid ++ suf') as [mid Hmid].
    { rewrite Hev in Hps. apply app_eq_app in Hps as [l [[_ ->]|[_ ->]]]; [|by exists l].
      rewrite length_app in Hle. destruct l; [by exists []|simpl in Hle; lia]. }
    apply (Hmax' mid (suf' ++ [(s, j)])); [|done]. by rewrite Hmid, <- app_assoc.
Qed.

(** The history is exact: whatever was pushed, the ring holds the
    longest run of the latest events that is within both bounds (the number
    of events and their bytes), in order, and its byte count is theirs. *)
Theorem Ring_history (instance : str) (h : list (u64 * str)) :
  let r := history instance h in
  rg_instance r = instance /\ rg_bytes r = total (rg_events r) /\ longest_suffix h (rg_events r).
Proof. apply Ring_history_spec. Qed.

(** ** Pages of the history *)

(** Events after the cursor. *)
Definition is_after (after : option u64) (e : u64 * str) : bool :=
  match after with Some a => negb (fst e <=? a) | None => true end.

Lemma page_loop_spec events after limit max_bytes out bytes :
  let rest := List.filter (is_after after) events in
  exists n, page_loop events after limit max_bytes out bytes = out ++ (snd <$> take n rest) /\
    (n <= length rest)%nat /\
    (n = O \/ Z.of_nat (length out + n) <= Z.min limit RING_EVENTS) /\
    (n = O \/ bytes + total (take n rest) <= max_bytes \/ (out = [] /\ n = 1%nat)) /\
    (rest <> [] -> out = [] -> 1 <= limit -> (1 <= n)%nat).
Proof.
  cbn zeta. revert out bytes. induction events as [|[seq json] events IH]; intros out bytes; simpl.
  { exists O. rewrite app_nil_r. split_and!; [done|done|by left|by left|done]. }
  replace (is_after after (seq, json)) with (negb (match after with Some a => seq <=? a | None => false end))
    by (by destruct after).
  destruct (match after with Some a => seq <=? a | None => false end); cbn [negb]; [apply IH|].
  destruct (_ || _) eqn:Ec.
  { exists O. rewrite app_nil_r. split_and!; [done|simpl; lia|by left|by left|].
    intros _ -> Hl. simpl in Ec. bool_simpl. rewrite orb_false_r in Ec. bool_simpl. unfold RING_EVENTS in Ec. lia. }
  apply orb_false_iff in Ec as [Ec1 Ec2]. bool_simpl.
  destruct (IH (out ++ [json]) (bytes + str_len json)) as (n & E & Hn & Hlim & Hby & _).
  exists (S n). rewrite E, <- app_assoc. simpl. rewrite length_app in Hlim. simpl in Hlim.
  split_and!; [done|lia|right; lia| |intros; lia].
  right. apply andb_false_iff in Ec2. destruct Hby as [->|[Hby|[Hby _]]].
  - rewrite take_0. simpl. destruct Ec2 as [Ec2|Ec2]; bool_simpl; [right; done|left; lia].
  - left. lia.
  - by destruct out.
Qed.

(** Sequence numbers count from 1, as the bus assigns them. *)
Definition numbered (h : list (u64 * str)) : Prop :=
  forall i e, h !! i = Some e -> fst e = Z.of_nat i + 1.

Lemma ring_numbers instance h : numbered h -> rg_events (history instance h) <> [] ->
  let r := history instance h in
  exists evicted, h = evicted ++ rg_events r /\ Ring_latest r = Z.of_nat (length h) /\
    (fst <$> head (rg_events r)) = Some (Z.of_nat (length evicted) + 1).
Proof.
  intros Hnum Hne. cbn zeta. destruct (Ring_history_spec instance h) as (_ & _ & (ev & Hev) & _).
  exists ev. split; [done|]. set (es := rg_events (history instance h)) in *. split.
  - unfold Ring_latest. fold es. destruct es as [|x es _] using rev_ind; [done|]. rewrite last_snoc. destruct x as [s j].
    assert (Hl : h !! (length ev + length es)%nat = Some (s, j)).
    { rewrite Hev, lookup_app_r by lia. rewrite lookup_app_r by lia.
      replace (length ev + length es - length ev - length es)%nat with O by lia. done. }
    apply Hnum in Hl. rewrite Hev, !length_app. simpl in *. lia.
  - destruct es as [|[s j] es]; [done|]. simpl.
    assert (Hl : h !! length ev = Some (s, j)) by (rewrite Hev; by apply list_lookup_middle).
    apply Hnum in Hl. simpl in Hl. by rewrite Hl.
Qed.

(** A client that pages through the history advances and learns of every
    loss. With its own instance and a cursor that is not beyond the latest
    event, the page is not a reset, holds the events after the cursor in
    order from the first one still kept, at least one when there is one,
    within the limit, and within the bytes unless it is a single event; it
    is marked truncated exactly when an event after the cursor was evicted.
    With another instance, or a cursor beyond the latest event, the page is
    a reset and starts at the oldest event kept. *)
Theorem Ring_page_spec (instance : str) (h : list (u64 * str)) (client : str) (a limit max_bytes : Z)
    (Hnum : numbered h) (Hne : rg_events (history instance h) <> []) (Ha : 0 <= a) (Hlimit : 1 <= limit) :
  let r := history instance h in
  let p := Ring_page r (Some client) (Some a) limit max_bytes in
  let known := client = instance /\ a <= Z.of_nat (length h) in
  let new := List.filter (is_after (if decide known then Some a else None)) (rg_events r) in
  (pg_reset p = true <-> ~ known) /\
  (pg_truncated p = true <-> known /\ exists i e, h !! i = Some e /\ a < fst e /\ e ∉ rg_events r) /\
  exists n, pg_events p = snd <$> take n new /\ (new <> [] -> (1 <= n)%nat) /\ Z.of_nat n <= limit /\
    (total (take n new) <= max_bytes \/ (n <= 1)%nat).
Proof.
  cbn zeta. destruct (ring_numbers instance h Hnum Hne) as (ev & Hev & Hlat & Hhd).
  destruct (Ring_history_spec instance h) as (Hi & _). set (r := history instance h) in *.
  unfold Ring_page. rewrite Hlat, Hi. cbn [pg_reset pg_truncated pg_events].
  destruct (head (rg_events r)) as [[oldest j]|] eqn:Eh; [|done]. injection Hhd as Hold.
  assert (Hreset : negb (bool_decide (client = instance)) || (Z.of_nat (length h) <? a) =
    negb (bool_decide (client = instance /\ a <= Z.of_nat (length h)))).
  { destruct (decide (client = instance)) as [->|Hc].
    - rewrite bool_decide_eq_true_2 by done. simpl. destruct (Z.ltb_spec (Z.of_nat (length h)) a);
        [rewrite bool_decide_eq_false_2 by lia|rewrite bool_decide_eq_true_2 by done]; done.
    - rewrite (bool_decide_eq_false_2 (client = instance)) by done. simpl. by rewrite bool_decide_eq_false_2 by tauto. }
  rewrite Hreset. destruct (decide (client = instance /\ _)) as [Hk|Hk];
    [rewrite (bool_decide_eq_true_2 _ Hk)|rewrite (bool_decide_eq_false_2 _ Hk)]; simpl; split_and!.
  - split; [done|]. intros Hn. by destruct (Hn Hk).
  - rewrite Z.ltb_lt. split.
    + intros Hlt. split; [done|]. exists (length ev - 1)%nat.
      destruct (lookup_lt_is_Some_2 ev (length ev - 1)) as [e He]; [lia|].
      assert (Hh : h !! (length ev - 1)%nat = Some e) by (rewrite Hev; by apply lookup_app_l_Some).
      exists e. split; [done|]. apply Hnum in Hh as Hs. split; [lia|].
      intros [k Hin]%list_elem_of_lookup. pose proof (Hnum (length ev + k)%nat e) as Hn.
      rewrite Hev, lookup_app_r in Hn by lia. replace (length ev + k - length ev)%nat with k in Hn by lia.
      apply Hn in Hin. lia.
    + intros [_ (i & e & Hh & Hlt & Hnot)]. apply Hnum in Hh as Hs.
      destruct (decide (i < length ev)%nat); [lia|]. exfalso. apply Hnot.
      rewrite Hev, lookup_app_r in Hh by lia. by apply list_elem_of_lookup_2 in Hh.
  - destruct (page_loop_spec (rg_events r) (Some a) limit max_bytes [] 0) as (n & -> & _ & Hl & Hb & Hp).
    exists n. simpl in *. split_and!; [done|by intros; apply Hp|lia|]. destruct Hb as [->|[Hb|[_ ->]]]; auto.
  - done.
  - split; [done|]. intros [? _]. done.
  - destruct (page_loop_spec (rg_events r) None limit max_bytes [] 0) as (n & -> & _ & Hl & Hb & Hp).
    exists n. simpl in *. split_and!; [done|by intros; apply Hp|lia|]. destruct Hb as [->|[Hb|[_ ->]]]; auto.
Qed.

Lemma Ring_page_spec_witness :
  let h := [(1, lit "a"); (2, lit "b"); (3, lit "c")] in
  pg_events (Ring_page (history [] h) (Some []) (Some 1) 10 100) = [lit "b"; lit "c"] /\
  (pg_reset (Ring_page (history [] h) (Some []) (Some 1) 10 100) = true <-> ~ ([] = [] :> str /\ 1 <= 3)).
Proof.
  split; [vm_compute; reflexivity|].
  apply (Ring_page_spec [] [(1, lit "a"); (2, lit "b"); (3, lit "c")] [] 1 10 100); [|discriminate|lia|lia].
  intros i e. destruct i as [|[|[|i]]]; intros [= <-]; reflexivity.
Defined.

(** ** Runs of the bus *)

Section runs.
Context {Value : Type} (to_json : Event Value -> str).

(** What the State task and the receivers do, in any order. *)
Inductive BusOp :=
  | Op_Emit (now : Z) (new : NewEvent Value)
  | Op_Add (name : str) (capacity max_bytes : usize)
  | Op_Select (name : str) (types : option (list str))
  | Op_Take (i : nat)
  | Op_Settle (i : nat)
  | Op_Close (i : nat).

Definition close (n : Notifier Value) : Notifier Value :=
  mkNotifier (nf_name n) (nf_capacity n) (nf_queue n) true (nf_taken n) (nf_bytes n) (nf_max_bytes n)
    (nf_select n) (nf_dropped n).

Definition on_notifier (i : nat) (f : Notifier Value -> Notifier Value) (b : Bus Value) : Bus Value :=
  mkBus (bus_instance b) (bus_seq b) (bus_ring b) (bus_latest b) (alter f i (bus_notifiers b)).

Definition bus_op (op : BusOp) (s : Bus Value * list (Event Value)) : Bus Value * list (Event Value) :=
  let '(b, emitted) := s in
  match op with
  | Op_Emit now new => let '(b, e) := Bus_emit to_json b now new in (b, emitted ++ [e])
  | Op_Add name capacity max_bytes => (add_notifier b name capacity max_bytes, emitted)
  | Op_Select name types => (Bus_select b name types, emitted)
  | Op_Take i => (on_notifier i (fun n => match Queue_take n with Some (_, n') => n' | None => n end) b, emitted)
  | Op_Settle i => (on_notifier i (fun n => default n (Queue_settle n)) b, emitted)
  | Op_Close i => (on_notifier i close b, emitted)
  end.

Definition bus_run (instance : str) (ops : list BusOp) : Bus Value * list (Event Value) :=
  foldl (fun s op => bus_op op s) (Bus_new instance, []) ops.

Definition sizes (l : list usize) : Z := foldr Z.add 0 l.

(** A notifier's queue: within its bounds, its counter exact, its entries
    emitted events with their serialised size, in order of emission. *)
Record notifier_wf (emitted : list (Event Value)) (n : Notifier Value) : Prop := {
  nw_capacity : Z.of_nat (length (nf_queue n)) <= nf_capacity n;
  nw_bytes : nf_bytes n = sizes (snd <$> nf_queue n) + sizes (nf_taken n);
  nw_max : nf_bytes n <= nf_max_bytes n;
  nw_taken : Forall (fun s => 0 <= s) (nf_taken n);
  nw_entries : forall e size, (e, size) ∈ nf_queue n -> e ∈ emitted /\ size = str_len (to_json e);
  nw_order : StronglySorted (fun x y => ev_seq (fst x) < ev_seq (fst y)) (nf_queue n)
}.

Record bus_wf (instance : str) (b : Bus Value) (emitted : list (Event Value)) : Prop := {
  bw_instance : bus_instance b = instance;
  bw_seq : bus_seq b = Z.of_nat (length emitted) /\ bus_latest b = bus_seq b;
  bw_numbers : forall i e, emitted !! i = Some e -> ev_seq e = Z.of_nat i + 1 /\ ev_instance e = instance;
  bw_ring : bus_ring b = history instance ((fun e => (ev_seq e, to_json e)) <$> emitted);
  bw_notifiers : Forall (notifier_wf emitted) (bus_notifiers b)
}.

Lemma sizes_app a b : sizes (a ++ b) = sizes a + sizes b.
Proof. induction a as [|x a IH]; simpl; [done|]. rewrite IH. lia. Qed.

Lemma sizes_cons x l : sizes (x :: l) = x + sizes l.
Proof. done. Qed.

Lemma notifier_wf_more emitted e n : notifier_wf emitted n -> notifier_wf (emitted ++ [e]) n.
Proof. intros [? ? ? ? He ?]. split; try done. intros x size Hx. apply He in Hx. set_solver. Qed.

Lemma offer_wf emitted n e : (forall x, x ∈ emitted -> ev_seq x < ev_seq e) -> notifier_wf emitted n ->
  notifier_wf (emitted ++ [e]) (offer n e (str_len (to_json e))).
Proof.
  intros Hlt Hn. pose proof Hn as [Hc Hb Hm Ht He Ho]. apply (notifier_wf_more _ e) in Hn as Hn'. unfold offer.
  destruct (negb (selected n e)); [done|].
  assert (Hdrop : notifier_wf (emitted ++ [e]) (mkNotifier (nf_name n) (nf_capacity n) (nf_queue n) (nf_closed n)
    (nf_taken n) (nf_bytes n + str_len (to_json e) - str_len (to_json e)) (nf_max_bytes n) (nf_select n)
    (nf_dropped n + 1))).
  { replace (nf_bytes n + _ - _) with (nf_bytes n) by lia. destruct Hn'. by split. }
  destruct (Z.ltb_spec (nf_max_bytes n) (nf_bytes n + str_len (to_json e))); [done|].
  unfold try_send. destruct (nf_closed n || _) eqn:Ec; [done|]. bool_simpl. split; simpl.
  - rewrite length_app. simpl. lia.
  - rewrite fmap_app, sizes_app, Hb, fmap_cons, sizes_cons. change (sizes (snd <$> [])) with 0. cbn [snd]. lia.
  - lia.
  - done.
  - intros x size [Hx|[= -> ->]%list_elem_of_singleton]%elem_of_app; [|set_solver]. apply He in Hx. set_solver.
  - apply StronglySorted_snoc; [done|]. intros [x size] Hx. simpl. apply Hlt. by apply (He x size).
Qed.

Lemma take_wf emitted n : notifier_wf emitted n ->
  notifier_wf emitted (match Queue_take n with Some (_, n') => n' | None => n end).
Proof.
  intros Hn. pose proof Hn as [Hc Hb Hm Ht He Ho]. unfold Queue_take. destruct (nf_queue n) as [|[e size] q]; [done|].
  destruct (He e size) as [_ Hsize]; [set_solver|]. pose proof (str_len_nonneg (to_json e)).
  rewrite fmap_cons, sizes_cons in Hb. cbn [length snd] in Hc, Hb.
  split; cbn [nf_queue nf_taken nf_bytes nf_capacity nf_max_bytes];
    [lia|rewrite sizes_app, sizes_cons; change (sizes []) with 0; lia|done| | |by inversion Ho].
  - apply Forall_app. split; [done|]. constructor; [lia|done].
  - intros x s Hx. apply He. set_solver.
Qed.

Lemma settle_wf emitted n : notifier_wf emitted n ->
  notifier_wf emitted (default n (Queue_settle n)).
Proof.
  intros Hn. pose proof Hn as [Hc Hb Hm Ht He Ho]. unfold Queue_settle. destruct (nf_taken n) as [|size q]; [done|].
  apply Forall_cons in Ht as [Hs Ht]. rewrite sizes_cons in Hb.
  cbn [default from_option]. split; cbn [id nf_queue nf_taken nf_bytes nf_capacity nf_max_bytes]; [done|lia|lia|done..].
Qed.

Lemma close_wf emitted n : notifier_wf emitted n -> notifier_wf emitted (close n).
Proof. intros []. by split. Qed.

Definition op_ok (op : BusOp) : Prop :=
  match op with Op_Add _ capacity max_bytes => 0 <= capacity /\ 0 <= max_bytes | _ => True end.

Lemma on_notifier_wf instance b emitted i f :
  (forall n, notifier_wf emitted n -> notifier_wf emitted (f n)) ->
  bus_wf instance b emitted -> bus_wf instance (on_notifier i f b) emitted.
Proof.
  intros Hf [? ? ? ? Hn]. split; try done. simpl. apply Forall_forall. intros n [j Hj]%list_elem_of_lookup.
  rewrite Forall_forall in Hn. destruct (decide (i = j)) as [->|Hij].
  - rewrite list_lookup_alter_eq in Hj. apply fmap_Some in Hj as (n' & Hn' & ->).
    apply Hf, Hn. by apply list_elem_of_lookup_2 in Hn'.
  - rewrite list_lookup_alter_ne in Hj by done. apply Hn. by apply list_elem_of_lookup_2 in Hj.
Qed.

Lemma emit_wf instance b emitted now new : bus_wf instance b emitted ->
  let '(b', e) := Bus_emit to_json b now new in bus_wf instance b' (emitted ++ [e]).
Proof.
  intros [Hi [Hs Hl] Hnum Hr Hn]. unfold Bus_emit. cbn zeta. set (e := mkEvent _ _ _ _ _ _ _ _ _ _ _). split; simpl.
  - done.
  - rewrite length_app. simpl. lia.
  - intros i x Hx. apply lookup_app_Some in Hx as [Hx|[Hle Hx]]; [by apply Hnum|].
    apply list_lookup_singleton_Some in Hx as [Hx <-]. simpl. split; [lia|done].
  - rewrite fmap_app. unfold history. rewrite foldl_app. simpl. by rewrite Hr.
  - apply Forall_fmap, Forall_forall. intros n Hin. rewrite Forall_forall in Hn. apply offer_wf; [|by apply Hn].
    intros x [i Hx]%list_elem_of_lookup. apply lookup_lt_Some in Hx as Hlt. apply Hnum in Hx as [-> _].
    simpl. lia.
Qed.
End runs.

(** C35: The bus is exact and bounded under every interleaving of emissions,
    selections, new notifiers and receivers that take, settle their byte
    counts and go away. The latest sequence number is the number of events
    emitted, the events are numbered from 1, the history is that of exactly
    those events, and every notifier's queue stays within its capacity and
    its bytes, counts the bytes queued and not yet settled exactly, and holds
    emitted events in order. *)
Theorem bus_invariant {Value : Type} (to_json : Event Value -> str) (instance : str) (ops : list BusOp)
    (Hok : Forall op_ok ops) :
  bus_wf to_json instance (fst (bus_run to_json instance ops)) (snd (bus_run to_json instance ops)).
Proof.
  induction ops as [|op ops IH] using rev_ind; [by split|].
  apply Forall_app in Hok as [Hok Hop]. specialize (IH Hok). apply Forall_cons in Hop as [Hop _].
  unfold bus_run in *. rewrite foldl_app. cbn [foldl].
  destruct (foldl _ _ ops) as [b emitted]. cbn [fst snd] in *.
  destruct op as [now new|name cap max|name types|i|i|i]; cbn [bus_op fst snd].
  - pose proof (emit_wf to_json instance b emitted now new IH) as He. revert He.
    by destruct (Bus_emit to_json b now new) as [b' e].
  - destruct IH as [? ? ? ? Hn], Hop. split; try done. simpl. apply Forall_app. split; [done|].
    constructor; [|done]. split; simpl; try done; [by intros e size ?%not_elem_of_nil|constructor].
  - destruct IH as [? ? ? ? Hn]. split; try done. simpl. apply Forall_fmap. eapply Forall_impl; [exact Hn|].
    intros n [] . simpl. case_bool_decide; by split.
  - apply on_notifier_wf; [apply take_wf|done].
  - apply on_notifier_wf; [apply settle_wf|done].
  - apply on_notifier_wf; [apply close_wf|done].
Qed.

(** A queue of one event: the second event is dropped and counted; after a
    receiver took the first, the third fits again. *)
Lemma bus_invariant_witness :
  let event := NewEvent_new (Value := unit) (lit "daemon_started") [] in
  let ops := [Op_Add (lit "mail") 1 1000; Op_Emit 0 event; Op_Emit 0 event; Op_Take 0; Op_Settle 0; Op_Emit 0 event] in
  let run := bus_run (fun _ => lit "json") [] ops in
  bus_wf (fun _ => lit "json") [] (fst run) (snd run) /\ Bus_dropped (fst run) = [(lit "mail", 1)] /\
  bus_seq (fst run) = 3.
Proof.
  split; [|vm_compute; split; reflexivity].
  apply (bus_invariant (Value := unit)). repeat (constructor; [simpl; lia || exact I|]). constructor.
Defined.
