(* ===== verification/StateFiles.v ===== *)
(** * The state directory

    Models crates/polywan/src/state.rs: the manifest (structure, id bindings,
    settings), the drain state and the health checkpoint, and the protocol
    by which a file is replaced.  [serde_json] is a parameter of the readers.
    The file system of [write_atomic] is modelled with what a crash can
    undo: data not synchronised, and directory changes not synchronised. *)

From stdpp Require Import prelude gmap sorting.
From Stdlib Require Import ZArith Lia.
From S2P Require Import Prelude Text Model Durations Config Plan.

Local Open Scope Z_scope.

(** ** Errors *)

Inductive ErrorKind := NotFound | OtherError (code : i32).

#[export] Instance ErrorKind_eq_dec : EqDecision ErrorKind.
Proof. solve_decision. Defined.

Inductive StateError :=
  | StateError_Io (path : str) (error : ErrorKind)
  | StateError_Corrupt (path : str) (message : str).

Definition VERSION : u32 := 1.

(** ** The manifest *)

Inductive Mode := Mode_Managed | Mode_External.

#[export] Instance Mode_eq_dec : EqDecision Mode.
Proof. solve_decision. Defined.

Record RecordedStructure := mkRecordedStructure {
  rst_fwmark_mask : u32;
  rst_table_base : u32;
  rst_rule_priority_base : u32;
  rst_route_protocol : u8;
  rst_firewall_mode : Mode
}.

#[export] Instance RecordedStructure_eq_dec : EqDecision RecordedStructure.
Proof. solve_decision. Defined.

Definition RecordedStructure_from (s : Structural) : RecordedStructure :=
  mkRecordedStructure (FwMask_mask (st_fwmark_mask s)) (st_table_base s) (st_rule_priority_base s)
    (st_route_protocol s) (match st_firewall_mode s with Managed => Mode_Managed | External => Mode_External end).

Definition RecordedStructure_mask (r : RecordedStructure) : option FwMask := FwMask_new (rst_fwmark_mask r).

Record Binding := mkBinding { bd_id : u8; bd_name : str; bd_removed : bool }.

Record Manifest := mkManifest {
  mf_version : u32;
  mf_structure : RecordedStructure;
  mf_tables : u32 * u32;
  mf_priorities : u32 * u32;
  mf_nft_table : str;
  mf_families : list str;
  mf_uplinks : list Binding;
  mf_sysctl_baseline : gmap str str;
  mf_sysctl_set : gmap str str
}.

Definition set_bindings (m : Manifest) (families : list str) (uplinks : list Binding) : Manifest :=
  mkManifest (mf_version m) (mf_structure m) (mf_tables m) (mf_priorities m) (mf_nft_table m) families uplinks
    (mf_sysctl_baseline m) (mf_sysctl_set m).
Definition set_sysctls (m : Manifest) (baseline set : gmap str str) : Manifest :=
  mkManifest (mf_version m) (mf_structure m) (mf_tables m) (mf_priorities m) (mf_nft_table m) (mf_families m)
    (mf_uplinks m) baseline set.

Inductive ManifestConflict :=
  | Conflict_Structure (recorded configured : RecordedStructure)
  | Conflict_IdReused (id : u8) (recorded configured : str)
  | Conflict_IdChanged (name : str) (recorded configured : u8).

Definition Manifest_bind (m : Manifest) (config : Config) : Manifest :=
  let marked := (fun b => mkBinding (bd_id b) (bd_name b)
    (negb (existsb (fun u => UplinkId_get (u_id u) =? bd_id b) (cf_uplinks config)))) <$> mf_uplinks m in
  let bound := foldl (fun bs u =>
    if existsb (fun b => bd_id b =? UplinkId_get (u_id u)) bs then bs
    else bs ++ [mkBinding (UplinkId_get (u_id u)) (u_name u) false]) marked (cf_uplinks config) in
  set_bindings m (Family_key <$> List.filter (Config_manages config) Family_ALL) (sort_by_key bd_id bound).

Definition Manifest_new (config : Config) : Manifest :=
  let s := Config_structural config in
  Manifest_bind (mkManifest VERSION (RecordedStructure_from s)
    (st_table_base s, u32_add (st_table_base s) 191)
    (st_rule_priority_base s, u32_add (st_rule_priority_base s) 699)
    (lit "inet polywan") [] [] ∅ ∅) config.

(** The two loops of [check]. *)
Definition binding_conflict (u : Uplink) (b : Binding) : list ManifestConflict :=
  if (bd_id b =? UplinkId_get (u_id u)) && negb (bool_decide (bd_name b = u_name u))
  then [Conflict_IdReused (bd_id b) (bd_name b) (u_name u)]
  else if bool_decide (bd_name b = u_name u) && negb (bd_id b =? UplinkId_get (u_id u))
  then [Conflict_IdChanged (u_name u) (bd_id b) (UplinkId_get (u_id u))]
  else [].

Definition Manifest_check (m : Manifest) (config : Config) : list ManifestConflict :=
  let configured := RecordedStructure_from (Config_structural config) in
  (if bool_decide (configured = mf_structure m) then [] else [Conflict_Structure (mf_structure m) configured]) ++
  concat ((fun u => concat (binding_conflict u <$> mf_uplinks m)) <$> cf_uplinks config).

Inductive ForgetError := Forget_Unknown | Forget_Configured | Forget_InvalidId (id : u8).

(** The index of [iter().position(p)]. *)
Fixpoint position {A} (p : A -> bool) (l : list A) : option nat :=
  match l with
  | [] => None
  | x :: l => if p x then Some O else S <$> position p l
  end.

(** The manifest is changed in place, also when the recorded id is invalid. *)
Definition Manifest_forget (m : Manifest) (name : str) : Manifest * result UplinkId ForgetError :=
  match position (fun b => bool_decide (bd_name b = name)) (mf_uplinks m) with
  | None => (m, Err Forget_Unknown)
  | Some pos =>
      match mf_uplinks m !! pos with
      | None => (m, Err Forget_Unknown)
      | Some b =>
          if negb (bd_removed b) then (m, Err Forget_Configured) else
          (set_bindings m (mf_families m) (delete pos (mf_uplinks m)),
           match UplinkId_new (bd_id b) with Some id => Ok id | None => Err (Forget_InvalidId (bd_id b)) end)
      end
  end.

Definition record_sysctl (m : Manifest) (key previous set : str) : Manifest :=
  set_sysctls m
    (match mf_sysctl_baseline m !! key with
     | Some _ => mf_sysctl_baseline m
     | None => <[key := previous]> (mf_sysctl_baseline m)
     end)
    (<[key := set]> (mf_sysctl_set m)).

(** ** Drain state and checkpoints *)

Record DrainState := mkDrainState { dr_version : u32; dr_drained : list str }.
Definition DrainState_of (drained : list str) : DrainState := mkDrainState VERSION drained.
Definition DrainState_default : DrainState := DrainState_of [].

Record PathCheckpoint := mkPathCheckpoint {
  pc_uplink : u8;
  pc_family : str;
  pc_ifindex : option u32;
  pc_source : option IpAddr;
  pc_gateway : option IpAddr;
  pc_up : bool;
  pc_since_ms : u64;
  pc_passes : u8;
  pc_failures : u8
}.

Record Checkpoint := mkCheckpoint {
  cp_version : u32;
  cp_boot_id : str;
  cp_boottime_ms : u64;
  cp_config_digest : str;
  cp_structure : RecordedStructure;
  cp_paths : list PathCheckpoint;
  cp_active_v4 : list u8;
  cp_active_v6 : list u8
}.

Definition CHECKPOINT_MAX_AGE_MS : u64 := 10 * 60 * 1000.

Definition Checkpoint_valid (c : Checkpoint) (boot_id : str) (now_ms : u64) (structure : RecordedStructure) : bool :=
  bool_decide (cp_boot_id c = boot_id) && (cp_boottime_ms c <=? now_ms) &&
  (now_ms - cp_boottime_ms c <? CHECKPOINT_MAX_AGE_MS) && bool_decide (cp_structure c = structure).

(** ** Reading *)

Definition valid_component (c : str) : bool :=
  negb (bool_decide (c = [])) && negb (bool_decide (c = lit ".")) && negb (bool_decide (c = lit "..")).

(** [sysctl::valid_key]. *)
Definition valid_key (key : str) : bool :=
  match strip_prefix (lit "net/") key with
  | Some rest => forallb valid_component (split_on 47 rest)
  | None => false
  end.

Section reading.
Context {T : Type} (version_of : list u8 -> result u32 str) (parse : list u8 -> result T str).

(** [contents]: what [fs::read] gave. *)
Definition read_json (path : str) (contents : result (list u8) ErrorKind) : result (option T) StateError :=
  match contents with
  | Err NotFound => Ok None
  | Err e => Err (StateError_Io path e)
  | Ok text =>
      match version_of text with
      | Err e => Err (StateError_Corrupt path e)
      | Ok v =>
          if negb (v =? VERSION)
          then Err (StateError_Corrupt path (lit "unknown state file version " ++ to_decimal v))
          else match parse text with Ok t => Ok (Some t) | Err e => Err (StateError_Corrupt path e) end
      end
  end.
End reading.

(** [StateDir::manifest]; [quoted] is the [Debug] form of a string. *)
Definition StateDir_manifest (quoted : str -> str) (version_of : list u8 -> result u32 str)
    (parse : list u8 -> result Manifest str) (path : str) (contents : result (list u8) ErrorKind)
    : result (option Manifest) StateError :=
  match read_json version_of parse path contents with
  | Err e => Err e
  | Ok None => Ok None
  | Ok (Some m) =>
      match find_first (fun k => negb (valid_key k))
              (btree_keys (mf_sysctl_baseline m) ++ btree_keys (mf_sysctl_set m)) with
      | Some key => Err (StateError_Corrupt path (quoted key ++ lit " is not a network setting"))
      | None => Ok (Some m)
      end
  end.

Definition StateDir_drain (version_of : list u8 -> result u32 str) (parse : list u8 -> result DrainState str)
    (path : str) (contents : result (list u8) ErrorKind) : result DrainState StateError :=
  match read_json version_of parse path contents with
  | Err e => Err e
  | Ok d => Ok (default DrainState_default d)
  end.

(** ** Replacing a file *)

(** A file system: names to inodes, inodes to their data and whether it is
    synchronised, and the states of the directory that a crash can return
    to (those since its last synchronisation). *)
Record Fs := mkFs {
  fs_dir : gmap str nat;
  fs_undurable : list (gmap str nat);
  fs_inodes : gmap nat (list u8 * bool);
  fs_next : nat
}.

(** The system calls of [write_atomic]. *)
Inductive Prim :=
  | P_Remove (name : str)
  | P_CreateNew (name : str)
  | P_WriteAll (name : str) (content : list u8)
  | P_SyncAll (name : str)
  | P_Rename (from to : str)
  | P_SyncDir.

(** An injected failure of a call; a failed write can leave any data. *)
Record Fault := mkFault { ft_error : ErrorKind; ft_partial : list u8 }.

Definition set_dir (fs : Fs) (d : gmap str nat) : Fs := mkFs d (fs_dir fs :: fs_undurable fs) (fs_inodes fs) (fs_next fs).
Definition set_inode (fs : Fs) (i : nat) (data : list u8 * bool) : Fs :=
  mkFs (fs_dir fs) (fs_undurable fs) (<[i := data]> (fs_inodes fs)) (fs_next fs).

Definition AlreadyExists : ErrorKind := OtherError 17.

Definition exec (p : Prim) (fault : option Fault) (fs : Fs) : Fs * option ErrorKind :=
  match p, fault with
  | P_WriteAll name _, Some f =>
      match fs_dir fs !! name with
      | Some i => (set_inode fs i (ft_partial f, false), Some (ft_error f))
      | None => (fs, Some (ft_error f))
      end
  | _, Some f => (fs, Some (ft_error f))
  | P_Remove name, None =>
      match fs_dir fs !! name with
      | Some _ => (set_dir fs (delete name (fs_dir fs)), None)
      | None => (fs, Some NotFound)
      end
  | P_CreateNew name, None =>
      match fs_dir fs !! name with
      | Some _ => (fs, Some AlreadyExists)
      | None =>
          (mkFs (<[name := fs_next fs]> (fs_dir fs)) (fs_dir fs :: fs_undurable fs)
             (<[fs_next fs := ([], false)]> (fs_inodes fs)) (S (fs_next fs)), None)
      end
  | P_WriteAll name content, None =>
      match fs_dir fs !! name with
      | Some i => (set_inode fs i (content, false), None)
      | None => (fs, Some NotFound)
      end
  | P_SyncAll name, None =>
      match fs_dir fs !! name with
      | Some i => match fs_inodes fs !! i with
                  | Some (data, _) => (set_inode fs i (data, true), None)
                  | None => (fs, Some NotFound)
                  end
      | None => (fs, Some NotFound)
      end
  | P_Rename from to, None =>
      match fs_dir fs !! from with
      | Some i => (set_dir fs (<[to := i]> (delete from (fs_dir fs))), None)
      | None => (fs, Some NotFound)
      end
  | P_SyncDir, None => (mkFs (fs_dir fs) [] (fs_inodes fs) (fs_next fs), None)
  end.

(** The calls in order, with the path each error names; [tmp] is
    [path.with_extension("tmp")] and [dir] the parent of [path]. The states
    after each call are returned with the result. *)
Fixpoint run_prims (ps : list (Prim * str)) (faults : list (option Fault)) (fs : Fs)
    : list Fs * result unit StateError :=
  match ps with
  | [] => ([], Ok tt)
  | (p, at_path) :: ps =>
      let '(fs', e) := exec p (default None (head faults)) fs in
      let ignored := match p, e with P_Remove _, Some NotFound => true | _, _ => false end in
      match e with
      | Some e => if ignored then let '(states, r) := run_prims ps (tail faults) fs' in (fs' :: states, r)
                  else ([fs'], Err (StateError_Io at_path e))
      | None => let '(states, r) := run_prims ps (tail faults) fs' in (fs' :: states, r)
      end
  end.

Definition write_atomic (path tmp dir : str) (content : list u8) (faults : list (option Fault)) (fs : Fs)
    : list Fs * result unit StateError :=
  run_prims [(P_Remove tmp, tmp); (P_CreateNew tmp, tmp); (P_WriteAll tmp content, tmp); (P_SyncAll tmp, tmp);
             (P_Rename tmp path, path); (P_SyncDir, dir)] faults fs.

Definition read_file (fs : Fs) (name : str) : option (list u8) :=
  i ← fs_dir fs !! name; fst <$> fs_inodes fs !! i.

(** What a crash can leave. *)
Definition crash (fs fs' : Fs) : Prop :=
  fs_dir fs' ∈ fs_dir fs :: fs_undurable fs /\
  forall i data, fs_inodes fs !! i = Some (data, true) -> fs_inodes fs' !! i = Some (data, true).

(** A state between replacements: the file, if any, is durable. *)
Definition settled (fs : Fs) (path : str) : Prop :=
  (forall d, d ∈ fs_undurable fs -> d !! path = fs_dir fs !! path) /\
  (forall i, fs_dir fs !! path = Some i -> exists data, fs_inodes fs !! i = Some (data, true)) /\
  (forall name i, fs_dir fs !! name = Some i -> (i < fs_next fs)%nat).

Section atomic.
Context (path tmp dir : str) (content : list u8) (Hne : tmp <> path).
Context (fs0 : Fs) (H0 : settled fs0 path).

(** The old file is intact, and every directory state names it or the new
    file, whose data is then complete and synchronised. *)
Definition safe (fs : Fs) : Prop :=
  (forall i data, fs_dir fs0 !! path = Some i -> fs_inodes fs0 !! i = Some (data, true) ->
     fs_inodes fs !! i = Some (data, true)) /\
  (forall d, d ∈ fs_dir fs :: fs_undurable fs ->
     d !! path = fs_dir fs0 !! path \/
     exists i, d !! path = Some i /\ fs_inodes fs !! i = Some (content, true)).

(** A crash, or none, of a safe state leaves the old file or the new one. *)
Lemma safe_crash fs fs' : safe fs -> crash fs fs' ->
  read_file fs' path = read_file fs0 path \/ read_file fs' path = Some content.
Proof.
  intros [Hold Hdirs] [Hd Hi]. unfold read_file. destruct (Hdirs _ Hd) as [->|(i & -> & Hc)].
  - left. destruct (fs_dir fs0 !! path) as [i|] eqn:E; simpl; [|done].
    destruct H0 as (_ & Hdur & _). destruct (Hdur i E) as [data Hdata]. by rewrite Hdata, (Hi i data (Hold i data eq_refl Hdata)).
  - right. simpl. by rewrite (Hi i content Hc).
Qed.

Lemma crash_refl fs : crash fs fs.
Proof. split; [set_solver|done]. Qed.

(** The new file is in place and survives a crash. *)
Definition replaced (fs : Fs) : Prop :=
  fs_undurable fs = [] /\ exists i, fs_dir fs !! path = Some i /\ fs_inodes fs !! i = Some (content, true).

Definition good_run (ps : list (Prim * str)) (faults : list (option Fault)) (fs : Fs) : Prop :=
  let '(states, r) := run_prims ps faults fs in
  Forall safe states /\ (r = Ok tt -> exists s, last (fs :: states) = Some s /\ replaced s).

Lemma good_step p at_path ps faults fs :
  let '(fs', e) := exec p (default None (head faults)) fs in
  safe fs' ->
  (e = None \/ (e = Some NotFound /\ exists name, p = P_Remove name) -> good_run ps (tail faults) fs') ->
  good_run ((p, at_path) :: ps) faults fs.
Proof.
  destruct (exec p (default None (head faults)) fs) as [fs' e] eqn:E. intros Hs Hk. unfold good_run in *.
  cbn [run_prims]. rewrite E.
  assert (Hcont : (let '(states, r) := run_prims ps (tail faults) fs' in
      Forall safe states /\ (r = Ok tt -> exists s, last (fs' :: states) = Some s /\ replaced s)) ->
    (let '(states, r) := let '(states, r) := run_prims ps (tail faults) fs' in (fs' :: states, r) in
      Forall safe states /\ (r = Ok tt -> exists s, last (fs :: states) = Some s /\ replaced s))).
  { destruct (run_prims ps (tail faults) fs') as [states r]. intros [Hf Hr]. split; [by constructor|]. done. }
  assert (Hstop : forall e, Forall safe [fs'] /\
    (Err (StateError_Io at_path e) = Ok tt -> exists s, last [fs; fs'] = Some s /\ replaced s)).
  { intros e'. split; [by constructor|done]. }
  destruct e as [[|code]|]; [destruct p; try apply Hstop| |]; [apply Hcont, Hk; eauto|destruct p; apply Hstop|].
  apply Hcont, Hk. by left.
Qed.

(** Before the rename: only the new inode differs, no directory state names
    another file at [path]. *)
Definition early (fs : Fs) : Prop :=
  (forall d, d ∈ fs_dir fs :: fs_undurable fs -> d !! path = fs_dir fs0 !! path) /\
  (forall i, i <> fs_next fs0 -> fs_inodes fs !! i = fs_inodes fs0 !! i).

Lemma early_safe fs : early fs -> safe fs.
Proof.
  destruct H0 as (_ & _ & Hnext). intros [Hd Hi]. split; [|intros d Hin; left; by apply Hd].
  intros i data Hp Hdata. apply Hnext in Hp. rewrite Hi by lia. done.
Qed.

Lemma early_set_inode fs data : early fs -> early (set_inode fs (fs_next fs0) data).
Proof. intros [Hd Hi]. split; [done|]. intros i Hne'. simpl. rewrite lookup_insert_ne by done. by apply Hi. Qed.

(** The file being written, with its data. *)
Definition writing (fs : Fs) (data : list u8 * bool) : Prop :=
  early fs /\ fs_dir fs !! tmp = Some (fs_next fs0) /\ fs_inodes fs !! fs_next fs0 = Some data.

(** One call, whatever its fault. *)
Lemma good_call p at_path ps faults fs :
  (forall fault, safe (fst (exec p fault fs))) ->
  (forall fault fs', exec p fault fs = (fs', None) -> good_run ps (tail faults) fs') ->
  (forall name fault fs', p = P_Remove name -> exec p fault fs = (fs', Some NotFound) -> good_run ps (tail faults) fs') ->
  good_run ((p, at_path) :: ps) faults fs.
Proof.
  intros Hs Hk Hr. pose proof (good_step p at_path ps faults fs) as Hstep.
  specialize (Hs (default None (head faults))). destruct (exec p (default None (head faults)) fs) as [fs' e] eqn:E.
  apply Hstep; [done|]. intros [->|[-> [name ->]]]; [by eapply Hk|by eapply Hr].
Qed.

Lemma sync_dir_run faults fs : safe fs -> (exists i, fs_dir fs !! path = Some i /\ fs_inodes fs !! i = Some (content, true)) ->
  good_run [(P_SyncDir, dir)] faults fs.
Proof.
  intros Hs Hp. apply good_call; [| |done].
  - intros [f|]; [done|]. destruct Hs as [Hold Hd]. split; [done|]. simpl. intros d ->%list_elem_of_singleton.
    apply Hd. set_solver.
  - intros [f|] fs' [= <-]. split; [done|]. intros _. eexists. split; [done|]. by split.
Qed.

Lemma rename_run faults fs : writing fs (content, true) ->
  good_run [(P_Rename tmp path, path); (P_SyncDir, dir)] faults fs.
Proof.
  intros (He & Ht & Hin). pose proof (early_safe fs He) as Hsafe.
  assert (Hs : safe (set_dir fs (<[path := fs_next fs0]> (delete tmp (fs_dir fs))))).
  { split; [apply Hsafe|]. simpl. intros d [->|Hd']%elem_of_cons.
    - right. exists (fs_next fs0). by rewrite lookup_insert_eq.
    - left. by apply He. }
  apply good_call; [intros [f|]; simpl; rewrite ?Ht; done| |done].
  intros [f|] fs'; simpl; [done|]. rewrite Ht. intros [= <-]. apply sync_dir_run; [done|].
  exists (fs_next fs0). simpl. by rewrite lookup_insert_eq.
Qed.

Lemma sync_run faults fs : writing fs (content, false) ->
  good_run [(P_SyncAll tmp, tmp); (P_Rename tmp path, path); (P_SyncDir, dir)] faults fs.
Proof.
  intros (He & Ht & Hin). pose proof (early_set_inode fs (content, true) He) as He'.
  apply good_call; [intros [f|]; simpl; rewrite ?Ht, ?Hin; by apply early_safe| |done].
  intros [f|] fs'; simpl; [done|]. rewrite Ht, Hin. intros [= <-]. apply rename_run.
  split_and!; [done..|]. simpl. by rewrite lookup_insert_eq.
Qed.

Lemma write_run faults fs : writing fs ([], false) ->
  good_run [(P_WriteAll tmp content, tmp); (P_SyncAll tmp, tmp); (P_Rename tmp path, path); (P_SyncDir, dir)] faults fs.
Proof.
  intros (He & Ht & Hin).
  apply good_call; [intros [f|]; simpl; rewrite ?Ht; by apply early_safe, early_set_inode| |done].
  intros [f|] fs'; simpl; rewrite Ht; [done|]. intros [= <-]. apply sync_run.
  split_and!; [by apply early_set_inode|done|]. simpl. by rewrite lookup_insert_eq.
Qed.

Lemma create_run faults fs : early fs -> fs_next fs = fs_next fs0 ->
  good_run [(P_CreateNew tmp, tmp); (P_WriteAll tmp content, tmp); (P_SyncAll tmp, tmp); (P_Rename tmp path, path);
            (P_SyncDir, dir)] faults fs.
Proof.
  intros He Hn. assert (He' : early (mkFs (<[tmp := fs_next fs]> (fs_dir fs)) (fs_dir fs :: fs_undurable fs)
    (<[fs_next fs := ([], false)]> (fs_inodes fs)) (S (fs_next fs)))).
  { destruct He as [Hd Hi]. split; simpl.
    - intros d [->|Hd']%elem_of_cons; [|by apply Hd]. rewrite lookup_insert_ne by done. apply Hd. set_solver.
    - intros i Hi'. rewrite Hn, lookup_insert_ne by done. by apply Hi. }
  apply good_call; [intros [f|]; simpl; [|case_match]; by apply early_safe| |done].
  intros [f|] fs'; simpl; [done|]. case_match; [done|]. intros [= <-]. apply write_run.
  rewrite Hn in *. split_and!; [done|simpl; by rewrite lookup_insert_eq..].
Qed.

Lemma write_atomic_run faults :
  let '(states, r) := write_atomic path tmp dir content faults fs0 in
  Forall safe (fs0 :: states) /\ (r = Ok tt -> exists s, last (fs0 :: states) = Some s /\ replaced s).
Proof.
  assert (He : early fs0).
  { destruct H0 as (Hu & _). split; [|done]. intros d [->|Hd]%elem_of_cons; [done|by apply Hu]. }
  assert (Hrun : good_run [(P_Remove tmp, tmp); (P_CreateNew tmp, tmp); (P_WriteAll tmp content, tmp);
    (P_SyncAll tmp, tmp); (P_Rename tmp path, path); (P_SyncDir, dir)] faults fs0).
  { assert (He' : early (set_dir fs0 (delete tmp (fs_dir fs0)))).
    { split; [|done]. simpl. intros d [->|Hd]%elem_of_cons; [by rewrite lookup_delete_ne|by apply He]. }
    apply good_call.
    - intros [f|]; simpl; [|case_match]; by apply early_safe.
    - intros [f|] fs'; simpl; [done|]. case_match; [|done]. intros [= <-]. by apply create_run.
    - intros name [f|] fs' [= <-]; simpl; [|case_match]; intros [= <-]; by apply create_run. }
  unfold good_run in Hrun. unfold write_atomic. destruct (run_prims _ faults fs0) as [states r].
  destruct Hrun as [Hf Hr]. split; [|done]. constructor; [by apply early_safe|done].
Qed.
End atomic.

(** Replacing a state file is atomic and durable: whichever call fails
    and wherever a crash happens, the file then holds its old contents or
    the complete new contents (or is still absent); when the replacement
    reports success, it holds the new contents, also after a crash. *)
Theorem write_atomic_crash_safe (path tmp dir : str) (content : list u8) (faults : list (option Fault)) (fs : Fs)
    (Hne : tmp <> path) (Hfs : settled fs path) :
  let '(states, r) := write_atomic path tmp dir content faults fs in
  (forall s s', s ∈ fs :: states -> crash s s' ->
     read_file s' path = read_file fs path \/ read_file s' path = Some content) /\
  (r = Ok tt -> exists s, last (fs :: states) = Some s /\
     forall s', crash s s' -> read_file s' path = Some content).
Proof.
  pose proof (write_atomic_run path tmp dir content Hne fs Hfs faults) as Hrun.
  destruct (write_atomic path tmp dir content faults fs) as [states r]. destruct Hrun as [Hf Hr]. split.
  - intros s s' Hs. rewrite Forall_forall in Hf. by apply (safe_crash path content fs Hfs), Hf.
  - intros E. destruct (Hr E) as (s & Hs & Hu & i & Hd & Hi). exists s. split; [done|].
    intros s' [Hd' Hi']. rewrite Hu in Hd'. apply list_elem_of_singleton in Hd'. unfold read_file.
    rewrite Hd', Hd. simpl. by rewrite (Hi' i content Hi).
Qed.

(** Replacing an existing file whose first attempt fails at the rename and
    whose second one succeeds. *)
Lemma write_atomic_crash_safe_witness :
  let fs := mkFs {[lit "health.json" := O]} [] {[O := ([1], true)]} 1 in
  let run faults := write_atomic (lit "health.json") (lit "health.tmp") (lit ".") [2] faults fs in
  (forall s s', s ∈ fs :: fst (run [None; None; None; None; Some (mkFault (OtherError 5) [])]) -> crash s s' ->
     read_file s' (lit "health.json") = Some [1] \/ read_file s' (lit "health.json") = Some [2]) /\
  snd (run []) = Ok tt.
Proof.
  split; [|vm_compute; reflexivity].
  pose proof (write_atomic_crash_safe (lit "health.json") (lit "health.tmp") (lit ".") [2]
    [None; None; None; None; Some (mkFault (OtherError 5) [])]
    (mkFs {[lit "health.json" := O]} [] {[O := ([1], true)]} 1)) as H.
  destruct (write_atomic _ _ _ _ _ _) as [states r]. apply H.
  - intros E. vm_compute in E. discriminate E.
  - split_and!; cbn [fs_undurable fs_dir fs_inodes fs_next].
    + intros d Hd. by apply not_elem_of_nil in Hd.
    + intros i [_ <-]%lookup_singleton_Some. by exists [1].
    + intros name i [_ <-]%lookup_singleton_Some. lia.
Defined.

(** [write_json]; [to_json] is serde_json's writer. *)
Definition write_json {T} (to_json : T -> result (list u8) str) (path tmp dir : str) (value : T) (faults : list (option Fault)) (fs : Fs)
    : list Fs * result unit StateError :=
  match to_json value with
  | Err e => ([], Err (StateError_Corrupt path e))
  | Ok text => write_atomic path tmp dir (text ++ [10]) faults fs
  end.

(** [fs::read] of a file. *)
Definition fs_read (fs : Fs) (path : str) : result (list u8) ErrorKind :=
  match read_file fs path with Some b => Ok b | None => Err NotFound end.

(** C29: A state file reads back: if serde_json reads what it writes, then after
    any failure and any crash the file reads as it did before or as the new
    value, and once the replacement reported success as the new value, also
    after a crash. *)
Theorem state_file_roundtrip {T} (version_of : list u8 -> result u32 str) (parse : list u8 -> result T str)
    (to_json : T -> result (list u8) str) (path tmp dir : str) (value : T) (text : list u8) (faults : list (option Fault)) (fs : Fs) :
  to_json value = Ok text -> version_of (text ++ [10]) = Ok VERSION -> parse (text ++ [10]) = Ok value ->
  tmp <> path -> settled fs path ->
  let '(states, r) := write_json to_json path tmp dir value faults fs in
  let read s := read_json version_of parse path (fs_read s path) in
  (forall s s', s ∈ fs :: states -> crash s s' -> read s' = read fs \/ read s' = Ok (Some value)) /\
  (r = Ok tt -> exists s, last (fs :: states) = Some s /\ forall s', crash s s' -> read s' = Ok (Some value)).
Proof.
  intros Hj Hv Hp Hne Hfs. unfold write_json. rewrite Hj.
  pose proof (write_atomic_crash_safe path tmp dir (text ++ [10]) faults fs Hne Hfs) as H.
  destruct (write_atomic _ _ _ _ _ _) as [states r]. destruct H as [H1 H2]. cbv zeta. unfold fs_read.
  assert (Hnew : read_json version_of parse path (Ok (text ++ [10])) = Ok (Some value)).
  { unfold read_json. rewrite Hv, Z.eqb_refl. cbn [negb]. by rewrite Hp. }
  split.
  - intros s s' Hs Hc. destruct (H1 s s' Hs Hc) as [-> | ->]; [by left|by right].
  - intros Hr. destruct (H2 Hr) as (s & Hl & Hs). exists s. split; [done|]. intros s' Hc. by rewrite (Hs s' Hc).
Qed.

(** A file of one byte, the value, behind its version. *)
Lemma state_file_roundtrip_witness :
  let fs := mkFs {[lit "health.json" := O]} [] {[O := ([1; 7; 10], true)]} 1 in
  let version_of := fun b : list u8 => match b with v :: _ => Ok v | [] => Err (lit "empty") end in
  let parse := fun b : list u8 => match b with [_; x; 10] => Ok x | _ => Err (lit "not a value") end in
  let to_json := fun x : Z => Ok [1; x] in
  let '(states, r) := write_json to_json (lit "health.json") (lit "health.tmp") (lit ".") 8 [None; None; Some (mkFault (OtherError 28) [3])] fs in
  r = Err (StateError_Io (lit "health.tmp") (OtherError 28)) /\
  forall s s', s ∈ fs :: states -> crash s s' ->
    read_json version_of parse (lit "health.json") (fs_read s' (lit "health.json")) = Ok (Some 7) \/
    read_json version_of parse (lit "health.json") (fs_read s' (lit "health.json")) = Ok (Some 8).
Proof.
  intros fs version_of parse to_json.
  pose proof (state_file_roundtrip version_of parse to_json (lit "health.json") (lit "health.tmp") (lit ".") 8 [1; 8]
    [None; None; Some (mkFault (OtherError 28) [3])] fs eq_refl eq_refl eq_refl) as H.
  assert (E : (write_json to_json (lit "health.json") (lit "health.tmp") (lit ".") 8
    [None; None; Some (mkFault (OtherError 28) [3])] fs).2 = Err (StateError_Io (lit "health.tmp") (OtherError 28))) by by vm_compute.
  destruct (write_json _ _ _ _ _ _ _) as [states r]. split; [exact E|]. apply H.
  - intros Et. vm_compute in Et. discriminate Et.
  - split_and!; cbn [fs_undurable fs_dir fs_inodes fs_next fs].
    + intros d Hd. by apply not_elem_of_nil in Hd.
    + intros i [_ <-]%lookup_singleton_Some. by exists [1; 7; 10].
    + intros name i [_ <-]%lookup_singleton_Some. lia.
Defined.

(** ** Id bindings *)

Lemma NoDup_fmap_inj_in {A B} (f : A -> B) (l : list A) x y : NoDup (f <$> l) -> x ∈ l -> y ∈ l -> f x = f y -> x = y.
Proof.
  intros Hnd [i Hi]%list_elem_of_lookup [j Hj]%list_elem_of_lookup E.
  assert (i = j) as ->; [|congruence]. eapply (NoDup_lookup (f <$> l) _ _ (f x)); [done|..];
    rewrite list_lookup_fmap; [by rewrite Hi|by rewrite Hj, E].
Qed.

Definition manifest_wf (m : Manifest) : Prop :=
  NoDup (bd_id <$> mf_uplinks m) /\ NoDup (bd_name <$> mf_uplinks m) /\
  StronglySorted (fun a b => cmp_leb (bd_id a) (bd_id b) = true) (mf_uplinks m).

(** What validation guarantees of ids and names. *)
Definition distinct_uplinks (config : Config) : Prop :=
  NoDup (u_id <$> cf_uplinks config) /\ NoDup (u_name <$> cf_uplinks config).

Lemma concat_nil {A} (l : list (list A)) : concat l = [] <-> forall x, x ∈ l -> x = [].
Proof.
  induction l as [|x l IH]; simpl; [by split; [intros _ x ?%not_elem_of_nil|]|]. split.
  - intros [-> Hl]%app_nil y [->|Hy]%elem_of_cons; [done|by apply IH].
  - intros H. rewrite (H x) by set_solver. apply IH. set_solver.
Qed.

Lemma binding_conflict_nil u b : binding_conflict u b = [] <->
  (bd_id b = UplinkId_get (u_id u) <-> bd_name b = u_name u).
Proof.
  unfold binding_conflict. destruct (Z.eqb_spec (bd_id b) (UplinkId_get (u_id u))); repeat case_bool_decide; simpl; naive_solver.
Qed.

Lemma Manifest_check_nil m config : Manifest_check m config = [] <->
  mf_structure m = RecordedStructure_from (Config_structural config) /\
  forall u b, u ∈ cf_uplinks config -> b ∈ mf_uplinks m ->
    (bd_id b = UplinkId_get (u_id u) <-> bd_name b = u_name u).
Proof.
  unfold Manifest_check. split.
  - intros [Hs Hc]%app_nil. split; [by case_bool_decide|]. intros u b Hu Hb.
    apply binding_conflict_nil. rewrite concat_nil in Hc. 
    assert (Hin : concat (binding_conflict u <$> mf_uplinks m) = []) by (apply Hc, list_elem_of_fmap; by exists u).
    rewrite concat_nil in Hin. apply Hin, list_elem_of_fmap. by exists b.
  - intros [Hs Hb]. rewrite bool_decide_eq_true_2 by done. simpl. apply concat_nil.
    intros l (u & -> & Hu)%list_elem_of_fmap. apply concat_nil. intros l (b & -> & Hin)%list_elem_of_fmap.
    apply binding_conflict_nil. by apply Hb.
Qed.

Definition mark (config : Config) (b : Binding) : Binding :=
  mkBinding (bd_id b) (bd_name b)
    (negb (existsb (fun u => UplinkId_get (u_id u) =? bd_id b) (cf_uplinks config))).
Definition fresh_binding (u : Uplink) : Binding := mkBinding (UplinkId_get (u_id u)) (u_name u) false.
Definition bound (bs : list Binding) (u : Uplink) : bool := existsb (fun b => bd_id b =? UplinkId_get (u_id u)) bs.

(** The second loop of [bind] appends the uplinks that are not bound. *)
Lemma bind_loop us bs : NoDup (u_id <$> us) ->
  foldl (fun bs u => if bound bs u then bs else bs ++ [fresh_binding u]) bs us =
    bs ++ (fresh_binding <$> List.filter (fun u => negb (bound bs u)) us).
Proof.
  revert bs. induction us as [|u us IH]; intros bs Hnd; simpl; [by rewrite app_nil_r|].
  rewrite fmap_cons in Hnd. apply NoDup_cons in Hnd as [Hu Hnd]. rewrite IH by done.
  destruct (bound bs u) eqn:E; simpl; [done|]. rewrite <- app_assoc. simpl. do 3 f_equal.
  apply filter_ext_in. intros v Hv. unfold bound. rewrite existsb_app. simpl. rewrite orb_false_r.
  destruct (Z.eqb_spec (UplinkId_get (u_id u)) (UplinkId_get (u_id v))) as [Ei|]; [|by rewrite orb_false_r].
  exfalso. apply Hu. apply UplinkId_get_inj in Ei. rewrite Ei. apply list_elem_of_fmap_2. by apply list_elem_of_In.
Qed.

Lemma bind_elem_of m config b : NoDup (u_id <$> cf_uplinks config) ->
  b ∈ mf_uplinks (Manifest_bind m config) <->
  (exists b0, b0 ∈ mf_uplinks m /\ b = mark config b0) \/
  (exists u, u ∈ cf_uplinks config /\ b = fresh_binding u /\
     forall b0, b0 ∈ mf_uplinks m -> bd_id b0 <> UplinkId_get (u_id u)).
Proof.
  intros Hnd. unfold Manifest_bind. simpl. rewrite sort_by_key_elem_of.
  fold (mark config). change (fun bs u => _) with (fun bs u => if bound bs u then bs else bs ++ [fresh_binding u]).
  rewrite bind_loop by done. rewrite elem_of_app, !list_elem_of_fmap.
  assert (Hb : forall u, bound (mark config <$> mf_uplinks m) u = false <->
    forall b0, b0 ∈ mf_uplinks m -> bd_id b0 <> UplinkId_get (u_id u)).
  { intros u. rewrite <- not_true_iff_false. unfold bound. rewrite existsb_elem_of. split.
    - intros Hn b0 Hb0 E. apply Hn. exists (mark config b0). split; [by apply list_elem_of_fmap_2|]. by apply Z.eqb_eq.
    - intros H (b' & (b0 & -> & Hb0)%list_elem_of_fmap & E). bool_simpl. by apply (H b0). }
  split.
  - intros [(b0 & -> & Hb0)|(u & -> & [Hu Hn]%elem_of_list_filter_bool)]; [left; by exists b0|right].
    bool_simpl. exists u. split_and!; [done..|by apply Hb].
  - intros [(b0 & Hb0 & ->)|(u & Hu & -> & Hn)]; [left; by exists b0|right].
    exists u. split; [done|]. apply elem_of_list_filter_bool. split; [done|]. apply negb_true_iff. by apply Hb.
Qed.

Lemma mark_removed config b : bd_removed (mark config b) = false <->
  exists u, u ∈ cf_uplinks config /\ UplinkId_get (u_id u) = bd_id b.
Proof.
  simpl. rewrite negb_false_iff, existsb_elem_of. split; intros (u & Hu & E); exists u; (split; [done|]);
    [by apply Z.eqb_eq|by apply Z.eqb_eq].
Qed.

(** The bindings without their marks. *)
Lemma bind_keys {A} (key : Binding -> A) (ukey : Uplink -> A) m config :
  (forall b, key (mark config b) = key b) -> (forall u, key (fresh_binding u) = ukey u) ->
  NoDup (u_id <$> cf_uplinks config) -> NoDup (key <$> mf_uplinks m) -> NoDup (ukey <$> cf_uplinks config) ->
  (forall u b, u ∈ cf_uplinks config -> b ∈ mf_uplinks m -> key b = ukey u -> bd_id b = UplinkId_get (u_id u)) ->
  NoDup (key <$> mf_uplinks (Manifest_bind m config)).
Proof.
  intros Hm Hf Hids Hb Hu Hk. unfold Manifest_bind. simpl. rewrite sort_by_key_Permutation. fold (mark config).
  change (fun bs u => _) with (fun bs u => if bound bs u then bs else bs ++ [fresh_binding u]).
  rewrite bind_loop, fmap_app by done. apply NoDup_app. split_and!.
  - rewrite <- list_fmap_compose. by rewrite (list_fmap_ext _ key) by (intros; apply Hm).
  - intros k (b & -> & (b0 & -> & Hb0)%list_elem_of_fmap)%list_elem_of_fmap
      (b' & E & (u & -> & [Huin Hn]%elem_of_list_filter_bool)%list_elem_of_fmap)%list_elem_of_fmap.
    rewrite Hm, Hf in E. apply negb_true_iff in Hn. apply not_true_iff_false in Hn. apply Hn.
    apply existsb_elem_of. exists (mark config b0). split; [by apply list_elem_of_fmap_2|]. apply Z.eqb_eq. by apply (Hk u b0).
  - rewrite <- list_fmap_compose. rewrite (list_fmap_ext _ ukey) by (intros; apply Hf).
    clear -Hu. induction (cf_uplinks config) as [|u us IH]; simpl; [constructor|].
    rewrite fmap_cons in Hu. apply NoDup_cons in Hu as [Hu Hnd]. destruct (negb _); [|by apply IH].
    rewrite fmap_cons. apply NoDup_cons. split; [|by apply IH]. intros (v & E & [Hv _]%elem_of_list_filter_bool)%list_elem_of_fmap.
    apply Hu. rewrite E. by apply list_elem_of_fmap_2.
Qed.

Lemma bind_wf m config : manifest_wf m -> distinct_uplinks config -> Manifest_check m config = [] ->
  manifest_wf (Manifest_bind m config).
Proof.
  intros (Hi & Hn & _) [Hids Hnames] [_ Hc]%Manifest_check_nil. split_and!.
  - apply (bind_keys bd_id (fun u => UplinkId_get (u_id u))); try done.
    change (fun u => UplinkId_get (u_id u)) with (UplinkId_get ∘ u_id). rewrite list_fmap_compose.
    apply NoDup_fmap_2; [|done]. intros a b. apply UplinkId_get_inj.
  - apply (bind_keys bd_name u_name); try done. intros u b Hu Hb. by apply Hc.
  - unfold Manifest_bind. simpl. apply sort_by_key_sorted.
Qed.

(** What the daemon and [forget-uplink] do to a manifest. *)
Inductive ManifestOp := MO_Start (config : Config) | MO_Forget (name : str).

(** A configuration is bound only when it passed [check]. *)
Definition manifest_op (m : Manifest) (op : ManifestOp) : Manifest :=
  match op with
  | MO_Start config =>
      if bool_decide (NoDup (u_id <$> cf_uplinks config)) && bool_decide (NoDup (u_name <$> cf_uplinks config)) &&
         match Manifest_check m config with [] => true | _ => false end
      then Manifest_bind m config else m
  | MO_Forget name => fst (Manifest_forget m name)
  end.

Definition has_binding (m : Manifest) (id : u8) (name : str) : Prop :=
  exists removed, mkBinding id name removed ∈ mf_uplinks m.

Lemma position_Some {A} (p : A -> bool) l i : position p l = Some i -> exists x, l !! i = Some x /\ p x = true.
Proof.
  revert i. induction l as [|x l IH]; intros i; simpl; [done|]. destruct (p x) eqn:E; [intros [= <-]; by exists x|].
  intros (j & Hj & ->)%fmap_Some. by apply IH.
Qed.

Lemma list_fmap_delete {A B} (f : A -> B) (l : list A) i : f <$> delete i l = delete i (f <$> l).
Proof. revert i. induction l as [|x l IH]; intros [|i]; try done. change (f x :: (f <$> delete i l) = f x :: delete i (f <$> l)). by rewrite IH. Qed.

(** Forgetting removes one binding of that name, marked removed, or nothing. *)
Lemma forget_cases m name : fst (Manifest_forget m name) = m \/
  exists i b, mf_uplinks m !! i = Some b /\ bd_name b = name /\ bd_removed b = true /\
    fst (Manifest_forget m name) = set_bindings m (mf_families m) (delete i (mf_uplinks m)).
Proof.
  unfold Manifest_forget. destruct (position _ (mf_uplinks m)) as [i|] eqn:E; [|by left].
  destruct (position_Some _ _ _ E) as (b & Hb & Hp). rewrite Hb. destruct (bd_removed b) eqn:Er; [|by left].
  right. exists i, b. bool_simpl. done.
Qed.

Lemma forget_wf m name : manifest_wf m -> manifest_wf (fst (Manifest_forget m name)).
Proof.
  intros Hw. destruct (forget_cases m name) as [->|(i & b & _ & _ & _ & ->)]; [done|]. destruct Hw as (Hi & Hn & Hs).
  unfold manifest_wf. simpl. split_and!.
  - rewrite (list_fmap_delete bd_id). eapply sublist_NoDup; [exact Hi|apply sublist_delete].
  - rewrite (list_fmap_delete bd_name). eapply sublist_NoDup; [exact Hn|apply sublist_delete].
  - clear Hi Hn. revert i. induction Hs as [|x l Hl IH Hall]; intros i; [destruct i; constructor|].
    destruct i as [|i]; [done|]. constructor; [apply IH|].
    apply Forall_forall. intros y Hy. rewrite Forall_forall in Hall. apply Hall. by eapply elem_of_sublist, sublist_delete.
Qed.

Lemma manifest_op_wf m op : manifest_wf m -> manifest_wf (manifest_op m op).
Proof.
  intros Hw. destruct op as [config|name]; simpl; [|by apply forget_wf].
  destruct (_ && _) eqn:E; [|done]. bool_simpl. destruct (Manifest_check m config) eqn:Ec; [|done]. by apply bind_wf.
Qed.

(** Only forgetting a removed binding's name ends it. *)
Lemma manifest_op_binding m op id name : has_binding m id name ->
  (forall n, op = MO_Forget n -> n <> name) -> has_binding (manifest_op m op) id name.
Proof.
  intros [removed Hb] Hno. destruct op as [config|n]; simpl.
  - destruct (_ && _) eqn:E; [|by exists removed]. bool_simpl.
    exists (bd_removed (mark config (mkBinding id name removed))). apply bind_elem_of; [done|]. left.
    by exists (mkBinding id name removed).
  - destruct (forget_cases m n) as [->|(i & b & Hi & Hn & _ & ->)]; [by exists removed|]. exists removed. simpl.
    apply list_elem_of_lookup in Hb as [j Hj]. assert (i <> j).
    { intros ->. rewrite Hi in Hj. injection Hj as ->. by apply (Hno n eq_refl). }
    apply list_elem_of_lookup. destruct (decide (j < i)%nat).
    + exists j. by rewrite list_lookup_delete_lt.
    + exists (j - 1)%nat. rewrite list_lookup_delete_ge by lia. by replace (S (j - 1)) with j by lia.
Qed.

(** An uplink id belongs to one name until it is forgotten: through any
    sequence of starts and reloads (each binding only a configuration that
    passed the check) and forget requests, ids and names stay paired one to
    one, and a recorded pair stays recorded unless its own name is
    forgotten; so no other uplink gets the id of a removed one, whose
    connections still carry it. *)
Theorem manifest_ids_stable (m : Manifest) (ops : list ManifestOp) (id : u8) (name : str)
    (Hwf : manifest_wf m) (Hb : has_binding m id name) (Hno : MO_Forget name ∉ ops) :
  let m' := foldl manifest_op m ops in
  manifest_wf m' /\ has_binding m' id name /\
  (forall id' name', has_binding m' id' name' -> (id' = id <-> name' = name)).
Proof.
  cbn zeta.
  assert (Hm : manifest_wf (foldl manifest_op m ops) /\ has_binding (foldl manifest_op m ops) id name).
  { revert m Hwf Hb. induction ops as [|op ops IH]; intros m Hwf Hb; simpl; [done|].
    apply IH; [set_solver|by apply manifest_op_wf|]. apply manifest_op_binding; [done|]. intros n -> ->. set_solver. }
  destruct Hm as [Hw Hb']. split_and!; [done..|]. destruct Hw as (Hi & Hn & _).
  intros id' name' [r' [j Hj]%list_elem_of_lookup]. destruct Hb' as [r [i Hi']%list_elem_of_lookup]. split; intros ->.
  - assert (j = i) as ->; [|congruence]. eapply (NoDup_lookup (bd_id <$> _) _ _ id Hi);
      rewrite list_lookup_fmap; [by rewrite Hj|by rewrite Hi'].
  - assert (j = i) as ->; [|congruence]. eapply (NoDup_lookup (bd_name <$> _) _ _ name Hn);
      rewrite list_lookup_fmap; [by rewrite Hj|by rewrite Hi'].
Qed.

(** Binding a configuration that passed the check records exactly it:
    every configured uplink is bound under its id and name and not removed,
    every earlier binding is kept, marked removed exactly when its uplink is
    not configured, nothing else is recorded, and the configuration still
    passes the check. *)
Theorem Manifest_bind_spec (m : Manifest) (config : Config)
    (Hwf : manifest_wf m) (Hd : distinct_uplinks config) (Hc : Manifest_check m config = []) :
  let m' := Manifest_bind m config in
  (forall u, u ∈ cf_uplinks config -> mkBinding (UplinkId_get (u_id u)) (u_name u) false ∈ mf_uplinks m') /\
  (forall b, b ∈ mf_uplinks m -> exists removed, mkBinding (bd_id b) (bd_name b) removed ∈ mf_uplinks m' /\
     (removed = false <-> exists u, u ∈ cf_uplinks config /\ UplinkId_get (u_id u) = bd_id b)) /\
  (forall b, b ∈ mf_uplinks m' -> has_binding m (bd_id b) (bd_name b) \/
     exists u, u ∈ cf_uplinks config /\ b = mkBinding (UplinkId_get (u_id u)) (u_name u) false) /\
  Manifest_check m' config = [].
Proof.
  cbn zeta. destruct Hd as [Hids Hnames]. pose proof Hc as [Hst Hpair]%Manifest_check_nil.
  assert (Hu : forall u, u ∈ cf_uplinks config -> fresh_binding u ∈ mf_uplinks (Manifest_bind m config)).
  { intros u Hu. apply bind_elem_of; [done|].
    destruct (bound (mf_uplinks m) u) eqn:E.
    - apply existsb_elem_of in E as (b & Hb & E). bool_simpl. left. exists b. split; [done|].
      assert (Hr : bd_removed (mark config b) = false) by (apply mark_removed; by exists u).
      unfold fresh_binding. rewrite <- Hr, <- E, <- (proj1 (Hpair u b Hu Hb) E). done.
    - right. exists u. split_and!; [done..|]. intros b Hb E'. apply not_true_iff_false in E. apply E.
      apply existsb_elem_of. exists b. split; [done|]. by apply Z.eqb_eq. }
  split_and!.
  - done.
  - intros b Hb. exists (bd_removed (mark config b)). split; [|apply mark_removed].
    apply bind_elem_of; [done|]. left. by exists b.
  - intros b [(b0 & Hb0 & ->)|(u & Hin & -> & _)]%bind_elem_of; [left|right; by exists u|done].
    exists (bd_removed b0). by destruct b0.
  - apply Manifest_check_nil. split; [done|]. intros u b Hin [(b0 & Hb0 & ->)|(v & Hv & -> & _)]%bind_elem_of; [|simpl|done].
    + exact (Hpair u b0 Hin Hb0).
    + split.
      * intros E%UplinkId_get_inj. f_equal. by eapply (NoDup_fmap_inj_in u_id).
      * intros E. do 2 f_equal. by eapply (NoDup_fmap_inj_in u_name).
Qed.

(** ** Two uplinks, then one of them *)
Module ManifestSample.
Definition uplink (n : Z) (name : str) : Uplink :=
  mkUplink (uid n) name [] name (Some 1) 1 (Some (mkPathSettings Auto Auto false Nat_Masquerade)) None Sample.health.
Definition config (uplinks : list Uplink) : Config :=
  mkConfig (cf_routing Sample.config) (cf_firewall Sample.config) [lit "lan"] uplinks []
    (mkNotify 0 None [] []) (mkApi [] [] None None) None [] [].
Definition both : Config := config [uplink 2 (lit "b"); uplink 1 (lit "a")].
Definition one : Config := config [uplink 1 (lit "a")].
Definition manifest : Manifest := Manifest_new both.
Lemma manifest_ok : manifest_wf manifest.
Proof.
  split_and!; [refine (bool_decide_eq_true_1 _ _); by vm_compute..|].
  change (mf_uplinks manifest) with [mkBinding 1 (lit "a") false; mkBinding 2 (lit "b") false].
  repeat constructor.
Qed.
End ManifestSample.

(** The second uplink is removed from the configuration; a third uplink
    cannot take its id. *)
Lemma manifest_ids_stable_witness :
  let ops := [MO_Start ManifestSample.one;
              MO_Start (ManifestSample.config [ManifestSample.uplink 2 (lit "c")]); MO_Forget (lit "a")] in
  has_binding (foldl manifest_op ManifestSample.manifest ops) 2 (lit "b").
Proof.
  apply (manifest_ids_stable ManifestSample.manifest
    [MO_Start ManifestSample.one; MO_Start (ManifestSample.config [ManifestSample.uplink 2 (lit "c")]);
     MO_Forget (lit "a")] 2 (lit "b")).
  - exact ManifestSample.manifest_ok.
  - exists false. change (mf_uplinks ManifestSample.manifest)
      with [mkBinding 1 (lit "a") false; mkBinding 2 (lit "b") false]. set_solver.
  - rewrite !not_elem_of_cons. split_and!; [discriminate..|apply not_elem_of_nil].
Defined.

Lemma Manifest_bind_spec_witness :
  Manifest_check (Manifest_bind ManifestSample.manifest ManifestSample.one) ManifestSample.one = [] /\
  mf_uplinks (Manifest_bind ManifestSample.manifest ManifestSample.one) =
    [mkBinding 1 (lit "a") false; mkBinding 2 (lit "b") true].
Proof.
  split; [|vm_compute; reflexivity].
  apply (Manifest_bind_spec ManifestSample.manifest ManifestSample.one).
  - exact ManifestSample.manifest_ok.
  - split; refine (bool_decide_eq_true_1 _ _); vm_compute; reflexivity.
  - vm_compute. reflexivity.
Defined.
