(* ===== verification/Sysctl.v ===== *)
(** * System settings

    Models crates/polywan/src/sysctl.rs and [apply_sysctls] of worker.rs: the
    settings PolyWAN wants, their differences, the baselines recorded before
    a value is written, and their restoration.  The files below /proc/sys
    are a parameter ([ProcSys]) with the laws of [ProcSysLaws], under which
    a write can change other settings too, as the kernel does for the
    forwarding of interfaces. *)

From stdpp Require Import prelude gmap sorting.
From Stdlib Require Import ZArith Lia.
From S2P Require Import Prelude Text Model Durations Config Plan StateFiles.

Local Open Scope Z_scope.

Record Setting := mkSetting {
  sg_key : str;
  sg_value : str;
  sg_interface : option str;
  sg_family : option Family
}.

Definition dotted (key : str) : str := (fun c => if c =? 47 then 46 else c) <$> key.
Definition Setting_display (s : Setting) : str := dotted (sg_key s).

Definition global (key value : str) (family : Family) : Setting := mkSetting key value None (Some family).

Definition per_interface (family : Family) (interface name value : str) : Setting :=
  let dir := if bool_decide (family = V4) then lit "ipv4" else lit "ipv6" in
  mkSetting (lit "net/" ++ dir ++ lit "/conf/" ++ interface ++ lit "/" ++ name) value (Some interface) (Some family).

(** The body of the loop of [desired]. *)
Definition uplink_settings (v4 v6 : bool) (u : Uplink) : list Setting :=
  (if v4 then [per_interface V4 (u_interface u) (lit "rp_filter") (lit "2");
               per_interface V4 (u_interface u) (lit "src_valid_mark") (lit "1");
               per_interface V4 (u_interface u) (lit "ignore_routes_with_linkdown") (lit "1")] else []) ++
  (if v6 then [per_interface V6 (u_interface u) (lit "ignore_routes_with_linkdown") (lit "1")] else []).

Definition desired (config : Config) : list Setting :=
  let v4 := Config_manages config V4 in
  let v6 := Config_manages config V6 in
  (if v4 then [global (lit "net/ipv4/ip_forward") (lit "1") V4;
               global (lit "net/ipv4/fib_multipath_hash_policy") (lit "1") V4] else []) ++
  (if v6 then [global (lit "net/ipv6/conf/all/forwarding") (lit "1") V6;
               global (lit "net/ipv6/fib_multipath_hash_policy") (lit "1") V6] else []) ++
  concat (uplink_settings v4 v6 <$> cf_uplinks config).

Definition family_of (key : str) : option Family :=
  if starts_with (lit "net/ipv4/") key then Some V4
  else if starts_with (lit "net/ipv6/") key then Some V6
  else None.

Definition departed (m : Manifest) (config : Config) : list Family :=
  List.filter (fun f => negb (Config_manages config f) &&
    existsb (fun k => bool_decide (family_of k = Some f)) (btree_keys (mf_sysctl_set m))) Family_ALL.

Record Difference := mkDifference { df_setting : Setting; df_current : str }.

Inductive SettingError := mkSettingError (name : str) (error : ErrorKind).

(** [read] is the value of a key now. *)
Fixpoint differences (settings : list Setting) (read : str -> result str ErrorKind)
    : result (list Difference) SettingError :=
  match settings with
  | [] => Ok []
  | s :: settings =>
      let rest := differences settings read in
      match read (sg_key s) with
      | Ok current =>
          if bool_decide (current = sg_value s) then rest
          else match rest with Ok v => Ok (mkDifference s current :: v) | Err e => Err e end
      | Err e =>
          if bool_decide (e = NotFound) && bool_decide (is_Some (sg_interface s)) then rest
          else Err (mkSettingError (Setting_display s) e)
      end
  end.

Definition record (m : Manifest) (diffs : list Difference) : Manifest :=
  foldl (fun m d => record_sysctl m (sg_key (df_setting d)) (df_current d) (sg_value (df_setting d))) m diffs.

(** The files below /proc/sys: contents, and the effect of a write. *)
Class ProcSys (W : Type) := {
  proc_read : str -> W -> result str ErrorKind;
  proc_write : str -> str -> W -> result unit ErrorKind * W
}.
#[global] Hint Mode ProcSys ! : typeclass_instances.

Definition InvalidInput : ErrorKind := OtherError 22.

Section sysctl.
Context {W : Type} `{ProcSys W}.

Definition sysctl_read (key : str) (w : W) : result str ErrorKind :=
  if valid_key key then match proc_read key w with Ok s => Ok (str_trim s) | Err e => Err e end
  else Err InvalidInput.

Definition sysctl_write (key value : str) (w : W) : result unit ErrorKind * W :=
  if valid_key key then proc_write key value w else (Err InvalidInput, w).

(** The loop of [restore] over the recorded values in key order. *)
Fixpoint restore_loop (m : Manifest) (keys : str -> bool) (entries : list (str * str)) (w : W)
    : list (str * result unit ErrorKind) * W :=
  match entries with
  | [] => ([], w)
  | (key, set) :: entries =>
      if negb (keys key) then restore_loop m keys entries w else
      match mf_sysctl_baseline m !! key with
      | None => restore_loop m keys entries w
      | Some baseline =>
          match sysctl_read key w with
          | Ok current =>
              if bool_decide (current = set) && negb (bool_decide (baseline = set)) then
                let '(r, w) := sysctl_write key baseline w in
                let '(v, w) := restore_loop m keys entries w in ((key, r) :: v, w)
              else restore_loop m keys entries w
          | Err e =>
              if bool_decide (e = NotFound) then restore_loop m keys entries w
              else let '(v, w) := restore_loop m keys entries w in ((key, Err e) :: v, w)
          end
      end
  end.

Definition restore (m : Manifest) (keys : str -> bool) (w : W) : list (str * result unit ErrorKind) * W :=
  restore_loop m keys (btree_iter (mf_sysctl_set m)) w.

Record Handoff := mkHandoff { ho_restored : list str; ho_released : list str; ho_failed : list (str * ErrorKind) }.
Definition Handoff_default : Handoff := mkHandoff [] [] [].

Definition forget_key (m : Manifest) (key : str) : Manifest :=
  set_sysctls m (delete key (mf_sysctl_baseline m)) (delete key (mf_sysctl_set m)).

(** The outcome for one key: whether it was restored. *)
Definition hand_back_key (m : Manifest) (key : str) (w : W) : result bool ErrorKind * W :=
  let set := default [] (mf_sysctl_set m !! key) in
  match sysctl_read key w with
  | Err NotFound => (Ok false, w)
  | Err e => (Err e, w)
  | Ok current =>
      if negb (bool_decide (current = set)) then (Ok false, w) else
      match mf_sysctl_baseline m !! key with
      | Some b =>
          if negb (bool_decide (b = set)) then
            match sysctl_write key b w with
            | (Ok _, w) => (Ok true, w)
            | (Err e, w) => (Err e, w)
            end
          else (Ok true, w)
      | None => (Ok true, w)
      end
  end.

Fixpoint hand_back_loop (keys : list str) (m : Manifest) (h : Handoff) (w : W) : Handoff * Manifest * W :=
  match keys with
  | [] => (h, m, w)
  | key :: keys =>
      match hand_back_key m key w with
      | (Ok restored, w) =>
          hand_back_loop keys (forget_key m key)
            (if restored : bool then mkHandoff (ho_restored h ++ [key]) (ho_released h) (ho_failed h)
             else mkHandoff (ho_restored h) (ho_released h ++ [key]) (ho_failed h)) w
      | (Err e, w) => hand_back_loop keys m (mkHandoff (ho_restored h) (ho_released h) (ho_failed h ++ [(key, e)])) w
      end
  end.

Definition family_keys (m : Manifest) (family : Family) : list str :=
  List.filter (fun k => bool_decide (family_of k = Some family)) (btree_keys (mf_sysctl_set m)).

Definition hand_back (m : Manifest) (family : Family) (w : W) : Handoff * Manifest * W :=
  hand_back_loop (family_keys m family) m Handoff_default w.

(** ** Applying settings (worker.rs) *)

Inductive ApplyError :=
  | Apply_Read (e : SettingError)
  | Apply_Manifest (e : str)
  | Apply_Hook (e : str)
  | Apply_Write (name : str) (e : ErrorKind).

(** The loop that writes the values. *)
Fixpoint write_values (diffs : list Difference) (w : W) : result unit ApplyError * W :=
  match diffs with
  | [] => (Ok tt, w)
  | d :: diffs =>
      match sysctl_write (sg_key (df_setting d)) (sg_value (df_setting d)) w with
      | (Ok _, w) => write_values diffs w
      | (Err e, w) => (Err (Apply_Write (Setting_display (df_setting d)) e), w)
      end
  end.

(** [write_manifest] is the replacement of the manifest file, [hook] what
    [test_hooks::step] returned; the manifest in memory is returned with
    the result. *)
Definition apply_sysctls (settings : list Setting) (manage : bool)
    (write_manifest : Manifest -> W -> result unit str * W) (hook : result unit str)
    (m : Manifest) (w : W) : result unit ApplyError * Manifest * W :=
  match differences settings (fun k => sysctl_read k w) with
  | Err e => if negb manage then (Ok tt, m, w) else (Err (Apply_Read e), m, w)
  | Ok [] => (Ok tt, m, w)
  | Ok diffs =>
      if negb manage then (Ok tt, m, w) else
      let recorded := record m diffs in
      let write m w :=
        match hook with
        | Err e => (Err (Apply_Hook e), m, w)
        | Ok _ => let '(r, w) := write_values diffs w in (r, m, w)
        end in
      if bool_decide (mf_sysctl_baseline recorded = mf_sysctl_baseline m /\ mf_sysctl_set recorded = mf_sysctl_set m)
      then write m w
      else match write_manifest recorded w with
           | (Err e, w) => (Err (Apply_Manifest e), m, w)
           | (Ok _, w) => write recorded w
           end
  end.
End sysctl.

(** ** What the kernel's settings and the state directory promise *)

(** A key that PolyWAN can write: that of a setting it wants, of an interface
    with a name that the kernel gives ([all] and [default] are directories of
    /proc/sys and no interfaces). *)
Definition managed_setting (s : Setting) : Prop :=
  (exists config, s ∈ desired config) /\
  forall i, sg_interface s = Some i -> i <> lit "all" /\ i <> lit "default".
Definition managed_key (k : str) : Prop :=
  valid_key k = true /\ exists s, managed_setting s /\ sg_key s = k.

(** A written value reads back, and a failed write changes nothing.  A write
    can change other settings: [proc_affects] says which (the kernel
    documents [ip_forward] and [conf/all/forwarding] as such; they set the
    [forwarding] of every interface).  The settings that PolyWAN manages do
    not affect each other. *)
Class ProcSysLaws (W : Type) `{ProcSys W} := {
  proc_affects : str -> str -> Prop;
  proc_write_same : forall k v (w w' : W), proc_write k v w = (Ok tt, w') -> str_trim v = v ->
    exists s, proc_read k w' = Ok s /\ str_trim s = v;
  proc_write_other : forall k v (w w' : W) r k', proc_write k v w = (r, w') ->
    valid_key k = true -> valid_key k' = true -> k' <> k -> ~ proc_affects k k' ->
    proc_read k' w' = proc_read k' w;
  proc_write_failed : forall k v (w w' : W) e k', proc_write k v w = (Err e, w') -> proc_read k' w' = proc_read k' w;
  proc_independent : forall k k', managed_key k -> managed_key k' -> k <> k' -> ~ proc_affects k k'
}.
#[global] Hint Mode ProcSysLaws ! - : typeclass_instances.
Arguments proc_affects W {_ _} _ _.

(** The manifest on disk: replaced, or on a failure the old or the new one. *)
Class StateDisk (W : Type) := {
  disk : W -> Manifest;
  disk_write : Manifest -> W -> result unit str * W
}.
#[global] Hint Mode StateDisk ! : typeclass_instances.
Class StateDiskLaws (W : Type) `{ProcSys W, StateDisk W} := {
  disk_write_Ok : forall m (w w' : W), disk_write m w = (Ok tt, w') -> disk w' = m;
  disk_write_Err : forall m (w w' : W) e, disk_write m w = (Err e, w') -> disk w' = disk w \/ disk w' = m;
  disk_write_read : forall m (w : W) k, proc_read k (snd (disk_write m w)) = proc_read k w;
  proc_write_disk : forall k v (w : W), disk (snd (proc_write k v w)) = disk w
}.
#[global] Hint Mode StateDiskLaws ! - - : typeclass_instances.

(** ** Lemmas *)

Lemma drop_while_head {A} (p : A -> bool) l x l' : drop_while p l = x :: l' -> p x = false.
Proof. induction l as [|y l IH]; simpl; [done|]. destruct (p y) eqn:E; [done|]. by intros [= <- _]. Qed.

Lemma drop_while_stop {A} (p : A -> bool) l : (forall x l', l = x :: l' -> p x = false) -> drop_while p l = l.
Proof. destruct l as [|x l]; simpl; [done|]. intros H. by rewrite (H x l). Qed.

(** What is dropped is a prefix. *)
Lemma drop_while_suffix {A} (p : A -> bool) l : exists d, l = d ++ drop_while p l.
Proof.
  induction l as [|x l [d IH]]; simpl; [by exists []|]. destruct (p x); [|by exists []]. exists (x :: d). simpl. by rewrite <- IH.
Qed.

Lemma str_trim_idemp s : str_trim (str_trim s) = str_trim s.
Proof.
  unfold str_trim. set (t := trim_start s).
  assert (Ht : forall x l, t = x :: l -> is_whitespace x = false) by (intros x l E; by eapply drop_while_head).
  assert (He : trim_end (trim_end t) = trim_end t).
  { unfold trim_end. rewrite rev_involutive. f_equal. apply drop_while_stop. intros x l. apply drop_while_head. }
  assert (Hs : trim_start (trim_end t) = trim_end t); [|by rewrite Hs].
  apply drop_while_stop. intros x l E. unfold trim_end in E.
  destruct (drop_while_suffix is_whitespace (rev t)) as [d Hd].
  apply (f_equal (@rev Z)) in Hd. rewrite rev_involutive, rev_app_distr, E in Hd. by eapply Ht.
Qed.

Lemma differences_elem_of settings read diffs d : differences settings read = Ok diffs -> d ∈ diffs ->
  df_setting d ∈ settings /\ read (sg_key (df_setting d)) = Ok (df_current d) /\
  df_current d <> sg_value (df_setting d).
Proof.
  revert diffs. induction settings as [|s settings IH]; intros diffs; simpl.
  { intros [= <-] Hd. by apply not_elem_of_nil in Hd. }
  assert (Hrest : forall diffs, differences settings read = Ok diffs -> d ∈ diffs ->
    df_setting d ∈ s :: settings /\ read (sg_key (df_setting d)) = Ok (df_current d) /\
    df_current d <> sg_value (df_setting d)).
  { intros v Hv Hd. destruct (IH v Hv Hd) as [? ?]. split; [set_solver|done]. }
  destruct (read (sg_key s)) as [current|e] eqn:Er.
  - case_bool_decide as Ec; [apply Hrest|]. destruct (differences settings read) as [v|]; [|done].
    intros [= <-] [->|Hd]%elem_of_cons; [|by eapply Hrest]. simpl. split_and!; [set_solver|done..].
  - destruct (_ && _); [apply Hrest|done].
Qed.

(** The differences found are those of the settings, all of them. *)
Lemma differences_complete settings read diffs s current : differences settings read = Ok diffs ->
  s ∈ settings -> read (sg_key s) = Ok current -> current <> sg_value s -> mkDifference s current ∈ diffs.
Proof.
  revert diffs. induction settings as [|s' settings IH]; intros diffs; simpl; [by intros _ ?%not_elem_of_nil|].
  intros E Hin Hr Hne. apply elem_of_cons in Hin as [<-|Hin].
  - rewrite Hr, bool_decide_eq_false_2 in E by done. destruct (differences settings read); [|done].
    injection E as <-. set_solver.
  - destruct (read (sg_key s')) as [cur|e].
    + case_bool_decide; [by apply IH|]. destruct (differences settings read) as [v|]; [|done].
      injection E as <-. apply elem_of_cons. right. by apply IH.
    + destruct (_ && _); [by apply IH|done].
Qed.

Section tracking.
Context {W : Type} `{ProcSysLaws W}.
(** The value of every setting, by its key, and the world before PolyWAN. *)
Context (want : str -> str) (Hwant : forall k, str_trim (want k) = want k) (w0 : W).
Implicit Types w : W.

Definition tracks_key (m : Manifest) w (k : str) : Prop :=
  match mf_sysctl_set m !! k with
  | Some s => s = want k /\ exists b, mf_sysctl_baseline m !! k = Some b /\ b <> s /\ str_trim b = b /\
      sysctl_read k w0 = Ok b /\ (sysctl_read k w = Ok s \/ sysctl_read k w = Ok b)
  | None => mf_sysctl_baseline m !! k = None /\ sysctl_read k w = sysctl_read k w0
  end.

(** A setting that no other one that PolyWAN manages affects. *)
Definition unaffected (k : str) : Prop := forall j, managed_key j -> j <> k -> ~ proc_affects W j k.

Lemma managed_unaffected k : managed_key k -> unaffected k.
Proof. intros Hk j Hj Hne. by apply proc_independent. Qed.

(** The manifest records managed settings and accounts for every setting,
    unaffected by the others, that differs from [w0]. *)
Definition tracks (m : Manifest) w : Prop :=
  (forall k, is_Some (mf_sysctl_set m !! k) -> managed_key k) /\ forall k, unaffected k -> tracks_key m w k.

Lemma tracks_reads m w w' : (forall k, sysctl_read k w' = sysctl_read k w) -> tracks m w -> tracks m w'.
Proof. intros E [Hm Ht]. split; [done|]. intros k Hk. specialize (Ht k Hk). unfold tracks_key in *. by rewrite E. Qed.

Lemma sysctl_read_other k v w w' r k' : sysctl_write k v w = (r, w') -> k' <> k -> ~ proc_affects W k k' ->
  sysctl_read k' w' = sysctl_read k' w.
Proof.
  unfold sysctl_write, sysctl_read. destruct (valid_key k) eqn:Ek; [|by intros [= _ <-]]. intros E Hne Ha.
  destruct (valid_key k') eqn:Ek'; [|done]. by rewrite (proc_write_other k v w w' r k' E Ek Ek' Hne Ha).
Qed.

Lemma sysctl_read_same k v w w' : sysctl_write k v w = (Ok tt, w') -> str_trim v = v -> sysctl_read k w' = Ok v.
Proof.
  unfold sysctl_write, sysctl_read. destruct (valid_key k); [|done]. intros E Hv.
  destruct (proc_write_same k v w w' E Hv) as (s & -> & ->). done.
Qed.

Lemma sysctl_read_failed k v w w' e k' : sysctl_write k v w = (Err e, w') -> sysctl_read k' w' = sysctl_read k' w.
Proof.
  intros E. unfold sysctl_write, sysctl_read in *. destruct (valid_key k); [|by injection E as _ <-].
  by rewrite (proc_write_failed k v w w' e k' E).
Qed.

Lemma sysctl_read_trim k w v : sysctl_read k w = Ok v -> str_trim v = v.
Proof.
  unfold sysctl_read. destruct (valid_key k), (proc_read k w) as [s|]; try done. intros [= <-]. apply str_trim_idemp.
Qed.

Lemma sysctl_read_valid k w v : sysctl_read k w = Ok v -> valid_key k = true.
Proof. unfold sysctl_read. by destruct (valid_key k). Qed.

(** A difference of a wanted setting in [w]. *)
Definition wanted w (d : Difference) : Prop :=
  sysctl_read (sg_key (df_setting d)) w = Ok (df_current d) /\ df_current d <> sg_value (df_setting d) /\
  sg_value (df_setting d) = want (sg_key (df_setting d)) /\ managed_key (sg_key (df_setting d)).

Lemma tracks_record_one m w d : tracks m w -> wanted w d ->
  tracks (record_sysctl m (sg_key (df_setting d)) (df_current d) (sg_value (df_setting d))) w.
Proof.
  intros [Hm Ht] (Hr & Hne & Hw & Hmk). split.
  { intros k. simpl. destruct (decide (k = sg_key (df_setting d))) as [->|Hk]; [done|].
    rewrite lookup_insert_ne by done. apply Hm. }
  intros k Hu. specialize (Ht k Hu). unfold tracks_key in *. simpl.
  destruct (decide (k = sg_key (df_setting d))) as [->|Hk].
  - rewrite lookup_insert_eq. split; [done|]. destruct (mf_sysctl_set m !! _) as [s|].
    + destruct Ht as (-> & b & Hb & Hbs & Hbt & Hb0 & Hcur). rewrite Hb. exists b. rewrite Hw.
      split_and!; try done.
    + destruct Ht as [-> Hsame]. exists (df_current d). rewrite lookup_insert_eq.
      split_and!; [done|done|by eapply sysctl_read_trim|congruence|by right].
  - rewrite lookup_insert_ne by done. destruct (mf_sysctl_baseline m !! sg_key (df_setting d)); [done|].
    by rewrite lookup_insert_ne by done.
Qed.

Lemma tracks_record m w diffs : tracks m w -> Forall (wanted w) diffs -> tracks (record m diffs) w.
Proof.
  unfold record. revert m. induction diffs as [|d diffs IH]; intros m Ht Hd; simpl; [done|].
  apply Forall_cons in Hd as [Hd Hds]. apply IH; [by apply tracks_record_one|done].
Qed.

(** Writing the wanted value of a recorded key. *)
Lemma tracks_write m w k w' r : tracks m w -> mf_sysctl_set m !! k = Some (want k) ->
  sysctl_write k (want k) w = (r, w') -> tracks m w'.
Proof.
  intros [Hm Ht] Hk E. split; [done|]. intros k' Hu. specialize (Ht k' Hu) as Hk'. unfold tracks_key in *.
  destruct r as [[]|e].
  - destruct (decide (k' = k)) as [->|Hne].
    + rewrite Hk in *. destruct Hk' as (_ & b & Hb & Hbs & Hbt & Hb0 & _). split; [done|]. exists b.
      split_and!; try done. left. by eapply sysctl_read_same.
    + rewrite (sysctl_read_other k (want k) w w' (Ok tt) k' E Hne); [done|]. apply Hu; [|done]. apply Hm. by rewrite Hk.
  - by rewrite (sysctl_read_failed k (want k) w w' e k' E).
Qed.

Lemma tracks_write_values m diffs w r w' : tracks m w ->
  (forall d, d ∈ diffs -> sg_value (df_setting d) = want (sg_key (df_setting d)) /\
     mf_sysctl_set m !! sg_key (df_setting d) = Some (want (sg_key (df_setting d)))) ->
  write_values diffs w = (r, w') -> tracks m w'.
Proof.
  revert w. induction diffs as [|d diffs IH]; intros w Ht Hd; simpl; [by intros [= _ <-]|].
  destruct (Hd d) as [Hv Hs]; [set_solver|]. rewrite Hv.
  destruct (sysctl_write _ _ w) as [[[]|e] w1] eqn:E; pose proof (tracks_write m w _ w1 _ Ht Hs E) as Ht1.
  - apply IH; [done|]. intros d' Hd'. apply Hd. set_solver.
  - by intros [= _ <-].
Qed.

(** Restoring: when nothing failed, every recorded key reads as in [w0], the
    others are not touched. *)
Lemma restore_loop_spec m entries w log w' : NoDup (fst <$> entries) ->
  (forall k s, (k, s) ∈ entries -> managed_key k /\ mf_sysctl_set m !! k = Some s /\ tracks_key m w k) ->
  restore_loop m (fun _ => true) entries w = (log, w') -> Forall (fun e => snd e = Ok tt) log ->
  forall k, unaffected k -> sysctl_read k w' = sysctl_read k (if decide (k ∈ fst <$> entries) then w0 else w).
Proof.
  revert w log. induction entries as [|[k s] entries IH]; intros w log Hnd Ht; simpl.
  { intros [= <- <-] _ k _. by destruct (decide (k ∈ [])) as [?%not_elem_of_nil|]. }
  rewrite fmap_cons in Hnd. apply NoDup_cons in Hnd as [Hk Hnd].
  destruct (Ht k s) as (Hmk & Hs & Hkey); [set_solver|]. unfold tracks_key in Hkey. rewrite Hs in Hkey.
  destruct Hkey as (_ & b & Hb & Hbs & Hbt & Hb0 & Hcur). rewrite Hb.
  assert (Hskip : forall w1 log1, (forall k', unaffected k' -> k' <> k -> sysctl_read k' w1 = sysctl_read k' w) ->
    sysctl_read k w1 = Ok b ->
    restore_loop m (fun _ => true) entries w1 = (log1, w') -> Forall (fun e => snd e = Ok tt) log1 ->
    forall k', unaffected k' ->
    sysctl_read k' w' = sysctl_read k' (if decide (k' ∈ k :: (fst <$> entries)) then w0 else w)).
  { intros w1 log1 Hoth Hk1 E Hlog k' Hu.
    assert (Hrest : forall k2 s2, (k2, s2) ∈ entries ->
      managed_key k2 /\ mf_sysctl_set m !! k2 = Some s2 /\ tracks_key m w1 k2).
    { intros k2 s2 Hin. destruct (Ht k2 s2) as (Hm2 & Hs2 & Ht2); [set_solver|]. split_and!; [done..|].
      unfold tracks_key in *. rewrite Hoth; [done|by apply managed_unaffected|]. intros ->. apply Hk, list_elem_of_fmap.
      by exists (k, s2). }
    rewrite (IH w1 log1 Hnd Hrest E Hlog k' Hu).
    destruct (decide (k' = k)) as [->|Hne].
    - rewrite decide_False by done. rewrite decide_True by set_solver. by rewrite Hk1, Hb0.
    - destruct (decide (k' ∈ fst <$> entries)).
      + by rewrite decide_True by set_solver.
      + rewrite decide_False by set_solver. by apply Hoth. }
  destruct Hcur as [Hc|Hc]; rewrite Hc.
  - rewrite bool_decide_eq_true_2, bool_decide_eq_false_2 by done. simpl.
    destruct (sysctl_write k b w) as [r w1] eqn:Ew. destruct (restore_loop m _ entries w1) as [log1 w2] eqn:Er.
    intros [= <- <-] [Hr Hlog]%Forall_cons. simpl in Hr. subst r.
    apply (Hskip w1 log1); [|by eapply sysctl_read_same|done..]. intros k' Hu Hne.
    eapply sysctl_read_other; [done..|]. by apply Hu.
  - rewrite (bool_decide_eq_false_2 (b = s)) by done. simpl. intros E. by apply (Hskip w log).
Qed.

Lemma restore_spec m w log w' : tracks m w -> restore m (fun _ => true) w = (log, w') ->
  Forall (fun e => snd e = Ok tt) log -> forall k, unaffected k -> sysctl_read k w' = sysctl_read k w0.
Proof.
  intros [Hm Ht] E Hlog k Hu. rewrite (restore_loop_spec m (btree_iter (mf_sysctl_set m)) w log w'); try done.
  2: { apply btree_keys_NoDup. }
  2: { intros k' s Hin%btree_iter_elem_of. assert (managed_key k') by (apply Hm; by rewrite Hin).
       split_and!; [done..|]. by apply Ht, managed_unaffected. }
  destruct (decide _) as [|Hn]; [done|]. specialize (Ht k Hu). unfold tracks_key in Ht.
  destruct (mf_sysctl_set m !! k) as [s|] eqn:Es; [|by destruct Ht].
  exfalso. apply Hn, list_elem_of_fmap. exists (k, s). split; [done|]. by apply btree_iter_elem_of.
Qed.
End tracking.
Arguments unaffected W {_ _} _.

(** ** Sequences of applications *)

Section runs.
Context {W : Type} `{ProcSysLaws W, !StateDisk W, !StateDiskLaws W}.
Context (want : str -> str) (Hwant : forall k, str_trim (want k) = want k) (w0 : W).
Implicit Types w : W.

(** The records of the manifest in memory are on disk. *)
Definition included (m m' : Manifest) : Prop :=
  mf_sysctl_set m ⊆ mf_sysctl_set m' /\ mf_sysctl_baseline m ⊆ mf_sysctl_baseline m'.

Definition accounted (m : Manifest) w : Prop :=
  tracks want w0 m w /\ tracks want w0 (disk w) w /\ included m (disk w).

Lemma record_set m diffs k : Forall (fun d => sg_value (df_setting d) = want (sg_key (df_setting d))) diffs ->
  mf_sysctl_set (record m diffs) !! k =
    if decide (k ∈ (fun d => sg_key (df_setting d)) <$> diffs) then Some (want k) else mf_sysctl_set m !! k.
Proof.
  unfold record. revert m. induction diffs as [|d diffs IH]; intros m Hd; simpl.
  { by destruct (decide (k ∈ [])) as [?%not_elem_of_nil|]. }
  apply Forall_cons in Hd as [Hv Hds]. rewrite IH by done.
  destruct (decide (k ∈ (fun d => sg_key (df_setting d)) <$> diffs)) as [Hin|Hin].
  - by rewrite decide_True by set_solver.
  - simpl. destruct (decide (k = sg_key (df_setting d))) as [->|Hne].
    + rewrite lookup_insert_eq, Hv. by rewrite decide_True by set_solver.
    + rewrite lookup_insert_ne by done. by rewrite decide_False by set_solver.
Qed.

Lemma record_baseline m diffs : mf_sysctl_baseline m ⊆ mf_sysctl_baseline (record m diffs).
Proof.
  unfold record. revert m. induction diffs as [|d diffs IH]; intros m; simpl; [done|].
  etransitivity; [|apply IH]. simpl. destruct (mf_sysctl_baseline m !! _) eqn:E; [done|]. by apply insert_subseteq.
Qed.

Lemma sysctl_write_disk k v w : disk (snd (sysctl_write k v w)) = disk w.
Proof. unfold sysctl_write. destruct (valid_key k); [apply proc_write_disk|done]. Qed.

Lemma write_values_disk diffs w : disk (snd (write_values diffs w)) = disk w.
Proof.
  revert w. induction diffs as [|d diffs IH]; intros w; simpl; [done|].
  pose proof (sysctl_write_disk (sg_key (df_setting d)) (sg_value (df_setting d)) w) as Hd.
  destruct (sysctl_write _ _ w) as [[[]|e] w1]; simpl in *; [by rewrite IH|done].
Qed.

(** Writing the values of settings recorded in memory. *)
Lemma accounted_write m diffs w r w' : accounted m w ->
  (forall d, d ∈ diffs -> sg_value (df_setting d) = want (sg_key (df_setting d)) /\
     mf_sysctl_set m !! sg_key (df_setting d) = Some (want (sg_key (df_setting d)))) ->
  write_values diffs w = (r, w') -> accounted m w'.
Proof.
  intros (Hm & Hd & Hi) Hv E. pose proof (write_values_disk diffs w) as Hdisk. rewrite E in Hdisk. simpl in Hdisk.
  split_and!; [by eapply tracks_write_values| |by rewrite Hdisk]. rewrite Hdisk.
  eapply (tracks_write_values want Hwant w0); [exact Hd| |exact E]. intros d Hin. destruct (Hv d Hin) as [? Hs].
  split; [done|]. by eapply lookup_weaken, Hi.
Qed.

Lemma record_included m diffs w : tracks want w0 m w -> Forall (wanted want w) diffs -> included m (record m diffs).
Proof.
  intros Ht Hd. split; [|apply record_baseline]. apply map_subseteq_spec. intros k s Hk. rewrite record_set.
  - destruct (decide _); [|done]. destruct Ht as [Hm Ht]. assert (managed_key k) by (apply Hm; by rewrite Hk).
    specialize (Ht k (managed_unaffected k ltac:(done))). unfold tracks_key in Ht. rewrite Hk in Ht.
    destruct Ht as [-> _]. done.
  - eapply Forall_impl; [exact Hd|]. by intros d (_ & _ & ? & _).
Qed.

Lemma apply_sysctls_accounted settings hook m w r m' w' :
  (forall s, s ∈ settings -> sg_value s = want (sg_key s) /\ managed_setting s) -> accounted m w ->
  apply_sysctls settings true disk_write hook m w = (r, m', w') -> accounted m' w'.
Proof.
  intros Hset Hacc. unfold apply_sysctls.
  destruct (differences settings (fun k => sysctl_read k w)) as [diffs|e] eqn:Ed; [|by intros [= _ <- <-]].
  assert (Hw : Forall (wanted want w) diffs).
  { apply Forall_forall. intros d Hd. destruct (differences_elem_of settings (fun k => sysctl_read k w) diffs d Ed Hd) as (Hin & ? & ?).
    destruct (Hset _ Hin) as [? Hms]. split_and!; try done.
    split; [by eapply sysctl_read_valid|by exists (df_setting d)]. }
  destruct diffs as [|d0 diffs0]; [by intros [= _ <- <-]|]. set (diffs := d0 :: diffs0) in *. clearbody diffs. cbn zeta.
  assert (Hvals : Forall (fun d => sg_value (df_setting d) = want (sg_key (df_setting d))) diffs).
  { eapply Forall_impl; [exact Hw|]. by intros d (_ & _ & ? & _). }
  pose proof Hacc as (Hm & Hd & Hi).
  assert (Hrec : forall d, d ∈ diffs -> sg_value (df_setting d) = want (sg_key (df_setting d)) /\
    mf_sysctl_set (record m diffs) !! sg_key (df_setting d) = Some (want (sg_key (df_setting d)))).
  { intros d Hin. split; [rewrite Forall_forall in Hvals; by apply Hvals|]. rewrite record_set by done.
    by rewrite decide_True by (apply list_elem_of_fmap; by exists d). }
  assert (Hgo : forall m1 w1, accounted m1 w1 -> mf_sysctl_set m1 = mf_sysctl_set (record m diffs) ->
    match hook with
    | Err e => (Err (Apply_Hook e), m1, w1)
    | Ok _ => let '(r, w) := write_values diffs w1 in (r, m1, w)
    end = (r, m', w') -> accounted m' w').
  { intros m1 w1 Ha Hs. destruct hook as [[]|e]; [|by intros [= _ <- <-]].
    destruct (write_values diffs w1) as [r1 w2] eqn:Ew. intros [= _ <- <-]. eapply accounted_write; [done| |done].
    rewrite Hs. exact Hrec. }
  cbn [negb]. case_bool_decide as Heq; [by apply Hgo; [|symmetry; apply Heq]|].
  pose proof (disk_write_read (record m diffs) w) as Hread.
  destruct (disk_write (record m diffs) w) as [[[]|e] w1] eqn:Ew; simpl in Hread;
    (assert (Hr1 : forall k, sysctl_read k w1 = sysctl_read k w) by (intros k; unfold sysctl_read; by rewrite Hread)).
  - apply Hgo; [|done]. apply disk_write_Ok in Ew as Hdisk.
    pose proof (tracks_record want w0 m w diffs Hm Hw) as Htr.
    split_and!; [by eapply tracks_reads|rewrite Hdisk; by eapply tracks_reads|by rewrite Hdisk].
  - intros [= _ <- <-]. apply disk_write_Err in Ew as Hdisk. split; [by eapply tracks_reads|].
    destruct Hdisk as [->| ->]; (split; [eapply tracks_reads; [done|]|]); [done|done|by apply tracks_record|by eapply record_included].
Qed.
End runs.

(** ** The settings PolyWAN wants *)

(** The last component of a key decides its value. *)
Definition wanted_value (key : str) : str :=
  if bool_decide (last (split_on 47 key) = Some (lit "rp_filter")) then lit "2" else lit "1".

Lemma split_on_last c s w : c ∉ w -> last (split_on c (s ++ c :: w)) = Some w.
Proof.
  intros Hw. assert (exists x pre, split_on c (s ++ c :: w) = (x :: pre) ++ [w]) as (x & pre & ->);
    [|by rewrite last_snoc].
  induction s as [|d s (x & pre & IH)]; simpl.
  - rewrite Z.eqb_refl, (split_on_word c w) by done. by exists [], [].
  - rewrite IH. destruct (d =? c); [by exists [], (x :: pre)|by exists (d :: x), pre].
Qed.

(** What the settings are. *)
Lemma desired_shape config s : s ∈ desired config ->
  s ∈ [global (lit "net/ipv4/ip_forward") (lit "1") V4; global (lit "net/ipv4/fib_multipath_hash_policy") (lit "1") V4;
       global (lit "net/ipv6/conf/all/forwarding") (lit "1") V6; global (lit "net/ipv6/fib_multipath_hash_policy") (lit "1") V6] \/
  exists f i name value, s = per_interface f i name value /\
    (name, value) ∈ [(lit "rp_filter", lit "2"); (lit "src_valid_mark", lit "1");
                     (lit "ignore_routes_with_linkdown", lit "1")].
Proof.
  unfold desired. rewrite !elem_of_app. intros [Hs|[Hs|Hs]].
  - destruct (Config_manages config V4); [left; set_solver|by apply not_elem_of_nil in Hs].
  - destruct (Config_manages config V6); [left; set_solver|by apply not_elem_of_nil in Hs].
  - right. rewrite list_elem_of_In, in_concat in Hs. destruct Hs as (l & Hl & Hs).
    apply in_map_iff in Hl as (u & <- & _). apply list_elem_of_In in Hs. unfold uplink_settings in Hs.
    apply elem_of_app in Hs as [Hs|Hs]; (destruct (Config_manages config _); [|by apply not_elem_of_nil in Hs]);
      rewrite !elem_of_cons, elem_of_nil in Hs; destruct_or?; try done; subst s; do 4 eexists; (split; [reflexivity|]);
      set_solver.
Qed.

Lemma per_interface_last f i name value : 47 ∉ name -> last (split_on 47 (sg_key (per_interface f i name value))) = Some name.
Proof.
  intros Hn. assert (exists p, sg_key (per_interface f i name value) = p ++ 47 :: name) as [p ->].
  { exists (lit "net/" ++ (if bool_decide (f = V4) then lit "ipv4" else lit "ipv6") ++ lit "/conf/" ++ i).
    unfold per_interface. cbn [sg_key]. rewrite <- !app_assoc. done. }
  by apply split_on_last.
Qed.

(** The names of per-interface settings have no slash. *)
Lemma interface_name_plain (name value : str) :
  (name, value) ∈ [(lit "rp_filter", lit "2"); (lit "src_valid_mark", lit "1");
                   (lit "ignore_routes_with_linkdown", lit "1")] -> 47 ∉ name.
Proof.
  rewrite !elem_of_cons, elem_of_nil. intros [[= -> _]|[[= -> _]|[[= -> _]|[]]]];
    refine (bool_decide_eq_true_1 _ _); by vm_compute.
Qed.

Lemma desired_value config s : s ∈ desired config -> sg_value s = wanted_value (sg_key s).
Proof.
  intros [Hs|(f & i & name & value & -> & Hn)]%desired_shape.
  - rewrite !elem_of_cons, elem_of_nil in Hs. by destruct Hs as [->|[->|[->|[->|[]]]]].
  - unfold wanted_value. rewrite per_interface_last by by eapply interface_name_plain.
    rewrite !elem_of_cons, elem_of_nil in Hn. by destruct Hn as [[= -> ->]|[[= -> ->]|[[= -> ->]|[]]]].
Qed.

Lemma desired_forwarding config s : s ∈ desired config ->
  last (split_on 47 (sg_key s)) = Some (lit "forwarding") -> sg_key s = lit "net/ipv6/conf/all/forwarding".
Proof.
  intros [Hs|(f & i & name & value & -> & Hn)]%desired_shape.
  - rewrite !elem_of_cons, elem_of_nil in Hs. by destruct Hs as [->|[->|[->|[->|[]]]]].
  - rewrite per_interface_last by by eapply interface_name_plain.
    rewrite !elem_of_cons, elem_of_nil in Hn. by destruct Hn as [[= -> _]|[[= -> _]|[[= -> _]|[]]]].
Qed.

Lemma wanted_value_trim k : str_trim (wanted_value k) = wanted_value k.
Proof. unfold wanted_value. by case_bool_decide. Qed.

(** ** Properties *)

Section properties.
Context {W : Type} `{ProcSysLaws W, !StateDisk W, !StateDiskLaws W}.

(** Applications one after the other, whatever their results. *)
Definition apply_runs (runs : list (list Setting * result unit str)) (s : Manifest * W) : Manifest * W :=
  foldl (fun s run =>
    let '(_, m, w) := apply_sysctls (fst run) true disk_write (snd run) (fst s) (snd s) in (m, w)) s runs.

(** C28: Settings are recorded before they are written: after any number of
    applications of wanted settings of interfaces (other than [all] and
    [default], which the kernel gives to none), however they ended (also with
    a failed replacement of the manifest or a failed write), restoring from
    the manifest on disk, when it reports no failure, returns to the value
    from before the first one every setting that PolyWAN manages, and every
    other setting that the kernel does not change along with one of these.
    A setting that the kernel changes along (the forwarding of an interface)
    gets what the restored one implies; nothing is said about it. *)
Theorem sysctls_restored (runs : list (list Setting * result unit str)) (m0 : Manifest) (w0 w' : W)
    (log : list (str * result unit ErrorKind))
    (Hruns : forall run s, run ∈ runs -> s ∈ fst run -> managed_setting s)
    (Hm0 : mf_sysctl_set m0 = ∅ /\ mf_sysctl_baseline m0 = ∅) (Hdisk : disk w0 = m0)
    (Hr : restore (disk (snd (apply_runs runs (m0, w0)))) (fun _ => true) (snd (apply_runs runs (m0, w0))) = (log, w'))
    (Hlog : Forall (fun e => snd e = Ok tt) log) :
  (forall k, managed_key k -> sysctl_read k w' = sysctl_read k w0) /\
  (forall k, (forall j, managed_key j -> j <> k -> ~ proc_affects W j k) -> sysctl_read k w' = sysctl_read k w0).
Proof.
  assert (Hinit : accounted wanted_value w0 m0 w0).
  { assert (Ht : tracks wanted_value w0 m0 w0).
    { split; [intros k; destruct Hm0 as [-> _]; by rewrite lookup_empty; intros []|].
      intros k _. unfold tracks_key. destruct Hm0 as [-> ->]. by rewrite !lookup_empty. }
    split_and!; [done|by rewrite Hdisk|by rewrite Hdisk]. }
  assert (Hacc : accounted wanted_value w0 (fst (apply_runs runs (m0, w0))) (snd (apply_runs runs (m0, w0)))).
  { clear Hr Hlog. unfold apply_runs. induction runs as [|[settings hook] runs IH] using rev_ind; [done|]. rewrite foldl_app. simpl.
    destruct (foldl _ _ runs) as [m w] eqn:E in IH |- *. simpl in *.
    destruct (apply_sysctls settings true disk_write hook m w) as [[r m'] w1] eqn:Ea. simpl.
    eapply (apply_sysctls_accounted wanted_value wanted_value_trim w0 settings hook m w r m' w1); [| |done].
    - intros s Hs. assert (Hms : managed_setting s) by (apply (Hruns (settings, hook)); [set_solver|done]).
      split; [|done]. destruct Hms as [[config Hc] _]. by eapply desired_value.
    - apply IH. intros run s Hrun. apply Hruns. set_solver. }
  destruct Hacc as (_ & Hd & _).
  pose proof (restore_spec wanted_value wanted_value_trim w0 _ _ log w' Hd Hr Hlog) as Hres.
  split; [|exact Hres]. intros k Hk. by apply Hres, managed_unaffected.
Qed.
End properties.

(** ** Handing a family back *)

Section handoff.
Context {W : Type} `{ProcSysLaws W}.
Implicit Types w : W.

(** What [hand_back] may do to one key: whatever the outcome, a setting that
    is not at the recorded value keeps its value. *)
Lemma hand_back_key_reads m key w r w' k : hand_back_key m key w = (r, w') ->
  (k <> key -> ~ proc_affects W key k) ->
  sysctl_read k w' = sysctl_read k w \/
  (k = key /\ r = Ok true /\ exists b, mf_sysctl_baseline m !! key = Some b /\
     sysctl_read key w = Ok (default [] (mf_sysctl_set m !! key)) /\ (str_trim b = b -> sysctl_read key w' = Ok b)).
Proof.
  intros E Haff. revert E.
  unfold hand_back_key. destruct (sysctl_read key w) as [current|[|code]] eqn:Er; [|by intros [= _ <-]; left..].
  case_bool_decide as Ec; simpl; [|by intros [= _ <-]; left].
  destruct (mf_sysctl_baseline m !! key) as [b|] eqn:Eb; [|by intros [= _ <-]; left].
  case_bool_decide; simpl; [by intros [= _ <-]; left|].
  destruct (sysctl_write key b w) as [[[]|e] w1] eqn:Ew; intros [= <- <-].
  - destruct (decide (k = key)) as [->|Hne]; [right|left; eapply sysctl_read_other; by auto].
    split_and!; [done..|]. exists b. rewrite <- Ec. split_and!; [done..|]. intros Hb. by eapply sysctl_read_same.
  - left. by eapply sysctl_read_failed.
Qed.

Lemma hand_back_loop_spec keys m h w : NoDup keys ->
  let '(h', m', w') := hand_back_loop keys m h w in
  exists restored released failed,
    h' = mkHandoff (ho_restored h ++ restored) (ho_released h ++ released) (ho_failed h ++ failed) /\
    restored ++ released ++ (fst <$> failed) ≡ₚ keys /\
    (forall k, mf_sysctl_set m' !! k = if decide (k ∈ restored ++ released) then None else mf_sysctl_set m !! k) /\
    (forall k, mf_sysctl_baseline m' !! k = if decide (k ∈ restored ++ released) then None else mf_sysctl_baseline m !! k) /\
    (forall k, (forall j, j ∈ keys -> k <> j -> ~ proc_affects W j k) -> sysctl_read k w' = sysctl_read k w \/
       (k ∈ restored /\ exists b, mf_sysctl_baseline m !! k = Some b /\
          sysctl_read k w = Ok (default [] (mf_sysctl_set m !! k)) /\ (str_trim b = b -> sysctl_read k w' = Ok b))).
Proof.
  revert m h w. induction keys as [|key keys IH]; intros m h w Hnd; simpl.
  { exists [], [], []. split_and!; [destruct h; simpl; by rewrite !app_nil_r|done|..|intros k _; by left];
      intros k; by rewrite decide_False by (simpl; apply not_elem_of_nil). }
  apply NoDup_cons in Hnd as [Hk Hnd].
  destruct (hand_back_key m key w) as [r w1] eqn:Ek. pose proof (fun k => hand_back_key_reads m key w r w1 k Ek) as Hreads'.
  assert (Hreads := fun k (Hk : forall j, j ∈ key :: keys -> k <> j -> ~ proc_affects W j k) =>
    Hreads' k (Hk key ltac:(set_solver))). clear Hreads'.
  assert (Hsub : forall k, (forall j, j ∈ key :: keys -> k <> j -> ~ proc_affects W j k) ->
    forall j, j ∈ keys -> k <> j -> ~ proc_affects W j k) by (intros k Ha j Hj; apply Ha; set_solver).
  destruct r as [restored|e].
  - set (h1 := if restored then _ else _). specialize (IH (forget_key m key) h1 w1 Hnd).
    destruct (hand_back_loop keys (forget_key m key) h1 w1) as [[h' m'] w'].
    destruct IH as (rs & rl & fl & -> & Hp & Hset & Hbase & Hr).
    assert (Hin : forall k, k ∈ rs ++ rl -> k <> key) by (intros k Hin ->; apply Hk; rewrite <- Hp; set_solver).
    exists ((if restored then [key] else []) ++ rs), ((if restored then [] else [key]) ++ rl), fl.
    assert (Hdel : forall (f : Manifest -> gmap str str) k, (forall m key, f (forget_key m key) = delete key (f m)) ->
      f m' !! k = (if decide (k ∈ rs ++ rl) then None else f (forget_key m key) !! k) ->
      f m' !! k = if decide (k ∈ ((if restored then [key] else []) ++ rs) ++ (if restored then [] else [key]) ++ rl)
                  then None else f m !! k).
    { intros f k Hf ->. rewrite Hf. destruct (decide (k ∈ rs ++ rl)) as [Hi|Hi].
      - rewrite decide_True; [done|]. destruct restored; set_solver.
      - destruct (decide (k = key)) as [->|Hne].
        + rewrite lookup_delete_eq. rewrite decide_True; [done|]. destruct restored; set_solver.
        + rewrite lookup_delete_ne by done. rewrite decide_False; [done|]. destruct restored; set_solver. }
    split_and!.
    + unfold h1. destruct restored; simpl; by rewrite <- ?app_assoc.
    + destruct restored; simpl; [by rewrite Hp|]. rewrite <- Permutation_middle. by rewrite Hp.
    + intros k. by apply (Hdel mf_sysctl_set).
    + intros k. by apply (Hdel mf_sysctl_baseline).
    + intros k Ha. destruct (Hr k (Hsub k Ha)) as [Hsame|(Hkr & b & Hb & Hs & Hb')].
      * destruct (Hreads k Ha) as [Hsame1|(-> & [= ->] & b & Hb & Hs & Hb')]; [left; congruence|right].
        split; [set_solver|]. exists b. rewrite Hsame. done.
      * right. assert (Hne : k <> key) by (apply Hin; set_solver). split; [set_solver|]. exists b.
        simpl in Hb, Hs. rewrite lookup_delete_ne in Hb, Hs by done.
        destruct (Hreads k Ha) as [Hsame1|(? & _)]; [|done]. rewrite <- Hsame1. done.
  - set (h1 := mkHandoff _ _ _). specialize (IH m h1 w1 Hnd).
    destruct (hand_back_loop keys m h1 w1) as [[h' m'] w']. destruct IH as (rs & rl & fl & -> & Hp & Hset & Hbase & Hr).
    exists rs, rl, ((key, e) :: fl). split_and!; try done.
    + simpl. by rewrite <- app_assoc.
    + rewrite fmap_cons. rewrite <- !Permutation_middle. simpl. by rewrite Hp.
    + intros k Ha. destruct (Hreads k Ha) as [E|(_ & ? & _)]; [|done]. rewrite <- E. by apply Hr, Hsub.
Qed.

(** Handing a family back touches only what PolyWAN set: every recorded
    key of the family is restored, released or failed, exactly once; exactly
    the failed ones stay in the manifest, where the other keys are
    unchanged; and a setting that the kernel does not change along with one
    of these keys changes only when it is one of the restored keys, still at
    the value PolyWAN had set, and then it holds its baseline. *)
Theorem hand_back_spec (m : Manifest) (family : Family) (w : W) :
  let '(h, m', w') := hand_back m family w in
  ho_restored h ++ ho_released h ++ (fst <$> ho_failed h) ≡ₚ family_keys m family /\
  (forall k, mf_sysctl_set m' !! k =
     if decide (k ∈ ho_restored h ++ ho_released h) then None else mf_sysctl_set m !! k) /\
  (forall k, mf_sysctl_baseline m' !! k =
     if decide (k ∈ ho_restored h ++ ho_released h) then None else mf_sysctl_baseline m !! k) /\
  (forall k, (forall j, j ∈ family_keys m family -> k <> j -> ~ proc_affects W j k) ->
     sysctl_read k w' <> sysctl_read k w ->
     k ∈ ho_restored h /\ family_of k = Some family /\
     exists b, mf_sysctl_baseline m !! k = Some b /\ sysctl_read k w = Ok (default [] (mf_sysctl_set m !! k)) /\
       (str_trim b = b -> sysctl_read k w' = Ok b)).
Proof.
  unfold hand_back. pose proof (hand_back_loop_spec (family_keys m family) m Handoff_default w) as Hl.
  destruct (hand_back_loop _ m Handoff_default w) as [[h m'] w'].
  destruct Hl as (rs & rl & fl & -> & Hp & Hset & Hbase & Hr).
  { apply NoDup_filter_bool, btree_keys_NoDup. }
  simpl. split_and!; try done. intros k Ha Hne. destruct (Hr k Ha) as [|(Hk & b & ?)]; [done|].
  split_and!; [done| |by exists b]. assert (Hin : k ∈ family_keys m family) by (rewrite <- Hp; set_solver).
  apply elem_of_list_filter_bool in Hin as [_ Hf]. by bool_simpl.
Qed.
End handoff.

(** ** Concrete files, with the forwarding of a family set for its interfaces *)

Definition spreads (k k' : str) : bool :=
  negb (bool_decide (k' = k)) && bool_decide (last (split_on 47 k') = Some (lit "forwarding")) &&
  ((bool_decide (k = lit "net/ipv4/ip_forward") && starts_with (lit "net/ipv4/conf/") k') ||
   (bool_decide (k = lit "net/ipv6/conf/all/forwarding") && starts_with (lit "net/ipv6/conf/") k')).

Definition spread_write (k v : str) (files : gmap str str) : gmap str str :=
  map_imap (fun k' s => Some (if spreads k k' then v else s)) (<[k := v]> files).

Lemma spread_write_same k v files : spread_write k v files !! k = Some v.
Proof.
  unfold spread_write. rewrite map_lookup_imap, lookup_insert_eq. simpl. unfold spreads.
  by rewrite bool_decide_eq_true_2.
Qed.

Lemma spread_write_other k v files k' : k' <> k -> spreads k k' = false -> spread_write k v files !! k' = files !! k'.
Proof.
  intros Hne Hs. unfold spread_write. rewrite map_lookup_imap, lookup_insert_ne by done.
  destruct (files !! k') as [s|]; simpl; [|done]. by rewrite Hs.
Qed.

Lemma spreads_managed k k' : managed_key k -> managed_key k' -> k <> k' -> spreads k k' = false.
Proof.
  intros _ (_ & s & [[config Hs] _] & <-) Hne. unfold spreads. apply not_true_iff_false.
  rewrite !andb_true_iff, orb_true_iff, !andb_true_iff, !bool_decide_eq_true. intros [[_ Hl] Hk].
  apply desired_forwarding in Hs; [|done]. rewrite Hs in *. destruct Hk as [[_ Hk]|[-> _]]; [by vm_compute in Hk|done].
Qed.

Module SysctlSample.
Record World := mkWorld { files : gmap str str; state : Manifest }.
#[global] Instance World_ProcSys : ProcSys World := {|
  proc_read := fun k w => match files w !! k with Some s => Ok s | None => Err NotFound end;
  proc_write := fun k v w =>
    match files w !! k with
    | Some _ => (Ok tt, mkWorld (spread_write k v (files w)) (state w))
    | None => (Err NotFound, w)
    end
|}.
#[global] Instance World_ProcSysLaws : ProcSysLaws World.
Proof.
  apply (Build_ProcSysLaws World _ (fun k k' => spreads k k' = true)).
  - intros k v w w'. simpl. destruct (files w !! k); intros [= <-] Hv. exists v. simpl. by rewrite spread_write_same.
  - intros k v w w' r k'. simpl. destruct (files w !! k); intros [= _ <-] _ _ Hne Hs; [|done]. simpl.
    rewrite spread_write_other; [done..|]. by apply not_true_iff_false.
  - intros k v w w' e k'. simpl. by destruct (files w !! k); intros [= _ <-].
  - intros k k' Hk Hk' Hne. simpl. apply not_true_iff_false. by apply spreads_managed.
Defined.
#[global] Instance World_StateDisk : StateDisk World := {|
  disk := state;
  disk_write := fun m w => (Ok tt, mkWorld (files w) m)
|}.
#[global] Instance World_StateDiskLaws : StateDiskLaws World.
Proof.
  split; simpl.
  - by intros m w w' [= <-].
  - by intros m w w' e [=].
  - done.
  - intros k v w. by destruct (files w !! k).
Qed.
Definition world : World :=
  mkWorld (<[lit "net/ipv4/ip_forward" := lit "0"]> (<[lit "net/ipv4/conf/lan/forwarding" := lit "0"]> (<[lit "net/ipv4/fib_multipath_hash_policy" := lit "0"]>
    (<[lit "net/ipv4/conf/wan/rp_filter" := lit "1"]> (<[lit "net/ipv4/conf/wan/src_valid_mark" := lit "0"]>
    (<[lit "net/ipv4/conf/wan/ignore_routes_with_linkdown" := lit "0"]> ∅)))))) (Manifest_new Sample.config).
End SysctlSample.

Lemma sysctls_restored_witness :
  let w := snd (apply_runs [(desired Sample.config, Ok tt)] (Manifest_new Sample.config, SysctlSample.world)) in
  sysctl_read (lit "net/ipv4/conf/wan/rp_filter") w = Ok (lit "2") /\
  sysctl_read (lit "net/ipv4/conf/lan/forwarding") w = Ok (lit "1") /\
  sysctl_read (lit "net/ipv4/conf/wan/rp_filter") (snd (restore (disk w) (fun _ => true) w)) =
    sysctl_read (lit "net/ipv4/conf/wan/rp_filter") SysctlSample.world.
Proof.
  split; [vm_compute; reflexivity|]. split; [vm_compute; reflexivity|].
  assert (Hi : forall s, s ∈ desired Sample.config -> managed_setting s).
  { assert (Hi : Forall (fun s => sg_interface s = None \/ sg_interface s = Some (lit "wan")) (desired Sample.config))
      by (repeat constructor; auto).
    rewrite Forall_forall in Hi. intros s Hs. split; [exists Sample.config; exact Hs|].
    intros i Ei. destruct (Hi s Hs) as [E|E]; rewrite E in Ei; [discriminate|]. injection Ei as <-. split; discriminate. }
  assert (Hm : managed_key (lit "net/ipv4/conf/wan/rp_filter")).
  { split; [vm_compute; reflexivity|]. exists (per_interface V4 (lit "wan") (lit "rp_filter") (lit "2")).
    split; [|reflexivity]. apply Hi. apply list_elem_of_lookup. exists 2%nat. reflexivity. }
  refine (proj1 (sysctls_restored [(desired Sample.config, Ok tt)] (Manifest_new Sample.config) SysctlSample.world _
    (fst (restore (disk (snd (apply_runs [(desired Sample.config, Ok tt)] (Manifest_new Sample.config, SysctlSample.world))))
       (fun _ => true) (snd (apply_runs [(desired Sample.config, Ok tt)] (Manifest_new Sample.config, SysctlSample.world)))))
    _ _ _ _ _) _ Hm).
  - intros run s Hrun Hs. apply list_elem_of_singleton in Hrun. subst run. exact (Hi s Hs).
  - split; vm_compute; reflexivity.
  - reflexivity.
  - destruct (restore _ _ _) as [log w']. reflexivity.
  - match goal with |- Forall _ ?l => assert (E : l = [(lit "net/ipv4/conf/wan/ignore_routes_with_linkdown", Ok tt);
      (lit "net/ipv4/conf/wan/rp_filter", Ok tt); (lit "net/ipv4/conf/wan/src_valid_mark", Ok tt);
      (lit "net/ipv4/fib_multipath_hash_policy", Ok tt); (lit "net/ipv4/ip_forward", Ok tt)])
      by (vm_compute; reflexivity); rewrite E end.
    repeat constructor.
Defined.
