(* ===== verification/Probe.v ===== *)
(** * The prober

    Models crates/polywan/src/probe.rs: the socket filter, echo requests and
    replies, the waiters of a path's ICMP socket, and a round of attempts.
    The kernel's filter machine is a class with the laws of the opcodes the
    program uses; what the network answers to an attempt, and the order in
    which targets complete, are arguments. *)

From stdpp Require Import prelude gmap sorting.
From Stdlib Require Import ZArith Lia.
From S2P Require Import Prelude Text Model Durations Config Plan Msg Netlink QualityGates.

Local Open Scope Z_scope.

Definition TOKEN_LEN : nat := 16.
Definition ECHO_REPLY_V4 : u8 := 0.
Definition ECHO_REPLY_V6 : u8 := 129.
Definition BATCH : usize := 64.

Definition LDB_ABS : u16 := 0x30.
Definition LDB_IND : u16 := 0x50.
Definition LDX_MSH : u16 := 0xb1.
Definition JEQ_K : u16 := 0x15.
Definition RET_K : u16 := 0x06.

(** ** The socket filter *)

Record SockFilter := mkSockFilter { sf_code : u16; sf_jt : u8; sf_jf : u8; sf_k : u32 }.

Definition icmp_filter (ipv4 : bool) (icmp_type : u8) : list SockFilter :=
  let load k := if ipv4 then mkSockFilter LDB_IND 0 0 k else mkSockFilter LDB_ABS 0 0 k in
  (if ipv4 then [mkSockFilter LDX_MSH 0 0 0] else []) ++
  [load 0; mkSockFilter JEQ_K 0 3 icmp_type; load 1; mkSockFilter JEQ_K 0 1 0;
   mkSockFilter RET_K 0 0 (2 ^ 32 - 1); mkSockFilter RET_K 0 0 0].

(** ** Checksums and packets *)

(** The sum over [data.chunks(2)], in 32 bits. *)
Fixpoint word_sum (data : list u8) (sum : u32) : u32 :=
  match data with
  | [] => sum
  | [a] => u32_add sum (256 * a)
  | a :: b :: data => word_sum data (u32_add sum (256 * a + b))
  end.

(** The folding loop; a 32-bit sum is folded after two rounds. *)
Fixpoint fold_sum (fuel : nat) (sum : u32) : u32 :=
  match fuel with
  | O => sum
  | S fuel => if Z.shiftr sum 16 =? 0 then sum else fold_sum fuel (Z.land sum 0xffff + Z.shiftr sum 16)
  end.

Definition checksum (data : list u8) : u16 := 0xffff - wrap 16 (fold_sum 4 (word_sum data 0)).

(** [x.to_be_bytes()] of a [u16]. *)
Definition be16 (x : u16) : list u8 := [x / 256; x mod 256].

Definition echo_request (v6 : bool) (id seq : u16) (token : list u8) : list u8 :=
  let p := [if v6 then 128 else 8; 0; 0; 0] ++ be16 id ++ be16 seq ++ token in
  if v6 then p else
  let c := checksum p in <[2%nat := c / 256]> (<[3%nat := c mod 256]> p).

Record EchoReply := mkEchoReply { er_source : IpAddr; er_id : u16; er_seq : u16; er_token : list u8 }.

(** A byte at an index that the length checks keep in range. *)
Definition byte_at (p : list u8) (i : nat) : u8 := default 0 (p !! i).

Definition parse_echo (v6 : bool) (source : IpAddr) (icmp : list u8) : option EchoReply :=
  if (Z.of_nat (length icmp) <? 8 + Z.of_nat TOKEN_LEN) ||
     negb (byte_at icmp 0 =? (if v6 then 129 else 0)) || negb (byte_at icmp 1 =? 0) then None else
  if negb v6 && negb (checksum icmp =? 0) then None else
  Some (mkEchoReply source (256 * byte_at icmp 4 + byte_at icmp 5) (256 * byte_at icmp 6 + byte_at icmp 7)
    (take TOKEN_LEN (drop 8 icmp))).

Definition parse_echo_reply (v6 : bool) (packet : list u8) (from : IpAddr) : option EchoReply :=
  if v6 then parse_echo v6 from packet else
  first ← head packet;
  let ihl := Z.land first 0x0f * 4 in
  if Z.of_nat (length packet) <? Z.max ihl 20 then None else
  parse_echo v6
    (IpV4 (((byte_at packet 12 * 256 + byte_at packet 13) * 256 + byte_at packet 14) * 256 + byte_at packet 15))
    (drop (Z.to_nat ihl) packet).

(** ** Waiting attempts *)

Record Waiter := mkWaiter { wt_target : IpAddr; wt_token : list u8; wt_sent : Instant }.

Record Icmp := mkIcmp { ic_v6 : bool; ic_id : u16; ic_seq : u16; ic_waiters : gmap u16 Waiter }.

Definition set_waiters (i : Icmp) (seq : u16) (w : gmap u16 Waiter) : Icmp := mkIcmp (ic_v6 i) (ic_id i) seq w.

(** [attempt] up to the send: the sequence number, the packet and the state. *)
Definition Icmp_attempt (i : Icmp) (target : IpAddr) (token : list u8) (now : Instant) : u16 * list u8 * Icmp :=
  let seq := wrap 16 (ic_seq i + 1) in
  (seq, echo_request (ic_v6 i) (ic_id i) seq token,
   set_waiters i seq (<[seq := mkWaiter target token now]> (ic_waiters i))).

(** The drop of [Unregister]. *)
Definition Icmp_unregister (i : Icmp) (seq : u16) : Icmp :=
  set_waiters i (ic_seq i) (delete seq (ic_waiters i)).

(** [deliver]: the attempt that gets its reply, with its round-trip time. *)
Definition Icmp_deliver (i : Icmp) (packet : list u8) (from : IpAddr) (now : Instant)
    : option (u16 * Duration) * Icmp :=
  match parse_echo_reply (ic_v6 i) packet from with
  | None => (None, i)
  | Some reply =>
      if negb (er_id reply =? ic_id i) then (None, i) else
      match ic_waiters i !! er_seq reply with
      | Some w =>
          if bool_decide (wt_target w = er_source reply) && bool_decide (wt_token w = er_token reply)
          then (Some (er_seq reply, saturating_sub now (wt_sent w)), Icmp_unregister i (er_seq reply))
          else (None, i)
      | None => (None, i)
      end
  end.

(** ** Rounds *)

Record Spec := mkSpec {
  sp_path : PathKey;
  sp_generation : u64;
  sp_interface : str;
  sp_ifindex : u32;
  sp_source : IpAddr;
  sp_mark : u32;
  sp_targets : list Target;
  sp_interval : Duration;
  sp_timeout : Duration;
  sp_attempts : nat;
  sp_required_reachable : u8;
  sp_run_to_completion : bool
}.

Record RoundReport := mkRoundReport {
  rr_path : PathKey;
  rr_generation : u64;
  rr_passed : bool;
  rr_reachable : usize;
  rr_samples : list QualityGates.Sample;
  rr_canceled : usize
}.

(** Where the future [target_attempts] of a target is: at the head of its
    loop with attempts left (at the start, or once the deadline of a failed
    attempt has passed), waiting for the reply of an attempt, or complete. *)
Inductive Progress :=
  | Waking (n : nat)
  | Trying (n : nat)
  | Finished (ok : bool).

(** [rd_over]: the loop of [round] has ended. *)
Record RoundState := mkRoundState {
  rd_pending : list (Target * Progress);
  rd_started : usize;
  rd_samples : list QualityGates.Sample;
  rd_reachable : usize;
  rd_done : usize;
  rd_over : bool
}.

(** What the executor runs next: the future at an index is polled at the head
    of its loop, or its attempt ends with an outcome. *)
Inductive RoundEvent :=
  | Wake (t : nat)
  | Ended (t : nat) (rtt : option Duration).

Definition total (spec : Spec) : usize := Z.of_nat (length (sp_targets spec)).

Definition round_init (spec : Spec) : RoundState :=
  mkRoundState ((fun t => (t, Waking (sp_attempts spec))) <$> sp_targets spec) 0 [] 0 0 (total spec =? 0).

(** The body of the loop of [round] for a future that completed, with the
    test that ends the loop. *)
Definition round_loop (spec : Spec) (s : RoundState) (t : nat) (target : Target) (ok : bool) : RoundState :=
  let required := sp_required_reachable spec in
  let done := rd_done s + 1 in
  let reachable := rd_reachable s + (if ok then 1 else 0) in
  let certain := (required <=? reachable) || (reachable + (total spec - done) <? required) in
  mkRoundState (<[t := (target, Finished ok)]> (rd_pending s)) (rd_started s) (rd_samples s) reachable done
    (certain && negb (sp_run_to_completion spec) || (done =? total spec)).

(** [target_attempts] up to its next await; [None] if the future is not there. *)
Definition target_attempts (spec : Spec) (s : RoundState) (ev : RoundEvent) : option RoundState :=
  if rd_over s then None else
  match ev with
  | Wake t =>
      match rd_pending s !! t with
      | Some (target, Waking (S n)) =>
          Some (mkRoundState (<[t := (target, Trying n)]> (rd_pending s)) (rd_started s + 1) (rd_samples s)
            (rd_reachable s) (rd_done s) false)
      | Some (target, Waking O) => Some (round_loop spec s t target false)
      | _ => None
      end
  | Ended t rtt =>
      match rd_pending s !! t with
      | Some (target, Trying n) =>
          let s := mkRoundState (<[t := (target, Waking n)]> (rd_pending s)) (rd_started s)
            (rd_samples s ++ [QualityGates.mkSample target rtt]) (rd_reachable s) (rd_done s) false in
          Some (match rtt with Some _ => round_loop spec s t target true | None => s end)
      | _ => None
      end
  end.

Fixpoint round_run (spec : Spec) (s : RoundState) (evs : list RoundEvent) : option RoundState :=
  match evs with
  | [] => Some s
  | ev :: evs => s ← target_attempts spec s ev; round_run spec s evs
  end.

(** The report of a round whose futures run in this order; [None] while the
    round is not over. *)
Definition round (spec : Spec) (evs : list RoundEvent) : option RoundReport :=
  s ← round_run spec (round_init spec) evs;
  if rd_over s then
    Some (mkRoundReport (sp_path spec) (sp_generation spec) (sp_required_reachable spec <=? rd_reachable s)
      (rd_reachable s) (rd_samples s) (saturating_sub (rd_started s) (Z.of_nat (length (rd_samples s)))))
  else None.

(** ** The kernel's filter machine *)

(** Running a program with accumulator [a] and index [x] on a packet: the
    bytes it passes, 0 to drop the packet. The laws are those of the
    opcodes in linux/filter.h; a load outside the packet drops it. *)
Class Bpf := {
  bpf_run : list SockFilter -> u32 -> u32 -> list u8 -> u32;
  bpf_ldb_abs : forall k p a x packet, 0 <= k ->
    bpf_run (mkSockFilter LDB_ABS 0 0 k :: p) a x packet =
      match packet !! Z.to_nat k with Some b => bpf_run p b x packet | None => 0 end;
  bpf_ldb_ind : forall k p a x packet, 0 <= k -> 0 <= x ->
    bpf_run (mkSockFilter LDB_IND 0 0 k :: p) a x packet =
      match packet !! Z.to_nat (x + k) with Some b => bpf_run p b x packet | None => 0 end;
  bpf_ldx_msh : forall k p a x packet, 0 <= k ->
    bpf_run (mkSockFilter LDX_MSH 0 0 k :: p) a x packet =
      match packet !! Z.to_nat k with Some b => bpf_run p a (4 * Z.land b 0xf) packet | None => 0 end;
  bpf_jeq : forall jt jf k p a x packet,
    bpf_run (mkSockFilter JEQ_K jt jf k :: p) a x packet =
      bpf_run (drop (Z.to_nat (if a =? k then jt else jf)) p) a x packet;
  bpf_ret : forall k p a x packet, bpf_run (mkSockFilter RET_K 0 0 k :: p) a x packet = k
}.

(** The socket filter passes exactly the messages of the wanted type with
    code 0, at the start of an ICMPv6 packet or behind the IPv4 header of
    whatever length, and drops everything shorter. *)
Theorem icmp_filter_exact `{Bpf} (ipv4 : bool) (icmp_type : u8) (packet : list u8) :
  let start := if ipv4 then Z.to_nat (4 * Z.land (byte_at packet 0) 0xf) else O in
  bpf_run (icmp_filter ipv4 icmp_type) 0 0 packet =
    (if bool_decide (packet !! start = Some icmp_type /\ packet !! S start = Some 0) then 2 ^ 32 - 1 else 0).
Proof.
  cbn zeta. assert (Htail : forall (load : u32 -> SockFilter) x start,
    (forall k p a, 0 <= k <= 1 -> bpf_run (load k :: p) a x packet =
       match packet !! (start + Z.to_nat k)%nat with Some b => bpf_run p b x packet | None => 0 end) ->
    bpf_run [load 0; mkSockFilter JEQ_K 0 3 icmp_type; load 1; mkSockFilter JEQ_K 0 1 0;
             mkSockFilter RET_K 0 0 (2 ^ 32 - 1); mkSockFilter RET_K 0 0 0] 0 x packet =
      (if bool_decide (packet !! start = Some icmp_type /\ packet !! S start = Some 0) then 2 ^ 32 - 1 else 0)).
  { intros load x start Hload. rewrite Hload by lia. replace (start + Z.to_nat 0)%nat with start by lia.
    destruct (packet !! start) as [t|]; [|by rewrite bool_decide_eq_false_2 by naive_solver].
    rewrite bpf_jeq. destruct (Z.eqb_spec t icmp_type) as [->|Hne]; simpl.
    - rewrite Hload by lia. replace (start + Z.to_nat 1)%nat with (S start) by lia.
      destruct (packet !! S start) as [c|]; [|by rewrite bool_decide_eq_false_2 by naive_solver].
      rewrite bpf_jeq. destruct (Z.eqb_spec c 0) as [->|]; simpl; rewrite bpf_ret;
        [by rewrite bool_decide_eq_true_2|by rewrite bool_decide_eq_false_2 by naive_solver].
    - rewrite bpf_ret. by rewrite bool_decide_eq_false_2 by naive_solver. }
  destruct ipv4; cbn [icmp_filter app].
  - rewrite bpf_ldx_msh by lia. change (Z.to_nat 0) with O. unfold byte_at. destruct (packet !! O) as [b|] eqn:E.
    + simpl default. assert (0 <= Z.land b 15) by (apply Z.land_nonneg; lia).
      apply (Htail (fun k => mkSockFilter LDB_IND 0 0 k)). intros k p a Hk. rewrite bpf_ldb_ind by lia.
      by rewrite Z2Nat.inj_add by lia.
    + rewrite bool_decide_eq_false_2; [done|]. destruct packet; [|done]. intros [? _]. done.
  - apply (Htail (fun k => mkSockFilter LDB_ABS 0 0 k)). intros k p a Hk. by rewrite bpf_ldb_abs by lia.
Qed.

(** ** Checksums *)

(** The folded sum: the residue modulo 65535, with 65535 for a positive
    multiple of it. *)
Definition folded (s : Z) : Z := if s =? 0 then 0 else 1 + (s - 1) mod 65535.

Lemma fold_step s : 0 <= s -> Z.shiftr s 16 <> 0 ->
  folded (Z.land s 0xffff + Z.shiftr s 16) = folded s /\ 0 < Z.land s 0xffff + Z.shiftr s 16 < s.
Proof.
  intros Hs Hhi. rewrite Z.shiftr_div_pow2 in * by lia.
  change 0xffff with (Z.ones 16). rewrite Z.land_ones by lia. change (2 ^ 16) with 65536 in *.
  pose proof (Z.div_mod s 65536 ltac:(lia)) as Hdm. pose proof (Z.mod_pos_bound s 65536 ltac:(lia)).
  set (q := s / 65536) in *. set (r := s mod 65536) in *. assert (0 < q) by (unfold q; Z.to_euclidean_division_equations; lia).
  split; [|lia]. unfold folded. destruct (Z.eqb_spec (r + q) 0); [lia|]. destruct (Z.eqb_spec s 0); [lia|].
  f_equal. rewrite Hdm. replace (65536 * q + r - 1) with (r + q - 1 + q * 65535) by lia. by rewrite Z.mod_add by lia.
Qed.

Lemma fold_sum_spec s : fits 32 s -> fold_sum 4 s = folded s.
Proof.
  intros [H0 H1]. assert (Hsmall : forall s, 0 <= s < 65536 -> folded s = s).
  { intros t Ht. unfold folded. destruct (Z.eqb_spec t 0); [lia|]. rewrite Z.mod_small by lia. lia. }
  assert (Hlow : forall fuel s, 0 <= s < 65536 -> fold_sum fuel s = s).
  { intros fuel t Ht. destruct fuel; simpl; [done|]. rewrite Z.shiftr_div_pow2 by lia. change (2 ^ 16) with 65536.
    rewrite Z.div_small by lia. done. }
  assert (Hbound : forall t b, 0 <= t < b * 65536 -> 0 < b -> Z.land t 0xffff + Z.shiftr t 16 < 65536 + b - 1).
  { intros t b Ht Hb. rewrite Z.shiftr_div_pow2 by lia. change 0xffff with (Z.ones 16). rewrite Z.land_ones by lia.
    change (2 ^ 16) with 65536. pose proof (Z.mod_pos_bound t 65536 ltac:(lia)).
    assert (t / 65536 < b) by (apply Z.div_lt_upper_bound; lia). lia. }
  change 4%nat with (S 3). cbn [fold_sum].
  destruct (Z.eqb_spec (Z.shiftr s 16) 0) as [E|E].
  { rewrite Hsmall; [done|]. rewrite Z.shiftr_div_pow2 in E by lia. change (2 ^ 16) with 65536 in E.
    Z.to_euclidean_division_equations; lia. }
  destruct (fold_step s H0 E) as [<- Hpos]. pose proof (Hbound s 65536 ltac:(lia) ltac:(lia)) as Hb1.
  set (s1 := Z.land s 0xffff + Z.shiftr s 16) in *.
  destruct (Z.eqb_spec (Z.shiftr s1 16) 0) as [E1|E1].
  { rewrite Hsmall; [done|]. rewrite Z.shiftr_div_pow2 in E1 by lia. change (2 ^ 16) with 65536 in E1.
    Z.to_euclidean_division_equations; lia. }
  destruct (fold_step s1 ltac:(lia) E1) as [<- Hpos1].
  assert (Hs2 : Z.land s1 0xffff + Z.shiftr s1 16 < 65536).
  { rewrite Z.shiftr_div_pow2 by lia. change 0xffff with (Z.ones 16). rewrite Z.land_ones by lia. change (2 ^ 16) with 65536.
    Z.to_euclidean_division_equations; lia. }
  rewrite Hsmall by lia. apply (Hlow 2%nat). lia.
Qed.

Definition is_byte (b : Z) : Prop := 0 <= b < 256.

Fixpoint wsum (data : list u8) : Z :=
  match data with
  | [] => 0
  | [a] => 256 * a
  | a :: b :: data => 256 * a + b + wsum data
  end.

Lemma list_pair_ind {A} (P : list A -> Prop) : P [] -> (forall a, P [a]) ->
  (forall a b l, P l -> P (a :: b :: l)) -> forall l, P l.
Proof.
  intros H0 H1 H2 l. enough (P l /\ forall a, P (a :: l)) by tauto. induction l as [|x l [IH1 IH2]]; [auto|]. split; auto.
Qed.

Lemma wsum_bound data : Forall is_byte data -> 0 <= wsum data <= 65535 * (Z.of_nat (length data) + 1) / 2.
Proof.
  assert (Hb : Forall is_byte data -> 0 <= 2 * wsum data <= 65535 * (Z.of_nat (length data) + 1)).
  { induction data as [|a|a b data IH] using list_pair_ind; intros Hd; simpl; [lia| |];
      rewrite ?Forall_cons in Hd; unfold is_byte in *; [lia|]. destruct Hd as (? & ? & Hd). specialize (IH Hd). lia. }
  intros Hd. specialize (Hb Hd). Z.to_euclidean_division_equations; lia.
Qed.

Lemma word_sum_exact data s : Forall is_byte data -> 0 <= s -> s + wsum data < 2 ^ 32 ->
  word_sum data s = s + wsum data.
Proof.
  revert s. induction data as [|a|a b data IH] using list_pair_ind; intros s Hd Hs Hlt; simpl in *; [lia| |].
  - rewrite Forall_cons in Hd. destruct Hd as [Ha _]. unfold is_byte in Ha. rewrite u32_add_small by (unfold fits; lia). lia.
  - rewrite !Forall_cons in Hd. destruct Hd as (Ha & Hb & Hd). unfold is_byte in Ha, Hb.
    pose proof (wsum_bound data Hd). rewrite u32_add_small by (unfold fits; lia). rewrite IH by (done || lia). lia.
Qed.

Lemma folded_bound s : 0 <= s -> 0 <= folded s <= 65535.
Proof.
  intros Hs. unfold folded. destruct (Z.eqb_spec s 0); [lia|]. pose proof (Z.mod_pos_bound (s - 1) 65535 ltac:(lia)). lia.
Qed.

Lemma checksum_exact data : Forall is_byte data -> (Z.of_nat (length data) <= 65536) ->
  checksum data = 65535 - folded (wsum data).
Proof.
  intros Hd Hlen. pose proof (wsum_bound data Hd) as Hw.
  assert (wsum data < 2 ^ 32) by (revert Hw; Z.to_euclidean_division_equations; lia).
  unfold checksum. rewrite word_sum_exact, Z.add_0_l, fold_sum_spec by (done || unfold fits; lia).
  pose proof (folded_bound (wsum data) ltac:(lia)). rewrite fits_wrap; [done|]. unfold fits; lia.
Qed.

(** A message with its checksum in place. *)
Definition sealed (t : u8) (body : list u8) : list u8 :=
  let c := checksum ([t; 0; 0; 0] ++ body) in [t; 0; c / 256; c mod 256] ++ body.

Lemma checksum_range data : Forall is_byte data -> Z.of_nat (length data) <= 65536 -> 0 <= checksum data <= 65535.
Proof.
  intros Hd Hl. rewrite checksum_exact by done. pose proof (wsum_bound data Hd) as Hw.
  pose proof (folded_bound (wsum data) ltac:(lia)). lia.
Qed.

Lemma sealed_valid t body : is_byte t -> Forall is_byte body -> Z.of_nat (length body) <= 65000 ->
  checksum (sealed t body) = 0.
Proof.
  intros Ht Hb Hlen.
  assert (Hd : Forall is_byte ([t; 0; 0; 0] ++ body)) by (repeat constructor; try apply Ht; done).
  assert (Hl : Z.of_nat (length ([t; 0; 0; 0] ++ body)) <= 65536) by (rewrite length_app; simpl; lia).
  pose proof (checksum_range _ Hd Hl) as Hc. unfold sealed. pose proof (checksum_exact _ Hd Hl) as Ec.
  set (c := checksum ([t; 0; 0; 0] ++ body)) in *.
  pose proof (Z.div_mod c 256 ltac:(lia)) as Hdm. pose proof (Z.mod_pos_bound c 256 ltac:(lia)) as Hm.
  assert (0 <= c / 256 < 256) by (split; [apply Z.div_pos; lia|apply Z.div_lt_upper_bound; lia]).
  rewrite checksum_exact.
  - simpl in *. pose proof (wsum_bound body Hb) as Hw. unfold is_byte in Ht.
    set (s := 256 * t + 0 + (256 * 0 + 0 + wsum body)) in *.
    replace (256 * t + 0 + (256 * (c / 256) + c mod 256 + wsum body)) with (s + c) by (unfold s; lia).
    rewrite Ec. unfold folded. destruct (Z.eqb_spec s 0) as [->|Hs0]; [done|].
    destruct (Z.eqb_spec (s + (65535 - (1 + (s - 1) mod 65535))) 0).
    { pose proof (Z.mod_pos_bound (s - 1) 65535 ltac:(lia)). lia. }
    pose proof (Z.div_mod (s - 1) 65535 ltac:(lia)) as Hq. set (q := (s - 1) / 65535) in *. set (m := (s - 1) mod 65535) in *.
    replace (s + (65535 - (1 + m)) - 1) with (65534 + q * 65535) by lia. rewrite Z.mod_add by lia. done.
  - repeat constructor; try apply Ht; try done; unfold is_byte; lia.
  - rewrite length_app in *. simpl in *. lia.
Qed.

(** ** An echo exchange *)

(** What a host answers to an echo request (RFC 792, RFC 4443): the same
    message as a reply, with the checksum of the reply. *)
Definition echo_answer (v6 : bool) (request : list u8) : list u8 :=
  if v6 then ECHO_REPLY_V6 :: tail request else sealed ECHO_REPLY_V4 (drop 4 request).

(** What the socket delivers before the ICMP message of a packet from
    [source]: an IPv4 header with its length and source address; nothing
    for IPv6, where the source is an argument of the delivery. *)
Definition header_from (v6 : bool) (header : list u8) (from source : IpAddr) : Prop :=
  if v6 then header = [] /\ from = source
  else Z.land (byte_at header 0) 0x0f * 4 = Z.of_nat (length header) /\ (20 <= length header)%nat /\
       source = IpV4 (((byte_at header 12 * 256 + byte_at header 13) * 256 + byte_at header 14) * 256 + byte_at header 15).

Lemma be16_bytes x : fits 16 x -> Forall is_byte (be16 x) /\ 256 * (x / 256) + x mod 256 = x.
Proof.
  intros [H0 H1]. change (2 ^ 16) with 65536 in H1. unfold be16, is_byte.
  split; [repeat constructor|]; Z.to_euclidean_division_equations; lia.
Qed.

Lemma echo_request_body v6 id seq token : drop 4 (echo_request v6 id seq token) = be16 id ++ be16 seq ++ token.
Proof. by destruct v6. Qed.

Lemma parse_echo_answer v6 source id seq token : fits 16 id -> fits 16 seq -> Forall is_byte token ->
  length token = TOKEN_LEN ->
  parse_echo v6 source (echo_answer v6 (echo_request v6 id seq token)) = Some (mkEchoReply source id seq token).
Proof.
  intros Hid Hseq Ht Hl. destruct (be16_bytes id Hid) as [Bid Eid]. destruct (be16_bytes seq Hseq) as [Bseq Eseq].
  assert (Hbody : Forall is_byte (be16 id ++ be16 seq ++ token)) by (by rewrite !Forall_app).
  assert (Hlen : length (be16 id ++ be16 seq ++ token) = 20%nat) by (rewrite !length_app, Hl; done).
  assert (Htake : take TOKEN_LEN token = token) by (apply take_ge; rewrite Hl; done).
  assert (Hvalid : checksum (sealed ECHO_REPLY_V4 (be16 id ++ be16 seq ++ token)) = 0).
  { apply sealed_valid; [unfold is_byte, ECHO_REPLY_V4; lia|done|]. rewrite Hlen. lia. }
  unfold parse_echo. replace (Z.of_nat (length _) <? _) with false.
  2:{ symmetry. apply Z.ltb_ge. destruct v6; simpl; rewrite Hl; done. }
  unfold echo_answer. destruct v6; [|rewrite echo_request_body, Hvalid]; cbn -[take TOKEN_LEN]; rewrite Eid, Eseq, drop_0;
    by rewrite Htake.
Qed.

Lemma parse_echo_packet v6 header from source icmp : header_from v6 header from source ->
  parse_echo_reply v6 (header ++ icmp) from = parse_echo v6 source icmp.
Proof.
  destruct v6; simpl; [by intros [-> ->]|]. intros (Hihl & Hlen & ->).
  destruct header as [|first header]; [simpl in Hlen; lia|].
  assert (Hb : forall i, (i < 20)%nat -> byte_at ((first :: header) ++ icmp) i = byte_at (first :: header) i).
  { intros i Hi. unfold byte_at. by rewrite lookup_app_l by lia. }
  unfold parse_echo_reply. cbn [app head mbind option_bind]. change (byte_at (first :: header) 0) with first in Hihl.
  rewrite Hihl. rewrite (app_comm_cons header icmp first), !Hb, Nat2Z.id, drop_app_length by lia.
  replace (_ <? _) with false; [done|]. symmetry. apply Z.ltb_ge. rewrite length_app. lia.
Qed.

(** The reply to an attempt's own request, whatever the length of the IPv4
    header in front of it, completes the attempt with the time since it was
    sent and removes its waiter, so that a duplicate completes nothing; nor
    does a reply that arrives after the attempt has ended. No other attempt
    is touched. *)
Theorem echo_exchange (i : Icmp) (target from : IpAddr) (token header : list u8) (sent now later : Instant)
    (Hid : fits 16 (ic_id i)) (Htok : Forall is_byte token) (Hlen : length token = TOKEN_LEN)
    (Hhdr : header_from (ic_v6 i) header from target) :
  let '(seq, request, waiting) := Icmp_attempt i target token sent in
  let packet := header ++ echo_answer (ic_v6 i) request in
  let '(done, after) := Icmp_deliver waiting packet from now in
  done = Some (seq, saturating_sub now sent) /\
  Icmp_deliver after packet from later = (None, after) /\
  fst (Icmp_deliver (Icmp_unregister waiting seq) packet from later) = None /\
  forall other, other <> seq -> ic_waiters after !! other = ic_waiters i !! other.
Proof.
  unfold Icmp_attempt. set (seq := wrap 16 (ic_seq i + 1)). assert (Hseq : fits 16 seq) by (apply Z.mod_pos_bound; lia).
  assert (Hparse : parse_echo_reply (ic_v6 i)
    (header ++ echo_answer (ic_v6 i) (echo_request (ic_v6 i) (ic_id i) seq token)) from =
      Some (mkEchoReply target (ic_id i) seq token)).
  { rewrite (parse_echo_packet _ _ _ target) by done. by apply parse_echo_answer. }
  assert (Hnone : forall w t, w !! seq = None ->
    Icmp_deliver (set_waiters i seq w)
      (header ++ echo_answer (ic_v6 i) (echo_request (ic_v6 i) (ic_id i) seq token)) from t =
      (None, set_waiters i seq w)).
  { intros w t Hw. unfold Icmp_deliver. cbn [ic_v6 set_waiters ic_id ic_waiters]. rewrite Hparse. cbn.
    by rewrite Z.eqb_refl, Hw. }
  unfold Icmp_deliver at 1. cbn [ic_v6 set_waiters ic_id ic_waiters]. rewrite Hparse. cbn [er_id er_seq er_source er_token].
  rewrite Z.eqb_refl, lookup_insert_eq. cbn [negb wt_target wt_token wt_sent].
  rewrite !bool_decide_eq_true_2 by done. cbn [andb].
  split; [done|]. unfold Icmp_unregister. cbn [ic_waiters ic_seq set_waiters].
  change (set_waiters (mkIcmp (ic_v6 i) (ic_id i) seq ?w) seq ?w') with (set_waiters i seq w').
  repeat split.
  - apply Hnone. by rewrite lookup_delete_eq.
  - apply (f_equal fst (Hnone (delete seq (<[seq := mkWaiter target token sent]> (ic_waiters i))) later
      (lookup_delete_eq _ _))).
  - intros other Hne. cbn. by rewrite lookup_delete_ne, lookup_insert_ne by done.
Qed.

(** ** Rounds *)

Definition successes (outcomes : list bool) : Z := Z.of_nat (length (filter Is_true outcomes)).

Lemma successes_bound l : 0 <= successes l <= Z.of_nat (length l).
Proof. unfold successes. pose proof (length_filter Is_true l). lia. Qed.

(** The sum of a weight over the futures of a round. *)
Definition tally (weight : Progress -> Z) (l : list (Target * Progress)) : Z :=
  foldr (fun p n => weight (snd p) + n) 0 l.

Lemma tally_insert weight l t target p target' p' : l !! t = Some (target, p) ->
  tally weight (<[t := (target', p')]> l) = tally weight l - weight p + weight p'.
Proof.
  revert t. induction l as [|x l IH]; intros [|t] Ht; simplify_eq/=; [lia|]. rewrite IH by done. lia.
Qed.

Lemma tally_le w1 w2 l : (forall p, w1 p <= w2 p) -> tally w1 l <= tally w2 l.
Proof. intros Hle. induction l as [|x l IH]; simpl; [lia|]. specialize (Hle (snd x)). lia. Qed.

Lemma tally_add w1 w2 l : tally (fun p => w1 p + w2 p) l = tally w1 l + tally w2 l.
Proof. induction l as [|x l IH]; simpl; lia. Qed.

Lemma tally_const c l : tally (fun _ => c) l = c * Z.of_nat (length l).
Proof. induction l as [|x l IH]; simpl; lia. Qed.

Lemma tally_init weight ts p : tally weight ((fun t => (t, p)) <$> ts) = weight p * Z.of_nat (length ts).
Proof. induction ts as [|x ts IH]; csimpl; [lia|]. rewrite IH. lia. Qed.

Definition answered (p : Progress) : Z := match p with Finished true => 1 | _ => 0 end.
Definition completed (p : Progress) : Z := match p with Finished _ => 1 | _ => 0 end.
Definition unfinished (p : Progress) : Z := match p with Finished _ => 0 | _ => 1 end.
Definition trying (p : Progress) : Z := match p with Trying _ => 1 | _ => 0 end.
Definition attempts_left (p : Progress) : Z :=
  match p with Waking n | Trying n => Z.of_nat n | Finished _ => 0 end.
(** The polls a future can still take. *)
Definition polls_left (p : Progress) : Z :=
  match p with Waking n => 2 * Z.of_nat n + 1 | Trying n => 2 * Z.of_nat n + 2 | Finished _ => 0 end.

Definition replies (samples : list QualityGates.Sample) : Z :=
  Z.of_nat (length (filter (fun x => is_Some (QualityGates.sample_rtt x)) samples)).

Lemma replies_snoc l x : replies (l ++ [x]) = replies l + (match QualityGates.sample_rtt x with Some _ => 1 | None => 0 end).
Proof.
  unfold replies. rewrite filter_app, length_app. destruct x as [t [r|]].
  - rewrite filter_cons_True by (simpl; eauto). simpl. lia.
  - rewrite filter_cons_False by (simpl; by intros [? [=]]). simpl. lia.
Qed.

(** The counters of a round are what its futures did. *)
Record round_inv (spec : Spec) (s : RoundState) : Prop := {
  ri_length : Z.of_nat (length (rd_pending s)) = total spec;
  ri_started : rd_started s = Z.of_nat (length (rd_samples s)) + tally trying (rd_pending s);
  ri_attempts : rd_started s + tally attempts_left (rd_pending s) <= total spec * Z.of_nat (sp_attempts spec);
  ri_reachable : rd_reachable s = tally answered (rd_pending s);
  ri_replies : rd_reachable s = replies (rd_samples s);
  ri_done : rd_done s = tally completed (rd_pending s);
  ri_over : rd_over s = ((sp_required_reachable spec <=? rd_reachable s) ||
                         (rd_reachable s + (total spec - rd_done s) <? sp_required_reachable spec)) &&
                        negb (sp_run_to_completion spec) && (0 <? rd_done s) || (rd_done s =? total spec)
}.

Lemma round_init_inv spec : round_inv spec (round_init spec).
Proof.
  unfold round_init. split; cbn [rd_pending rd_started rd_samples rd_reachable rd_done rd_over];
    rewrite ?tally_init, ?length_fmap; simpl; unfold total; try lia; try done.
  rewrite andb_false_r. simpl. apply Z.eqb_sym.
Qed.

Lemma tally_nonneg weight l : (forall p, 0 <= weight p) -> 0 <= tally weight l.
Proof. intros Hw. induction l as [|x l IH]; simpl; [lia|]. specialize (Hw (snd x)). lia. Qed.

Lemma not_over_spec spec s : round_inv spec s -> rd_over s = false ->
  rd_done s <> total spec.
Proof. intros [] Ho. rewrite ri_over0 in Ho. apply orb_false_iff in Ho as [_ Ho]. by apply Z.eqb_neq. Qed.

(** What a future that moves from [p] to [p'] adds to each count. *)
Lemma round_step_counts spec s t target p p' (Hs : round_inv spec s) (Ht : rd_pending s !! t = Some (target, p)) :
  let l := <[t := (target, p')]> (rd_pending s) in
  Z.of_nat (length l) = total spec /\
  forall weight, tally weight l = tally weight (rd_pending s) - weight p + weight p'.
Proof.
  split; [rewrite length_insert; apply Hs|]. intros weight. by apply (tally_insert _ _ _ target).
Qed.

Lemma round_step_inv spec s ev s' : round_inv spec s -> target_attempts spec s ev = Some s' ->
  round_inv spec s' /\ tally polls_left (rd_pending s') < tally polls_left (rd_pending s).
Proof.
  intros Hs. unfold target_attempts. destruct (rd_over s) eqn:Ho; [done|].
  assert (Hover := ri_over _ _ Hs). rewrite Ho in Hover.
  assert (Hdone := tally_nonneg completed (rd_pending s) ltac:(by intros [| |])).
  rewrite <- (ri_done _ _ Hs) in Hdone.
  destruct ev as [t|t rtt]; destruct (rd_pending s !! t) as [[target p]|] eqn:Ht; try done.
  - destruct p as [[|n]| |]; try done; intros [= <-].
    + destruct (round_step_counts _ _ _ _ _ (Finished false) Hs Ht) as [Hl Hw].
      destruct Hs. split; [split|]; simpl; rewrite ?Hw; simpl; try lia.
      by replace (0 <? rd_done s + 1) with true by lia; rewrite andb_true_r.
    + destruct (round_step_counts _ _ _ _ _ (Trying n) Hs Ht) as [Hl Hw].
      destruct Hs. split; [split|]; simpl; rewrite ?Hw; simpl; try lia. done.
  - destruct p as [|n|]; try done. destruct rtt as [rtt|]; intros [= <-].
    + destruct (round_step_counts _ _ _ _ _ (Finished true) Hs Ht) as [Hl Hw].
      unfold round_loop. cbn [rd_pending rd_started rd_samples rd_reachable rd_done]. rewrite list_insert_insert_eq.
      destruct Hs. split; [split|]; simpl; rewrite ?Hw, ?length_app, ?replies_snoc; simpl; try lia.
      by replace (0 <? rd_done s + 1) with true by lia; rewrite andb_true_r.
    + destruct (round_step_counts _ _ _ _ _ (Waking n) Hs Ht) as [Hl Hw].
      destruct Hs. split; [split|]; simpl; rewrite ?Hw, ?length_app, ?replies_snoc; simpl; try lia. done.
Qed.

Lemma round_run_inv spec evs s s' : round_inv spec s -> round_run spec s evs = Some s' ->
  round_inv spec s' /\ tally polls_left (rd_pending s') + Z.of_nat (length evs) <= tally polls_left (rd_pending s).
Proof.
  revert s. induction evs as [|ev evs IH]; intros s Hs; simpl; [intros [= <-]; split; [done|lia]|].
  destruct (target_attempts spec s ev) as [s1|] eqn:E; [|done]. simpl. intros Hr.
  destruct (round_step_inv _ _ _ _ Hs E) as [H1 Hlt]. destruct (IH _ H1 Hr). split; [done|lia].
Qed.

Lemma round_counts_total spec s : round_inv spec s ->
  rd_done s + tally unfinished (rd_pending s) = total spec /\ 0 <= tally trying (rd_pending s) <= tally unfinished (rd_pending s).
Proof.
  intros Hs. rewrite (ri_done _ _ Hs), <- (ri_length _ _ Hs), <- tally_add. split.
  - rewrite <- (Z.mul_1_l (Z.of_nat _)), <- tally_const. apply Z.le_antisymm; apply tally_le; by intros [| |].
  - split; [apply tally_nonneg; by intros [| |]|]. apply tally_le. by intros [| |].
Qed.

(** C38: The report of a round, in whatever order its futures run: the
    reachable targets are those that answered, one reply each; the cancelled
    attempts are exactly those still open, none when the round runs to
    completion; the round as a whole takes no more attempts than the targets
    times those configured for one; and ending early never changes the verdict, whatever the targets that were still
    pending would have done. *)
Theorem round_report_spec (spec : Spec) (evs : list RoundEvent) (report : RoundReport)
    (Hround : round spec evs = Some report) :
  exists s, round_run spec (round_init spec) evs = Some s /\
    let required := sp_required_reachable spec in
    rr_reachable report = tally answered (rd_pending s) /\
    replies (rr_samples report) = rr_reachable report /\
    rr_canceled report = tally trying (rd_pending s) /\
    (sp_run_to_completion spec = true -> rr_canceled report = 0 /\ tally unfinished (rd_pending s) = 0) /\
    Z.of_nat (length (rr_samples report)) + rr_canceled report <= total spec * Z.of_nat (sp_attempts spec) /\
    forall rest, Z.of_nat (length rest) = tally unfinished (rd_pending s) ->
      rr_passed report = (required <=? rr_reachable report + successes rest).
Proof.
  unfold round in Hround. destruct (round_run _ _ _) as [s|] eqn:Hr; [|done]. simpl in Hround.
  destruct (rd_over s) eqn:Ho; [|done]. injection Hround as <-. exists s. split; [done|].
  destruct (round_run_inv _ _ _ _ (round_init_inv spec) Hr) as [Hs _].
  destruct (round_counts_total _ _ Hs) as [Htot Htry].
  assert (Hleft : 0 <= tally attempts_left (rd_pending s)) by (apply tally_nonneg; intros [| |]; simpl; lia).
  pose proof Hs as []. cbn [rr_reachable rr_samples rr_canceled rr_passed].
  assert (Hall : sp_run_to_completion spec = true -> rd_done s = total spec).
  { intros Hc. rewrite Ho, Hc in ri_over0. cbn [negb] in ri_over0. rewrite andb_false_r in ri_over0. symmetry in ri_over0.
    by apply Z.eqb_eq in ri_over0. }
  unfold saturating_sub. split_and!; try lia; [intros Hc; specialize (Hall Hc); lia|].
  intros rest Hrest. pose proof (successes_bound rest). rewrite Ho in ri_over0.
  apply Bool.eq_iff_eq_true. rewrite !Z.leb_le.
  symmetry in ri_over0. rewrite orb_true_iff, !andb_true_iff, orb_true_iff, Z.eqb_eq, Z.leb_le, Z.ltb_lt in ri_over0. lia.
Qed.

Lemma unfinished_exists l : 0 < tally unfinished l ->
  exists t target p, l !! t = Some (target, p) /\ unfinished p = 1.
Proof.
  induction l as [|[target p] l IH]; simpl; [lia|]. intros Hpos.
  destruct (decide (unfinished p = 1)) as [E|E]; [by exists O, target, p|].
  destruct IH as (t & g & q & ? & ?); [destruct p; simpl in *; lia|]. by exists (S t), g, q.
Qed.

(** C39: A round ends: a round that is not over always has a future to run, and no
    order of running them takes more than two polls per attempt and one
    more per target. *)
Theorem round_ends (spec : Spec) (evs : list RoundEvent) (s : RoundState)
    (Hrun : round_run spec (round_init spec) evs = Some s) :
  Z.of_nat (length evs) <= total spec * (2 * Z.of_nat (sp_attempts spec) + 1) /\
  (rd_over s = false -> exists ev, is_Some (target_attempts spec s ev)).
Proof.
  destruct (round_run_inv _ _ _ _ (round_init_inv spec) Hrun) as [Hs Hlen].
  assert (0 <= tally polls_left (rd_pending s)) by (apply tally_nonneg; intros [| |]; simpl; lia).
  split; [unfold round_init in Hlen; cbn [rd_pending] in Hlen; rewrite tally_init in Hlen; simpl in Hlen; unfold total; lia|].
  intros Ho. pose proof (not_over_spec _ _ Hs Ho). destruct (round_counts_total _ _ Hs) as [Htot Htry].
  destruct (unfinished_exists (rd_pending s)) as (t & target & p & Ht & Hp); [lia|].
  destruct p as [[|n]|n|]; [exists (Wake t)|exists (Wake t)|exists (Ended t None)|done];
    unfold target_attempts; rewrite Ho, Ht; eauto.
Qed.

(** ** Witnesses *)

(** An interpreter of the opcodes: [skip] instructions are jumped over. *)
Fixpoint interp (p : list SockFilter) (skip : nat) (a x : u32) (packet : list u8) : u32 :=
  match p with
  | [] => 0
  | i :: p =>
      match skip with
      | S skip => interp p skip a x packet
      | O =>
          if sf_code i =? LDB_ABS then
            match packet !! Z.to_nat (sf_k i) with Some b => interp p O b x packet | None => 0 end
          else if sf_code i =? LDB_IND then
            match packet !! Z.to_nat (x + sf_k i) with Some b => interp p O b x packet | None => 0 end
          else if sf_code i =? LDX_MSH then
            match packet !! Z.to_nat (sf_k i) with
            | Some b => interp p O a (4 * Z.land b 0xf) packet
            | None => 0
            end
          else if sf_code i =? JEQ_K then
            interp p (Z.to_nat (if a =? sf_k i then sf_jt i else sf_jf i)) a x packet
          else if sf_code i =? RET_K then sf_k i else 0
      end
  end.

Lemma interp_drop p skip a x packet : interp p skip a x packet = interp (drop skip p) O a x packet.
Proof. revert skip. induction p as [|i p IH]; intros [|skip]; try done. simpl. apply IH. Qed.

#[local] Instance interp_bpf : Bpf.
Proof.
  refine {| bpf_run := fun p a x packet => interp p O a x packet |}; try done.
  intros. simpl. apply interp_drop.
Defined.

Definition wt_token_bytes : list u8 := replicate 16 0x5a.
Definition wt_header : list u8 := [0x45; 0; 0; 0; 0; 0; 0; 0; 64; 1; 0; 0; 1; 1; 1; 1; 192; 0; 2; 2].
Definition wt_icmp : Icmp := mkIcmp false 0x1234 0xffff ∅.

(** An echo reply behind a 20-byte header passes, its request does not. *)
Lemma icmp_filter_exact_witness :
  bpf_run (icmp_filter true ECHO_REPLY_V4) 0 0 (wt_header ++ [0; 0]) = 2 ^ 32 - 1 /\
  bpf_run (icmp_filter true ECHO_REPLY_V4) 0 0 (wt_header ++ [8; 0]) = 0.
Proof.
  split; [rewrite (icmp_filter_exact true ECHO_REPLY_V4 (wt_header ++ [0; 0]))
         |rewrite (icmp_filter_exact true ECHO_REPLY_V4 (wt_header ++ [8; 0]))]; vm_compute; reflexivity.
Defined.

(** An attempt whose sequence number wraps around, answered after 7 units. *)
Lemma echo_exchange_witness :
  let '(seq, request, waiting) := Icmp_attempt wt_icmp (IpV4 16843009) wt_token_bytes 5 in
  seq = 0 /\ fst (Icmp_deliver waiting (wt_header ++ echo_answer false request) (IpV4 0) 12) = Some (0, 7).
Proof.
  pose proof (echo_exchange wt_icmp (IpV4 16843009) (IpV4 0) wt_token_bytes wt_header 5 12 13) as H.
  split; [vm_compute; reflexivity|].
  destruct H as [H _]; [split; vm_compute; congruence|repeat constructor; unfold is_byte; lia|reflexivity
    |split; [reflexivity|split; [vm_compute; lia|reflexivity]]|].
  etransitivity; [exact H|vm_compute; reflexivity].
Defined.

(** Three targets, one needed: the second answers first and the round ends
    with the first target's attempt open. *)
Definition wt_spec : Spec :=
  mkSpec (mkPathKey (uid 1) V4) 3 [] 2 (IpV4 0) 16 (replicate 3 (Target_Icmp (IpV4 16843009))) 10 2 2 1 false.
Definition wt_events : list RoundEvent := [Wake 0; Wake 1; Ended 1 (Some 4)].

Lemma round_report_spec_witness :
  round wt_spec wt_events = Some (mkRoundReport (mkPathKey (uid 1) V4) 3 true 1
    [QualityGates.mkSample (Target_Icmp (IpV4 16843009)) (Some 4)] 1) /\
  exists s, round_run wt_spec (round_init wt_spec) wt_events = Some s /\ tally trying (rd_pending s) = 1.
Proof.
  split; [vm_compute; reflexivity|].
  destruct (round_report_spec wt_spec wt_events (mkRoundReport (mkPathKey (uid 1) V4) 3 true 1
    [QualityGates.mkSample (Target_Icmp (IpV4 16843009)) (Some 4)] 1)) as (s & Hs & _ & _ & Hc & _);
    [vm_compute; reflexivity|]. exists s. split; [exact Hs|]. symmetry. exact Hc.
Defined.

Lemma round_ends_witness :
  exists s, round_run wt_spec (round_init wt_spec) [Wake 0] = Some s /\
    exists ev, is_Some (target_attempts wt_spec s ev).
Proof.
  destruct (round_run wt_spec (round_init wt_spec) [Wake 0]) as [s|] eqn:E; [|vm_compute in E; discriminate].
  exists s. split; [reflexivity|]. apply (round_ends wt_spec [Wake 0] s E).
  vm_compute in E. injection E as <-. reflexivity.
Defined.
