(* ===== verification/NetAddr.v ===== *)
(** * Addresses in text

    [FromStr] of the standard library's [IpAddr] and [SocketAddr], as the
    configuration uses it: recursive descent over the characters, where a
    reader that fails leaves the input where it was.  A reader is a function
    from the input to a value and the rest of the input.  Also the address
    classes of [Ipv4Addr] and [Ipv6Addr]. *)

From stdpp Require Import prelude.
From Stdlib Require Import ZArith Lia.
From S2P Require Import Prelude Text Model Durations Config.

Local Open Scope Z_scope.

Definition reader (A : Type) : Type := str -> option (A * str).

(** ** Readers *)

Definition read_given_char (target : Z) : reader unit := fun s =>
  match s with c :: s => if c =? target then Some (tt, s) else None | [] => None end.

Definition read_separator {A} (sep : Z) (index : nat) (inner : reader A) : reader A := fun s =>
  match index with
  | O => inner s
  | S _ => '(_, s) ← read_given_char sep s; inner s
  end.

(** [char::to_digit]. *)
Definition to_digit (radix : Z) (c : Z) : option Z :=
  let d := if in_range 48 57 c then c - 48 else if in_range 97 122 c then c - 87
           else if in_range 65 90 c then c - 55 else radix in
  if d <? radix then Some d else None.

(** The loop of [read_number]: the value and the number of digits read;
    [None] when there are more digits than allowed, or when the value leaves
    the width. *)
Fixpoint read_digits (radix : Z) (max_digits : option nat) (width : Z) (s : str) (value : Z) (count : nat)
    : option (Z * nat * str) :=
  match s with
  | [] => Some (value, count, s)
  | c :: s' =>
      match to_digit radix c with
      | None => Some (value, count, s)
      | Some d =>
          let value := radix * value + d in
          match max_digits with
          | Some max => if Nat.ltb max (S count) then None else read_digits radix max_digits width s' value (S count)
          | None => if 2 ^ width <=? value then None else read_digits radix max_digits width s' value (S count)
          end
      end
  end.

Definition read_number (radix : Z) (max_digits : option nat) (allow_zero_prefix : bool) (width : Z) : reader Z := fun s =>
  let has_leading_zero := bool_decide (head s = Some 48) in
  '(value, count, rest) ← read_digits radix max_digits width s 0 0;
  if Nat.eqb count 0 then None
  else if negb allow_zero_prefix && has_leading_zero && Nat.ltb 1 count then None
  else if value <? 2 ^ width then Some (value, rest) else None.

(** The [n] octets from index [i], as one number. *)
Fixpoint read_octets (n i : nat) (acc : Z) : reader Z := fun s =>
  match n with
  | O => Some (acc, s)
  | S n =>
      '(o, s) ← read_separator 46 i (read_number 10 (Some 3%nat) false 8) s;
      read_octets n (S i) (256 * acc + o) s
  end.

Definition read_ipv4_addr : reader u32 := read_octets 4 0 0.

(** [read_groups] with [n] groups left from index [i]: the groups, and
    whether they end with an embedded IPv4 address. *)
Fixpoint read_groups (n i : nat) (groups : list u16) (s : str) : list u16 * bool * str :=
  match n with
  | O => (groups, false, s)
  | S n' =>
      match (if Nat.ltb 1 n then read_separator 58 i read_ipv4_addr s else None) with
      | Some (v4, s) => (groups ++ [v4 / 65536; v4 mod 65536], true, s)
      | None =>
          match read_separator 58 i (read_number 16 (Some 4%nat) true 16) s with
          | Some (g, s) => read_groups n' (S i) (groups ++ [g]) s
          | None => (groups, false, s)
          end
      end
  end.

Definition from_groups (groups : list u16) : u128 := foldl (fun a g => 65536 * a + g) 0 groups.

Definition read_ipv6_addr : reader u128 := fun s =>
  let '(head, head_ipv4, s) := read_groups 8 0 [] s in
  if Nat.eqb (length head) 8 then Some (from_groups head, s) else
  if head_ipv4 : bool then None else
  '(_, s) ← read_given_char 58 s;
  '(_, s) ← read_given_char 58 s;
  let '(tail, _, s) := read_groups (8 - (length head + 1)) 0 [] s in
  Some (from_groups (head ++ replicate (8 - length head - length tail) 0 ++ tail), s).

Definition read_ip_addr : reader IpAddr := fun s =>
  match read_ipv4_addr s with
  | Some (a, s) => Some (IpV4 a, s)
  | None => match read_ipv6_addr s with Some (a, s) => Some (IpV6 a, s) | None => None end
  end.

Definition read_port : reader u16 := fun s =>
  '(_, s) ← read_given_char 58 s; read_number 10 None true 16 s.

Definition read_scope_id : reader u32 := fun s =>
  '(_, s) ← read_given_char 37 s; read_number 10 None true 32 s.

Definition read_socket_addr_v4 : reader SocketAddr := fun s =>
  '(ip, s) ← read_ipv4_addr s; '(port, s) ← read_port s;
  Some (mkSocketAddr (IpV4 ip) port 0 0, s).

Definition read_socket_addr_v6 : reader SocketAddr := fun s =>
  '(_, s) ← read_given_char 91 s;
  '(ip, s) ← read_ipv6_addr s;
  let '(scope, s) := match read_scope_id s with Some (i, s) => (i, s) | None => (0, s) end in
  '(_, s) ← read_given_char 93 s;
  '(port, s) ← read_port s;
  Some (mkSocketAddr (IpV6 ip) port 0 scope, s).

(** [parse_with]: the whole input has to be read. *)
Definition parse_with {A} (r : reader A) (s : str) : option A :=
  match r s with Some (a, []) => Some a | _ => None end.

Definition parse_ip_addr (s : str) : option IpAddr := parse_with read_ip_addr s.

Definition parse_socket_addr (s : str) : option SocketAddr :=
  parse_with (fun s => match read_socket_addr_v4 s with Some r => Some r | None => read_socket_addr_v6 s end) s.

(** ** Address classes *)

(** Octet [i] of an IPv4 address, segment [i] of an IPv6 address. *)
Definition octet (a : u32) (i : Z) : u8 := Z.land (Z.shiftr a (24 - 8 * i)) 0xff.
Definition segment (a : u128) (i : Z) : u16 := Z.land (Z.shiftr a (112 - 16 * i)) 0xffff.

Definition v4_is_unspecified (a : u32) : bool := a =? 0.
Definition v4_is_loopback (a : u32) : bool := octet a 0 =? 127.
Definition v4_is_multicast (a : u32) : bool := in_range 224 239 (octet a 0).
Definition v4_is_broadcast (a : u32) : bool := a =? 2 ^ 32 - 1.
Definition v4_is_link_local (a : u32) : bool := (octet a 0 =? 169) && (octet a 1 =? 254).
Definition v4_is_private (a : u32) : bool :=
  (octet a 0 =? 10) || ((octet a 0 =? 172) && in_range 16 31 (octet a 1)) ||
  ((octet a 0 =? 192) && (octet a 1 =? 168)).

Definition v6_is_unspecified (a : u128) : bool := a =? 0.
Definition v6_is_loopback (a : u128) : bool := a =? 1.
Definition v6_is_multicast (a : u128) : bool := Z.land (segment a 0) 0xff00 =? 0xff00.
Definition v6_is_ipv4_mapped (a : u128) : bool := Z.shiftr a 32 =? 0xffff.

(** ** Examples *)

Example parse_v4 : parse_ip_addr (lit "192.0.2.1") = Some (IpV4 0xc0000201).
Proof. reflexivity. Qed.
Example parse_v4_leading_zero : parse_ip_addr (lit "192.0.02.1") = None.
Proof. reflexivity. Qed.
Example parse_v6_compressed :
  parse_ip_addr (lit "2606:4700:4700::1111") = Some (IpV6 0x26064700470000000000000000001111).
Proof. reflexivity. Qed.
Example parse_v6_embedded : parse_ip_addr (lit "::ffff:1.2.3.4") = Some (IpV6 0xffff01020304).
Proof. reflexivity. Qed.
Example parse_v6_full : parse_ip_addr (lit "1:2:3:4:5:6:7::") = Some (IpV6 0x10002000300040005000600070000).
Proof. reflexivity. Qed.
Example parse_v6_too_many : parse_ip_addr (lit "1:2:3:4:5:6:7:8:9") = None.
Proof. reflexivity. Qed.
Example parse_socket_v6 :
  parse_socket_addr (lit "[fe80::1%3]:443") = Some (mkSocketAddr (IpV6 0xfe800000000000000000000000000001) 443 0 3).
Proof. reflexivity. Qed.
Example parse_socket_port : parse_socket_addr (lit "1.2.3.4:65536") = None.
Proof. reflexivity. Qed.
