(* ===== verification/Validate.v ===== *)
(** * Validation of the configuration

    Models crates/polywan/src/config/validate.rs with the raw image of the
    file (config/raw.rs): every problem is collected as a diagnostic, and a
    configuration comes out only when there is none.

    [Ctx] is a state monad over the diagnostics whose failure is a panic: the
    only operation of the validator that can panic is the multiplication of
    a [Duration].  The text of a diagnostic is the rendering of the values it
    is built from ([Message]); the rendering (format!) is a parameter, as is
    the parser of prefixes, which is the ipnet crate's. *)

From stdpp Require Import prelude gmap sorting.
From Stdlib Require Import ZArith Lia SpecFloat.
From S2P Require Import Prelude Text Model Durations Config NetAddr.

Local Open Scope Z_scope.

(** ** The raw image of the file *)

Abbreviation i64 := Z (only parsing).

(** A value with the offset where it starts. *)
Record Spanned (T : Type) := mkSpanned { span_start : usize; get_ref : T }.
Arguments mkSpanned {T}.
Arguments span_start {T}.
Arguments get_ref {T}.

Inductive TableRef := TableRef_Id (n : i64) | TableRef_Name (n : str).

Record RawRouting := mkRawRouting {
  rr_table_base : option i64;
  rr_rule_priority_base : option i64;
  rr_route_protocol : option i64;
  rr_fwmark_mask : option i64;
  rr_all_down_policy : option AllDownPolicy;
  rr_discovery_tables : option (list TableRef);
  rr_manage_sysctls : option bool;
  rr_reconcile_interval : option str;
  rr_on_shutdown : option OnShutdown
}.

Record RawFirewall := mkRawFirewall {
  rf_mode : option FirewallMode; rf_nat_priority : option i64; rf_nft_path : option PathBuf
}.

Record RawPath := mkRawPath {
  rp_source : option str; rp_gateway : option str; rp_gateway_onlink : option bool; rp_nat : option Nat_
}.

Record RawQuality := mkRawQuality {
  rq_max_rtt : option str; rq_max_jitter : option str; rq_max_loss : option f64
}.

(** [ipv4] and [ipv6] are the lists of the [Targets] tables. *)
Record RawHealth := mkRawHealth {
  rh_interval : option str;
  rh_timeout : option str;
  rh_attempts : option i64;
  rh_required_reachable : option i64;
  rh_fall : option i64;
  rh_rise : option i64;
  rh_ipv4 : option (list str);
  rh_ipv6 : option (list str);
  rh_quality : option RawQuality;
  rh_quality_window : option i64;
  rh_quality_min_samples : option i64
}.

Record RawUplink := mkRawUplink {
  ru_id : i64;
  ru_name : str;
  ru_description : option str;
  ru_interface : str;
  ru_priority : option i64;
  ru_weight : option i64;
  ru_ipv4 : option (Spanned RawPath);
  ru_ipv6 : option (Spanned RawPath);
  ru_health : option (Spanned RawHealth)
}.

Inductive PortSpec := PortSpec_Port (n : i64) | PortSpec_Range (s : str).

(** [family] is [PolicyFamily], whose two values are those of [Family]. *)
Record RawPolicy := mkRawPolicy {
  rpo_name : str;
  rpo_family : Family;
  rpo_input_interface : option str;
  rpo_source : option str;
  rpo_destination : option str;
  rpo_protocol : option Protocol;
  rpo_destination_port : option PortSpec;
  rpo_uplink : str;
  rpo_fallback : option Fallback
}.

Record RawEmail := mkRawEmail {
  re_from : str; re_to : list str; re_sendmail : option PathBuf; re_max_per_hour : option i64;
  re_events : option (list str)
}.

Record RawHook := mkRawHook {
  rk_command : list str; rk_events : option (list str); rk_timeout : option str
}.

Record RawNotify := mkRawNotify {
  rn_coalesce : option str;
  rn_email : option (Spanned RawEmail);
  rn_hook : list (Spanned RawHook);
  rn_hook_user : option str
}.

Record RawApi := mkRawApi {
  ra_socket : option PathBuf; ra_group : option str; ra_status_socket : option PathBuf;
  ra_status_group : option str
}.

(** A [Downlink] is its interface; [metrics] is the table with its [listen]. *)
Record RawConfig := mkRawConfig {
  rc_routing : option (Spanned RawRouting);
  rc_firewall : option (Spanned RawFirewall);
  rc_downlink : list (Spanned str);
  rc_uplink : list (Spanned RawUplink);
  rc_health : option (Spanned RawHealth);
  rc_policy : list (Spanned RawPolicy);
  rc_notify : option (Spanned RawNotify);
  rc_api : option (Spanned RawApi);
  rc_metrics : option (Spanned (option str));
  rc_state_dir : option (Spanned PathBuf)
}.

(** ** Diagnostics *)

Inductive Message :=
  | M_Text (text : str)
  | M_Range (v lo hi : Z)
  | M_DurationRange (d lo hi : Duration)
  | M_Duration (e : DurationError)
  | M_Value (what : str) (value : str)
  | M_Number (what : str) (value : Z)
  | M_Address (what : str) (addr : IpAddr) (other : option str)
  | M_Rate (timeout : Duration) (attempts : u8) (interval : Duration)
  | M_Exceeds (what : str) (value limit : Z)
  | M_Loss (l : f64).

Record Diagnostic := mkDiagnostic { dg_line : option usize; dg_key : str; dg_message : str }.

#[export] Instance Diagnostic_eq_dec : EqDecision Diagnostic.
Proof. solve_decision. Defined.

#[export] Instance Diagnostic_Cmp : Cmp Diagnostic :=
  cmp_by (fun d => (dg_line d, dg_key d, dg_message d)).

(** [Vec::dedup]. *)
Fixpoint dedup `{EqDecision A} (l : list A) : list A :=
  match l with
  | x :: (y :: _) as l' => if decide (x = y) then dedup l' else x :: dedup l'
  | l => l
  end.

(** ** Constants *)

Definition EVENT_TYPES : list str :=
  [lit "daemon_started"; lit "daemon_stopping"; lit "config_reloaded"; lit "reload_failed";
   lit "path_state_changed"; lit "path_address_changed"; lit "path_gateway_changed"; lit "active_set_changed";
   lit "uplink_drained"; lit "uplink_undrained"; lit "artifact_repaired"; lit "apply_failed";
   lit "status_degraded"; lit "status_recovered"].

Definition DEFAULT_EMAIL_EVENTS : list str :=
  [lit "daemon_started"; lit "daemon_stopping"; lit "config_reloaded"; lit "reload_failed";
   lit "path_state_changed"; lit "active_set_changed"; lit "uplink_drained"; lit "uplink_undrained";
   lit "status_degraded"; lit "status_recovered"].

Definition DEFAULT_SENDMAIL : PathBuf := lit "/usr/sbin/sendmail".
Definition DEFAULT_API_SOCKET : PathBuf := lit "/run/polywan/api.sock".
Definition DEFAULT_STATUS_SOCKET : PathBuf := lit "/run/polywan/status.sock".

Definition DEFAULT_TARGETS_V4 : list str :=
  [lit "icmp:1.1.1.1"; lit "icmp:8.8.8.8"; lit "icmp:9.9.9.9"; lit "icmp:208.67.222.222"].
Definition DEFAULT_TARGETS_V6 : list str :=
  [lit "icmp:2606:4700:4700::1111"; lit "icmp:2001:4860:4860::8888"; lit "icmp:2620:fe::fe"].

(** ** Checks of single values *)

(** The normal components of a path: separators and [.] components are
    normalised away, as [Path::components] does behind a root. *)
Definition components (p : PathBuf) : list str :=
  List.filter (fun c => negb (bool_decide (c = [])) && negb (bool_decide (c = lit "."))) (split_on 47 p).

Definition is_absolute (p : PathBuf) : bool := starts_with [47] p.

(** Whether [Path::components] yields a [CurDir]: only in front, so never
    behind a root. *)
Definition has_cur_dir (p : PathBuf) : bool :=
  negb (is_absolute p) && bool_decide (head (split_on 47 p) = Some (lit ".")).

Definition has_parent_dir (p : PathBuf) : bool := existsb (fun c => bool_decide (c = lit "..")) (components p).

(** [a == b] of paths: rootedness and components. *)
Definition path_eqb (a b : PathBuf) : bool :=
  Bool.eqb (is_absolute a) (is_absolute b) && Bool.eqb (has_cur_dir a) (has_cur_dir b) &&
  bool_decide (components a = components b).

(** Parts joined by separators. *)
Fixpoint join_on (sep : Z) (parts : list str) : str :=
  match parts with
  | [] => []
  | [x] => x
  | x :: parts => x ++ [sep] ++ join_on sep parts
  end.

(** [path.parent().map_or(0, |p| p.as_os_str().len())] of an absolute path:
    the text up to the end of the last but one component, without trailing
    separators and [.] components; the root has no parent. *)
Definition is_trailing (c : str) : bool := bool_decide (c = []) || bool_decide (c = lit ".").

Definition parent_len (p : PathBuf) : usize :=
  match drop_while is_trailing (rev (split_on 47 p)) with
  | [] => 0
  | _ :: rest =>
      match drop_while is_trailing rest with
      | [] => 1
      | parts => str_len (join_on 47 (rev parts))
      end
  end.

Definition SUN_PATH_MAX : usize := 107.
Definition STAGING : str := lit ".polywan-staging-".
Definition STAGED : str := lit "s".
(** [u32::MAX.ilog10()] is 9. *)
Definition STAGING_SUFFIX_MAX : usize := 1 + str_len STAGING + (9 + 1) + 1 + str_len STAGED.

Definition check_socket_path (path : PathBuf) : result unit Message :=
  if negb (is_absolute path) then Err (M_Text (lit "must be an absolute path")) else
  if has_cur_dir path || has_parent_dir path || bool_decide (last path = Some 47) then
    Err (M_Text (lit "must name a file, without . or .. components")) else
  if (SUN_PATH_MAX <? str_len path) || (SUN_PATH_MAX <? parent_len path + STAGING_SUFFIX_MAX) then
    Err (M_Number (lit "is too long for a Unix socket") (SUN_PATH_MAX - STAGING_SUFFIX_MAX))
  else Ok tt.

Definition check_account_name (name : str) : result unit Message :=
  let body := match last name with Some c => if c =? 36 then removelast name else name | None => name end in
  let ok := in_range 1 32 (str_len name) && negb (bool_decide (body = [])) && negb (starts_with (lit "-") body) &&
    forallb (fun b => is_ascii_alphanumeric b || (b =? 95) || (b =? 45) || (b =? 46)) body in
  if ok then Ok tt else Err (M_Value (lit "is not a valid user or group name") name).

Definition dns_label (l : str) : bool :=
  in_range 1 63 (str_len l) && negb (starts_with (lit "-") l) && negb (bool_decide (last l = Some 45)) &&
  forallb (fun b => is_ascii_alphanumeric b || (b =? 45)) l.

Definition is_ascii (s : str) : bool := forallb (fun c => in_range 0 127 c) s.
Definition is_ascii_control (c : Z) : bool := in_range 0 31 c || (c =? 127).

(** [str::rsplit_once] on a character. *)
Fixpoint rsplit_once (c : Z) (s : str) : option (str * str) :=
  match s with
  | [] => None
  | d :: s =>
      match rsplit_once c s with
      | Some (a, b) => Some (d :: a, b)
      | None => if d =? c then Some ([], s) else None
      end
  end.

(** The characters of a dot-atom beside letters and digits. *)
Definition atext (b : Z) : bool :=
  is_ascii_alphanumeric b ||
  existsb (Z.eqb b) [33; 35; 36; 37; 38; 39; 42; 43; 45; 47; 61; 63; 94; 95; 96; 123; 124; 125; 126].

Definition check_mailbox (text : str) : result unit Message :=
  let fail (why : str) := Err (M_Value why text) in
  if negb (is_ascii text) || existsb (fun b => is_ascii_control b || (b =? 32)) text
  then fail (lit "only printable ASCII without spaces is allowed") else
  if 254 <? str_len text then fail (lit "longer than 254 characters") else
  match rsplit_once 64 text with
  | None => fail (lit "no @")
  | Some (local, domain) =>
      if bool_decide (local = []) || (64 <? str_len local) ||
         negb (forallb (fun a => negb (bool_decide (a = [])) && forallb atext a) (split_on 46 local))
      then fail (lit "the local part must be a dot-atom") else
      if match local with c :: _ => (c =? 45) || (c =? 47) || (c =? 124) | [] => false end
      then fail (lit "the local part must not start with") else
      if (253 <? str_len domain) || negb (forallb dns_label (split_on 46 domain))
      then fail (lit "the domain must be a DNS name") else Ok tt
  end.

Definition valid_uplink_name (name : str) : bool :=
  in_range 1 32 (str_len name) &&
  forallb (fun b => is_ascii_lowercase b || is_ascii_digit b || (b =? 95) || (b =? 45)) name.

Definition check_interface_name (name : str) : result unit Message :=
  let ok_char b := is_ascii_alphanumeric b || (b =? 95) || (b =? 45) || (b =? 46) || (b =? 58) || (b =? 43) in
  if bool_decide (name = []) || (15 <? str_len name) || bool_decide (name = lit ".") ||
     bool_decide (name = lit "..") || negb (forallb ok_char name)
  then Err (M_Value (lit "is not a valid interface name") name) else Ok tt.

Definition is_global_unicast (addr : IpAddr) : bool :=
  match addr with
  | IpV4 a =>
      negb (v4_is_unspecified a || v4_is_loopback a || v4_is_multicast a || v4_is_broadcast a ||
            v4_is_link_local a || v4_is_private a || (octet a 0 =? 0) || (240 <=? octet a 0) ||
            ((octet a 0 =? 100) && (Z.land (octet a 1) 0xc0 =? 64)))
  | IpV6 a =>
      negb (v6_is_unspecified a || v6_is_loopback a || v6_is_multicast a ||
            (Z.land (segment a 0) 0xffc0 =? 0xfe80) || (Z.land (segment a 0) 0xfe00 =? 0xfc00) ||
            v6_is_ipv4_mapped a)
  end.

Definition is_usable_source (addr : IpAddr) : bool :=
  match addr with
  | IpV4 a =>
      negb (v4_is_unspecified a || v4_is_loopback a || v4_is_multicast a || v4_is_broadcast a || v4_is_link_local a)
  | IpV6 a =>
      negb (v6_is_unspecified a || v6_is_loopback a || v6_is_multicast a ||
            (Z.land (segment a 0) 0xffc0 =? 0xfe80))
  end.

Definition parse_target (text : str) : result Target Message :=
  let bad := M_Value (lit "is not a target") text in
  match strip_prefix (lit "icmp:") text with
  | Some a => match parse_ip_addr a with Some a => Ok (Target_Icmp a) | None => Err bad end
  | None =>
      match strip_prefix (lit "tcp:") text with
      | Some s =>
          match parse_socket_addr s with
          | None => Err bad
          | Some sa => if sa_port sa =? 0 then Err (M_Value (lit "port 0 is not valid") text) else Ok (Target_Tcp sa)
          end
      | None => Err bad
      end
  end.

Definition distinct_addresses (targets : list Target) : usize :=
  Z.of_nat (size (list_to_set (Target_addr <$> targets) : gset IpAddr)).

(** ** The context *)

(** [Duration * u32]: panics on overflow. *)
Definition duration_mul (d : Duration) (n : u32) : option Duration :=
  if DURATION_MAX <? d * n then None else Some (d * n).

(** A validator: the value and the diagnostics collected so far, or a panic. *)
Definition Ctx (A : Type) : Type := list Diagnostic -> option (A * list Diagnostic).

#[export] Instance Ctx_ret : MRet Ctx := fun A a diags => Some (a, diags).
#[export] Instance Ctx_bind : MBind Ctx := fun A B f m diags =>
  match m diags with Some (a, diags) => f a diags | None => None end.

Definition panic {A} : Ctx A := fun _ => None.
Definition diags_len : Ctx nat := fun diags => Some (length diags, diags).
Definition map_diags (f : list Diagnostic -> list Diagnostic) : Ctx unit := fun diags => Some (tt, f diags).

(** [Vec::is_empty], [Option::is_none]. *)
Definition is_empty {A} (l : list A) : bool := match l with [] => true | _ => false end.
Definition is_none {A} (o : option A) : bool := match o with None => true | _ => false end.

(** [when c m]: [if c { m }]. *)
Definition when (c : bool) (m : Ctx unit) : Ctx unit := if c then m else mret tt.

(** A loop that collects what each turn gives. *)
Fixpoint for_each {A B} (f : nat -> A -> Ctx B) (i : nat) (l : list A) : Ctx (list B) :=
  match l with
  | [] => mret []
  | x :: l => y ← f i x; ys ← for_each f (S i) l; mret (y :: ys)
  end.

Definition for_option {A B} (f : A -> Ctx B) (o : option A) : Ctx (option B) :=
  match o with None => mret None | Some x => y ← f x; mret (Some y) end.

Section validate.
Context (render : Message -> str) (parse_ip_net : str -> option IpNet) (text : list u8).

Definition err (span : option usize) (key : str) (message : Message) : Ctx unit := fun diags =>
  Some (tt, diags ++ [mkDiagnostic (line_of text <$> span) key (render message)]).

(** [cx.int]: [T::try_from] cannot fail for a value of the ranges in use. *)
Definition int (value : option i64) (default lo hi : Z) (span : option usize) (key : str) : Ctx Z :=
  match value with
  | None => mret default
  | Some v => if negb (in_range lo hi v) then _ ← err span key (M_Range v lo hi); mret default else mret v
  end.

Definition cx_duration (value : option str) (default : Duration) (span : option usize) (key : str) : Ctx Duration :=
  match value with
  | None => mret default
  | Some text =>
      match duration_parse text with
      | Ok d => mret d
      | Err e => _ ← err span key (M_Duration e); mret default
      end
  end.

Definition duration_in (value : option str) (default lo hi : Duration) (span : option usize) (key : str)
    : Ctx Duration :=
  d ← cx_duration value default span key;
  if negb (in_range lo hi d) then _ ← err span key (M_DurationRange d lo hi); mret default else mret d.

(** ** Routing and firewall *)

(** One turn of the loop over the discovery tables. *)
Definition discovery_table (table_base : u32) (span : option usize) (tables : list u32) (t : TableRef)
    : Ctx (list u32) :=
  let key := lit "routing.discovery_tables" in
  id ← match t with
       | TableRef_Name n =>
           if bool_decide (n = lit "main") then mret (Some 254)
           else if bool_decide (n = lit "default") then mret (Some 253)
           else _ ← err span key (M_Value (lit "unknown table name") n); mret None
       | TableRef_Id n =>
           if in_range 1 (2 ^ 32 - 1) n && negb (n =? 255) then mret (Some n)
           else _ ← err span key (M_Number (lit "is not a usable table id") n); mret None
       end;
  match id with
  | None => mret tables
  | Some id =>
      if in_range table_base (table_base + 191) id
      then _ ← err span key (M_Number (lit "is in the own range") id); mret tables
      else mret (if bool_decide (id ∈ tables) then tables else tables ++ [id])
  end.

Fixpoint discovery_loop (table_base : u32) (span : option usize) (tables : list u32) (ts : list TableRef)
    : Ctx (list u32) :=
  match ts with
  | [] => mret tables
  | t :: ts => tables ← discovery_table table_base span tables t; discovery_loop table_base span tables ts
  end.

Definition routing (raw : option (Spanned RawRouting)) : Ctx Routing :=
  let span := span_start <$> raw in
  let r := default (mkRawRouting None None None None None None None None None) (get_ref <$> raw) in
  table_base ← int (rr_table_base r) 1000 1 (4294967294 - 191) span (lit "routing.table_base");
  _ ← when (in_range table_base (table_base + 191) 253 || in_range table_base (table_base + 191) 255)
    (err span (lit "routing.table_base") (M_Number (lit "include the reserved tables") table_base));
  rule_priority_base ← int (rr_rule_priority_base r) 1000 1 (32765 - 699) span (lit "routing.rule_priority_base");
  route_protocol ← int (rr_route_protocol r) 249 5 255 span (lit "routing.route_protocol");
  fwmark_mask ← match rr_fwmark_mask r with
    | None => mret FwMask_DEFAULT
    | Some v =>
        match (if in_range 0 (2 ^ 32 - 1) v then FwMask_new v else None) with
        | Some m => mret m
        | None => _ ← err span (lit "routing.fwmark_mask") (M_Number (lit "is not exactly 8 contiguous bits") v);
                  mret FwMask_DEFAULT
        end
    end;
  discovery_tables ← discovery_loop table_base span []
    (default [TableRef_Name (lit "main")] (rr_discovery_tables r));
  reconcile_interval ← duration_in (rr_reconcile_interval r) (from_secs 60) (from_secs 10) (from_secs 3600) span
    (lit "routing.reconcile_interval");
  mret (mkRouting table_base rule_priority_base route_protocol fwmark_mask
    (default Ready (rr_all_down_policy r)) discovery_tables (default true (rr_manage_sysctls r))
    reconcile_interval (default OnShutdown_Keep (rr_on_shutdown r))).

Definition firewall (raw : option (Spanned RawFirewall)) : Ctx Firewall :=
  let span := span_start <$> raw in
  let f := default (mkRawFirewall None None None) (get_ref <$> raw) in
  nat_priority ← int (rf_nat_priority f) 100 (-149) 400 span (lit "firewall.nat_priority");
  let nft_path := default (lit "/usr/sbin/nft") (rf_nft_path f) in
  _ ← when (negb (is_absolute nft_path)) (err span (lit "firewall.nft_path") (M_Text (lit "must be an absolute path")));
  mret (mkFirewall (default Managed (rf_mode f)) nat_priority nft_path).

(** ** Paths *)

(** The closure [addr] of [path]. *)
Definition path_addr (span : usize) (family : Family) (key : str) (value : option str) (what : str)
    : Ctx (AutoOr IpAddr) :=
  match value with
  | None => mret Auto
  | Some text =>
      if bool_decide (text = lit "auto") then mret Auto else
      match parse_ip_addr text with
      | Some a =>
          if bool_decide (Family_of a = family) then mret (Static a)
          else _ ← err (Some span) (key ++ lit "." ++ what) (M_Value (lit "is not an address of the family") text);
               mret Auto
      | None => _ ← err (Some span) (key ++ lit "." ++ what) (M_Value (lit "is neither auto nor an address") text);
                mret Auto
      end
  end.

Definition path (raw : Spanned RawPath) (family : Family) (key : str) : Ctx PathSettings :=
  let span := span_start raw in
  let p := get_ref raw in
  source ← path_addr span family key (rp_source p) (lit "source");
  gateway ← path_addr span family key (rp_gateway p) (lit "gateway");
  _ ← match source with
      | Static a => when (negb (is_usable_source a))
          (err (Some span) (key ++ lit ".source") (M_Address (lit "cannot be a source address") a None))
      | Auto => mret tt
      end;
  let gateway_onlink := default false (rp_gateway_onlink p) in
  _ ← when (gateway_onlink && bool_decide (gateway = Auto))
    (err (Some span) (key ++ lit ".gateway_onlink") (M_Text (lit "requires a static gateway (FR-DISC-4)")));
  nat ← match rp_nat p, family with
    | Some n, _ => mret n
    | None, V4 => mret Nat_Masquerade
    | None, V6 => _ ← err (Some span) (key ++ lit ".nat") (M_Text (lit "must be set explicitly for IPv6"));
                  mret Nat_None
    end;
  _ ← when (bool_decide (nat = Nat_Snat) && bool_decide (source = Auto))
    (err (Some span) (key ++ lit ".source") (M_Text (lit "nat = snat requires a static source address")));
  mret (mkPathSettings source gateway gateway_onlink nat).

(** ** Health *)

Definition raw_health_default : RawHealth :=
  mkRawHealth None None None None None None None None None None None.
Definition raw_quality_default : RawQuality := mkRawQuality None None None.

(** [Option::or]. *)
Definition or_else {A} (a b : option A) : option A := match a with Some _ => a | None => b end.

Definition merge_health (global local : option RawHealth) : RawHealth :=
  let g := default raw_health_default global in
  match local with
  | None => g
  | Some l =>
      let gq := default raw_quality_default (rh_quality g) in
      let quality := (fun lq => mkRawQuality (or_else (rq_max_rtt lq) (rq_max_rtt gq))
        (or_else (rq_max_jitter lq) (rq_max_jitter gq)) (or_else (rq_max_loss lq) (rq_max_loss gq))) <$> rh_quality l in
      mkRawHealth (or_else (rh_interval l) (rh_interval g)) (or_else (rh_timeout l) (rh_timeout g))
        (or_else (rh_attempts l) (rh_attempts g)) (or_else (rh_required_reachable l) (rh_required_reachable g))
        (or_else (rh_fall l) (rh_fall g)) (or_else (rh_rise l) (rh_rise g))
        (or_else (rh_ipv4 l) (rh_ipv4 g)) (or_else (rh_ipv6 l) (rh_ipv6 g))
        (or_else quality (Some gq)) (or_else (rh_quality_window l) (rh_quality_window g))
        (or_else (rh_quality_min_samples l) (rh_quality_min_samples g))
  end.

(** One turn of the loop over the targets of a family. *)
Definition add_target (span : option usize) (key : str) (family : Family) (out : list Target) (text : str)
    : Ctx (list Target) :=
  match parse_target text with
  | Ok t =>
      if negb (bool_decide (Family_of (Target_addr t) = family))
      then _ ← err span key (M_Value (lit "is not a target of the family") text); mret out
      else if negb (is_global_unicast (Target_addr t))
      then _ ← err span key (M_Value (lit "the address is not global unicast (FR-PROBE-2)") text); mret out
      else if bool_decide (t ∈ out)
      then _ ← err span key (M_Value (lit "is listed more than once") text); mret out
      else mret (out ++ [t])
  | Err e => _ ← err span key e; mret out
  end.

Fixpoint add_targets (span : option usize) (key : str) (family : Family) (out : list Target) (texts : list str)
    : Ctx (list Target) :=
  match texts with
  | [] => mret out
  | text :: texts => out ← add_target span key family out text; add_targets span key family out texts
  end.

(** The closure [targets] of [health]. *)
Definition health_targets (h : RawHealth) (families : list Family) (span : option usize) (key : str)
    (family : Family) : Ctx (list Target) :=
  let texts := match family with
    | V4 => default DEFAULT_TARGETS_V4 (rh_ipv4 h)
    | V6 => default DEFAULT_TARGETS_V6 (rh_ipv6 h)
    end in
  let key := key ++ lit "." ++ Family_key family ++ lit ".targets" in
  out ← add_targets span key family [] texts;
  _ ← when (is_empty out && bool_decide (family ∈ families))
    (err span key (M_Text (lit "at least one target is required")));
  mret out.

(** [(0.0..=1.0).contains(&l)]: false for a NaN. *)
Definition loss_in_range (l : f64) : bool :=
  match SFcompare (S754_zero false) l, SFcompare l (SFone 53 1024) with
  | Some (Lt | Eq), Some (Lt | Eq) => true
  | _, _ => false
  end.

(** The loop over the families for [required_reachable]. *)
Fixpoint check_required (span : option usize) (key : str) (required : u8) (count : Family -> usize)
    (families : list Family) : Ctx unit :=
  match families with
  | [] => mret tt
  | f :: families =>
      _ ← when ((0 <? count f) && (count f <? required))
        (err span key (M_Exceeds (Family_key f) required (count f)));
      check_required span key required count families
  end.

Definition health (h : RawHealth) (families : list Family) (span : option usize) (key : str) : Ctx HealthConf :=
  let k s := key ++ lit "." ++ s in
  interval ← duration_in (rh_interval h) (from_secs 5) (from_secs 1) (from_secs 300) span (k (lit "interval"));
  timeout ← cx_duration (rh_timeout h) (from_secs 1) span (k (lit "timeout"));
  _ ← when (timeout =? 0) (err span (k (lit "timeout")) (M_Text (lit "must be greater than zero")));
  attempts ← int (rh_attempts h) 2 1 5 span (k (lit "attempts"));
  product ← match duration_mul timeout attempts with Some d => mret d | None => panic end;
  _ ← when (interval <=? product) (err span (k (lit "timeout")) (M_Rate timeout attempts interval));
  fall ← int (rh_fall h) 2 1 20 span (k (lit "fall"));
  rise ← int (rh_rise h) 3 1 20 span (k (lit "rise"));
  targets_v4 ← health_targets h families span key V4;
  targets_v6 ← health_targets h families span key V6;
  let count f := distinct_addresses match f with V4 => targets_v4 | V6 => targets_v6 end in
  let max_targets := min_by_key id (count <$> families) in
  required_reachable ← int (rh_required_reachable h) 2 1 255 span (k (lit "required_reachable"));
  _ ← check_required span (k (lit "required_reachable")) required_reachable count families;
  let q := default raw_quality_default (rh_quality h) in
  max_rtt ← for_option (fun t => cx_duration (Some t) 0 span (k (lit "quality.max_rtt"))) (rq_max_rtt q);
  max_jitter ← for_option (fun t => cx_duration (Some t) 0 span (k (lit "quality.max_jitter"))) (rq_max_jitter q);
  let quality := mkQuality max_rtt max_jitter (rq_max_loss q) in
  _ ← match Config.max_loss quality with
      | Some l => when (negb (loss_in_range l)) (err span (k (lit "quality.max_loss")) (M_Loss l))
      | None => mret tt
      end;
  quality_window ← int (rh_quality_window h) 6 2 100 span (k (lit "quality_window"));
  quality_min_samples ← int (rh_quality_min_samples h) 10 1 10000 span (k (lit "quality_min_samples"));
  _ ← match max_targets with
      | Some n => when (Quality_enabled quality && (n * quality_window <? quality_min_samples))
          (err span (k (lit "quality_min_samples"))
            (M_Exceeds (lit "targets") quality_min_samples (n * quality_window)))
      | None => mret tt
      end;
  mret (mkHealthConf interval timeout attempts required_reachable fall rise targets_v4 targets_v6 quality
    quality_window quality_min_samples).

(** ** Policies *)

(** [n.trunc()]: the address with the bits behind the prefix cleared. *)
Definition trunc (n : IpNet) : IpNet :=
  let mask width a := let k := width - net_prefix n in Z.shiftl (Z.shiftr a k) k in
  mkIpNet (match net_addr n with IpV4 a => IpV4 (mask 32 a) | IpV6 a => IpV6 (mask 128 a) end) (net_prefix n).

(** [IpNet::from] an address. *)
Definition net_of_addr (a : IpAddr) : IpNet := mkIpNet a (match a with IpV4 _ => 32 | IpV6 _ => 128 end).

(** The closure [prefix] of [policy]. *)
Definition policy_prefix (span : usize) (family : Family) (key : str) (v : option str) (what : str)
    : Ctx (option IpNet) :=
  match v with
  | None => mret None
  | Some text =>
      match or_else (parse_ip_net text) (net_of_addr <$> parse_ip_addr text) with
      | Some n =>
          if bool_decide (Family_of (net_addr n) = family) then mret (Some (trunc n))
          else _ ← err (Some span) (key ++ lit "." ++ what) (M_Value (lit "is not a prefix of the family") text);
               mret None
      | None => _ ← err (Some span) (key ++ lit "." ++ what) (M_Value (lit "is not a prefix") text); mret None
      end
  end.

(** [str::split_once] on a character. *)
Fixpoint split_once (c : Z) (s : str) : option (str * str) :=
  match s with
  | [] => None
  | d :: s => if d =? c then Some ([], s) else '(a, b) ← split_once c s; Some (d :: a, b)
  end.

(** [str::parse::<i64>]: an optional sign, at least one digit, in range. *)
Definition parse_i64 (s : str) : option i64 :=
  let '(negative, digits) := match s with
    | 45 :: s => (true, s)
    | 43 :: s => (false, s)
    | _ => (false, s)
    end in
  if decide (digits = []) then None else
  n ← digits_value digits 0;
  let n := if negative : bool then - n else n in
  if in_range (- 2 ^ 63) (2 ^ 63 - 1) n then Some n else None.

Definition port_range (spec : PortSpec) : option (i64 * i64) :=
  match spec with
  | PortSpec_Port n => Some (n, n)
  | PortSpec_Range s =>
      '(a, b) ← split_once 45 s; a ← parse_i64 (str_trim a); b ← parse_i64 (str_trim b); Some (a, b)
  end.

(** The closure that resolves [destination_port]. *)
Definition policy_ports (span : usize) (key : str) (protocol : option Protocol) (spec : option PortSpec)
    : Ctx (option (u16 * u16)) :=
  match spec with
  | None => mret None
  | Some spec =>
      match protocol with
      | Some (Proto_Tcp | Proto_Udp | Proto_Sctp) =>
          match port_range spec with
          | Some (a, b) =>
              if in_range 1 65535 a && in_range 1 65535 b && (a <=? b) then mret (Some (a, b))
              else _ ← err (Some span) (key ++ lit ".destination_port") (M_Text (lit "must be a port or a range"));
                   mret None
          | None => _ ← err (Some span) (key ++ lit ".destination_port") (M_Text (lit "must be a port or a range"));
                    mret None
          end
      | _ => _ ← err (Some span) (key ++ lit ".destination_port") (M_Text (lit "ports require tcp, udp or sctp"));
             mret None
      end
  end.

(** [format!("{name}[{i}]")]. *)
Definition index_key (name : str) (i : nat) : str := name ++ lit "[" ++ to_decimal (Z.of_nat i) ++ lit "]".

Definition policy (uplinks : list Uplink) (downlinks : list str) (i : nat) (raw : Spanned RawPolicy)
    : Ctx (option Policy) :=
  let span := span_start raw in
  let p := get_ref raw in
  let key := index_key (lit "policy") i in
  before ← diags_len;
  let family := rpo_family p in
  uplink ← match find_first (fun u => bool_decide (u_name u = rpo_uplink p)) uplinks with
    | Some u =>
        _ ← when (is_none (Uplink_path u family))
          (err (Some span) (key ++ lit ".uplink") (M_Value (lit "the uplink does not enable the family") (u_name u)));
        mret (Some (u_id u))
    | None =>
        _ ← err (Some span) (key ++ lit ".uplink") (M_Value (lit "no uplink is named") (rpo_uplink p)); mret None
    end;
  _ ← match rpo_input_interface p with
      | Some i => when (negb (bool_decide (i ∈ downlinks)))
          (err (Some span) (key ++ lit ".input_interface") (M_Value (lit "is not a downlink") i))
      | None => mret tt
      end;
  source ← policy_prefix span family key (rpo_source p) (lit "source");
  destination ← policy_prefix span family key (rpo_destination p) (lit "destination");
  _ ← match rpo_protocol p, family with
      | Some Proto_Icmp, V6 => err (Some span) (key ++ lit ".protocol") (M_Text (lit "icmp is IPv4 only"))
      | Some Proto_Icmpv6, V4 => err (Some span) (key ++ lit ".protocol") (M_Text (lit "icmpv6 is IPv6 only"))
      | _, _ => mret tt
      end;
  destination_port ← policy_ports span key (rpo_protocol p) (rpo_destination_port p);
  now ← diags_len;
  mret (if negb (Nat.eqb now before) then None else
    uplink ← uplink;
    Some (mkPolicy (rpo_name p) family (rpo_input_interface p) source destination (rpo_protocol p) destination_port
      uplink (default Balance (rpo_fallback p)))).

(** The loop that looks for repeated policy names. *)
Fixpoint policy_names (i : nat) (names : gset str) (policies : list Policy) : Ctx unit :=
  match policies with
  | [] => mret tt
  | p :: policies =>
      _ ← when (bool_decide (po_name p ∈ names))
        (err None (index_key (lit "policy") i ++ lit ".name") (M_Value (lit "is used more than once") (po_name p)));
      policy_names (S i) ({[po_name p]} ∪ names) policies
  end.

(** ** Notifications *)

Definition check_events (evs : list str) (span : option usize) (key : str) : Ctx unit :=
  _ ← when (is_empty evs) (err span key (M_Text (lit "must not be empty")));
  _ ← for_each (fun _ ev => when (negb (bool_decide (ev ∈ EVENT_TYPES)))
    (err span key (M_Value (lit "unknown event type") ev))) 0 evs;
  mret tt.

Definition report (span : option usize) (key : str) (r : result unit Message) : Ctx unit :=
  match r with Ok _ => mret tt | Err m => err span key m end.

(** The loop that keeps the first of equal events. *)
Definition unique_events (evs : list str) : list str :=
  foldl (fun unique ev => if bool_decide (ev ∈ unique) then unique else unique ++ [ev]) [] evs.

Definition email (raw : Spanned RawEmail) : Ctx Email :=
  let span := Some (span_start raw) in
  let e := get_ref raw in
  max_per_hour ← int (re_max_per_hour e) 20 1 10000 span (lit "notify.email.max_per_hour");
  _ ← report span (lit "notify.email.from") (check_mailbox (re_from e));
  _ ← when (is_empty (re_to e)) (err span (lit "notify.email.to") (M_Text (lit "at least one recipient is required")));
  _ ← for_each (fun i to => report span (index_key (lit "notify.email.to") i) (check_mailbox to)) 0 (re_to e);
  let sendmail := default DEFAULT_SENDMAIL (re_sendmail e) in
  _ ← when (negb (is_absolute sendmail))
    (err span (lit "notify.email.sendmail") (M_Text (lit "must be an absolute path, without arguments")));
  events ← match re_events e with
    | Some list => _ ← check_events list span (lit "notify.email.events"); mret (unique_events list)
    | None => mret DEFAULT_EMAIL_EVENTS
    end;
  mret (mkEmail (re_from e) (re_to e) sendmail max_per_hour events).

Definition hook (i : nat) (raw : Spanned RawHook) : Ctx Hook :=
  let span := Some (span_start raw) in
  let h := get_ref raw in
  let key := index_key (lit "notify.hook") i in
  _ ← when (negb match head (rk_command h) with Some exe => is_absolute exe | None => false end)
    (err span (key ++ lit ".command") (M_Text (lit "the first element must be an absolute executable path")));
  _ ← match rk_events h with Some list => check_events list span (key ++ lit ".events") | None => mret tt end;
  timeout ← cx_duration (rk_timeout h) (from_secs 10) span (key ++ lit ".timeout");
  _ ← when (timeout =? 0) (err span (key ++ lit ".timeout") (M_Text (lit "must be greater than zero")));
  mret (mkHook (rk_command h) (rk_events h) timeout).

Definition notify (raw : option (Spanned RawNotify)) : Ctx Notify :=
  match raw with
  | None => mret (mkNotify (from_secs 30) None [] (lit "nobody"))
  | Some raw =>
      let span := Some (span_start raw) in
      let n := get_ref raw in
      coalesce ← cx_duration (rn_coalesce n) (from_secs 30) span (lit "notify.coalesce");
      email ← for_option email (rn_email n);
      hooks ← for_each hook 0 (rn_hook n);
      let hook_user := default (lit "nobody") (rn_hook_user n) in
      _ ← report span (lit "notify.hook_user") (check_account_name hook_user);
      mret (mkNotify coalesce email hooks hook_user)
  end.

(** ** The API *)

Definition api (raw : option (Spanned RawApi)) : Ctx Api :=
  let span := span_start <$> raw in
  let a := default (mkRawApi None None None None) (get_ref <$> raw) in
  let socket := default DEFAULT_API_SOCKET (ra_socket a) in
  _ ← report span (lit "api.socket") (check_socket_path socket);
  let status_socket := match ra_status_socket a with
    | None => Some DEFAULT_STATUS_SOCKET
    | Some [] => None
    | Some p => Some p
    end in
  _ ← match status_socket with
      | None => mret tt
      | Some p =>
          match check_socket_path p with
          | Err m => err span (lit "api.status_socket") m
          | Ok _ => when (path_eqb p socket)
              (err span (lit "api.status_socket") (M_Text (lit "must be distinct from api.socket (FR-API-1)")))
          end
      end;
  let group := default (lit "polywan") (ra_group a) in
  _ ← report span (lit "api.group") (check_account_name group);
  _ ← match ra_status_group a with
      | Some g => report span (lit "api.status_group") (check_account_name g)
      | None => mret tt
      end;
  mret (mkApi socket group status_socket (ra_status_group a)).

(** ** The whole configuration *)

(** One turn of the loop over the downlinks. *)
Definition downlink (i : nat) (interfaces : gset str) (d : Spanned str) : Ctx (gset str) :=
  let key := index_key (lit "downlink") i ++ lit ".interface" in
  let name := get_ref d in
  match check_interface_name name with
  | Err e => _ ← err (Some (span_start d)) key e; mret interfaces
  | Ok _ =>
      _ ← when (bool_decide (name ∈ interfaces))
        (err (Some (span_start d)) key (M_Value (lit "is listed more than once") name));
      mret ({[name]} ∪ interfaces)
  end.

Fixpoint downlinks_loop (i : nat) (interfaces : gset str) (ds : list (Spanned str)) : Ctx (gset str) :=
  match ds with
  | [] => mret interfaces
  | d :: ds => interfaces ← downlink i interfaces d; downlinks_loop (S i) interfaces ds
  end.

(** The static sources seen so far, with the uplinks that use them. *)
Definition static_source (span : usize) (key name : str) (sources : list (IpAddr * str))
    (p : option PathSettings) : Ctx (list (IpAddr * str)) :=
  match ps_source <$> p with
  | Some (Static a) =>
      _ ← match find_first (fun s => bool_decide (fst s = a)) sources with
          | Some (_, other) => err (Some span) (key ++ lit ".source") (M_Address (lit "is also used by") a (Some other))
          | None => mret tt
          end;
      mret (sources ++ [(a, name)])
  | _ => mret sources
  end.

(** [UplinkId::new(1).expect(..)]. *)
Definition first_id : UplinkId := uid 1.

(** One turn of the loop over the uplinks. *)
Definition uplink (global_health : option (Spanned RawHealth)) (i : nat) (uplinks : list Uplink)
    (interfaces : gset str) (sources : list (IpAddr * str)) (raw : Spanned RawUplink)
    : Ctx (list Uplink * gset str * list (IpAddr * str)) :=
  let span := span_start raw in
  let u := get_ref raw in
  let key := index_key (lit "uplink") i in
  id ← match (if in_range 0 255 (ru_id u) then UplinkId_new (ru_id u) else None) with
    | Some id => mret id
    | None => _ ← err (Some span) (key ++ lit ".id") (M_Range (ru_id u) 1 63); mret first_id
    end;
  _ ← when (existsb (fun o => bool_decide (u_id o = id)) uplinks && in_range 1 63 (ru_id u))
    (err (Some span) (key ++ lit ".id") (M_Number (lit "is used by another uplink") (UplinkId_get id)));
  _ ← (if negb (valid_uplink_name (ru_name u))
       then err (Some span) (key ++ lit ".name") (M_Value (lit "must match [a-z0-9_-]{1,32}") (ru_name u))
       else when (existsb (fun o => bool_decide (u_name o = ru_name u)) uplinks)
         (err (Some span) (key ++ lit ".name") (M_Value (lit "is used by another uplink") (ru_name u))));
  interfaces ← match check_interface_name (ru_interface u) with
    | Err e => _ ← err (Some span) (key ++ lit ".interface") e; mret interfaces
    | Ok _ =>
        _ ← when (bool_decide (ru_interface u ∈ interfaces))
          (err (Some span) (key ++ lit ".interface") (M_Value (lit "is already used") (ru_interface u)));
        mret ({[ru_interface u]} ∪ interfaces)
    end;
  priority ← for_option (fun p => int (Some p) 1 1 1000 (Some span) (key ++ lit ".priority")) (ru_priority u);
  weight ← int (ru_weight u) 1 1 256 (Some span) (key ++ lit ".weight");
  _ ← when (is_none (ru_ipv4 u) && is_none (ru_ipv6 u))
    (err (Some span) key (M_Text (lit "at least one of [uplink.ipv4] and [uplink.ipv6] is required")));
  ipv4 ← for_option (fun p => path p V4 (key ++ lit ".ipv4")) (ru_ipv4 u);
  ipv6 ← for_option (fun p => path p V6 (key ++ lit ".ipv6")) (ru_ipv6 u);
  sources ← static_source span key (ru_name u) sources ipv4;
  sources ← static_source span key (ru_name u) sources ipv6;
  let '(health_key, health_span, merged) := match ru_health u with
    | Some h => (key ++ lit ".health", Some (span_start h), merge_health (get_ref <$> global_health) (Some (get_ref h)))
    | None => (lit "health", span_start <$> global_health, merge_health (get_ref <$> global_health) None)
    end in
  let families := (if is_none ipv4 then [] else [V4]) ++ (if is_none ipv6 then [] else [V6]) in
  health ← health merged families health_span health_key;
  mret (uplinks ++ [mkUplink id (ru_name u) (default (ru_name u) (ru_description u)) (ru_interface u) priority weight
    ipv4 ipv6 health], interfaces, sources).

Fixpoint uplinks_loop (global_health : option (Spanned RawHealth)) (i : nat) (uplinks : list Uplink)
    (interfaces : gset str) (sources : list (IpAddr * str)) (raw : list (Spanned RawUplink)) : Ctx (list Uplink) :=
  match raw with
  | [] => mret uplinks
  | u :: raw =>
      r ← uplink global_health i uplinks interfaces sources u;
      let '(uplinks, interfaces, sources) := r in
      uplinks_loop global_health (S i) uplinks interfaces sources raw
  end.

Definition metrics_listen (raw : option (Spanned (option str))) : Ctx (option SocketAddr) :=
  match raw with
  | Some (mkSpanned span (Some l)) =>
      match parse_socket_addr l with
      | Some a => mret (Some a)
      | None => _ ← err (Some span) (lit "metrics.listen") (M_Value (lit "is not a socket address") l); mret None
      end
  | _ => mret None
  end.

Definition state_dir (raw : option (Spanned PathBuf)) : Ctx PathBuf :=
  match raw with
  | Some (mkSpanned span p) =>
      _ ← (if negb (is_absolute p)
           then err (Some span) (lit "state_dir") (M_Text (lit "must be an absolute path"))
           else when (has_parent_dir p) (err (Some span) (lit "state_dir") (M_Text (lit "must not contain .."))));
      mret p
  | None => mret (lit "/var/lib/polywan")
  end.

Definition sort_diags (diags : list Diagnostic) : list Diagnostic := dedup (sort_by_key id diags).

Definition validate_config (raw : RawConfig) : Ctx Config :=
  routing ← routing (rc_routing raw);
  firewall ← firewall (rc_firewall raw);
  _ ← when (is_empty (rc_downlink raw))
    (err None (lit "downlink") (M_Text (lit "at least one [[downlink]] is required")));
  interfaces ← downlinks_loop 0 ∅ (rc_downlink raw);
  let downlinks := get_ref <$> rc_downlink raw in
  _ ← when (is_empty (rc_uplink raw))
    (err None (lit "uplink") (M_Text (lit "at least one [[uplink]] is required")));
  uplinks ← uplinks_loop (rc_health raw) 0 [] interfaces [] (rc_uplink raw);
  _ ← map_diags sort_diags;
  policies ← for_each (policy uplinks downlinks) 0 (rc_policy raw);
  let policies := omap id policies in
  _ ← policy_names 0 ∅ policies;
  notify ← notify (rc_notify raw);
  api ← api (rc_api raw);
  metrics ← metrics_listen (rc_metrics raw);
  state_dir ← state_dir (rc_state_dir raw);
  mret (mkConfig routing firewall downlinks uplinks policies notify api metrics state_dir []).

(** [validate]; [None] is a panic. *)
Definition validate (raw : RawConfig) : option (result Config (list Diagnostic)) :=
  '(config, diags) ← validate_config raw [];
  Some (match diags with
        | [] => Ok config
        | _ => Err (dedup (sort_by_key (fun d => (dg_line d, dg_key d)) diags))
        end).
End validate.

(** [config::parse]: TOML and SHA-256 are parameters; a syntax error has a
    span and a message. *)
Definition parse (toml_from_str : list u8 -> result RawConfig (option usize * str)) (digest : list u8 -> str)
    (render : Message -> str) (parse_ip_net : str -> option IpNet) (text : list u8)
    : option (result Config (list Diagnostic)) :=
  match toml_from_str text with
  | Err (span, message) => Some (Err [mkDiagnostic (line_of text <$> span) [] (trim_end message)])
  | Ok raw =>
      r ← validate render parse_ip_net text raw;
      Some (match r with
            | Err diags => Err diags
            | Ok c => Ok (mkConfig (cf_routing c) (cf_firewall c) (cf_downlinks c) (cf_uplinks c) (cf_policies c)
                (cf_notify c) (cf_api c) (cf_metrics_listen c) (cf_state_dir c) (digest text))
            end)
  end.
