(* ===== verification/Validated.v ===== *)
(** * What validation guarantees

    [config_valid] is what the other components rely on; a configuration
    that [validate] accepts satisfies it, so the theorems of the planner, the
    reconciler and the prober apply to it.  The proof is a small program
    logic over [Ctx]: a validator that leaves no diagnostic started with none
    and its value satisfies its postcondition. *)

From stdpp Require Import prelude gmap sorting.
From Stdlib Require Import ZArith Lia SpecFloat.
From S2P Require Import Prelude Text Model Health Durations Config QualityGates Plan Msg NetAddr Validate.

Local Open Scope Z_scope.
Set Default Proof Using "Type".

(** ** The guarantee *)

Record path_valid (family : Family) (p : PathSettings) : Prop := {
  pv_source : forall a, ps_source p = Static a -> Family_of a = family /\ is_usable_source a = true;
  pv_gateway : forall a, ps_gateway p = Static a -> Family_of a = family;
  pv_onlink : ps_gateway_onlink p = true -> ps_gateway p <> Auto;
  pv_snat : ps_nat p = Nat_Snat -> ps_source p <> Auto
}.

Record target_valid (family : Family) (t : Target) : Prop := {
  tv_family : Family_of (Target_addr t) = family;
  tv_global : is_global_unicast (Target_addr t) = true;
  tv_port : forall s, t = Target_Tcp s -> sa_port s <> 0
}.

Record health_valid (families : list Family) (h : HealthConf) : Prop := {
  hv_interval : from_secs 1 <= hc_interval h <= from_secs 300;
  hv_timeout : 0 < hc_timeout h;
  hv_attempts : 1 <= hc_attempts h <= 5;
  hv_rate : hc_timeout h * hc_attempts h < hc_interval h;
  hv_fall : 1 <= hc_fall h <= 20;
  hv_rise : 1 <= hc_rise h <= 20;
  hv_targets : forall f, NoDup (HealthConf_targets h f) /\ Forall (target_valid f) (HealthConf_targets h f);
  hv_required : 1 <= hc_required_reachable h <= 255 /\
    forall f, f ∈ families -> hc_required_reachable h <= distinct_addresses (HealthConf_targets h f);
  hv_window : 2 <= hc_quality_window h <= 100;
  hv_samples : 1 <= hc_quality_min_samples h <= 10000 /\
    (Quality_enabled (hc_quality h) = true -> forall f, f ∈ families ->
       hc_quality_min_samples h <= distinct_addresses (HealthConf_targets h f) * hc_quality_window h);
  hv_loss : forall l, max_loss (hc_quality h) = Some l -> loss_in_range l = true
}.

Record uplink_valid (u : Uplink) : Prop := {
  uv_name : valid_uplink_name (u_name u) = true;
  uv_interface : check_interface_name (u_interface u) = Ok tt;
  uv_priority : forall p, u_priority u = Some p -> 1 <= p <= 1000;
  uv_weight : 1 <= u_weight u <= 256;
  uv_families : Uplink_families u <> [];
  uv_path : forall f p, Uplink_path u f = Some p -> path_valid f p;
  uv_health : health_valid (Uplink_families u) (u_health u)
}.

(** The static sources of an uplink, in the order of its families. *)
Definition static_sources (u : Uplink) : list IpAddr :=
  omap (fun f => match ps_source <$> Uplink_path u f with Some (Static a) => Some a | _ => None end) Family_ALL.

Record policy_valid (uplinks : list Uplink) (downlinks : list str) (p : Policy) : Prop := {
  plv_uplink : exists u, u ∈ uplinks /\ u_id u = po_uplink p /\ is_Some (Uplink_path u (po_family p));
  plv_input : forall i, po_input_interface p = Some i -> i ∈ downlinks;
  plv_source : forall n, po_source p = Some n -> Family_of (net_addr n) = po_family p;
  plv_destination : forall n, po_destination p = Some n -> Family_of (net_addr n) = po_family p;
  plv_icmp : po_protocol p = Some Proto_Icmp -> po_family p = V4;
  plv_icmpv6 : po_protocol p = Some Proto_Icmpv6 -> po_family p = V6;
  plv_ports : forall a b, po_destination_port p = Some (a, b) -> 1 <= a <= b /\ b <= 65535 /\
    (po_protocol p = Some Proto_Tcp \/ po_protocol p = Some Proto_Udp \/ po_protocol p = Some Proto_Sctp)
}.

Record routing_valid (r : Routing) : Prop := {
  rv_tables : 1 <= rt_table_base r /\ rt_table_base r + 191 <= 2 ^ 32 - 2;
  rv_reserved : rt_table_base r + 191 < 253 \/ 255 < rt_table_base r;
  rv_priorities : 1 <= rt_rule_priority_base r /\ rt_rule_priority_base r + 699 <= 32765;
  rv_protocol : 5 <= rt_route_protocol r <= 255;
  rv_mask : FwMask_wf (rt_fwmark_mask r);
  rv_discovery : NoDup (rt_discovery_tables r) /\ forall t, t ∈ rt_discovery_tables r ->
    1 <= t < 2 ^ 32 /\ t <> 255 /\ ~ rt_table_base r <= t <= rt_table_base r + 191;
  rv_interval : from_secs 10 <= rt_reconcile_interval r <= from_secs 3600
}.

Record email_valid (e : Email) : Prop := {
  ev_from : check_mailbox (em_from e) = Ok tt;
  ev_to : em_to e <> [] /\ Forall (fun to => check_mailbox to = Ok tt) (em_to e);
  ev_sendmail : is_absolute (em_sendmail e) = true;
  ev_rate : 1 <= em_max_per_hour e <= 10000;
  ev_events : em_events e <> [] /\ NoDup (em_events e) /\ em_events e ⊆ EVENT_TYPES
}.

Record hook_valid (h : Hook) : Prop := {
  kv_command : exists exe args, hk_command h = exe :: args /\ is_absolute exe = true;
  kv_events : forall evs, hk_events h = Some evs -> evs <> [] /\ evs ⊆ EVENT_TYPES;
  kv_timeout : 0 < hk_timeout h
}.

Record api_valid (a : Api) : Prop := {
  av_socket : check_socket_path (api_socket a) = Ok tt;
  av_status : forall p, api_status_socket a = Some p ->
    check_socket_path p = Ok tt /\ path_eqb p (api_socket a) = false
}.

Record config_valid (c : Config) : Prop := {
  cv_routing : routing_valid (cf_routing c);
  cv_firewall : -149 <= fw_nat_priority (cf_firewall c) <= 400 /\ is_absolute (fw_nft_path (cf_firewall c)) = true;
  cv_links : cf_downlinks c <> [] /\ cf_uplinks c <> [] /\
    NoDup (cf_downlinks c ++ (u_interface <$> cf_uplinks c)) /\
    Forall (fun n => check_interface_name n = Ok tt) (cf_downlinks c);
  cv_uplinks : Forall uplink_valid (cf_uplinks c);
  cv_ids : NoDup (u_id <$> cf_uplinks c);
  cv_names : NoDup (u_name <$> cf_uplinks c);
  cv_sources : NoDup (cf_uplinks c ≫= static_sources);
  cv_policies : Forall (policy_valid (cf_uplinks c) (cf_downlinks c)) (cf_policies c) /\
    NoDup (po_name <$> cf_policies c);
  cv_email : forall e, nt_email (cf_notify c) = Some e -> email_valid e;
  cv_hooks : Forall hook_valid (nt_hooks (cf_notify c));
  cv_api : api_valid (cf_api c);
  cv_state_dir : is_absolute (cf_state_dir c) = true /\ has_parent_dir (cf_state_dir c) = false
}.

(** ** The logic *)

(** Diagnostics are never withdrawn. *)
Class Mono {A} (m : Ctx A) : Prop := mono : forall d a d', m d = Some (a, d') -> d ⊆ d'.
#[global] Hint Mode Mono - ! : typeclass_instances.

(** [sat m P]: when [m] finds no problem, its value satisfies [P]. *)
Definition sat {A} (m : Ctx A) (P : A -> Prop) : Prop := forall a, m [] = Some (a, []) -> P a.

#[export] Instance mono_ret {A} (a : A) : Mono (mret a).
Proof. by intros d x d' [= -> ->]. Qed.

#[export] Instance mono_bind {A B} (m : Ctx A) (f : A -> Ctx B) : Mono m -> (forall a, Mono (f a)) -> Mono (m ≫= f).
Proof.
  intros Hm Hf d b d'. unfold mbind, Ctx_bind. destruct (m d) as [[a d1]|] eqn:E; [|done].
  intros H%Hf. by etransitivity; [apply (Hm d a)|].
Qed.

#[export] Instance mono_panic {A} : Mono (panic (A := A)).
Proof. done. Qed.

#[export] Instance mono_len : Mono diags_len.
Proof. by intros d n d' [= _ ->]. Qed.

#[export] Instance mono_when c (m : Ctx unit) : Mono m -> Mono (when c m).
Proof. unfold when. destruct c; [done|]. intros _. apply _. Qed.

Lemma mono_empty {A} (m : Ctx A) `{!Mono m} d a : m d = Some (a, []) -> d = [].
Proof. intros H%mono. destruct d as [|x d]; [done|]. exfalso. apply (not_elem_of_nil x), H. set_solver. Qed.

Lemma sat_ret {A} (a : A) (P : A -> Prop) : P a -> sat (mret a) P.
Proof. by intros HP x [= ->]. Qed.

Lemma sat_bind {A B} (m : Ctx A) (f : A -> Ctx B) (P : A -> Prop) (Q : B -> Prop) `{!forall a, Mono (f a)} :
  sat m P -> (forall a, P a -> sat (f a) Q) -> sat (m ≫= f) Q.
Proof.
  intros Hm Hf b. unfold mbind, Ctx_bind. destruct (m []) as [[a d]|] eqn:E; [|done]. intros Hr.
  assert (d = []) as -> by (by apply (mono_empty (f a) d b)). by apply (Hf a (Hm a E) b).
Qed.

Lemma sat_true {A} (m : Ctx A) : sat m (fun _ => True).
Proof. done. Qed.

Lemma sat_weaken {A} (m : Ctx A) (P P' : A -> Prop) : sat m P -> (forall a, P a -> P' a) -> sat m P'.
Proof. intros Hm HP a Ha. apply HP, (Hm a Ha). Qed.

Lemma sat_and {A} (m : Ctx A) (P P' : A -> Prop) : sat m P -> sat m P' -> sat m (fun a => P a /\ P' a).
Proof. intros H1 H2 a Ha. split; [apply (H1 a Ha)|apply (H2 a Ha)]. Qed.

Lemma sat_len : sat diags_len (fun n => n = 0%nat).
Proof. by intros n [= <-]. Qed.

Lemma sat_when c (m : Ctx unit) : sat m (fun _ => False) -> sat (when c m) (fun _ => c = false).
Proof. unfold when. destruct c; [|done]. intros Hm a Ha. destruct (Hm a Ha). Qed.

Lemma sat_panic {A} (P : A -> Prop) : sat panic P.
Proof. done. Qed.

(** Monotonicity follows the syntax. *)
#[export] Hint Extern 2 (Mono (match ?x with _ => _ end)) => destruct x : typeclass_instances.
#[export] Hint Extern 2 (Mono (if ?x then _ else _)) => destruct x : typeclass_instances.

#[export] Instance mono_for_each {A B} (f : nat -> A -> Ctx B) i l :
  (forall i x, Mono (f i x)) -> Mono (for_each f i l).
Proof. intros Hf. revert i. induction l as [|x l IH]; intros i; simpl; apply _. Qed.

#[export] Instance mono_for_option {A B} (f : A -> Ctx B) o : (forall x, Mono (f x)) -> Mono (for_option f o).
Proof. intros Hf. destruct o; simpl; apply _. Qed.

Lemma sat_for_each {A B} (f : nat -> A -> Ctx B) (P : A -> B -> Prop) i l `{!forall i x, Mono (f i x)} :
  (forall i x, sat (f i x) (P x)) -> sat (for_each f i l) (Forall2 P l).
Proof.
  intros Hf. revert i. induction l as [|x l IH]; intros i; simpl; [by apply sat_ret|].
  eapply sat_bind; [apply _|apply Hf|]. intros y Hy. eapply sat_bind; [apply _|apply IH|]. intros ys Hys.
  apply sat_ret. by constructor.
Qed.

Lemma sat_for_option {A B} (f : A -> Ctx B) (P : A -> B -> Prop) o `{!forall x, Mono (f x)} :
  (forall x, sat (f x) (P x)) -> sat (for_option f o) (fun r => option_Forall2 P o r).
Proof.
  intros Hf. destruct o as [x|]; simpl; [|apply sat_ret; constructor].
  eapply sat_bind; [apply _|apply Hf|]. intros y Hy. apply sat_ret. by constructor.
Qed.

(** One step: the first operation by a known rule, the rest below it. *)
Ltac sat_step := eapply sat_bind; [apply _|solve [eauto with sat]|]; simpl; intros.
Ltac sat_steps := repeat first [apply sat_ret | sat_step].
Create HintDb sat.
#[export] Hint Resolve sat_len sat_when sat_panic : sat.

(** ** Shared lemmas *)

Lemma distinct_pos ts : ts <> [] -> 0 < distinct_addresses ts.
Proof.
  destruct ts as [|t ts]; [done|]. intros _. unfold distinct_addresses. rewrite fmap_cons, list_to_set_cons.
  pose proof (size_non_empty_iff ({[Target_addr t]} ∪ list_to_set (Target_addr <$> ts) : gset IpAddr)) as [_ Hs].
  specialize (Hs ltac:(set_solver)). lia.
Qed.

(** The names seen so far, which the set holds. *)
Definition seen (names : list str) (ifs : gset str) : Prop := NoDup names /\ forall n, n ∈ ifs <-> n ∈ names.

Lemma seen_add names ifs n : seen names ifs -> n ∉ ifs -> seen (names ++ [n]) ({[n]} ∪ ifs).
Proof.
  intros [Hnd Hin] Hn. split; [|set_solver]. apply NoDup_app. split_and!; [done| |apply NoDup_singleton].
  intros m Hm ->%list_elem_of_singleton. by apply Hn, Hin.
Qed.

Lemma unique_events_spec (evs acc : list str) : NoDup acc ->
  NoDup (foldl (fun unique ev => if bool_decide (ev ∈ unique) then unique else unique ++ [ev]) acc evs) /\
  forall x, x ∈ foldl (fun unique ev => if bool_decide (ev ∈ unique) then unique else unique ++ [ev]) acc evs <->
    x ∈ acc \/ x ∈ evs.
Proof.
  revert acc. induction evs as [|ev evs IH]; intros acc Hacc; simpl; [split; [done|]; set_solver|].
  case_bool_decide as Hin.
  - destruct (IH acc Hacc) as [? Hx]. split; [done|]. intros x. rewrite Hx. set_solver.
  - destruct (IH (acc ++ [ev])) as [? Hx]; [|split; [done|]; intros x; rewrite Hx; set_solver].
    apply NoDup_app. split_and!; [done|set_solver|apply NoDup_singleton].
Qed.

Lemma default_email_events : NoDup DEFAULT_EMAIL_EVENTS /\ DEFAULT_EMAIL_EVENTS ⊆ EVENT_TYPES.
Proof.
  split; [apply (bool_decide_unpack _); vm_compute; exact I|].
  assert (H : Forall (fun x => x ∈ EVENT_TYPES) DEFAULT_EMAIL_EVENTS).
  { apply (bool_decide_unpack _). vm_compute. exact I. }
  intros x Hx. by apply (proj1 (Forall_forall _ _) H).
Qed.

Lemma NoDup_snoc {A} (l : list A) x : NoDup l -> x ∉ l -> NoDup (l ++ [x]).
Proof. intros Hl Hx. apply NoDup_app. split_and!; [done| |apply NoDup_singleton]. by intros y Hy ->%list_elem_of_singleton. Qed.

Lemma not_used {A} `{EqDecision A} (f : Uplink -> A) us x :
  existsb (fun o => bool_decide (f o = x)) us = false -> x ∉ f <$> us.
Proof.
  intros E (u & -> & Hu)%list_elem_of_fmap. apply not_true_iff_false in E. apply E, existsb_elem_of.
  exists u. split; [done|]. by apply bool_decide_eq_true.
Qed.

Lemma dedup_elem_of `{EqDecision A} (l : list A) x : x ∈ dedup l <-> x ∈ l.
Proof.
  induction l as [|y l IH]; [done|]. destruct l as [|z l]; [done|]. cbn [dedup]. case_decide as E.
  - subst z. rewrite IH. set_solver.
  - rewrite elem_of_cons, IH. set_solver.
Qed.

Lemma parse_target_port s t sa : parse_target s = Ok t -> t = Target_Tcp sa -> sa_port sa <> 0.
Proof.
  unfold parse_target. intros H ->. repeat case_match; simplify_eq. by apply Z.eqb_neq.
Qed.

Lemma trunc_family n : Family_of (net_addr (trunc n)) = Family_of (net_addr n).
Proof. unfold trunc. by destruct (net_addr n). Qed.

Lemma duration_parse_nonneg s d : duration_parse s = Ok d -> 0 <= d <= DURATION_MAX.
Proof.
  intros (cs & _ & Hcs & _ & -> & Hmax)%duration_parse_spec. split; [by apply total_nanos_nonneg|done].
Qed.

Lemma dedup_sorted `{EqDecision A} (R : A -> A -> Prop) (l : list A) : StronglySorted R l -> StronglySorted R (dedup l).
Proof.
  induction 1 as [|x l Hl IH Hx]; [constructor|]. destruct l as [|y l]; [repeat constructor|].
  change (dedup (x :: y :: l)) with (if decide (x = y) then dedup (y :: l) else x :: dedup (y :: l)).
  case_decide; [done|]. constructor; [done|]. apply Forall_forall. intros z Hz.
  rewrite Forall_forall in Hx. apply Hx. by rewrite dedup_elem_of in Hz.
Qed.

(** ** The operations *)

Section operations.
Context (render : Message -> str) (text : list u8).

#[global] Instance mono_err span key m : Mono (err render text span key m).
Proof. intros d a d' [= _ <-] x Hx. apply elem_of_app. by left. Qed.

Lemma sat_err span key m : sat (err render text span key m) (fun _ => False).
Proof. by intros a [=]. Qed.
#[local] Hint Resolve sat_err : sat.

(** After a diagnostic anything holds. *)
Lemma sat_err_bind {B} span key m (f : unit -> Ctx B) P `{!forall a, Mono (f a)} :
  sat (err render text span key m ≫= f) P.
Proof. eapply sat_bind; [apply _|apply sat_err|done]. Qed.

#[global] Instance mono_int v d lo hi span key : Mono (int render text v d lo hi span key).
Proof. unfold int. apply _. Qed.

Lemma sat_int v d lo hi span key : lo <= d <= hi ->
  sat (int render text v d lo hi span key) (fun n => lo <= n <= hi).
Proof.
  intros Hd. unfold int. destruct v as [v|]; [|by apply sat_ret].
  destruct (in_range lo hi v) eqn:E; simpl; [|apply sat_err_bind, _]. apply sat_ret. by apply in_range_spec in E.
Qed.

#[global] Instance mono_duration v d span key : Mono (cx_duration render text v d span key).
Proof. unfold cx_duration. apply _. Qed.

Lemma sat_duration v d span key : 0 <= d ->
  sat (cx_duration render text v d span key) (fun n => 0 <= n).
Proof.
  intros Hd. unfold cx_duration. destruct v as [v|]; [|by apply sat_ret].
  destruct (duration_parse v) as [n|e] eqn:E; [|apply sat_err_bind, _].
  apply sat_ret. by apply (duration_parse_nonneg v n).
Qed.

#[global] Instance mono_duration_in v d lo hi span key : Mono (duration_in render text v d lo hi span key).
Proof. unfold duration_in. apply _. Qed.

Lemma sat_duration_in v d lo hi span key : lo <= d <= hi ->
  sat (duration_in render text v d lo hi span key) (fun n => lo <= n <= hi).
Proof.
  intros Hd. unfold duration_in. eapply sat_bind; [apply _|apply sat_true|]. intros n _.
  destruct (in_range lo hi n) eqn:E; simpl; [|apply sat_err_bind, _]. apply sat_ret. by apply in_range_spec in E.
Qed.

#[local] Hint Resolve sat_true : sat.
Ltac known H := eapply sat_bind; [apply _|first [apply H; solve [lia | done] | eapply H]|]; simpl.
Ltac skip x := eapply sat_bind; [apply _|apply sat_true|]; intros x _.
Ltac check E := eapply sat_bind; [apply _|apply sat_when, sat_err|]; intros ? E; cbv beta in E.
Ltac diagnosed := apply sat_err_bind, _.

(** *** Routing and firewall *)

Definition discovery_ok (base : u32) (tables : list u32) : Prop :=
  NoDup tables /\ forall t, t ∈ tables -> 1 <= t < 2 ^ 32 /\ t <> 255 /\ ~ base <= t <= base + 191.

#[global] Instance mono_discovery_table base span tables t : Mono (discovery_table render text base span tables t).
Proof. unfold discovery_table. apply _. Qed.

#[global] Instance mono_discovery_loop base span tables ts : Mono (discovery_loop render text base span tables ts).
Proof. revert tables. induction ts; intros tables; simpl; apply _. Qed.

Lemma sat_discovery_table base span tables t : discovery_ok base tables ->
  sat (discovery_table render text base span tables t) (discovery_ok base).
Proof.
  intros [Hnd Hok]. unfold discovery_table.
  eapply (sat_bind _ _ (fun o => forall id, o = Some id -> 1 <= id < 2 ^ 32 /\ id <> 255)); [apply _| |].
  { destruct t as [n|n].
    - destruct (_ && _) eqn:E; [|diagnosed]. apply sat_ret. intros id [= <-]. bool_simpl. lia.
    - case_bool_decide; [|case_bool_decide; [|diagnosed]]; apply sat_ret; intros id [= <-]; lia. }
  intros [id|] Hid; [|by apply sat_ret]. destruct (in_range base (base + 191) id) eqn:E; [diagnosed|].
  apply sat_ret. apply in_range_false in E. destruct (Hid id eq_refl).
  case_bool_decide as Hin; [done|]. split.
  - apply NoDup_app. split_and!; [done| |apply NoDup_singleton]. intros x Hx ->%list_elem_of_singleton. done.
  - intros u [Hu| ->%list_elem_of_singleton]%elem_of_app; [by apply Hok|]. split_and!; lia.
Qed.

Lemma sat_discovery_loop base span tables ts : discovery_ok base tables ->
  sat (discovery_loop render text base span tables ts) (discovery_ok base).
Proof.
  revert tables. induction ts as [|t ts IH]; intros tables Ht; simpl; [by apply sat_ret|].
  eapply sat_bind; [apply _|by apply sat_discovery_table|]. intros tables' Ht'. by apply IH.
Qed.

#[global] Instance mono_routing raw : Mono (routing render text raw).
Proof. unfold routing. apply _. Qed.

Lemma sat_routing raw : sat (routing render text raw) routing_valid.
Proof.
  unfold routing. set (r := default (mkRawRouting _ _ _ _ _ _ _ _ _) _).
  known sat_int. intros base Hbase. check Hres. known sat_int. intros prio Hprio. known sat_int. intros proto Hproto.
  eapply (sat_bind _ _ FwMask_wf); [apply _| |].
  { destruct (rr_fwmark_mask r) as [v|]; [|apply sat_ret, FwMask_DEFAULT_wf].
    destruct (in_range 0 (2 ^ 32 - 1) v) eqn:Ev; [|diagnosed]. destruct (FwMask_new v) as [m|] eqn:Em; [|diagnosed].
    apply sat_ret. bool_simpl. apply FwMask_new_Some in Em as [Hm _]; [done|]. unfold fits. lia. }
  intros mask Hmask. eapply sat_bind; [apply _|apply (sat_discovery_loop base)|].
  { split; [constructor|]. by intros t ?%not_elem_of_nil. }
  intros tables Htables. eapply sat_bind; [apply _|apply sat_duration_in; unfold from_secs, NANOS_PER_SEC; lia|].
  intros ival Hival. apply sat_ret. apply orb_false_iff in Hres as [H1 H2].
  apply in_range_false in H1, H2. split; simpl; try done; lia.
Qed.

#[global] Instance mono_firewall raw : Mono (firewall render text raw).
Proof. unfold firewall. apply _. Qed.

Lemma sat_firewall raw : sat (firewall render text raw) (fun f =>
  -149 <= fw_nat_priority f <= 400 /\ is_absolute (fw_nft_path f) = true).
Proof.
  unfold firewall. known sat_int. intros n Hn. check Hp. apply sat_ret. split; [done|]. by apply negb_false_iff in Hp.
Qed.

(** *** Paths *)

#[global] Instance mono_path_addr span family key v what : Mono (path_addr render text span family key v what).
Proof. unfold path_addr. apply _. Qed.

Lemma sat_path_addr span family key v what :
  sat (path_addr render text span family key v what) (fun r => forall a, r = Static a -> Family_of a = family).
Proof.
  unfold path_addr. destruct v as [v|]; [|by apply sat_ret]. case_bool_decide; [by apply sat_ret|].
  destruct (parse_ip_addr v) as [a|]; [|diagnosed]. case_bool_decide; [|diagnosed].
  apply sat_ret. by intros ? [= <-].
Qed.

#[global] Instance mono_path raw family key : Mono (path render text raw family key).
Proof. unfold path. apply _. Qed.

Lemma sat_path raw family key : sat (path render text raw family key) (path_valid family).
Proof.
  unfold path. known sat_path_addr. intros source Hs. known sat_path_addr. intros gateway Hg.
  eapply (sat_bind _ _ (fun _ => forall a, source = Static a -> is_usable_source a = true)); [apply _| |].
  { destruct source as [|a]; [by apply sat_ret|]. eapply sat_weaken; [apply sat_when, sat_err|].
    simpl. intros _ E b [= <-]. by apply negb_false_iff in E. }
  intros _ Husable. check Honlink. skip translation. check Hsnat. apply sat_ret. split; simpl.
  - intros b Hb. split; [by apply Hs|by apply Husable].
  - done.
  - intros E ->. rewrite E in Honlink. done.
  - intros -> ->. done.
Qed.

(** *** Health *)

#[global] Instance mono_add_target span key family out t : Mono (add_target render text span key family out t).
Proof. unfold add_target. apply _. Qed.
#[global] Instance mono_add_targets span key family out ts : Mono (add_targets render text span key family out ts).
Proof. revert out. induction ts; intros out; simpl; apply _. Qed.

Definition targets_ok (family : Family) (ts : list Target) : Prop := NoDup ts /\ Forall (target_valid family) ts.

Lemma sat_add_targets span key family out ts : targets_ok family out ->
  sat (add_targets render text span key family out ts) (targets_ok family).
Proof.
  revert out. induction ts as [|s ts IH]; intros out [Hnd Hv]; simpl; [by apply sat_ret|].
  eapply (sat_bind _ _ (targets_ok family)); [apply _| |intros out' Hout'; by apply IH].
  unfold add_target. destruct (parse_target s) as [t|e] eqn:Et; [|diagnosed].
  destruct (bool_decide (Family_of _ = _)) eqn:Ef; simpl; [|diagnosed].
  destruct (is_global_unicast (Target_addr t)) eqn:Eg; simpl; [|diagnosed].
  destruct (bool_decide (t ∈ out)) eqn:Eo; [diagnosed|]. apply sat_ret. bool_simpl. split.
  - apply NoDup_app. split_and!; [done| |apply NoDup_singleton]. intros x Hx ->%list_elem_of_singleton. done.
  - apply Forall_app. split; [done|]. constructor; [|done]. split; [done|done|].
    intros sa. by apply (parse_target_port s).
Qed.

#[global] Instance mono_health_targets h families span key f : Mono (health_targets render text h families span key f).
Proof. unfold health_targets. apply _. Qed.

Lemma sat_health_targets h families span key f :
  sat (health_targets render text h families span key f) (fun ts => targets_ok f ts /\ (f ∈ families -> ts <> [])).
Proof.
  unfold health_targets. eapply sat_bind; [apply _|apply (sat_add_targets _ _ f); split; [constructor|done]|].
  intros ts Hts. check He. apply sat_ret. split; [done|]. intros Hf ->. simpl in He. by bool_simpl.
Qed.

#[global] Instance mono_check_required span key required count families :
  Mono (check_required render text span key required count families).
Proof. induction families; simpl; apply _. Qed.

Lemma sat_check_required span key required count families :
  sat (check_required render text span key required count families) (fun _ =>
    forall f, f ∈ families -> 0 < count f -> required <= count f).
Proof.
  induction families as [|f families IH]; simpl; [by apply sat_ret; intros f ?%not_elem_of_nil|].
  check Hf. eapply sat_weaken; [apply IH|]. simpl. intros _ HIH g [->|Hg]%elem_of_cons Hpos; [|by apply HIH].
  apply andb_false_iff in Hf as [Hf|Hf]; bool_simpl; lia.
Qed.

#[global] Instance mono_health h families span key : Mono (health render text h families span key).
Proof. unfold health. apply _. Qed.

Lemma sat_health h families span key : sat (health render text h families span key) (health_valid families).
Proof.
  unfold health. eapply sat_bind; [apply _|apply sat_duration_in; unfold from_secs, NANOS_PER_SEC; lia|].
  intros interval Hinterval. eapply sat_bind; [apply _|apply sat_duration; unfold from_secs, NANOS_PER_SEC; lia|].
  intros timeout Htimeout. check Hzero. known sat_int. intros attempts Hattempts.
  eapply (sat_bind _ _ (fun d => d = timeout * attempts)); [apply _| |].
  { unfold duration_mul. destruct (_ <? _); [apply sat_panic|by apply sat_ret]. }
  intros product ->. check Hrate. known sat_int. intros fall Hfall. known sat_int. intros rise Hrise.
  known sat_health_targets. intros v4 [Hv4 He4]. known sat_health_targets. intros v6 [Hv6 He6].
  set (count := fun f => distinct_addresses match f with V4 => v4 | V6 => v6 end).
  assert (Hpos : forall f, f ∈ families -> 0 < count f).
  { intros [|] Hf; apply distinct_pos; auto. }
  known sat_int. intros required Hrequired. known sat_check_required. intros _ Hcount. skip rtt. skip jitter.
  eapply (sat_bind _ _ (fun _ => forall l, rq_max_loss (default raw_quality_default (rh_quality h)) = Some l ->
    loss_in_range l = true)); [apply _| |].
  { destruct (rq_max_loss _) as [l|]; [|by apply sat_ret]. eapply sat_weaken; [apply sat_when, sat_err|].
    simpl. intros _ E l' [= <-]. by apply negb_false_iff in E. }
  intros _ Hloss. known sat_int. intros window Hwindow. known sat_int. intros samples Hsamples.
  eapply (sat_bind _ _ (fun _ => Quality_enabled (mkQuality rtt jitter (rq_max_loss (default raw_quality_default (rh_quality h))))
    = true -> forall f, f ∈ families -> samples <= count f * window)); [apply _| |].
  { destruct (min_by_key id (count <$> families)) as [n|] eqn:En.
    - eapply sat_weaken; [apply sat_when, sat_err|]. simpl. intros _ E Hq f Hf.
      rewrite Hq in E. simpl in E. bool_simpl.
      assert (n <= count f); [|nia].
      apply min_by_key_Some in En as [_ Hmin]. specialize (Hmin (count f) (list_elem_of_fmap_2 _ _ _ Hf)).
      apply cmp_leb_Z in Hmin. exact Hmin.
    - apply sat_ret. intros _ f Hf. apply min_by_key_None in En. apply (list_elem_of_fmap_2 count) in Hf.
      rewrite En in Hf. by apply not_elem_of_nil in Hf. }
  intros _ Hcap. apply sat_ret. cbv beta in *. bool_simpl.
  split; simpl; try done; try lia.
  - intros [|]; [apply Hv4|apply Hv6].
  - split; [done|]. intros f Hf. specialize (Hcount f Hf (Hpos f Hf)). by destruct f.
Qed.

(** *** Policies *)

#[global] Instance mono_policy_prefix parse_ip_net span family key v what :
  Mono (policy_prefix render parse_ip_net text span family key v what).
Proof. unfold policy_prefix. apply _. Qed.

Lemma sat_policy_prefix parse_ip_net span family key v what :
  sat (policy_prefix render parse_ip_net text span family key v what) (fun r =>
    forall n, r = Some n -> Family_of (net_addr n) = family).
Proof.
  unfold policy_prefix. destruct v as [v|]; [|by apply sat_ret].
  destruct (or_else _ _) as [n|]; [|diagnosed]. case_bool_decide; [|diagnosed].
  apply sat_ret. intros ? [= <-]. by rewrite trunc_family.
Qed.

#[global] Instance mono_policy_ports span key protocol spec : Mono (policy_ports render text span key protocol spec).
Proof. unfold policy_ports. apply _. Qed.

Lemma sat_policy_ports span key protocol spec :
  sat (policy_ports render text span key protocol spec) (fun r => forall a b, r = Some (a, b) ->
    1 <= a <= b /\ b <= 65535 /\
    (protocol = Some Proto_Tcp \/ protocol = Some Proto_Udp \/ protocol = Some Proto_Sctp)).
Proof.
  unfold policy_ports. destruct spec as [spec|]; [|by apply sat_ret].
  destruct protocol as [[]|]; try diagnosed;
    (destruct (port_range spec) as [[a b]|]; [|diagnosed]; destruct (_ && _) eqn:E; [|diagnosed];
     apply sat_ret; intros ? ? [= <- <-]; bool_simpl; split_and!; [lia|lia|lia|auto]).
Qed.

#[global] Instance mono_policy parse_ip_net uplinks downlinks i raw : Mono (policy render parse_ip_net text uplinks downlinks i raw).
Proof. unfold policy. apply _. Qed.

Lemma sat_policy parse_ip_net uplinks downlinks i raw :
  sat (policy render parse_ip_net text uplinks downlinks i raw) (fun r =>
    exists p, r = Some p /\ policy_valid uplinks downlinks p).
Proof.
  unfold policy. known (@sat_len). intros before ->.
  eapply (sat_bind _ _ (fun r => exists u, u ∈ uplinks /\ r = Some (u_id u) /\
    is_Some (Uplink_path u (rpo_family (get_ref raw))))); [apply _| |].
  { destruct (find_first _ _) as [u|] eqn:Eu; [|diagnosed]. check Hp. apply sat_ret.
    apply find_first_Some in Eu as [Hu _]. exists u. split_and!; try done. by destruct (Uplink_path _ _). }
  intros r (u & Hu & -> & Hpath).
  eapply (sat_bind _ _ (fun _ => forall j, rpo_input_interface (get_ref raw) = Some j -> j ∈ downlinks)); [apply _| |].
  { destruct (rpo_input_interface _) as [j|]; [|by apply sat_ret]. eapply sat_weaken; [apply sat_when, sat_err|].
    simpl. intros _ E ? [= <-]. apply negb_false_iff in E. by bool_simpl. }
  intros _ Hin. known sat_policy_prefix. intros source Hsource. known sat_policy_prefix. intros destination Hdest.
  eapply (sat_bind _ _ (fun _ => (rpo_protocol (get_ref raw) = Some Proto_Icmp -> rpo_family (get_ref raw) = V4) /\
    (rpo_protocol (get_ref raw) = Some Proto_Icmpv6 -> rpo_family (get_ref raw) = V6))); [apply _| |].
  { destruct (rpo_protocol _) as [[]|], (rpo_family _); try (by apply sat_ret);
      (eapply sat_weaken; [apply sat_err|done]). }
  intros _ [Hicmp Hicmp6]. known sat_policy_ports. intros ports Hports. known (@sat_len). intros now ->.
  apply sat_ret. simpl. eexists. split; [done|]. split; simpl; try done. by exists u.
Qed.

#[global] Instance mono_policy_names i names policies : Mono (policy_names render text i names policies).
Proof. revert i names. induction policies; intros i names; simpl; apply _. Qed.

Lemma sat_policy_names i names policies :
  sat (policy_names render text i names policies) (fun _ =>
    NoDup (po_name <$> policies) /\ forall p, p ∈ policies -> po_name p ∉ names).
Proof.
  revert i names. induction policies as [|p ps IH]; intros i names; simpl.
  { apply sat_ret. split; [constructor|]. by intros p ?%not_elem_of_nil. }
  check Hp. eapply sat_weaken; [apply IH|]. simpl. intros _ [Hnd Hn]. bool_simpl. split.
  - constructor; [|done]. intros (q & Eq & Hq)%list_elem_of_fmap. apply (Hn q Hq). set_solver.
  - intros q [->|Hq]%elem_of_cons; [done|]. specialize (Hn q Hq). set_solver.
Qed.

(** *** Notifications and the API *)

#[global] Instance mono_report span key r : Mono (report render text span key r).
Proof. unfold report. apply _. Qed.

Lemma sat_report span key r : sat (report render text span key r) (fun _ => r = Ok tt).
Proof. destruct r as [[]|m]; simpl; [by apply sat_ret|]. eapply sat_weaken; [apply sat_err|done]. Qed.

#[global] Instance mono_check_events evs span key : Mono (check_events render text evs span key).
Proof. unfold check_events. apply _. Qed.

Lemma sat_check_events evs span key :
  sat (check_events render text evs span key) (fun _ => evs <> [] /\ evs ⊆ EVENT_TYPES).
Proof.
  unfold check_events. check Hne.
  eapply sat_bind; [apply _|eapply (sat_for_each _ (fun ev _ => ev ∈ EVENT_TYPES)); [apply _|]|].
  { intros j ev. cbv beta. eapply sat_weaken; [apply sat_when, sat_err|]. simpl. intros _ E. apply negb_false_iff in E.
    by bool_simpl. }
  intros ys Hys. apply sat_ret. split; [by destruct evs|]. intros ev Hev.
  destruct (list_elem_of_lookup_1 _ _ Hev) as [n Hn]. destruct (Forall2_lookup_l _ _ _ _ _ Hys Hn) as (? & _ & H). exact H.
Qed.

#[global] Instance mono_email raw : Mono (email render text raw).
Proof. unfold email. apply _. Qed.

Lemma sat_email raw : sat (email render text raw) email_valid.
Proof.
  unfold email. known sat_int. intros rate Hrate. known sat_report. intros _ Hfrom. check Hto.
  eapply sat_bind; [apply _|eapply (sat_for_each _ (fun to _ => check_mailbox to = Ok tt)); [apply _|intros; apply sat_report]|].
  intros ys Hys. check Habs.
  eapply (sat_bind _ _ (fun evs => evs <> [] /\ NoDup evs /\ evs ⊆ EVENT_TYPES)); [apply _| |].
  { destruct (re_events _) as [evs|].
    - known sat_check_events. intros _ [Hne Hsub]. apply sat_ret. unfold unique_events.
      destruct (unique_events_spec evs [] (NoDup_nil_2)) as [Hnd Hx]. split_and!; [|done|set_solver].
      destruct evs as [|ev evs]; [done|]. intros E. apply (not_elem_of_nil ev). rewrite <- E. apply Hx. set_solver.
    - apply sat_ret. by destruct default_email_events. }
  intros evs Hevs. apply sat_ret. split; simpl; try done.
  - split; [by destruct (re_to _)|]. apply Forall_forall. intros to (n & Hn)%list_elem_of_lookup_1.
    by destruct (Forall2_lookup_l _ _ _ _ _ Hys Hn) as (? & _ & H).
  - by apply negb_false_iff in Habs.
Qed.

#[global] Instance mono_hook i raw : Mono (hook render text i raw).
Proof. unfold hook. apply _. Qed.

Lemma sat_hook i raw : sat (hook render text i raw) hook_valid.
Proof.
  unfold hook. check Hexe.
  eapply (sat_bind _ _ (fun _ => forall evs, rk_events (get_ref raw) = Some evs -> evs <> [] /\ evs ⊆ EVENT_TYPES));
    [apply _| |].
  { destruct (rk_events _) as [evs|]; [|by apply sat_ret]. eapply sat_weaken; [apply sat_check_events|].
    simpl. by intros _ ? ? [= <-]. }
  intros _ Hevs. eapply sat_bind; [apply _|apply sat_duration; unfold from_secs, NANOS_PER_SEC; lia|].
  intros timeout Ht. check Hz. apply sat_ret. cbv beta in *. bool_simpl. split; simpl; [|done|lia].
  destruct (rk_command _) as [|exe args]; [done|]. by exists exe, args.
Qed.

#[global] Instance mono_notify raw : Mono (notify render text raw).
Proof. unfold notify. apply _. Qed.

Lemma sat_notify raw : sat (notify render text raw) (fun n =>
  (forall e, nt_email n = Some e -> email_valid e) /\ Forall hook_valid (nt_hooks n)).
Proof.
  unfold notify. destruct raw as [raw|]; [|by apply sat_ret].
  skip coalesce. eapply sat_bind; [apply _|eapply (sat_for_option _ (fun _ => email_valid)); [apply _|intros; apply sat_email]|].
  intros e He. eapply sat_bind; [apply _|eapply (sat_for_each _ (fun _ => hook_valid)); [apply _|intros; apply sat_hook]|].
  intros hs Hhs. skip u. apply sat_ret. split; simpl.
  - intros e' ->. by inversion He.
  - apply Forall_forall. intros h (n & Hn)%list_elem_of_lookup_1.
    by destruct (Forall2_lookup_r _ _ _ _ _ Hhs Hn) as (? & _ & H).
Qed.

#[global] Instance mono_api raw : Mono (api render text raw).
Proof. unfold api. apply _. Qed.

Lemma sat_api raw : sat (api render text raw) api_valid.
Proof.
  unfold api. set (a := default (mkRawApi _ _ _ _) _). known sat_report. intros _ Hsocket.
  set (status := match ra_status_socket a with None => _ | Some _ => _ end).
  eapply (sat_bind _ _ (fun _ => forall p, status = Some p -> check_socket_path p = Ok tt /\
    path_eqb p (default DEFAULT_API_SOCKET (ra_socket a)) = false)); [apply _| |].
  { destruct status as [p|]; [|by apply sat_ret]. destruct (check_socket_path p) as [[]|m] eqn:E.
    - eapply sat_weaken; [apply sat_when, sat_err|]. simpl. by intros _ H ? [= <-].
    - eapply sat_weaken; [apply sat_err|done]. }
  intros _ Hstatus. skip u. skip g. apply sat_ret. by split.
Qed.

(** *** Links *)

#[global] Instance mono_downlink i ifs d : Mono (downlink render text i ifs d).
Proof. unfold downlink. apply _. Qed.
#[global] Instance mono_downlinks_loop i ifs ds : Mono (downlinks_loop render text i ifs ds).
Proof. revert i ifs. induction ds; intros i ifs; simpl; apply _. Qed.

Lemma sat_downlinks_loop i names ifs ds : seen names ifs ->
  sat (downlinks_loop render text i ifs ds) (fun ifs' =>
    seen (names ++ (get_ref <$> ds)) ifs' /\ Forall (fun n => check_interface_name n = Ok tt) (get_ref <$> ds)).
Proof.
  revert i names ifs. induction ds as [|d ds IH]; intros i names ifs Hs; simpl.
  { apply sat_ret. by rewrite app_nil_r. }
  eapply (sat_bind _ _ (fun ifs' => seen (names ++ [get_ref d]) ifs' /\ check_interface_name (get_ref d) = Ok tt));
    [apply _| |].
  - unfold downlink. destruct (check_interface_name (get_ref d)) as [[]|e] eqn:E; [|diagnosed].
    check Hn. apply sat_ret. split; [|done]. apply seen_add; [done|]. by bool_simpl.
  - intros ifs' [Hs' Hd]. eapply sat_weaken; [by apply (IH (S i) (names ++ [get_ref d]))|]. simpl.
    intros r [Hr Hall]. rewrite <- app_assoc in Hr. split; [done|]. by constructor.
Qed.

#[global] Instance mono_static_source span key name sources p : Mono (static_source render text span key name sources p).
Proof. unfold static_source. apply _. Qed.

Definition static_of (p : option PathSettings) : list IpAddr :=
  match ps_source <$> p with Some (Static a) => [a] | _ => [] end.

Lemma sat_static_source span key name sources p : NoDup (fst <$> sources) ->
  sat (static_source render text span key name sources p) (fun r =>
    NoDup (fst <$> r) /\ fst <$> r = (fst <$> sources) ++ static_of p).
Proof.
  intros Hnd. unfold static_source, static_of. destruct (ps_source <$> p) as [[|a]|];
    [by apply sat_ret; rewrite app_nil_r| |by apply sat_ret; rewrite app_nil_r].
  eapply (sat_bind _ _ (fun _ => a ∉ fst <$> sources)); [apply _| |].
  { destruct (find_first _ _) as [[b other]|] eqn:E; [eapply sat_weaken; [apply sat_err|done]|]. apply sat_ret.
    intros (x & -> & Hx)%list_elem_of_fmap. pose proof (proj1 (find_first_None _ _) E x Hx) as Hf. simpl in Hf.
    by bool_simpl. }
  intros _ Ha. apply sat_ret. rewrite fmap_app. split; [|done]. apply NoDup_app. simpl.
  split_and!; [done| |apply NoDup_singleton]. by intros x Hx ->%list_elem_of_singleton.
Qed.

#[global] Instance mono_uplink global i us ifs sources raw : Mono (uplink render text global i us ifs sources raw).
Proof. unfold uplink. apply _. Qed.
#[global] Instance mono_uplinks_loop global i us ifs sources raw :
  Mono (uplinks_loop render text global i us ifs sources raw).
Proof. revert i us ifs sources. induction raw as [|u raw IH]; intros i us ifs sources; simpl; apply _. Qed.

(** What the loop over the uplinks has checked so far. *)
Record uplinks_ok (downs : list str) (us : list Uplink) (ifs : gset str) (sources : list (IpAddr * str)) : Prop := {
  uo_valid : Forall uplink_valid us;
  uo_ids : NoDup (u_id <$> us);
  uo_names : NoDup (u_name <$> us);
  uo_interfaces : seen (downs ++ (u_interface <$> us)) ifs;
  uo_sources : NoDup (fst <$> sources) /\ fst <$> sources = us ≫= static_sources
}.

Lemma sat_uplink global i downs us ifs sources raw : uplinks_ok downs us ifs sources ->
  sat (uplink render text global i us ifs sources raw) (fun '(us', ifs', sources') =>
    uplinks_ok downs us' ifs' sources' /\ us' <> []).
Proof.
  intros [Hvalid Hids Hnames Hifs [Hsnd Hsrc]]. unfold uplink. set (u := get_ref raw).
  eapply (sat_bind _ _ (fun id => UplinkId_get id = ru_id u)); [apply _| |].
  { destruct (in_range 0 255 (ru_id u)); [|diagnosed].
    destruct (UplinkId_new (ru_id u)) as [id|] eqn:Eid; [|diagnosed]. apply sat_ret. by apply UplinkId_new_Some in Eid as [? _]. }
  intros id Hid. check Hdup. pose proof (UplinkId_range id) as Hrange.
  replace (in_range 1 63 (ru_id u)) with true in Hdup by (symmetry; apply in_range_spec; lia).
  rewrite andb_true_r in Hdup.
  eapply (sat_bind _ _ (fun _ => valid_uplink_name (ru_name u) = true /\ ru_name u ∉ u_name <$> us)); [apply _| |].
  { destruct (valid_uplink_name (ru_name u)); simpl; [|eapply sat_weaken; [apply sat_err|done]].
    eapply sat_weaken; [apply sat_when, sat_err|]. simpl. intros _ E. split; [done|]. by apply not_used. }
  intros _ [Hname Hnew].
  eapply (sat_bind _ _ (fun ifs' => check_interface_name (ru_interface u) = Ok tt /\
    seen (downs ++ (u_interface <$> us) ++ [ru_interface u]) ifs')); [apply _| |].
  { destruct (check_interface_name (ru_interface u)) as [[]|e]; [|diagnosed]. check Hn. apply sat_ret.
    split; [done|]. rewrite app_assoc. apply seen_add; [done|]. by bool_simpl. }
  intros ifs' [Hiface Hifs'].
  eapply sat_bind; [apply _|eapply (sat_for_option _ (fun _ p => 1 <= p <= 1000)); [apply _|intros; apply sat_int; lia]|].
  intros priority Hprio. known sat_int. intros weight Hweight. check Hfam.
  eapply sat_bind; [apply _|eapply (sat_for_option _ (fun _ => path_valid V4)); [apply _|intros; apply sat_path]|].
  intros ipv4 H4.
  eapply sat_bind; [apply _|eapply (sat_for_option _ (fun _ => path_valid V6)); [apply _|intros; apply sat_path]|].
  intros ipv6 H6. eapply sat_bind; [apply _|by apply sat_static_source|]. intros s1 [Hs1 E1].
  eapply sat_bind; [apply _|by apply sat_static_source|]. intros s2 [Hs2 E2].
  destruct (match ru_health u with Some h => _ | None => _ end) as [[hkey hspan] merged].
  eapply sat_bind; [apply _|apply sat_health|]. intros h Hh. apply sat_ret. split; [|by destruct us].
  set (v := mkUplink _ _ _ _ _ _ _ _ _).
  assert (Hfams : Uplink_families v = (if is_none ipv4 then [] else [V4]) ++ (if is_none ipv6 then [] else [V6])).
  { unfold Uplink_families, v. simpl. by destruct ipv4, ipv6. }
  split.
  - apply Forall_app. split; [done|]. constructor; [|done]. split; simpl; try done.
    + intros p ->. by inversion Hprio.
    + rewrite Hfams. destruct H4, H6; try done. 
    + intros [|] p E; simpl in E; subst; [by inversion H4|by inversion H6].
    + by rewrite Hfams.
  - rewrite fmap_app. apply NoDup_snoc; [done|]. simpl. by apply not_used.
  - rewrite fmap_app. by apply NoDup_snoc.
  - by rewrite fmap_app.
  - split; [done|]. rewrite E2, E1, Hsrc, bind_app. simpl. rewrite app_nil_r, <- app_assoc. f_equal.
    unfold static_sources, static_of. simpl. destruct (ps_source <$> ipv4) as [[]|], (ps_source <$> ipv6) as [[]|]; done.
Qed.

Lemma sat_uplinks_loop global i downs us ifs sources raw : uplinks_ok downs us ifs sources ->
  sat (uplinks_loop render text global i us ifs sources raw) (fun r =>
    (exists ifs' sources', uplinks_ok downs r ifs' sources') /\ (raw <> [] \/ us <> [] -> r <> [])).
Proof.
  revert i us ifs sources. induction raw as [|u raw IH]; intros i us ifs sources Hok; simpl.
  { apply sat_ret. split; [eauto|]. by intros [|]. }
  eapply sat_bind; [apply _|by apply sat_uplink|]. intros [[us' ifs'] sources'] [Hok' Hne].
  eapply sat_weaken; [by apply IH|]. simpl. intros r [Hr Hne']. split; [done|]. intros _. apply Hne'. by right.
Qed.

(** *** The whole configuration *)

#[global] Instance mono_sort : Mono (map_diags sort_diags).
Proof. intros d [] d' [= <-] x Hx. unfold sort_diags. by apply dedup_elem_of, sort_by_key_elem_of. Qed.

#[global] Instance mono_metrics raw : Mono (metrics_listen render text raw).
Proof. unfold metrics_listen. apply _. Qed.

#[global] Instance mono_state_dir raw : Mono (state_dir render text raw).
Proof. unfold state_dir. apply _. Qed.

Lemma sat_state_dir raw : sat (state_dir render text raw) (fun p => is_absolute p = true /\ has_parent_dir p = false).
Proof.
  unfold state_dir. destruct raw as [[span p]|]; [|by apply sat_ret].
  eapply (sat_bind _ _ (fun _ => is_absolute p = true /\ has_parent_dir p = false)); [apply _| |].
  { destruct (is_absolute p); simpl; [|eapply sat_weaken; [apply sat_err|done]].
    eapply sat_weaken; [apply sat_when, sat_err|]. done. }
  intros _ Hp. by apply sat_ret.
Qed.

Lemma sat_validate_config parse_ip_net raw : sat (validate_config render parse_ip_net text raw) config_valid.
Proof.
  unfold validate_config. eapply sat_bind; [apply _|apply sat_routing|]. intros r Hr.
  eapply sat_bind; [apply _|apply sat_firewall|]. intros f Hf. check Hdown.
  eapply sat_bind; [apply _|apply (sat_downlinks_loop 0 [] ∅)|].
  { split; [constructor|]. set_solver. }
  simpl. intros ifs [Hseen Hdowns]. check Hup.
  eapply sat_bind; [apply _|apply (sat_uplinks_loop _ _ (get_ref <$> rc_downlink raw))|].
  { split; simpl; [constructor|constructor|constructor|by rewrite app_nil_r|split; [constructor|done]]. }
  intros us [(ifs' & sources & Hus) Hne]. skip u.
  eapply sat_bind; [apply _|eapply (sat_for_each _ (fun _ r => exists p, r = Some p /\
    policy_valid us (get_ref <$> rc_downlink raw) p)); [apply _|intros; apply sat_policy]|].
  intros ps Hps. known sat_policy_names. intros _ [Hnames _]. known sat_notify. intros n Hn.
  known sat_api. intros a' Ha. skip m. known sat_state_dir. intros dir Hdir. apply sat_ret.
  destruct Hus as [Hv Hids Hun [Hifs _] [Hsnd Hsrc]]. split; simpl; try done; try apply Hn.
  - split_and!; [by destruct (rc_downlink raw)| |done|done]. apply Hne. left. by destruct (rc_uplink raw).
  - by rewrite <- Hsrc.
  - split; [|done]. apply Forall_forall. intros p (o & Ho & Hp)%list_elem_of_omap.
    apply list_elem_of_lookup_1 in Ho as [k Hk]. destruct (Forall2_lookup_r _ _ _ _ _ Hps Hk) as (x & _ & q & -> & Hq).
    simpl in Hp. by simplify_eq.
Qed.
End operations.

(** ** Totality *)

(** A validator that cannot panic. *)
Class Total {A} (m : Ctx A) : Prop := total : forall d, is_Some (m d).
#[global] Hint Mode Total - ! : typeclass_instances.

#[export] Instance total_ret {A} (a : A) : Total (mret a).
Proof. intros d. by eexists. Qed.
#[export] Instance total_bind {A B} (m : Ctx A) (f : A -> Ctx B) : Total m -> (forall a, Total (f a)) -> Total (m ≫= f).
Proof. intros Hm Hf d. unfold mbind, Ctx_bind. destruct (Hm d) as [[a d'] ->]. apply Hf. Qed.
#[export] Instance total_len : Total diags_len.
Proof. intros d. by eexists. Qed.
#[export] Instance total_map_diags f : Total (map_diags f).
Proof. intros d. by eexists. Qed.
#[export] Instance total_when c (m : Ctx unit) : Total m -> Total (when c m).
Proof. unfold when. destruct c; [done|]. intros _. apply _. Qed.
#[export] Hint Extern 2 (Total (match ?x with _ => _ end)) => destruct x : typeclass_instances.
#[export] Hint Extern 2 (Total (if ?x then _ else _)) => destruct x : typeclass_instances.
#[export] Instance total_for_each {A B} (f : nat -> A -> Ctx B) i l :
  (forall i x, Total (f i x)) -> Total (for_each f i l).
Proof. intros Hf. revert i. induction l as [|x l IH]; intros i; simpl; apply _. Qed.
#[export] Instance total_for_option {A B} (f : A -> Ctx B) o : (forall x, Total (f x)) -> Total (for_option f o).
Proof. intros Hf. destruct o; simpl; apply _. Qed.
#[export] Instance total_err render text span key m : Total (err render text span key m).
Proof. intros d. by eexists. Qed.

(** The values of a total validator, whatever it reports. *)
Definition gives {A} (m : Ctx A) (P : A -> Prop) : Prop := forall d a d', m d = Some (a, d') -> P a.

Lemma total_bind_gives {A B} (m : Ctx A) (f : A -> Ctx B) P : Total m -> gives m P ->
  (forall a, P a -> Total (f a)) -> Total (m ≫= f).
Proof.
  intros Hm HP Hf d. unfold mbind, Ctx_bind. destruct (Hm d) as [[a d'] E]. rewrite E. by apply Hf, (HP d a d').
Qed.

Section totality.
Context (render : Message -> str) (text : list u8).

#[global] Instance total_int v d lo hi span key : Total (int render text v d lo hi span key).
Proof. unfold int. apply _. Qed.
#[global] Instance total_duration v d span key : Total (cx_duration render text v d span key).
Proof. unfold cx_duration. apply _. Qed.
#[global] Instance total_duration_in v d lo hi span key : Total (duration_in render text v d lo hi span key).
Proof. unfold duration_in. apply _. Qed.
#[global] Instance total_discovery_loop base span tables ts : Total (discovery_loop render text base span tables ts).
Proof. revert tables. induction ts; intros tables; simpl; unfold discovery_table; apply _. Qed.
#[global] Instance total_add_targets span key family out ts : Total (add_targets render text span key family out ts).
Proof. revert out. induction ts; intros out; simpl; unfold add_target; apply _. Qed.
#[global] Instance total_check_required span key required count families :
  Total (check_required render text span key required count families).
Proof. induction families; simpl; apply _. Qed.
#[global] Instance total_downlinks_loop i ifs ds : Total (downlinks_loop render text i ifs ds).
Proof. revert i ifs. induction ds; intros i ifs; simpl; unfold downlink; apply _. Qed.
#[global] Instance total_policy_names i names ps : Total (policy_names render text i names ps).
Proof. revert i names. induction ps; intros i names; simpl; apply _. Qed.
#[global] Instance total_report span key r : Total (report render text span key r).
Proof. unfold report. apply _. Qed.
#[global] Instance total_check_events evs span key : Total (check_events render text evs span key).
Proof. unfold check_events. apply _. Qed.
#[global] Instance total_path raw family key : Total (path render text raw family key).
Proof. unfold path, path_addr. apply _. Qed.
#[global] Instance total_static_source span key name sources p : Total (static_source render text span key name sources p).
Proof. unfold static_source. apply _. Qed.
#[global] Instance total_health_targets h families span key f : Total (health_targets render text h families span key f).
Proof. unfold health_targets. apply _. Qed.
#[global] Instance total_policy parse_ip_net us ds i raw : Total (policy render parse_ip_net text us ds i raw).
Proof. unfold policy, policy_prefix, policy_ports. apply _. Qed.
#[global] Instance total_email raw : Total (email render text raw).
Proof. unfold email. apply _. Qed.
#[global] Instance total_hook i raw : Total (hook render text i raw).
Proof. unfold hook. apply _. Qed.

(** The timeout of merged health settings, multiplied by any number of
    attempts, is a duration. *)
Definition timeout_fits (h : RawHealth) : Prop :=
  forall s d, rh_timeout h = Some s -> duration_parse s = Ok d -> d * 5 <= DURATION_MAX.

Lemma gives_bind {A B} (m : Ctx A) (f : A -> Ctx B) P Q : gives m P -> (forall a, P a -> gives (f a) Q) -> gives (m ≫= f) Q.
Proof.
  intros Hm Hf d b d'. unfold mbind, Ctx_bind. destruct (m d) as [[a d1]|] eqn:E; [|done].
  apply (Hf a (Hm _ _ _ E)).
Qed.

Lemma gives_ret {A} (a : A) (P : A -> Prop) : P a -> gives (mret a) P.
Proof. by intros HP d x d' [= <- _]. Qed.

Lemma gives_int v d lo hi span key : lo <= d <= hi -> gives (int render text v d lo hi span key) (fun n => lo <= n <= hi).
Proof.
  intros Hd. unfold int. destruct v as [v|]; [|by apply gives_ret].
  destruct (in_range lo hi v) eqn:E; simpl; [apply gives_ret; by apply in_range_spec in E|].
  apply (gives_bind _ _ (fun _ => True)); [done|]. intros _ _. by apply gives_ret.
Qed.

Lemma gives_timeout h span key : timeout_fits h ->
  gives (cx_duration render text (rh_timeout h) (from_secs 1) span key) (fun d => 0 <= d /\ d * 5 <= DURATION_MAX).
Proof.
  intros Hh. unfold cx_duration.
  assert (Hdef : 0 <= from_secs 1 /\ from_secs 1 * 5 <= DURATION_MAX) by (split; vm_compute; discriminate).
  destruct (rh_timeout h) as [s|] eqn:Es; [|by apply gives_ret].
  destruct (duration_parse s) as [d|e] eqn:E.
  - apply gives_ret. split; [by apply (duration_parse_nonneg s)|by apply (Hh s d)].
  - apply (gives_bind _ _ (fun _ => True)); [done|]. intros _ _. by apply gives_ret.
Qed.

Lemma total_health h families span key : timeout_fits h -> Total (health render text h families span key).
Proof.
  intros Hh. unfold health. apply total_bind; [apply _|]. intros interval.
  eapply total_bind_gives; [apply _|by apply gives_timeout|]. intros timeout [Ht Hmax].
  apply total_bind; [apply _|]. intros _. eapply total_bind_gives; [apply _|by apply gives_int|]. intros attempts Ha.
  simpl in Ha. unfold duration_mul. replace (DURATION_MAX <? timeout * attempts) with false by (symmetry; apply Z.ltb_ge; nia).
  apply _.
Qed.

(** The health settings of an uplink. *)
Definition merged_health (global : option (Spanned RawHealth)) (u : Spanned RawUplink) : RawHealth :=
  merge_health (get_ref <$> global) (get_ref <$> ru_health (get_ref u)).

Lemma total_uplinks_loop global i us ifs sources raw :
  Forall (fun u => timeout_fits (merged_health global u)) raw ->
  Total (uplinks_loop render text global i us ifs sources raw).
Proof.
  intros Hall. revert i us ifs sources. induction Hall as [|u raw Hu Hall IH]; intros i us ifs sources; simpl; [apply _|].
  assert (Hup : Total (uplink render text global i us ifs sources u)).
  { unfold uplink. repeat (apply total_bind; [apply _|]; intros ?). unfold merged_health in Hu.
    destruct (ru_health (get_ref u)) as [h|]; (apply total_bind; [by apply total_health|apply _]). }
  apply total_bind; [done|]. intros [[us' ifs'] sources']. apply IH.
Qed.

Lemma total_validate_config parse_ip_net raw :
  Forall (fun u => timeout_fits (merged_health (rc_health raw) u)) (rc_uplink raw) ->
  Total (validate_config render parse_ip_net text raw).
Proof.
  intros Hall. unfold validate_config. unfold routing, firewall.
  do 4 (apply total_bind; [apply _|]; intros ?). apply total_bind; [apply _|]. intros ?.
  apply total_bind; [by apply total_uplinks_loop|]. intros us. unfold notify, api, metrics_listen, state_dir. apply _.
Qed.
End totality.

(** ** Reports *)

(** A validator that reports this problem, whatever else it finds. *)
Definition reports {A} (m : Ctx A) (x : Diagnostic) : Prop := forall d a d', m d = Some (a, d') -> x ∈ d'.

Lemma reports_now {A B} (m : Ctx A) (f : A -> Ctx B) x `{!forall a, Mono (f a)} : reports m x -> reports (m ≫= f) x.
Proof.
  intros Hm d b d'. unfold mbind, Ctx_bind. destruct (m d) as [[a d1]|] eqn:E; [|done].
  intros Hf%mono. by apply Hf, (Hm d a).
Qed.

Lemma reports_later {A B} (m : Ctx A) (f : A -> Ctx B) x : (forall a, reports (f a) x) -> reports (m ≫= f) x.
Proof.
  intros Hf d b d'. unfold mbind, Ctx_bind. destruct (m d) as [[a d1]|]; [|done]. apply Hf.
Qed.

Lemma reports_err render text span key m : reports (err render text span key m)
  (mkDiagnostic (line_of text <$> span) key (render m)).
Proof. intros d a d' [= _ <-]. set_solver. Qed.

Section reports.
Context (render : Message -> str) (text : list u8).

(** What the loop over the uplinks says about the uplink at index [i]. *)
Definition uplink_problem (i : nat) (u : Spanned RawUplink) (what : str) (m : Message) : Diagnostic :=
  mkDiagnostic (Some (line_of text (span_start u))) (index_key (lit "uplink") i ++ what) (render m).

Lemma reports_int v d lo hi span key x : ~ lo <= v <= hi ->
  x = mkDiagnostic (line_of text <$> span) key (render (M_Range v lo hi)) ->
  reports (int render text (Some v) d lo hi span key) x.
Proof.
  intros Hv ->. unfold int. replace (in_range lo hi v) with false by (symmetry; apply in_range_false; lia).
  apply reports_now; [apply _|]. apply reports_err.
Qed.

Lemma uplink_reports_id global i us ifs sources u : ~ 1 <= ru_id (get_ref u) <= 63 ->
  reports (uplink render text global i us ifs sources u)
    (uplink_problem i u (lit ".id") (M_Range (ru_id (get_ref u)) 1 63)).
Proof.
  intros Hid. unfold uplink. apply reports_now; [apply _|].
  destruct (in_range 0 255 (ru_id (get_ref u))); [|apply reports_now; [apply _|]; apply reports_err].
  destruct (UplinkId_new _) as [id|] eqn:E; [|apply reports_now; [apply _|]; apply reports_err].
  apply UplinkId_new_Some in E as [_ E]. done.
Qed.

Lemma uplink_reports_name global i us ifs sources u : valid_uplink_name (ru_name (get_ref u)) = false ->
  reports (uplink render text global i us ifs sources u)
    (uplink_problem i u (lit ".name") (M_Value (lit "must match [a-z0-9_-]{1,32}") (ru_name (get_ref u)))).
Proof.
  intros Hn. unfold uplink. do 2 (apply reports_later; intros ?). apply reports_now; [apply _|].
  rewrite Hn. simpl. apply reports_err.
Qed.

Lemma uplink_reports_weight global i us ifs sources u w : ru_weight (get_ref u) = Some w -> ~ 1 <= w <= 256 ->
  reports (uplink render text global i us ifs sources u) (uplink_problem i u (lit ".weight") (M_Range w 1 256)).
Proof.
  intros Ew Hw. unfold uplink. do 5 (apply reports_later; intros ?). rewrite Ew. apply reports_now; [apply _|].
  by apply reports_int.
Qed.

Lemma uplinks_loop_reports global i us ifs sources raw k u (x : Diagnostic) : raw !! k = Some u ->
  (forall us ifs sources, reports (uplink render text global (i + k) us ifs sources u) x) ->
  reports (uplinks_loop render text global i us ifs sources raw) x.
Proof.
  revert i us ifs sources k. induction raw as [|v raw IH]; intros i us ifs sources [|k] Hk Hx; try done; simpl in *.
  - simplify_eq. rewrite Nat.add_0_r in Hx. apply reports_now; [intros [[] ?]; apply _|]. apply Hx.
  - apply reports_later. intros [[us' ifs'] sources']. apply (IH _ _ _ _ k); [done|].
    by replace (S i + k)%nat with (i + S k)%nat by lia.
Qed.

Lemma validate_reports parse_ip_net raw k u (x : Diagnostic) : rc_uplink raw !! k = Some u ->
  (forall us ifs sources, reports (uplink render text (rc_health raw) k us ifs sources u) x) ->
  reports (validate_config render parse_ip_net text raw) x.
Proof.
  intros Hk Hx. unfold validate_config. do 5 (apply reports_later; intros ?). apply reports_now; [apply _|].
  by apply (uplinks_loop_reports _ _ _ _ _ _ k u).
Qed.
End reports.

(** ** Theorems *)

Section theorems.
Context (render : Message -> str) (parse_ip_net : str -> option IpNet) (text : list u8).

Lemma config_valid_wf c : config_valid c -> config_wf c /\ weights_wf c.
Proof.
  intros Hc. destruct (cv_routing c Hc). split; [split; [|apply Hc]; by split|].
  intros u Hu. apply (proj1 (Forall_forall _ _) (cv_uplinks c Hc) u Hu).
Qed.

(** C9: A configuration that validation accepts is valid in every respect the
    other components rely on: the layout of tables, priorities and marks,
    unique ids, names, interfaces and static sources, weights, health
    settings whose rounds end within their interval, and policies that refer
    to uplinks and downlinks that exist. *)
Theorem validate_sound (raw : RawConfig) (c : Config)
    (Hok : validate render parse_ip_net text raw = Some (Ok c)) :
  config_valid c /\ config_wf c /\ weights_wf c /\
  forall u, u ∈ cf_uplinks c -> Hysteresis_wf (mkHysteresis (hc_fall (u_health u)) (hc_rise (u_health u))).
Proof.
  assert (Hc : config_valid c).
  { unfold validate in Hok. destruct (validate_config _ _ _ raw []) as [[c' [|d ds]]|] eqn:E; [|done|done].
    injection Hok as <-. by apply (sat_validate_config render text parse_ip_net raw). }
  destruct (config_valid_wf c Hc). split_and!; try done.
  intros u Hu. pose proof (proj1 (Forall_forall _ _) (cv_uplinks c Hc) u Hu) as Hv. destruct (uv_health u Hv).
  split; simpl; unfold fits; lia.
Qed.

(** Diagnostics in the order of the file. *)
Definition in_file_order (ds : list Diagnostic) : Prop :=
  StronglySorted (fun x y => cmp_leb (dg_line x, dg_key x) (dg_line y, dg_key y) = true) ds.

(** Validation collects: whatever else is wrong, every uplink whose id,
    name or weight is out of range is reported under its own key and line,
    among diagnostics in the order of the file. *)
Theorem validate_collects (raw : RawConfig) (k : nat) (u : Spanned RawUplink) (r : result Config (list Diagnostic))
    (Hu : rc_uplink raw !! k = Some u) (Hr : validate render parse_ip_net text raw = Some r) :
  let reported what := exists ds x, r = Err ds /\ in_file_order ds /\ x ∈ ds /\
    dg_line x = Some (line_of text (span_start u)) /\ dg_key x = index_key (lit "uplink") k ++ what in
  (~ 1 <= ru_id (get_ref u) <= 63 -> reported (lit ".id")) /\
  (valid_uplink_name (ru_name (get_ref u)) = false -> reported (lit ".name")) /\
  (forall w, ru_weight (get_ref u) = Some w -> ~ 1 <= w <= 256 -> reported (lit ".weight")).
Proof.
  intros reported.
  assert (Hrep : forall what m, (forall us ifs sources, reports
    (uplink render text (rc_health raw) k us ifs sources u) (uplink_problem render text k u what m)) -> reported what).
  { intros what m Hx. unfold validate in Hr.
    destruct (validate_config render parse_ip_net text raw []) as [[c ds]|] eqn:E; [|done]. cbn [mbind option_bind] in Hr.
    pose proof (validate_reports render text parse_ip_net raw k u _ Hu Hx _ _ _ E) as Hin.
    destruct ds as [|d ds]; [by apply not_elem_of_nil in Hin|]. injection Hr as <-.
    exists (dedup (sort_by_key (fun x => (dg_line x, dg_key x)) (d :: ds))), (uplink_problem render text k u what m).
    split; [done|]. split; [apply dedup_sorted, (sort_by_key_sorted (fun x => (dg_line x, dg_key x)) (d :: ds))|].
    split; [by apply dedup_elem_of, sort_by_key_elem_of|done]. }
  split_and!.
  - intros Hid. eapply Hrep. intros. by apply uplink_reports_id.
  - intros Hn. eapply Hrep. intros. by apply uplink_reports_name.
  - intros w Ew Hw. eapply Hrep. intros. by apply uplink_reports_weight.
Qed.

(** Validation returns, with a configuration or with diagnostics, whenever
    the probe timeouts are small enough that their product with the attempts
    is a duration. *)
Theorem validate_returns (raw : RawConfig)
    (Hfits : Forall (fun u => timeout_fits (merged_health (rc_health raw) u)) (rc_uplink raw)) :
  exists r, validate render parse_ip_net text raw = Some r /\ forall ds, r = Err ds -> ds <> [].
Proof.
  destruct (total_validate_config render text parse_ip_net raw Hfits []) as [[c ds] E].
  unfold validate. rewrite E. simpl. eexists. split; [done|]. destruct ds as [|d ds]; [done|].
  intros ds' [= <-] H. apply (not_elem_of_nil d). rewrite <- H.
  apply dedup_elem_of, (sort_by_key_elem_of (fun x => (dg_line x, dg_key x)) d (d :: ds)). by left.
Qed.
End theorems.

(** ** Mailboxes *)

(** No character that a mail system could take for a separator, a quote, a
    comment, a route or white space. *)
Definition mailbox_char (c : Z) : Prop :=
  in_range 33 126 c = true /\
  c ∉ [34 (* double quote *); 40; 41; 44; 58; 59; 60; 62; 91; 92; 93].

Lemma rsplit_once_Some c s a b : rsplit_once c s = Some (a, b) -> s = a ++ c :: b /\ c ∉ b.
Proof.
  revert a. induction s as [|d s IH]; intros a; simpl; [done|].
  destruct (rsplit_once c s) as [[a' b']|] eqn:E.
  - intros [= <- <-]. destruct (IH a' eq_refl) as [-> Hb]. done.
  - destruct (Z.eqb_spec d c) as [->|]; [|done]. intros [= <- <-]. split; [done|]. clear IH.
    revert E. induction s as [|e s IHs]; simpl; [intros _; apply not_elem_of_nil|].
    destruct (rsplit_once c s) as [[]|]; [done|]. destruct (Z.eqb_spec e c); [done|]. intros _.
    apply not_elem_of_cons. split; [done|]. by apply IHs.
Qed.

Lemma split_on_elem_of c s x : x ∈ s -> x = c \/ exists w, w ∈ split_on c s /\ x ∈ w.
Proof.
  induction s as [|d s IH]; [by intros ?%not_elem_of_nil|]. simpl. intros Hx.
  destruct (Z.eqb_spec d c) as [->|Hd].
  - apply elem_of_cons in Hx as [->|Hx]; [by left|]. destruct (IH Hx) as [|(w & Hw & Hxw)]; [by left|].
    right. exists w. split; [by right|done].
  - apply elem_of_cons in Hx as [->|Hx].
    + right. destruct (split_on c s) as [|w ws]; [exists [d]|exists (d :: w)]; split; by left.
    + destruct (IH Hx) as [|(w & Hw & Hxw)]; [by left|]. right.
      destruct (split_on c s) as [|w' ws]; [by apply not_elem_of_nil in Hw|].
      apply elem_of_cons in Hw as [->|Hw]; [exists (d :: w'); split; [by left|by right]|].
      exists w. split; [by right|done].
Qed.

Lemma atext_char c : atext c = true -> mailbox_char c /\ c <> 64.
Proof.
  intros H. assert (Hr : in_range 33 126 c = true).
  { unfold atext, is_ascii_alphanumeric, is_ascii_alphabetic, is_ascii_lowercase, is_ascii_uppercase, is_ascii_digit in H.
    apply in_range_spec. apply orb_true_iff in H as [H|H].
    - repeat (apply orb_true_iff in H as [H|H]); bool_simpl; lia.
    - apply existsb_elem_of in H as (y & Hy & E). apply Z.eqb_eq in E as <-.
      repeat (apply elem_of_cons in Hy as [->|Hy]; [lia|]). by apply not_elem_of_nil in Hy. }
  split; [split; [done|]|].
  - intros Hc. repeat (apply elem_of_cons in Hc as [->|Hc]; [done|]). by apply not_elem_of_nil in Hc.
  - by intros ->.
Qed.

Lemma label_char c : is_ascii_alphanumeric c || (c =? 45) = true -> atext c = true.
Proof.
  unfold atext. intros H. apply orb_true_iff in H as [->|H]; [done|]. apply Z.eqb_eq in H as ->. done.
Qed.

Lemma dots_char (p : str -> bool) s : forallb p (split_on 46 s) = true ->
  (forall w c, p w = true -> c ∈ w -> atext c = true) -> Forall (fun c => mailbox_char c /\ c <> 64) s.
Proof.
  intros Hall Hp. apply Forall_forall. intros c Hc.
  destruct (split_on_elem_of 46 s c Hc) as [->|(w & Hw & Hcw)].
  - split; [split; [done|]|done]. intros H. repeat (apply elem_of_cons in H as [|H]; [done|]). by apply not_elem_of_nil in H.
  - apply atext_char, (Hp w); [|done]. by apply (proj1 (forallb_elem_of _ _) Hall).
Qed.

(** An accepted mailbox is one address: printable characters with none that
    separates, quotes or comments, exactly one at sign with something on
    both sides, within the length limits, and nothing in front that a mail
    system reads as an option, a file or a program. *)
Theorem mailbox_safe (t : str) (Hok : check_mailbox t = Ok tt) :
  exists local domain, t = (local ++ 64 :: domain) /\
    local <> [] /\ domain <> [] /\ str_len local <= 64 /\ str_len domain <= 253 /\ str_len t <= 254 /\
    (64 ∉ local) /\ (64 ∉ domain) /\
    Forall (fun w => dns_label w = true) (split_on 46 domain) /\
    Forall mailbox_char t /\ forall c, head t = Some c -> c ∉ [45; 47; 124].
Proof.
  unfold check_mailbox in Hok.
  destruct (negb (is_ascii t) || _); [done|]. destruct (254 <? str_len t) eqn:Elen; [done|].
  destruct (rsplit_once 64 t) as [[local domain]|] eqn:Es; [|done].
  apply rsplit_once_Some in Es as [-> Hd].
  destruct (bool_decide (local = []) || _ || _) eqn:El; [done|]. apply orb_false_iff in El as [El Hatoms].
  apply orb_false_iff in El as [Hne Hl64].
  destruct (match local with c :: _ => _ | [] => _ end) eqn:Eh; [done|].
  destruct ((253 <? str_len domain) || _) eqn:Ed; [done|]. apply orb_false_iff in Ed as [Hd253 Hlabels].
  apply negb_false_iff in Hatoms, Hlabels. bool_simpl.
  assert (Hlocal : Forall (fun c => mailbox_char c /\ c <> 64) local).
  { eapply dots_char; [exact Hatoms|]. intros w c Hw Hc. apply andb_true_iff in Hw as [_ Hw].
    by apply (proj1 (forallb_elem_of _ _) Hw). }
  assert (Hdomain : Forall (fun c => mailbox_char c /\ c <> 64) domain).
  { eapply dots_char; [exact Hlabels|]. intros w c Hw Hc. apply andb_true_iff in Hw as [_ Hw].
    apply label_char. by apply (proj1 (forallb_elem_of _ _) Hw). }
  exists local, domain. split_and!; try done; try lia.
  - intros ->. done.
  - intros H64. rewrite Forall_forall in Hlocal. by destruct (Hlocal 64 H64).
  - apply Forall_forall. intros w Hw. by apply (proj1 (forallb_elem_of _ _) Hlabels).
  - apply Forall_app. split; [|constructor].
    + eapply Forall_impl; [exact Hlocal|]. by intros c [].
    + split; [done|]. intros H. repeat (apply elem_of_cons in H as [|H]; [done|]). by apply not_elem_of_nil in H.
    + eapply Forall_impl; [exact Hdomain|]. by intros c [].
  - destruct local as [|c0 local]; [done|]. simpl. intros c [= <-] Hc.
    repeat (apply elem_of_cons in Hc as [->|Hc]; [done|]). by apply not_elem_of_nil in Hc.
Qed.

(** ** Findings *)

(** One downlink and one uplink, with the given global health settings. *)
Definition small_config (id : i64) (health : option (Spanned RawHealth)) : RawConfig :=
  mkRawConfig None None [mkSpanned 0 (lit "lan0")]
    [mkSpanned 10 (mkRawUplink id (lit "a") None (lit "wan0") (Some 1) None
       (Some (mkSpanned 20 (mkRawPath None None None None))) None None)]
    health [] None None None None.

Definition health_timeout (t : str) : option (Spanned RawHealth) :=
  Some (mkSpanned 30 (mkRawHealth None (Some t) None None None None None None None None None)).

(** A probe timeout that parses but whose product with the attempts is no
    duration makes validation panic instead of reporting it. *)
Theorem validate_overflow_panics (render : Message -> str) (parse_ip_net : str -> option IpNet) (text : list u8) :
  validate render parse_ip_net text (small_config 1 (health_timeout (lit "18446744073709551615s"))) = None.
Proof. vm_compute. reflexivity. Qed.

(** A socket path with a [.] component is accepted, even one that ends
    with it and so names a directory: behind a root no [CurDir] component
    exists. *)
Theorem socket_path_dot_accepted :
  check_socket_path (lit "/run/polywan/.") = Ok tt /\ check_socket_path (lit "/run/./polywan/api.sock") = Ok tt /\
  forall p, is_absolute p = true -> has_cur_dir p = false.
Proof.
  split_and!; [vm_compute; reflexivity|vm_compute; reflexivity|]. intros p Hp. unfold has_cur_dir. by rewrite Hp.
Qed.

(** ** Witnesses *)

Definition no_render (m : Message) : str := [].
Definition no_net (s : str) : option IpNet := None.

Lemma validate_sound_witness :
  exists c, validate no_render no_net [] (small_config 1 None) = Some (Ok c) /\ config_wf c.
Proof.
  destruct (validate no_render no_net [] (small_config 1 None)) as [[c|ds]|] eqn:E;
    [|vm_compute in E; discriminate|vm_compute in E; discriminate].
  exists c. split; [reflexivity|]. apply (validate_sound no_render no_net [] (small_config 1 None) c E).
Defined.

Lemma validate_collects_witness :
  exists ds x, validate no_render no_net [] (small_config 64 None) = Some (Err ds) /\
    x ∈ ds /\ dg_key x = lit "uplink[0].id".
Proof.
  destruct (validate no_render no_net [] (small_config 64 None)) as [r|] eqn:E; [|vm_compute in E; discriminate].
  destruct (validate_collects no_render no_net [] (small_config 64 None) 0
    (mkSpanned 10 (mkRawUplink 64 (lit "a") None (lit "wan0") (Some 1) None
       (Some (mkSpanned 20 (mkRawPath None None None None))) None None)) r eq_refl E) as [Hid _].
  destruct Hid as (ds & x & -> & _ & Hx & _ & Hk); [simpl; lia|].
  exists ds, x. split; [reflexivity|]. split; [exact Hx|]. etransitivity; [exact Hk|vm_compute; reflexivity].
Defined.

Lemma validate_returns_witness :
  exists r, validate no_render no_net [] (small_config 1 (health_timeout (lit "2h"))) = Some r.
Proof.
  destruct (validate_returns no_render no_net [] (small_config 1 (health_timeout (lit "2h")))) as (r & E & _).
  { constructor; [|constructor]. intros s d Hs Hd. simpl in Hs. injection Hs as <-.
    vm_compute in Hd. injection Hd as <-. vm_compute. discriminate. }
  exists r. exact E.
Defined.

Lemma mailbox_safe_witness :
  check_mailbox (lit "ops+wan@example.net") = Ok tt /\ 
  exists local domain, lit "ops+wan@example.net" = local ++ 64 :: domain.
Proof.
  split; [vm_compute; reflexivity|].
  destruct (mailbox_safe (lit "ops+wan@example.net")) as (local & domain & E & _); [vm_compute; reflexivity|].
  exists local, domain. exact E.
Defined.
