(* ===== verification/Nft.v ===== *)
(** * The nftables ruleset and its listings

    Models crates/polywan/src/nft.rs (the text of PolyWAN's table and the
    transaction that replaces it) and the readers of [nft]'s JSON listings
    in nftctl.rs.  [Display] of addresses is the standard library's.  A
    [serde_json::Value] is data: an object is the list of its entries in key
    order (serde_json's map is a [BTreeMap]).  Running [nft] itself is not
    modelled. *)

From stdpp Require Import prelude gmap.
From Stdlib Require Import ZArith Lia SpecFloat.
From S2P Require Import Prelude Text Model Durations Config.

Local Open Scope Z_scope.

(** ** Numbers and addresses in text *)

Definition hex_char (n : Z) : Z := if n <? 10 then 48 + n else 87 + n.

Fixpoint hex_digits (fuel : nat) (n : Z) (acc : str) : str :=
  match fuel with
  | O => acc
  | S fuel => let acc := hex_char (n mod 16) :: acc in if n / 16 =? 0 then acc else hex_digits fuel (n / 16) acc
  end.

(** [format!("{n:x}")] of an unsigned integer. *)
Definition to_hex (n : Z) : str := hex_digits (S (Z.to_nat (Z.log2 n))) n [].

(** [format!("{v:#010x}")] of a [u32]. *)
Definition hex (v : u32) : str := lit "0x" ++ replicate (8 - length (to_hex v)) 48 ++ to_hex v.

(** [format!("{n}")] of an [i32]. *)
Definition to_decimal_i (n : Z) : str := if n <? 0 then lit "-" ++ to_decimal (- n) else to_decimal n.

(** [separator.join(words)]. *)
Fixpoint str_join (separator : str) (words : list str) : str :=
  match words with
  | [] => []
  | [w] => w
  | w :: words => w ++ separator ++ str_join separator words
  end.

Definition Ipv4_display (a : u32) : str :=
  str_join (lit ".") ((fun k => to_decimal (Z.shiftr a (8 * k) mod 256)) <$> [3; 2; 1; 0]).

Definition segments (a : u128) : list u16 := (fun k => Z.shiftr a (16 * k) mod 65536) <$> [7; 6; 5; 4; 3; 2; 1; 0].

(** The longest run of zero segments, the first of several: its start and
    length; [cur] is the run the segment before [i] ends. *)
Fixpoint longest_zeros (l : list u16) (i : nat) (cur best : nat * nat) : nat * nat :=
  match l with
  | [] => best
  | s :: l =>
      if s =? 0 then
        let cur := if Nat.eqb (snd cur) 0 then (i, 1%nat) else (fst cur, S (snd cur)) in
        longest_zeros l (S i) cur (if Nat.ltb (snd best) (snd cur) then cur else best)
      else longest_zeros l (S i) (0%nat, 0%nat) best
  end.

Definition Ipv6_display (a : u128) : str :=
  if Z.shiftr a 32 =? 0xffff then lit "::ffff:" ++ Ipv4_display (a mod 2 ^ 32) else
  let s := segments a in
  let '(start, len) := longest_zeros s 0 (0%nat, 0%nat) (0%nat, 0%nat) in
  let text l := str_join (lit ":") (to_hex <$> l) in
  if Nat.ltb 1 len then text (take start s) ++ lit "::" ++ text (drop (start + len) s) else text s.

Definition IpAddr_display (a : IpAddr) : str := match a with IpV4 n => Ipv4_display n | IpV6 n => Ipv6_display n end.

Definition IpNet_display (n : IpNet) : str := IpAddr_display (net_addr n) ++ lit "/" ++ to_decimal (net_prefix n).

(** ** The generator *)

Definition TABLE : str := lit "polywan".
Definition MARK_PRIORITY : i32 := -150.

Definition nfproto (family : Family) : str := match family with V4 => lit "ipv4" | V6 => lit "ipv6" end.

(** A double quote. *)
Definition QUOTE : Z := 34.

Definition quote (s : str) : str := QUOTE :: s ++ [QUOTE].

Definition COMMENT_MAX : usize := 128.

(** [char::is_control]. *)
Definition is_control (c : Z) : bool := in_range 0 0x1f c || in_range 0x7f 0x9f c.

(** The loop of [comment]; [out] holds the characters so far. *)
Fixpoint comment_loop (text out : str) : str :=
  match text with
  | [] => out
  | c :: text =>
      let c := if c =? QUOTE then 39 else if is_control c then 32 else c in
      if COMMENT_MAX <? str_len out + char_len_utf8 c then out else comment_loop text (out ++ [c])
  end.

Definition comment (text : str) : str := lit "comment " ++ quote (comment_loop text []).

Record Gen := mkGen { g_mask : FwMask; g_out : str }.

Definition push_str (g : Gen) (s : str) : Gen := mkGen (g_mask g) (g_out g ++ s).

Definition line (indent : nat) (text : str) (g : Gen) : Gen := push_str g (replicate indent 9 ++ text ++ [10]).

(** [str::lines]: without the line ends, the last line's being optional. *)
Definition strip_cr (l : str) : str := match last l with Some 13 => removelast l | _ => l end.
Definition str_lines (s : str) : list str :=
  let l := split_on 10 s in strip_cr <$> (if bool_decide (last l = Some []) then removelast l else l).

Definition has_chain (out : str) : bool := existsb (starts_with (9 :: lit "chain ")) (str_lines out).

Definition chain (name purpose declaration : str) (g : Gen) : Gen :=
  let g := if has_chain (g_out g) then push_str g [10] else g in
  line 2 declaration (line 2 (comment purpose) (line 1 (lit "chain " ++ name ++ lit " {") g)).

Definition mask_hex (m : FwMask) : str := hex (FwMask_mask m).
Definition not_mask_hex (m : FwMask) : str := hex (2 ^ 32 - 1 - FwMask_mask m).
Definition enc (m : FwMask) (v : FieldValue) : str := hex (FwMask_encode m v).

(** [Gen::set]. *)
Definition set_mark (m : FwMask) (what : str) (v : FieldValue) : str :=
  what ++ lit " set " ++ what ++ lit " & " ++ not_mask_hex m ++ lit " | " ++ enc m v.

Definition probe_skip (m : FwMask) : str :=
  lit "meta mark & " ++ hex (FwMask_class_mask m) ++ lit " == " ++ enc m FieldValue_PROBE_CLASS ++ lit " return".

Definition braces (l : list str) : str := lit "{ " ++ str_join (lit ", ") (quote <$> l) ++ lit " }".

Definition protocol_name (family : Family) (p : Protocol) : str :=
  match p with
  | Proto_Tcp => lit "tcp"
  | Proto_Udp => lit "udp"
  | Proto_Sctp => lit "sctp"
  | Proto_Icmp | Proto_Icmpv6 => match family with V4 => lit "icmp" | V6 => lit "ipv6-icmp" end
  end.

(** The part of a policy's rule before its mark, and the free text of its
    comment. *)
Definition policy_match (config : Config) (p : Policy) : str :=
  let ip := match po_family p with V4 => lit "ip" | V6 => lit "ip6" end in
  let inputs := match po_input_interface p with Some i => quote i | None => braces (cf_downlinks config) end in
  lit "meta nfproto " ++ nfproto (po_family p) ++ lit " iifname " ++ inputs ++ lit " ct direction original" ++
  match po_source p with Some n => lit " " ++ ip ++ lit " saddr " ++ IpNet_display n | None => [] end ++
  match po_destination p with Some n => lit " " ++ ip ++ lit " daddr " ++ IpNet_display n | None => [] end ++
  match po_protocol p with Some proto => lit " meta l4proto " ++ protocol_name (po_family p) proto | None => [] end ++
  match po_destination_port p with
  | Some (a, b) =>
      if a =? b then lit " th dport " ++ to_decimal a
      else lit " th dport " ++ to_decimal a ++ lit "-" ++ to_decimal b
  | None => []
  end.

Definition policy_text (config : Config) (p : Policy) : str :=
  lit "policy " ++ po_name p ++ lit ": uplink " ++
  match Config_uplink config (po_uplink p) with Some u => u_name u | None => [] end ++
  lit " (id " ++ to_decimal (UplinkId_get (po_uplink p)) ++ lit "), " ++ Family_key (po_family p) ++
  lit ", fallback " ++ match po_fallback p with Balance => lit "balance" | Block => lit "block" end.

Definition policy (config : Config) (p : Policy) (g : Gen) : Gen :=
  let value := match po_fallback p with
               | Balance => FieldValue_policy_balance (po_uplink p)
               | Block => FieldValue_policy_block (po_uplink p)
               end in
  line 2 (policy_match config p ++ lit " " ++ set_mark (g_mask g) (lit "meta mark") value ++ lit " return " ++
          comment (policy_text config p)) g.

Definition restore_rule (m : FwMask) (id : UplinkId) : str :=
  let v := FieldValue_path id in
  lit "ct mark & " ++ mask_hex m ++ lit " == " ++ enc m v ++ lit " " ++ set_mark m (lit "meta mark") v ++ lit " return".

Definition restore_all (g : Gen) : Gen := foldl (fun g id => line 2 (restore_rule (g_mask g) id) g) g UplinkId_all.

(** The statements of [ruleset] in order. *)
Definition emit (actions : list (Gen -> Gen)) (g : Gen) : Gen := foldl (fun g a => a g) g actions.

(** The section sign and a literal. *)
Definition sect (s : String.string) : str := 167 :: lit s.
Arguments sect s%_string_scope.

Definition declaration (kind hook : str) (priority : i32) : str :=
  lit "type " ++ kind ++ lit " hook " ++ hook ++ lit " priority " ++ to_decimal_i priority ++ lit "; policy accept;".

Definition uplink_text (u : Uplink) (f : Family) : str :=
  lit "uplink " ++ u_name u ++ lit " (id " ++ to_decimal (UplinkId_get (u_id u)) ++ lit "), " ++ Family_key f.

(** The rule that gives a path's connections its mark; [what] is [iifname]
    or [oifname]. *)
Definition assign_rule (m : FwMask) (what direction : str) (x : Uplink * Family) : str :=
  let '(u, f) := x in
  let v := FieldValue_path (u_id u) in
  lit "meta nfproto " ++ nfproto f ++ lit " " ++ what ++ lit " " ++ quote (u_interface u) ++
  lit " ct direction original " ++ set_mark m (lit "ct mark") v ++ lit " " ++ set_mark m (lit "meta mark") v ++
  lit " return " ++ comment (uplink_text u f ++ lit ": " ++ direction).

Definition nat_action (p : PathSettings) : option str :=
  match ps_nat p, ps_source p with
  | Nat_None, _ => None
  | Nat_Masquerade, _ => Some (lit "masquerade")
  | Nat_Snat, Static (IpV4 a) => Some (lit "snat ip to " ++ Ipv4_display a)
  | Nat_Snat, Static (IpV6 a) => Some (lit "snat ip6 to " ++ Ipv6_display a)
  | Nat_Snat, Auto => None
  end.

(** [u.path(f)] is present for the paths listed. *)
Definition nat_rule (config : Config) (x : Uplink * Family) : option str :=
  let '(u, f) := x in
  p ← Uplink_path u f;
  action ← nat_action p;
  Some (lit "meta nfproto " ++ nfproto f ++ lit " iifname " ++ braces (cf_downlinks config) ++ lit " oifname " ++
        quote (u_interface u) ++ lit " " ++ action ++ lit " " ++ comment (uplink_text u f)).

Definition config_paths (config : Config) : list (Uplink * Family) :=
  concat ((fun u => (fun f => (u, f)) <$> Uplink_families u) <$> cf_uplinks config).

Definition other_family_skip (config : Config) : option str :=
  match List.filter (Config_manages config) Family_ALL with
  | [only] => Some (lit "meta nfproto != " ++ nfproto only ++ lit " return")
  | _ => None
  end.

Definition ruleset_actions (config : Config) (m : FwMask) : list (Gen -> Gen) :=
  let skip := match other_family_skip config with Some s => [line 2 s] | None => [] end in
  let multicast := [line 2 (lit "ip daddr { 224.0.0.0/4, 255.255.255.255 } return");
                    line 2 (lit "ip6 daddr ff00::/8 return")] in
  [line 0 (lit "table inet " ++ TABLE ++ lit " {");
   chain (lit "prerouting")
     (sect "4.7 step 1: restore the path of known connections, assign new inbound ones")
     (declaration (lit "filter") (lit "prerouting") MARK_PRIORITY)] ++ skip ++
  [line 2 (lit "# Only tracked unicast traffic is marked (" ++ sect "4.8).");
   line 2 (lit "ct state untracked return");
   line 2 (lit "meta pkttype != host return");
   line 2 (lit "# Restore the path value of the connection, for every path id (FR-MARK-3).");
   restore_all;
   line 2 (lit "# Multicast and broadcast that the packet type misses (tunnels deliver");
   line 2 (lit "# them as host packets) are not assigned either (S2).")] ++ multicast ++
  [line 2 (lit "meta nfproto ipv4 fib daddr type broadcast return");
   line 2 (lit "# New inbound connection on an uplink: assign that uplink's path (INV-5).")] ++
  (line 2 ∘ assign_rule m (lit "iifname") (lit "inbound") <$> config_paths config) ++
  (if bool_decide (cf_policies config = []) then [] else
   [line 2 (lit "# Policies, first match wins: new forwarded connections from downlinks get");
    line 2 (lit "# the policy value in the packet mark only (" ++ sect "4.7 step 1.3, FR-POL-1, FR-POL-2).")]) ++
  (policy config <$> cf_policies config) ++
  [line 1 (lit "}");
   chain (lit "output")
     (sect "4.7 step 2: route chain, so that a restored mark triggers a new routing decision")
     (declaration (lit "route") (lit "output") MARK_PRIORITY)] ++ skip ++
  [line 2 (lit "# Probe traffic keeps its probe value (INV-6).");
   line 2 (probe_skip m);
   line 2 (lit "ct state untracked return");
   line 2 (lit "# Restore the path value of the connection, for every path id (FR-MARK-3).");
   restore_all;
   line 1 (lit "}");
   chain (lit "postrouting")
     (sect "4.7 step 3: outgoing connections get the path they actually left through")
     (declaration (lit "filter") (lit "postrouting") MARK_PRIORITY)] ++ skip ++
  [line 2 (probe_skip m);
   line 2 (lit "ct state untracked return");
   line 2 (lit "# Only unicast traffic is marked (" ++ sect "4.8).")] ++ multicast ++
  [line 2 (lit "# Subnet-directed broadcasts of the egress interface (S2).");
   line 2 (lit "meta nfproto ipv4 fib daddr . oif type broadcast return");
   line 2 (lit "# Connections that already have a path keep it (INV-2).");
   line 2 (lit "ct mark & " ++ mask_hex m ++ lit " != 0 return")] ++
  (line 2 ∘ assign_rule m (lit "oifname") (lit "outgoing") <$> config_paths config) ++
  [line 1 (lit "}");
   chain (lit "nat") (sect "6: source NAT of traffic from the downlinks")
     (declaration (lit "nat") (lit "postrouting") (fw_nat_priority (cf_firewall config)))] ++
  (line 2 <$> omap (nat_rule config) (config_paths config)) ++
  [line 1 (lit "}"); line 0 (lit "}")].

Definition ruleset (config : Config) : str :=
  let m := rt_fwmark_mask (cf_routing config) in
  g_out (emit (ruleset_actions config m) (mkGen m [])).

Definition removal : str :=
  lit "add table inet " ++ TABLE ++ [10] ++ lit "delete table inet " ++ TABLE ++ [10].
Definition transaction (config : Config) : str :=
  lit "add table inet " ++ TABLE ++ [10] ++ lit "delete table inet " ++ TABLE ++ [10] ++ ruleset config.

(** ** JSON listings (nftctl.rs) *)

Inductive Number := PosInt (n : u64) | NegInt (n : Z) | Float (f : f64).

Inductive Value :=
  | Null
  | Bool (b : bool)
  | Num (n : Number)
  | Str (s : str)
  | Array (a : list Value)
  | Object (m : list (str * Value)).

Definition Number_eqb (a b : Number) : bool :=
  match a, b with
  | PosInt a, PosInt b => a =? b
  | NegInt a, NegInt b => a =? b
  | Float a, Float b => SFeqb a b
  | _, _ => false
  end.

(** [PartialEq] of [Value]. *)
Fixpoint Value_eqb (v w : Value) : bool :=
  match v, w with
  | Null, Null => true
  | Bool a, Bool b => Bool.eqb a b
  | Num a, Num b => Number_eqb a b
  | Str a, Str b => bool_decide (a = b)
  | Array a, Array b =>
      (fix all (a b : list Value) := match a, b with
       | [], [] => true
       | x :: a, y :: b => Value_eqb x y && all a b
       | _, _ => false
       end) a b
  | Object a, Object b =>
      (fix all (a b : list (str * Value)) := match a, b with
       | [], [] => true
       | (k, x) :: a, (l, y) :: b => bool_decide (k = l) && Value_eqb x y && all a b
       | _, _ => false
       end) a b
  | _, _ => false
  end.

(** [Value::get], and indexing, which gives [Null] for what is not there. *)
Definition get (v : Value) (key : str) : option Value :=
  match v with
  | Object m => snd <$> find_first (fun e => bool_decide (fst e = key)) m
  | _ => None
  end.
Definition index (v : Value) (key : str) : Value := default Null (get v key).
Definition index_at (v : Value) (i : nat) : Value := match v with Array a => default Null (a !! i) | _ => Null end.

Definition as_array (v : Value) : option (list Value) := match v with Array a => Some a | _ => None end.
Definition as_str (v : Value) : option str := match v with Str s => Some s | _ => None end.
Definition as_u64 (v : Value) : option u64 := match v with Num (PosInt n) => Some n | _ => None end.

(** [normalize]'s [strip]. *)
Fixpoint strip (v : Value) : Value :=
  match v with
  | Object m =>
      Object ((fix entries (m : list (str * Value)) := match m with
       | [] => []
       | (k, x) :: m => if bool_decide (k = lit "handle") then entries m else (k, strip x) :: entries m
       end) m)
  | Array a =>
      Array ((fix elements (a : list Value) := match a with
       | [] => []
       | x :: a => match get x (lit "metainfo") with Some _ => elements a | None => strip x :: elements a end
       end) a)
  | v => v
  end.
Definition normalize (v : Value) : Value := strip v.

Definition matches_meta (expr : Value) (key right : str) : bool :=
  let m := index expr (lit "match") in
  bool_decide (as_str (index (index (index m (lit "left")) (lit "meta")) (lit "key")) = Some key) &&
  bool_decide (as_str (index m (lit "right")) = Some right).

Definition sets_ct_mark (e : Value) (value : u32) : bool :=
  let m := index e (lit "mangle") in
  bool_decide (as_str (index (index (index m (lit "key")) (lit "ct")) (lit "key")) = Some (lit "mark")) &&
  bool_decide (as_u64 (index_at (index (index m (lit "value")) (lit "|")) 1) = Some value).

Definition assigns (listing : Value) (family interface : str) (value : u32) : bool :=
  existsb (fun exprs =>
      existsb (fun e => matches_meta e (lit "nfproto") family) exprs &&
      existsb (fun e => matches_meta e (lit "oifname") interface) exprs &&
      existsb (fun e => sets_ct_mark e value) exprs)
    (omap (fun o => as_array (index (index o (lit "rule")) (lit "expr")))
       (default [] (as_array (index listing (lit "nftables"))))).

(** The objects of a listing. *)
Definition nftables_objects (r : Value) : list Value := default [] (get r (lit "nftables") ≫= as_array).
Definition field (o : Value) (key : str) : str := default (lit "?") (get o key ≫= as_str).

Definition flowtable_devices (r : Value) : list (str * str) :=
  concat ((fun o =>
    match get o (lit "flowtable") with
    | None => []
    | Some ft =>
        let name := field ft (lit "family") ++ lit " " ++ field ft (lit "table") ++ lit " " ++ field ft (lit "name") in
        match get ft (lit "dev") with
        | Some (Str d) => [(name, d)]
        | Some (Array a) => (fun d => (name, d)) <$> omap as_str a
        | _ => []
        end
    end) <$> nftables_objects r).

Definition statements (r : Value) : list (str * Value) :=
  concat ((fun o =>
    match get o (lit "rule") with
    | None => []
    | Some rule =>
        if bool_decide (get rule (lit "table") ≫= as_str = Some TABLE) then [] else
        let place := field rule (lit "family") ++ lit " " ++ field rule (lit "table") ++ lit " " ++
                     field rule (lit "chain") in
        (fun s => (place, s)) <$> default [] (get rule (lit "expr") ≫= as_array)
    end) <$> nftables_objects r).

(** [Vec::dedup]: consecutive equal elements. *)
Fixpoint dedup {A} `{EqDecision A} (l : list A) : list A :=
  match l with
  | [] => []
  | x :: l => match dedup l with y :: r => if decide (x = y) then y :: r else x :: y :: r | [] => [x] end
  end.

Definition notrack_chains (r : Value) : list str :=
  dedup (fst <$> List.filter (fun s => bool_decide (is_Some (get (snd s) (lit "notrack")))) (statements r)).
Definition source_nat_chains (r : Value) : list str :=
  dedup (fst <$> List.filter (fun s => bool_decide (is_Some (get (snd s) (lit "masquerade"))) ||
    bool_decide (is_Some (get (snd s) (lit "snat")))) (statements r)).

(** ** Confinement of configured names *)

(** The text outside double quotes; [inside] tells whether it starts within
    a quoted string. *)
Fixpoint unquoted (inside : bool) (s : str) : str :=
  match s with
  | [] => []
  | c :: s =>
      if c =? QUOTE then QUOTE :: unquoted (negb inside) s
      else if inside then unquoted inside s else c :: unquoted inside s
  end.

(** Whether quoting is open after a text. *)
Fixpoint open_after (inside : bool) (s : str) : bool :=
  match s with [] => inside | c :: s => open_after (if c =? QUOTE then negb inside else inside) s end.

Lemma unquoted_app b s t : unquoted b (s ++ t) = unquoted b s ++ unquoted (open_after b s) t.
Proof.
  revert b. induction s as [|c s IH]; intros b; simpl; [done|].
  destruct (c =? QUOTE); [by rewrite IH|]. destruct b; simpl; by rewrite IH.
Qed.

Lemma open_after_app b s t : open_after b (s ++ t) = open_after (open_after b s) t.
Proof. revert b. induction s as [|c s IH]; intros b; simpl; [done|]. apply IH. Qed.

(** Two texts that agree outside their quoted strings, each of which is
    closed. *)
Definition confined (s t : str) : Prop :=
  open_after false s = false /\ open_after false t = false /\ unquoted false s = unquoted false t.

Lemma confined_app s t s' t' : confined s t -> confined s' t' -> confined (s ++ s') (t ++ t').
Proof.
  intros (Hs & Ht & E) (Hs' & Ht' & E'). unfold confined. by rewrite !open_after_app, !unquoted_app, Hs, Ht, E, E'.
Qed.

Lemma confined_nil : confined [] [].
Proof. done. Qed.

Lemma open_after_plain b s : QUOTE ∉ s -> open_after b s = b.
Proof.
  induction s as [|c s IH]; simpl; [done|]. intros Hq. destruct (Z.eqb_spec c QUOTE) as [->|]; [set_solver|].
  apply IH. set_solver.
Qed.

Lemma unquoted_inside s : QUOTE ∉ s -> unquoted true s = [].
Proof.
  induction s as [|c s IH]; simpl; [done|]. intros Hq. destruct (Z.eqb_spec c QUOTE) as [->|]; [set_solver|].
  apply IH. set_solver.
Qed.

Lemma plain_spec s : forallb (fun c => negb (c =? QUOTE)) s = true -> QUOTE ∉ s.
Proof. rewrite forallb_elem_of. intros H Hq. by apply H in Hq. Qed.

(** Text without quotes, and any two quoted texts. *)
Lemma confined_plain s : QUOTE ∉ s -> confined s s.
Proof. intros Hq. split_and!; [by apply open_after_plain..|done]. Qed.

Lemma confined_quote s t : QUOTE ∉ s -> QUOTE ∉ t -> confined (quote s) (quote t).
Proof.
  intros Hs Ht. unfold confined, quote. simpl. rewrite !open_after_app, !unquoted_app.
  rewrite (open_after_plain true s), (open_after_plain true t), (unquoted_inside s), (unquoted_inside t) by done. done.
Qed.

Lemma comment_loop_clean text out : QUOTE ∉ out -> 10 ∉ out -> str_len out <= COMMENT_MAX ->
  (QUOTE ∉ comment_loop text out) /\ (10 ∉ comment_loop text out) /\ str_len (comment_loop text out) <= COMMENT_MAX.
Proof.
  revert out. induction text as [|c text IH]; intros out Hq Hn Hl; simpl; [done|].
  set (c' := if c =? QUOTE then 39 else if is_control c then 32 else c).
  assert (Hc : c' <> QUOTE /\ c' <> 10).
  { unfold c'. destruct (Z.eqb_spec c QUOTE) as [->|Hne]; [done|]. destruct (is_control c) eqn:E; [done|].
    split; [done|]. intros ->. done. }
  destruct (Z.ltb_spec COMMENT_MAX (str_len out + char_len_utf8 c')); [done|]. apply IH.
  - rewrite elem_of_app, list_elem_of_singleton. intuition congruence.
  - rewrite elem_of_app, list_elem_of_singleton. intuition congruence.
  - assert (Happ : forall s x, str_len (s ++ [x]) = str_len s + char_len_utf8 x); [|by rewrite Happ].
    intros s x. unfold str_len. induction s as [|y s IHs]; simpl; [lia|]. rewrite IHs. lia.
Qed.

(** A comment has no quote but its own two, no line end, and at most
    [COMMENT_MAX] bytes of text. *)
Lemma comment_spec text : exists body, comment text = lit "comment " ++ quote body /\
  (QUOTE ∉ body) /\ (10 ∉ body) /\ str_len body <= COMMENT_MAX.
Proof.
  exists (comment_loop text []). split; [done|]. apply comment_loop_clean; [apply not_elem_of_nil..|done].
Qed.

Lemma confined_comment a b : confined (comment a) (comment b).
Proof.
  destruct (comment_spec a) as (x & -> & Hx & _), (comment_spec b) as (y & -> & Hy & _).
  apply confined_app; [|by apply confined_quote]. apply confined_plain, plain_spec. by vm_compute.
Qed.

(** ** Plain text *)

Lemma decimal_digits_plain fuel n acc : QUOTE ∉ acc -> QUOTE ∉ decimal_digits fuel n acc.
Proof.
  revert n acc. induction fuel as [|fuel IH]; intros n acc Ha; simpl; [done|].
  pose proof (Z.mod_pos_bound n 10 ltac:(lia)). assert (Hc : QUOTE ∉ 48 + n mod 10 :: acc).
  { rewrite elem_of_cons. intros [E|]; [|done]. unfold QUOTE in E. lia. }
  destruct (n / 10 =? 0); [done|]. by apply IH.
Qed.

Lemma hex_digits_plain fuel n acc : QUOTE ∉ acc -> QUOTE ∉ hex_digits fuel n acc.
Proof.
  revert n acc. induction fuel as [|fuel IH]; intros n acc Ha; simpl; [done|].
  pose proof (Z.mod_pos_bound n 16 ltac:(lia)). assert (Hc : QUOTE ∉ hex_char (n mod 16) :: acc).
  { rewrite elem_of_cons. intros [E|]; [|done]. unfold QUOTE, hex_char in E. destruct (n mod 16 <? 10); lia. }
  destruct (n / 16 =? 0); [done|]. by apply IH.
Qed.

Lemma plain_app s t : QUOTE ∉ s -> QUOTE ∉ t -> QUOTE ∉ s ++ t.
Proof. rewrite elem_of_app. tauto. Qed.

Lemma plain_nil : QUOTE ∉ @nil Z.
Proof. apply not_elem_of_nil. Qed.

Lemma plain_join sep l : QUOTE ∉ sep -> Forall (fun w => QUOTE ∉ w) l -> QUOTE ∉ str_join sep l.
Proof.
  intros Hs Hl. induction Hl as [|w l Hw Hl IH]; [apply plain_nil|]. simpl.
  destruct l; [done|]. repeat apply plain_app; done.
Qed.

Lemma to_decimal_plain n : QUOTE ∉ to_decimal n.
Proof. apply decimal_digits_plain, plain_nil. Qed.
Lemma to_hex_plain n : QUOTE ∉ to_hex n.
Proof. apply hex_digits_plain, plain_nil. Qed.

Lemma map_plain {A} (f : A -> str) l : (forall x, QUOTE ∉ f x) -> Forall (fun w => QUOTE ∉ w) (f <$> l).
Proof. intros H. apply Forall_fmap, Forall_true, H. Qed.

(** Literals, numbers and what is made of them. *)
Create HintDb plain discriminated.
#[export] Hint Resolve plain_app plain_nil plain_join to_decimal_plain to_hex_plain map_plain : plain.
#[export] Hint Extern 1 (QUOTE ∉ lit _) => (apply plain_spec; by vm_compute) : plain.
#[export] Hint Extern 1 (QUOTE ∉ sect _) => (apply plain_spec; by vm_compute) : plain.

Lemma hex_plain v : QUOTE ∉ hex v.
Proof.
  unfold hex. repeat apply plain_app; auto with plain. by intros [? _]%elem_of_replicate.
Qed.

Lemma Ipv4_display_plain a : QUOTE ∉ Ipv4_display a.
Proof. unfold Ipv4_display. auto with plain. Qed.

Lemma Ipv6_display_plain a : QUOTE ∉ Ipv6_display a.
Proof.
  unfold Ipv6_display. destruct (_ =? _); [auto using Ipv4_display_plain with plain|].
  destruct (longest_zeros _ _ _ _) as [start len]. destruct (Nat.ltb 1 len); auto with plain.
Qed.

Lemma IpNet_display_plain n : QUOTE ∉ IpNet_display n.
Proof.
  unfold IpNet_display, IpAddr_display. destruct (net_addr n); auto using Ipv4_display_plain, Ipv6_display_plain with plain.
Qed.
#[export] Hint Resolve hex_plain IpNet_display_plain Ipv4_display_plain Ipv6_display_plain : plain.

Lemma set_mark_plain m what v : QUOTE ∉ what -> QUOTE ∉ set_mark m what v.
Proof. intros. unfold set_mark, not_mask_hex, enc. auto 10 with plain. Qed.

Lemma nfproto_plain f : QUOTE ∉ nfproto f.
Proof. destruct f; apply plain_spec; by vm_compute. Qed.
#[export] Hint Resolve set_mark_plain nfproto_plain : plain.

(** Texts that agree outside their quoted strings, by their parts. *)
Create HintDb confined discriminated.
#[export] Hint Resolve confined_app confined_quote confined_comment confined_nil : confined.
#[export] Hint Extern 2 (confined ?s ?s) => (apply confined_plain; auto 10 with plain; fail) : confined.

(** The parts of a concatenation, each by the hints. *)
Ltac confine :=
  repeat match goal with |- confined (_ ++ _) (_ ++ _) => apply confined_app; [solve [auto 10 with confined plain]|] end;
  auto 10 with confined plain.

(** ** Renaming a configuration *)

(** The names of a configuration replaced: uplinks, interfaces, downlinks
    and policies keep everything else. *)
Record renamed_uplink (u v : Uplink) : Prop := {
  ru_id : u_id u = u_id v;
  ru_v4 : u_ipv4 u = u_ipv4 v;
  ru_v6 : u_ipv6 u = u_ipv6 v;
  ru_plain : (QUOTE ∉ u_interface u) /\ (QUOTE ∉ u_interface v)
}.

Definition plain_pair (a b : str) : Prop := (QUOTE ∉ a) /\ (QUOTE ∉ b).

Record renamed_policy (p q : Policy) : Prop := {
  rq_family : po_family p = po_family q;
  rq_input : option_Forall2 plain_pair (po_input_interface p) (po_input_interface q);
  rq_source : po_source p = po_source q;
  rq_destination : po_destination p = po_destination q;
  rq_protocol : po_protocol p = po_protocol q;
  rq_port : po_destination_port p = po_destination_port q;
  rq_uplink : po_uplink p = po_uplink q;
  rq_fallback : po_fallback p = po_fallback q
}.

Record renamed (c d : Config) : Prop := {
  rn_mask : rt_fwmark_mask (cf_routing c) = rt_fwmark_mask (cf_routing d);
  rn_nat : fw_nat_priority (cf_firewall c) = fw_nat_priority (cf_firewall d);
  rn_downlinks : Forall2 plain_pair (cf_downlinks c) (cf_downlinks d);
  rn_uplinks : Forall2 renamed_uplink (cf_uplinks c) (cf_uplinks d);
  rn_policies : Forall2 renamed_policy (cf_policies c) (cf_policies d)
}.

Lemma confined_braces l k : Forall2 plain_pair l k -> confined (braces l) (braces k).
Proof.
  intros H. unfold braces. apply confined_app; [auto with confined|]. apply confined_app; [|auto with confined].
  induction H as [|a b l k [Ha Hb] H IH]; [apply confined_nil|].
  destruct H; rewrite ?fmap_cons in *; cbn [str_join fmap list_fmap] in *; auto with confined.
Qed.
#[export] Hint Resolve confined_braces : confined.

(** ** Confinement of the generator *)

(** The text so far of two runs: lines complete, a chain opened. *)
Record in_step (g h : Gen) : Prop := {
  is_mask : g_mask g = g_mask h;
  is_confined : confined (g_out g) (g_out h);
  is_lines : last (g_out g) = Some 10 /\ last (g_out h) = Some 10;
  is_chain : has_chain (g_out g) = true /\ has_chain (g_out h) = true
}.

Lemma split_on_not_nil c s : split_on c s <> [].
Proof. destruct s as [|d s]; simpl; [done|]. destruct (d =? c); [done|]. by destruct (split_on c s). Qed.

Lemma split_on_lines c s t : split_on c (s ++ c :: t) = split_on c s ++ split_on c t.
Proof.
  induction s as [|d s IH]; simpl; [by rewrite Z.eqb_refl|]. destruct (d =? c); [by rewrite IH|].
  rewrite IH. pose proof (split_on_not_nil c s). by destruct (split_on c s).
Qed.

(** The lines of a text that ends with a line end, and of one that goes on. *)
Lemma str_lines_complete s t : str_lines (s ++ [10]) ++ str_lines t = str_lines (s ++ 10 :: t).
Proof.
  unfold str_lines. rewrite !split_on_lines. simpl. rewrite last_snoc, bool_decide_eq_true_2 by done.
  rewrite removelast_last. pose proof (split_on_not_nil 10 t) as Ht. destruct (exists_last Ht) as (l & x & ->).
  rewrite app_assoc, !last_snoc. destruct (bool_decide_reflect (Some x = Some [])).
  - by rewrite !removelast_last, fmap_app.
  - by rewrite <- app_assoc, (fmap_app _ (split_on 10 s)).
Qed.

Lemma has_chain_mono s t : last s = Some 10 -> has_chain s = true -> has_chain (s ++ t) = true.
Proof.
  intros [s' ->]%last_Some Hc. unfold has_chain in *. rewrite <- app_assoc. change ([10] ++ t) with (10 :: t).
  rewrite <- str_lines_complete, existsb_app, Hc. done.
Qed.

Definition same_step (a b : Gen -> Gen) : Prop := forall g h, in_step g h -> in_step (a g) (b h).

Lemma push_step g h s t : in_step g h -> confined s t -> last s = Some 10 -> last t = Some 10 ->
  in_step (push_str g s) (push_str h t).
Proof.
  intros [Hm Hc [Hl Hl'] [Hg Hh]] Hst Hs Ht. split; simpl; [done|by apply confined_app| |].
  - rewrite !last_app, Hs, Ht. done.
  - split; by apply has_chain_mono.
Qed.

Lemma line_step n s t : confined s t -> same_step (line n s) (line n t).
Proof.
  intros Hst g h Hgh. unfold line. apply push_step; [done| | |].
  - apply confined_app; [|apply confined_app; [done|]]; apply confined_plain.
    + by intros [? _]%elem_of_replicate.
    + unfold QUOTE. set_solver.
  - by rewrite !last_app.
  - by rewrite !last_app.
Qed.

Lemma emit_step l k : Forall2 same_step l k -> same_step (emit l) (emit k).
Proof.
  intros H. induction H as [|a b l k Hab H IH]; intros g h Hgh; [done|]. apply IH. by apply Hab.
Qed.

Lemma line_same n s : QUOTE ∉ s -> same_step (line n s) (line n s).
Proof. intros. apply line_step. by apply confined_plain. Qed.

Lemma chain_step name purpose decl : QUOTE ∉ name -> QUOTE ∉ decl ->
  same_step (chain name purpose decl) (chain name purpose decl).
Proof.
  intros Hn Hd g h Hgh. unfold chain. destruct (is_chain _ _ Hgh) as [-> ->].
  apply line_same; [done|]. apply line_step; [apply confined_comment|]. apply line_same; [auto with plain|].
  apply push_step; [done| |done..]. apply confined_plain. unfold QUOTE. set_solver.
Qed.

Lemma restore_rule_plain m id : QUOTE ∉ restore_rule m id.
Proof. unfold restore_rule, mask_hex, enc. auto 12 with plain. Qed.

Lemma restore_all_step : same_step restore_all restore_all.
Proof.
  unfold restore_all. induction UplinkId_all as [|id l IH]; intros g h Hgh; [done|].
  cbn [foldl]. apply IH. rewrite (is_mask _ _ Hgh). by apply line_same; [apply restore_rule_plain|].
Qed.

Lemma renamed_families u v : renamed_uplink u v -> Uplink_families u = Uplink_families v.
Proof. intros [_ H4 H6 _]. unfold Uplink_families, Uplink_path. by rewrite H4, H6. Qed.

Lemma renamed_manages c d f : renamed c d -> Config_manages c f = Config_manages d f.
Proof.
  intros [_ _ _ H _]. unfold Config_manages. induction H as [|u v l k Hu H IH]; simpl; [done|]. rewrite IH. f_equal.
  destruct Hu as [_ H4 H6 _]. unfold Uplink_path. by rewrite H4, H6.
Qed.

Definition renamed_path (x y : Uplink * Family) : Prop := renamed_uplink x.1 y.1 /\ x.2 = y.2.

Lemma renamed_paths c d : renamed c d -> Forall2 renamed_path (config_paths c) (config_paths d).
Proof.
  intros [_ _ _ H _]. unfold config_paths. induction H as [|u v l k Hu H IH]; [constructor|].
  rewrite !fmap_cons. cbn [concat]. apply Forall2_app; [|done]. rewrite (renamed_families _ _ Hu).
  induction (Uplink_families v) as [|f fs IHf]; [constructor|]. rewrite !fmap_cons. by constructor.
Qed.

Lemma assign_rule_confined m what direction x y : QUOTE ∉ what -> renamed_path x y ->
  confined (assign_rule m what direction x) (assign_rule m what direction y).
Proof.
  destruct x as [u f], y as [v f']. intros Hw [[Hid _ _ [Hu Hv]] Hf]. cbn [fst snd] in *. subst f'.
  unfold assign_rule. rewrite Hid. confine.
Qed.

Lemma nat_action_plain p a : nat_action p = Some a -> QUOTE ∉ a.
Proof.
  unfold nat_action. destruct (ps_nat p), (ps_source p) as [|[]]; intros E; try discriminate E;
    apply (inj Some) in E as <-; auto with plain.
Qed.

Lemma nat_rule_confined c d x y : renamed c d -> renamed_path x y ->
  option_Forall2 confined (nat_rule c x) (nat_rule d y).
Proof.
  destruct x as [u f], y as [v f']. intros Hr [[Hid H4 H6 [Hu Hv]] Hf]. cbn [fst snd] in *. subst f'.
  pose proof (rn_downlinks _ _ Hr) as Hd. unfold nat_rule.
  assert (Hp : Uplink_path u f = Uplink_path v f) by (unfold Uplink_path; by rewrite H4, H6).
  rewrite Hp. destruct (Uplink_path v f) as [p|]; cbn [mbind option_bind]; [|constructor].
  destruct (nat_action p) as [a|] eqn:E; cbn [mbind option_bind]; [|constructor]. apply nat_action_plain in E.
  constructor. confine.
Qed.

Lemma nat_rules_confined c d : renamed c d ->
  Forall2 confined (omap (nat_rule c) (config_paths c)) (omap (nat_rule d) (config_paths d)).
Proof.
  intros Hr. pose proof (renamed_paths c d Hr) as H. induction H as [|x y l k Hxy H IH]; [constructor|].
  cbn [omap list_omap]. destruct (nat_rule_confined c d x y Hr Hxy); [by constructor|done].
Qed.

Lemma policy_match_confined c d p q : renamed c d -> renamed_policy p q ->
  confined (policy_match c p) (policy_match d q).
Proof.
  intros Hr [Hf Hi Hs Hd Hp Hpt _ _]. unfold policy_match. rewrite Hf, Hs, Hd, Hp, Hpt.
  apply confined_app; [auto with confined|]. apply confined_app; [auto with confined|].
  apply confined_app; [auto with confined|].
  apply confined_app; [destruct Hi as [a b [Ha Hb]|]; pose proof (rn_downlinks _ _ Hr); auto with confined|].
  apply confined_plain. apply plain_app; [auto with plain|].
  assert (Hip : QUOTE ∉ match po_family q with V4 => lit "ip" | V6 => lit "ip6" end) by (destruct (po_family q); auto with plain).
  repeat apply plain_app.
  - destruct (po_source q); auto with plain.
  - destruct (po_destination q); auto with plain.
  - destruct (po_protocol q) as [proto|]; [|apply plain_nil]. apply plain_app; [auto with plain|].
    destruct proto, (po_family q); apply plain_spec; by vm_compute.
  - destruct (po_destination_port q) as [[a b]|]; [|apply plain_nil]. destruct (a =? b); auto with plain.
Qed.

Lemma policies_step c d : renamed c d ->
  Forall2 same_step (policy c <$> cf_policies c) (policy d <$> cf_policies d).
Proof.
  intros Hr. pose proof (rn_policies _ _ Hr) as H. induction H as [|p q l k Hp H IH]; [constructor|].
  rewrite !fmap_cons. constructor; [|done]. intros g h Hgh. unfold policy. rewrite (is_mask _ _ Hgh).
  apply line_step; [|done]. pose proof (policy_match_confined c d p q Hr Hp) as Hm.
  rewrite (rq_uplink _ _ Hp), (rq_fallback _ _ Hp). apply confined_app; [done|]. apply confined_app; [auto with confined|].
  apply confined_app; [|auto with confined]. apply confined_plain. auto with plain.
Qed.

Ltac step_all :=
  repeat match goal with
    | |- Forall2 same_step (_ ++ _) (_ ++ _) => apply Forall2_app
    | |- Forall2 same_step [] [] => constructor
    | |- Forall2 same_step (_ :: _) (_ :: _) => constructor
    | |- same_step (chain _ _ _) (chain _ _ _) => apply chain_step
    | |- same_step restore_all restore_all => apply restore_all_step
    | |- same_step (line _ _) (line _ _) => apply line_same
    end; auto 10 with plain.

Lemma probe_skip_plain m : QUOTE ∉ probe_skip m.
Proof. unfold probe_skip, enc. auto 10 with plain. Qed.
Lemma declaration_plain kind hook n : QUOTE ∉ kind -> QUOTE ∉ hook -> QUOTE ∉ declaration kind hook n.
Proof. intros. unfold declaration, to_decimal_i. destruct (n <? 0); auto 10 with plain. Qed.
#[export] Hint Resolve probe_skip_plain declaration_plain : plain.

(** The two runs agree from the first chain on. *)
Lemma rest_step c d m : renamed c d ->
  Forall2 same_step (drop 2 (ruleset_actions c m)) (drop 2 (ruleset_actions d m)).
Proof.
  intros Hr. unfold ruleset_actions. cbn [app drop]. rewrite !drop_0.
  assert (Hskip : other_family_skip c = other_family_skip d).
  { unfold other_family_skip. by rewrite (filter_ext (Config_manages c) (Config_manages d)) by (intros; by apply renamed_manages). }
  rewrite Hskip. assert (Hp : forall s, other_family_skip d = Some s -> QUOTE ∉ s).
  { unfold other_family_skip. intros s. destruct (List.filter _ _) as [|f []]; intros E; try discriminate E.
    apply (inj Some) in E as <-. auto with plain. }
  assert (Hs : Forall2 same_step (match other_family_skip d with Some s => [line 2 s] | None => [] end)
                                 (match other_family_skip d with Some s => [line 2 s] | None => [] end)).
  { destruct (other_family_skip d) as [s|]; [|constructor]. constructor; [|constructor]. by apply line_same, Hp. }
  assert (Ha : forall what direction, QUOTE ∉ what ->
    Forall2 same_step (line 2 ∘ assign_rule m what direction <$> config_paths c)
                      (line 2 ∘ assign_rule m what direction <$> config_paths d)).
  { intros what direction Hw. pose proof (renamed_paths c d Hr) as H. apply Forall2_fmap. eapply Forall2_impl; [done|].
    intros x y Hxy. apply line_step. by apply assign_rule_confined. }
  assert (Hn : Forall2 same_step (line 2 <$> omap (nat_rule c) (config_paths c))
                                 (line 2 <$> omap (nat_rule d) (config_paths d))).
  { apply Forall2_fmap. eapply Forall2_impl; [by apply nat_rules_confined|]. intros x y. apply line_step. }
  pose proof (policies_step c d Hr) as Hpol.
  assert (He : bool_decide (cf_policies c = []) = bool_decide (cf_policies d = [])).
  { destruct (rn_policies _ _ Hr); [done|]. by rewrite !bool_decide_eq_false_2. }
  rewrite He, (rn_nat _ _ Hr). destruct (bool_decide (cf_policies d = [])); unfold mask_hex; step_all.
Qed.

(** C12: Names written in the configuration stay inside the quoted strings
    of the ruleset.  Replacing the names of uplinks and policies by any
    others, and interface names by any without a double quote, leaves the
    text outside the quotes as it was: no name adds, removes or changes a
    rule, a chain or a statement. *)
Theorem ruleset_confines_names c d : renamed c d ->
  unquoted false (ruleset c) = unquoted false (ruleset d).
Proof.
  intros Hr. set (m := rt_fwmark_mask (cf_routing d)).
  assert (E : forall c, ruleset_actions c m = take 2 (ruleset_actions c m) ++ drop 2 (ruleset_actions c m))
    by (intros; by rewrite take_drop).
  unfold ruleset. rewrite (rn_mask _ _ Hr). fold m. rewrite (E c), (E d). unfold emit. rewrite !foldl_app.
  set (start := foldl (fun g a => a g) (mkGen m [])).
  assert (H0 : in_step (start (take 2 (ruleset_actions c m))) (start (take 2 (ruleset_actions d m)))).
  { split; [done| |by vm_compute..]. split_and!; by vm_compute. }
  destruct (emit_step _ _ (rest_step c d m Hr) _ _ H0) as [_ (_ & _ & Hu) _ _]. exact Hu.
Qed.

Module NftSample.
Definition health : HealthConf :=
  mkHealthConf 5000000000 1000000000 1 1 3 5 [] [] (mkQuality None None None) 10 10.
Definition masquerade : PathSettings := mkPathSettings Auto Auto false Nat_Masquerade.
Definition config (uplink interface policy : str) : Config :=
  mkConfig (mkRouting 1000 1000 77 FwMask_DEFAULT Ready [254] true 60000000000 OnShutdown_Keep)
    (mkFirewall Managed 100 (lit "/usr/sbin/nft")) [lit "lan"]
    [mkUplink (uid 1) uplink [] interface (Some 1) 1 (Some masquerade) None health]
    [mkPolicy policy V4 None (Some (mkIpNet (IpV4 3325256704) 24)) None (Some Proto_Tcp) (Some (80, 443)) (uid 1) Block]
    (mkNotify 0 None [] []) (mkApi (lit "/run/polywan/control.sock") (lit "root") None None) None (lit "/var/lib/polywan") [].
Definition plain_name : Config := config (lit "fiber") (lit "wan0") (lit "web").
Definition hostile : Config :=
  config (lit "a}") (lit "drop") (lit "x" ++ [QUOTE; 59; 10] ++ lit "flush ruleset").
End NftSample.

Lemma ruleset_confines_names_witness :
  ruleset NftSample.hostile <> ruleset NftSample.plain_name /\
  unquoted false (ruleset NftSample.hostile) = unquoted false (ruleset NftSample.plain_name).
Proof.
  split; [by vm_compute|]. apply ruleset_confines_names.
  assert (Hq : forall s, forallb (fun c => negb (c =? QUOTE)) s = true -> QUOTE ∉ s) by apply plain_spec.
  split; [done|done|repeat constructor; apply Hq; by vm_compute| |].
  - repeat constructor; simpl; try done; apply Hq; by vm_compute.
  - repeat constructor; done.
Defined.
