(* ===== verification/Status.v ===== *)
(** * The published status and the messages to systemd

    Models crates/polywan/src/status.rs (the snapshot of the control API and
    its one-line summary) and the [Notifications] of
    crates/polywan/src/sdnotify.rs: what a running daemon tells systemd when
    the socket may be full.  The datagram socket is a parameter: what
    [Notifier::send] answers. *)

From stdpp Require Import prelude gmap sorting.
From Stdlib Require Import ZArith Lia SpecFloat.
From S2P Require Import Prelude Text Model Health Durations Config QualityGates Nft.

Local Open Scope Z_scope.

(** ** The status *)

Record Generations := mkGenerations { g_desired : u64; g_applied : u64 }.

Record UplinkStatus := mkUplinkStatus { us_name : str; us_id : u8; us_interface : str; us_drained : bool }.

Record Statistics := mkStatistics {
  sc_samples : usize; sc_loss : option f64; sc_rtt_seconds : option f64; sc_jitter_seconds : option f64
}.

Record PathStatus := mkPathStatus {
  ps_uplink : str; ps_family : str; ps_state : str; ps_ready : bool; ps_reason : str; ps_since : str;
  ps_source : option IpAddr; ps_gateway : option IpAddr; ps_addresses : list IpAddr; ps_statistics : Statistics
}.

(** [st_active] is in the order of its keys. *)
Record Status := mkStatus {
  ss_version : str; ss_instance : str; ss_started : str; ss_config_digest : str; ss_generation : Generations;
  ss_status : str; ss_reasons : list str; ss_uplinks : list UplinkStatus; ss_paths : list PathStatus;
  ss_active : list (str * list str)
}.
Definition Status_default : Status := mkStatus [] [] [] [] (mkGenerations 0 0) [] [] [] [] [].

(** [Duration::as_secs_f64]: the seconds, plus the nanoseconds over 10^9. *)
Definition as_secs_f64 (d : Duration) : f64 :=
  SFadd 53 1024 (usize_as_f64 (d / NANOS_PER_SEC))
    (SFdiv 53 1024 (usize_as_f64 (d mod NANOS_PER_SEC)) (usize_as_f64 NANOS_PER_SEC)).

Definition Statistics_from (s : QualityGates.Stats) : Statistics :=
  mkStatistics (q_samples s) (q_loss s) (as_secs_f64 <$> q_rtt s) (as_secs_f64 <$> q_jitter s).

Definition Status_summary (s : Status) : str :=
  lit "status " ++ ss_status s ++
  match ss_reasons s with [] => [] | rs => lit " (" ++ str_join (lit ", ") rs ++ lit ")" end ++
  concat ((fun '(family, set) =>
    lit "; active " ++ family ++ lit ": " ++ match set with [] => lit "none" | set => str_join (lit ", ") set end)
    <$> ss_active s).

(** ** Messages to systemd *)

Inductive Sent := Sent_Done | Sent_Again.

Record Notifications := mkNotifications { no_ready_sent : bool; no_status_sent : str }.
Definition Notifications_new : Notifications := mkNotifications false [].

(** The message that [update] would send. *)
Definition update_message (n : Notifications) (ready : bool) (status : str) : str :=
  (if ready && negb (no_ready_sent n) then lit "READY=1" ++ [10] else []) ++
  (if bool_decide (status = no_status_sent n) then [] else lit "STATUS=" ++ status ++ [10]).

Section update.
Context {W : Type} (send : str -> W -> Sent * W).

(** The notifications, whether a message is pending, the socket. *)
Definition Notifications_update (n : Notifications) (ready : bool) (status : str) (w : W) : Notifications * bool * W :=
  let message := update_message n ready status in
  if bool_decide (message = []) then (n, false, w) else
  match send message w with
  | (Sent_Done, w) => (mkNotifications (no_ready_sent n || ready && negb (no_ready_sent n)) status, false, w)
  | (Sent_Again, w) => (n, true, w)
  end.
End update.

(** ** Lemmas *)

(** A socket with a log of the messages it took, and the answers it gives. *)
Record Socket := mkSocket { so_taken : list str; so_answers : list Sent }.
Definition Socket_send (m : str) (s : Socket) : Sent * Socket :=
  match so_answers s with
  | Sent_Again :: rest => (Sent_Again, mkSocket (so_taken s) rest)
  | Sent_Done :: rest => (Sent_Done, mkSocket (so_taken s ++ [m]) rest)
  | [] => (Sent_Done, mkSocket (so_taken s ++ [m]) [])
  end.

(** A series of updates. *)
Definition updates (l : list (bool * str)) (s : Socket) : Notifications * bool * Socket :=
  foldl (fun '(n, _, s) '(ready, status) => Notifications_update Socket_send n ready status s)
    (Notifications_new, false, s) l.

Definition announces_ready (m : str) : bool := bool_decide (take 8 m = lit "READY=1" ++ [10]).

Lemma update_message_nil n ready status : update_message n ready status = [] <->
  (ready && negb (no_ready_sent n) = false /\ status = no_status_sent n).
Proof.
  unfold update_message. destruct (ready && negb (no_ready_sent n)); case_bool_decide; simpl; naive_solver.
Qed.

Lemma update_message_ready n ready status :
  announces_ready (update_message n ready status) = ready && negb (no_ready_sent n).
Proof.
  unfold announces_ready, update_message. destruct (ready && negb (no_ready_sent n)); [reflexivity|].
  destruct (bool_decide (status = no_status_sent n)); reflexivity.
Qed.

Lemma updates_snoc l ready status s : updates (l ++ [(ready, status)]) s =
  let '(n, _, s) := updates l s in Notifications_update Socket_send n ready status s.
Proof. unfold updates. rewrite foldl_app. simpl. by destruct (foldl _ _ l) as [[n p] s']. Qed.

(** How many of the messages taken announce readiness. *)
Definition ready_count (l : list str) : nat := length (List.filter announces_ready l).

(** ** Theorems *)

(** whatever the socket answers, a series of updates delivers [READY=1]
    exactly once if readiness was told and never otherwise, and reports a
    pending message exactly when the last status or a requested readiness
    could not be delivered: with nothing pending, the status last delivered
    is the current one and a readiness asked for now has been delivered. *)
Theorem notifications_deliver (l : list (bool * str)) (ready : bool) (status : str) (answers : list Sent) :
  let '(n, pending, s) := updates (l ++ [(ready, status)]) (mkSocket [] answers) in
  ready_count (so_taken s) = (if no_ready_sent n then 1 else 0)%nat /\
  (no_ready_sent n = true -> exists r st, (r, st) ∈ l ++ [(ready, status)] /\ r = true) /\
  (pending = false <-> no_status_sent n = status /\ (ready = true -> no_ready_sent n = true)).
Proof.
  assert (Hinv : forall l, let '(n, _, s) := updates l (mkSocket [] answers) in
    ready_count (so_taken s) = (if no_ready_sent n then 1 else 0)%nat /\
    (no_ready_sent n = true -> exists r st, (r, st) ∈ l /\ r = true)).
  { clear. intros l. induction l as [|[r st] l IH] using rev_ind; [done|]. rewrite updates_snoc.
    destruct (updates l _) as [[n p] s]. destruct IH as [IHc IHr].
    assert (Hold : no_ready_sent n = true -> exists r' st', (r', st') ∈ l ++ [(r, st)] /\ r' = true).
    { intros (r' & st' & Hin & ?)%IHr. exists r', st'. set_solver. }
    unfold Notifications_update. case_bool_decide; [done|]. unfold Socket_send.
    pose proof (update_message_ready n r st) as Hm.
    assert (Htake : ready_count (so_taken s ++ [update_message n r st]) =
      (if no_ready_sent n || r && negb (no_ready_sent n) then 1 else 0)%nat).
    { unfold ready_count in *. rewrite List.filter_app, length_app, IHc. simpl. rewrite Hm.
      by destruct (no_ready_sent n), r. }
    destruct (so_answers s) as [|[] rest]; simpl; (split; [done|]); try done;
      (destruct (no_ready_sent n) eqn:En; simpl; [by auto|]); rewrite andb_true_r; intros ->;
      exists true, st; set_solver. }
  pose proof (Hinv (l ++ [(ready, status)])) as Hall. rewrite updates_snoc in *.
  destruct (updates l _) as [[n p] s]. unfold Notifications_update in *.
  pose proof (update_message_nil n ready status) as Hn. case_bool_decide as Em.
  - destruct Hall as [? ?]. split_and!; [done..|]. apply Hn in Em as [Hr Hs]. split; [|done]. intros _.
    split; [done|]. intros ->. by destruct (no_ready_sent n).
  - unfold Socket_send in *.
    destruct (so_answers s) as [|[] rest]; destruct Hall as [? ?]; (split_and!; [done..|]); simpl.
    1,2: split; [|done]; intros _; split; [done|]; intros ->; by destruct (no_ready_sent n).
    split; [done|]. intros [Hs Hr]. exfalso. apply Em, Hn. split; [|done].
    destruct ready; [|done]. by rewrite Hr.
Qed.
