(* ===== verification/Checks.v ===== *)
(** * Prerequisite checks

    Models crates/polywan/src/checks.rs: what startup, [check-config] and a
    reload verify before anything is changed.  A diagnostic is the data its
    text is rendered from ([Finding]).  The file system, the accounts and
    the settings the checks read are the record [Host]. *)

From stdpp Require Import prelude gmap sorting.
From Stdlib Require Import ZArith Lia.
From S2P Require Import Prelude Text Model Durations Config Plan Msg Netlink System Reconcile Discover StateFiles Nft.

Local Open Scope Z_scope.

(** ** Diagnostics *)

Inductive Finding :=
  | F_Kernel (osrelease : str)
  | F_Nftables (version : str)
  | F_NotDirectory (path : PathBuf)
  | F_NotRegular (what : str) (path : PathBuf)
  | F_NotExecutable (what : str) (path : PathBuf)
  | F_NotRoot (what : str) (path : PathBuf)
  | F_Writable (what : str) (path : PathBuf) (mode : u32)
  | F_Path (what : str) (path : PathBuf) (e : ErrorKind)
  | F_NoGroup (key group : str)
  | F_GroupLookup (key group : str) (e : ErrorKind)
  | F_HookUidZero (user : str)
  | F_HookGidZero (user : str)
  | F_NoUser (user : str)
  | F_UserLookup (e : ErrorKind)
  | F_Descriptors (fds : list i32)
  | F_NotAdoptable (family : Family) (priority : u32)
  | F_NoLocalRule (family : Family)
  | F_RuleCollision (family : Family) (priority : u32) (protocol : u8) (range : u32 * u32)
  | F_Precedes (family : Family) (priority : u32) (l3mdev : bool)
  | F_ForeignRoute (family : Family) (table : u32) (protocol : u8)
  | F_AcceptRa (uplink interface : str) (polywan_enables_forwarding : bool)
  | F_TargetLocal (uplink : str) (family : Family) (t : Target) (interface : str)
  | F_TargetDownlink (uplink : str) (family : Family) (t : Target) (network : IpAddr) (len : u8) (interface : str)
  | F_NoDownlink (name : str)
  | F_DownlinkPrefix (name : str) (network : IpAddr) (len : u8)
  | F_Flowtable (flowtable selector role name : str)
  | F_Notrack (chain : str)
  | F_SourceNat (chain : str)
  | F_Networkd (key : str)
  | F_RulesetUnread (e : str)
  | F_Setting (key current wanted : str) (managed : bool).

Record Findings := mkFindings { errors : list Finding; warnings : list Finding }.

Definition Findings_default : Findings := mkFindings [] [].
Definition Findings_extend (f other : Findings) : Findings :=
  mkFindings (errors f ++ errors other) (warnings f ++ warnings other).
Definition Findings_error (e : Finding) : Findings := mkFindings [e] [].

(** ** Versions *)

(** [str::split] on characters that are not digits. *)
Fixpoint split_digits (s : str) : list str :=
  match s with
  | [] => [[]]
  | c :: s =>
      if is_ascii_digit c
      then match split_digits s with w :: ws => (c :: w) :: ws | [] => [[c]] end
      else [] :: split_digits s
  end.

Definition version (text : str) : option (u32 * u32 * u32) :=
  let parts := List.filter (fun p => negb (bool_decide (p = []))) (split_digits text) in
  major ← parts !! 0%nat ≫= parse_unsigned 32;
  minor ← parts !! 1%nat ≫= parse_unsigned 32;
  Some (major, minor, default 0 (parts !! 2%nat ≫= parse_unsigned 32)).

Definition kernel (osrelease : str) : Findings :=
  match version osrelease with
  | Some (ma, mi, _) => if cmp_leb (6, 1) (ma, mi) then Findings_default else Findings_error (F_Kernel osrelease)
  | None => Findings_error (F_Kernel osrelease)
  end.

(** [str::split_whitespace]; [word] is the word read so far. *)
Fixpoint split_words (s word : str) : list str :=
  match s with
  | [] => if bool_decide (word = []) then [] else [word]
  | c :: s =>
      if is_whitespace c
      then if bool_decide (word = []) then split_words s [] else word :: split_words s []
      else split_words s (word ++ [c])
  end.

Definition nftables (version_output : str) : Findings :=
  match find_first (starts_with (lit "v")) (split_words version_output []) ≫= (fun w => version (drop 1 w)) with
  | Some (ma, mi, pa) =>
      if cmp_leb (1, (0, 6)) (ma, (mi, pa)) then Findings_default else Findings_error (F_Nftables (str_trim version_output))
  | None => Findings_error (F_Nftables (str_trim version_output))
  end.

(** ** The host *)

Record Metadata := mkMetadata { md_uid : u32; md_mode : u32; md_is_dir : bool; md_is_file : bool }.

Record User := mkUser { us_uid : u32; us_gid : u32 }.

(** What the checks read.  An absolute path is the list of its components;
    [absolute] is [std::path::absolute]. *)
Record Host := mkHost {
  absolute : PathBuf -> result PathBuf ErrorKind;
  symlink_target : list str -> result (option PathBuf) ErrorKind;
  symlink_metadata_ok : PathBuf -> bool;
  metadata : PathBuf -> result Metadata ErrorKind;
  group : str -> result (option u32) ErrorKind;
  user : str -> result (option User) ErrorKind
}.

Inductive Component := RootDir | ParentDir | CurDir | Normal (n : str).

#[export] Instance Component_eq_dec : EqDecision Component.
Proof. solve_decision. Defined.

(** [Path::components]: repeated separators and a [.] that is not first are
    skipped. *)
Definition component (w : str) : option Component :=
  if bool_decide (w = []) || bool_decide (w = lit ".") then None
  else if bool_decide (w = lit "..") then Some ParentDir else Some (Normal w).

Definition components (p : PathBuf) : list Component :=
  match p with
  | 47 :: rest => RootDir :: omap component (split_on 47 rest)
  | _ => match split_on 47 p with
         | w :: ws => (if bool_decide (w = lit ".") then [CurDir] else option_list (component w)) ++ omap component ws
         | [] => []
         end
  end.

(** The absolute path of its components. *)
Definition path_text (c : list str) : PathBuf :=
  match c with [] => lit "/" | _ => concat ((fun n => lit "/" ++ n) <$> c) end.

Definition TooManyLinks : ErrorKind := OtherError 40.

(** The components that are pushed: without [CurDir]. *)
Definition pushed (p : PathBuf) : list Component :=
  List.filter (fun c => negb (bool_decide (c = CurDir))) (components p).

(** The loop of [traversed]: [links] symbolic links may still be followed,
    [rest] is still to resolve (next first), [cur] is the place reached. *)
Fixpoint traverse (link : list str -> result (option PathBuf) ErrorKind) (links : nat)
    : list Component -> list str -> list (list str) -> result (list (list str)) ErrorKind :=
  fix loop (rest : list Component) (cur : list str) (out : list (list str)) :=
    match rest with
    | [] => Ok out
    | RootDir :: rest => loop rest [] out
    | ParentDir :: rest => loop rest (removelast cur) out
    | CurDir :: rest => loop rest cur out
    | Normal c :: rest =>
        let next := cur ++ [c] in
        match link next with
        | Err e => Err e
        | Ok (Some target) =>
            match links with
            | O => Err TooManyLinks
            | S links => traverse link links (pushed target ++ rest) cur out
            end
        | Ok None => loop rest next (if bool_decide (next ∈ out) then out else out ++ [next])
        end
    end.

Definition traversed (path : PathBuf) (link : list str -> result (option PathBuf) ErrorKind)
    : result (list (list str)) ErrorKind :=
  traverse link 40 (pushed path) [] [[]].

(** Bits of a file's mode. *)
Definition GROUP_OTHER_WRITE : u32 := 18. (* 0o022 *)
Definition PERMISSIONS : u32 := 4095. (* 0o7777 *)
Definition ANY_EXECUTE : u32 := 73. (* 0o111 *)

(** The check of one file or directory. *)
Definition ownership_of (h : Host) (what : str) (cur : list str) : list Finding :=
  let cur := path_text cur in
  match metadata h cur with
  | Ok m =>
      if negb (md_uid m =? 0) then [F_NotRoot what cur]
      else if negb (Z.land (md_mode m) GROUP_OTHER_WRITE =? 0) then [F_Writable what cur (Z.land (md_mode m) PERMISSIONS)]
      else []
  | Err e => [F_Path what cur e]
  end.

Definition ownership (h : Host) (path : PathBuf) (what : str) : Findings :=
  match match absolute h path with Ok p => traversed p (symlink_target h) | Err e => Err e end with
  | Err e => Findings_error (F_Path what path e)
  | Ok t => mkFindings (concat (ownership_of h what <$> t)) []
  end.

Definition executable (h : Host) (path : PathBuf) (what : str) : Findings :=
  let f := ownership h path what in
  match errors f with
  | [] =>
      match metadata h path with
      | Ok m =>
          if negb (md_is_file m) then Findings_error (F_NotRegular what path)
          else if Z.land (md_mode m) ANY_EXECUTE =? 0 then Findings_error (F_NotExecutable what path)
          else f
      | Err e => Findings_error (F_Path what path e)
      end
  | _ => f
  end.

(** [Path::parent] of an absolute path: without its last component, [None]
    for the root. *)
Definition parent (p : list Component) : option (list Component) :=
  match p with [] | [RootDir] => None | _ => Some (removelast p) end.

Definition component_text (c : Component) : str :=
  match c with RootDir => lit "/" | ParentDir => lit ".." | CurDir => lit "." | Normal n => n end.
Definition components_path (l : list Component) : PathBuf :=
  match l with
  | RootDir :: l => lit "/" ++ str_join (lit "/") (component_text <$> l)
  | l => str_join (lit "/") (component_text <$> l)
  end.

(** The loop of [state_directory]: the existing directory; [fuel] is the
    number of components. *)
Fixpoint existing (h : Host) (fuel : nat) (p : list Component) : list Component :=
  match fuel with
  | O => p
  | S fuel =>
      if symlink_metadata_ok h (components_path p) then p
      else match parent p with Some q => existing h fuel q | None => p end
  end.

Definition state_directory (h : Host) (path : PathBuf) : Findings :=
  let c := components path in
  let e := existing h (length c) c in
  let f := ownership h (components_path e) (lit "state_dir") in
  if bool_decide (errors f = []) && bool_decide (e = c) &&
     negb (match metadata h path with Ok m => md_is_dir m | Err _ => false end)
  then Findings_error (F_NotDirectory path) else f.

Definition trusted (h : Host) (config_path : PathBuf) (config : Config) : Findings :=
  let f := ownership h config_path (lit "configuration") in
  let f := Findings_extend f (state_directory h (cf_state_dir config)) in
  let f := Findings_extend f (executable h (fw_nft_path (cf_firewall config)) (lit "firewall.nft_path")) in
  match nt_email (cf_notify config) with
  | Some e => Findings_extend f (executable h (em_sendmail e) (lit "notify.email.sendmail"))
  | None => f
  end.

(** ** Accounts *)

Definition check_group (h : Host) (name key : str) : list Finding * list Finding :=
  match group h name with
  | Ok (Some _) => ([], [])
  | Ok None => ([F_NoGroup key name], [])
  | Err e => ([], [F_GroupLookup key name e])
  end.

Definition both (a b : list Finding * list Finding) : list Finding * list Finding := (a.1 ++ b.1, a.2 ++ b.2).

Definition accounts (h : Host) (config : Config) : list Finding * list Finding :=
  let api := cf_api config in
  let notify := cf_notify config in
  both (both (check_group h (api_group api) (lit "api.group"))
    (match api_status_socket api, api_status_group api with
     | Some _, Some g => check_group h g (lit "api.status_group")
     | _, _ => ([], [])
     end))
    (if bool_decide (nt_hooks notify = []) then ([], []) else
     match user h (nt_hook_user notify) with
     | Ok (Some u) =>
         if us_uid u =? 0 then ([F_HookUidZero (nt_hook_user notify)], [])
         else if us_gid u =? 0 then ([F_HookGidZero (nt_hook_user notify)], [])
         else ([], [])
     | Ok None => ([F_NoUser (nt_hook_user notify)], [])
     | Err e => ([], [F_UserLookup e])
     end).

Definition identities (h : Host) (config : Config) : Findings :=
  let '(refused, failed) := accounts h config in mkFindings (refused ++ failed) [].

(** [subprocess::descriptor_errors]. *)
Definition descriptor_errors (config : Config) (inherited : list i32) : list Finding :=
  let notify := cf_notify config in
  if bool_decide (inherited = []) || (bool_decide (nt_hooks notify = []) && negb (bool_decide (is_Some (nt_email notify))))
  then [] else [F_Descriptors inherited].

Record Runnable := mkRunnable { refused : list Finding; failed : list Finding }.
Definition Runnable_errors (r : Runnable) : list Finding := refused r ++ failed r.

Definition runnable (h : Host) (config_path : PathBuf) (config : Config) (inherited : list i32) : Runnable :=
  match errors (trusted h config_path config) with
  | [] =>
      match accounts h config with
      | ([], []) => mkRunnable [] (descriptor_errors config inherited)
      | (refused, failed) => mkRunnable refused failed
      end
  | e => mkRunnable e []
  end.

(** ** The observed system *)

Definition adoptable (system : System) (layout : Layout) (protocol : u8) : Findings :=
  mkFindings (concat ((fun family =>
    (fun r => F_NotAdoptable family (or_priority r)) <$>
      List.filter (fun r => bool_decide (or_family r = family) && (or_protocol r =? protocol) &&
          range_contains (priorities layout) (or_priority r) && negb (has_role layout r)) (sys_rules system)) <$>
    Family_ALL)) [].

(** The checks of one rule: an error, or a warning. *)
Definition routing_rule (layout : Layout) (protocol : u8) (family : Family) (r : ObservedRule) : Findings :=
  if range_contains (priorities layout) (or_priority r) && negb (or_protocol r =? protocol) && negb (or_l3mdev r)
  then Findings_error (F_RuleCollision family (or_priority r) (or_protocol r) (priorities layout))
  else if or_l3mdev r || ((0 <? or_priority r) && (or_priority r <? l_priority_base layout))
  then mkFindings [] [F_Precedes family (or_priority r) (or_l3mdev r)]
  else Findings_default.

Definition routing_family (system : System) (layout : Layout) (protocol : u8) (family : Family) : Findings :=
  let rules := List.filter (fun r => bool_decide (or_family r = family)) (sys_rules system) in
  let local := existsb (fun r => (or_priority r =? 0) && bool_decide (or_action r = OA_Lookup 255 None)) rules in
  let f := if local then Findings_default else Findings_error (F_NoLocalRule family) in
  let f := foldl (fun f r => Findings_extend f (routing_rule layout protocol family r)) f rules in
  Findings_extend f (mkFindings ((fun r => F_ForeignRoute family (ort_table r) (ort_protocol r)) <$>
    List.filter (fun r => bool_decide (ort_family r = family) && range_contains (tables layout) (ort_table r) &&
      negb (ort_protocol r =? protocol)) (btree_values (sys_routes system))) []).

Definition routing (system : System) (layout : Layout) (protocol : u8) (families : list Family) : Findings :=
  foldl (fun f family => Findings_extend f (routing_family system layout protocol family)) Findings_default families.

(** [read] reads a key below /proc/sys. *)
Definition conf6 (interface name : str) : str := lit "net/ipv6/conf/" ++ interface ++ lit "/" ++ name.

Definition accept_ra (config : Config) (read : str -> result str ErrorKind) : Findings :=
  mkFindings [] (concat ((fun u =>
    if negb (match Uplink_path u V6 with Some p => bool_decide (ps_gateway p = Auto) | None => false end) then [] else
    if negb (match read (conf6 (u_interface u) (lit "accept_ra")) with
             | Ok v => bool_decide (v = lit "1") | Err _ => false end) then [] else
    let enabled := match read (conf6 (u_interface u) (lit "forwarding")) with
                   | Ok v => bool_decide (v = lit "1") | Err _ => false end in
    if rt_manage_sysctls (cf_routing config) || enabled then [F_AcceptRa (u_name u) (u_interface u) (negb enabled)] else [])
    <$> cf_uplinks config)).

Inductive GatewayCause := Cause_AcceptRaOne (interface : str) | Cause_AcceptRaZero | Cause_NoAdvertisement.

Definition gateway_causes (interface : str) (read : str -> result str ErrorKind) : GatewayCause :=
  let setting name := match read (conf6 interface name) with Ok v => v | Err _ => [] end in
  if bool_decide (setting (lit "accept_ra") = lit "1") && bool_decide (setting (lit "forwarding") = lit "1")
  then Cause_AcceptRaOne interface
  else if bool_decide (setting (lit "accept_ra") = lit "0") then Cause_AcceptRaZero
  else Cause_NoAdvertisement.

Record LocalAddress := mkLocalAddress { la_address : IpAddr; la_prefix_len : u8; la_interface : str }.

Definition local_addresses (system : System) : list LocalAddress :=
  omap (fun a => l ← sys_links system !! oa_index a; Some (mkLocalAddress (oa_address a) (oa_prefix_len a) (ol_name l)))
    (btree_values (sys_addresses system)).

(** [<<] on [u32] and [u128]. *)
Definition network (a : IpAddr) (len : u8) : IpAddr :=
  match a with
  | IpV4 n => IpV4 (Z.land n (if len =? 0 then 0 else wrap 32 (Z.shiftl (2 ^ 32 - 1) (32 - Z.min len 32))))
  | IpV6 n => IpV6 (Z.land n (if len =? 0 then 0 else wrap 128 (Z.shiftl (2 ^ 128 - 1) (128 - Z.min len 128))))
  end.

Definition target_error (locals : list LocalAddress) (config : Config) (u : Uplink) (family : Family) (t : Target)
    : list Finding :=
  let a := Target_addr t in
  match find_first (fun l => bool_decide (la_address l = a)) locals with
  | Some l => [F_TargetLocal (u_name u) family t (la_interface l)]
  | None =>
      match find_first (fun l => existsb (fun d => bool_decide (d = la_interface l)) (cf_downlinks config) &&
              contains (la_address l) (la_prefix_len l) a) locals with
      | Some l => [F_TargetDownlink (u_name u) family t (network (la_address l) (la_prefix_len l)) (la_prefix_len l)
                     (la_interface l)]
      | None => []
      end
  end.

Definition targets (locals : list LocalAddress) (config : Config) : list Finding :=
  concat ((fun u => concat ((fun family => concat (target_error locals config u family <$>
    HealthConf_targets (u_health u) family)) <$> Uplink_families u)) <$> cf_uplinks config).

Definition downlink_prefix (system : System) (d : str) (link : ObservedLink) (a : ObservedAddress) : list Finding :=
  let net := network (oa_address a) (oa_prefix_len a) in
  let covered := existsb (fun r => bool_decide (ort_destination r = Some (net, oa_prefix_len a)) &&
    existsb (fun h => oh_ifindex h =? ol_index link) (ort_nexthops r)) (routes_in system (oa_family a) TABLE_MAIN) in
  if negb covered && (oa_prefix_len a <? host_len (oa_address a)) then [F_DownlinkPrefix d net (oa_prefix_len a)] else [].

Definition downlinks (system : System) (config : Config) : Findings :=
  mkFindings [] (concat ((fun d =>
    match link_by_name system d with
    | None => [F_NoDownlink d]
    | Some link => concat (downlink_prefix system d link <$>
        List.filter (fun a => (oa_index a =? ol_index link) && address_global a) (btree_values (sys_addresses system)))
    end) <$> cf_downlinks config)).

(** ** The nftables ruleset *)

Definition strip_suffix_star (s : str) : option str :=
  match last s with Some c => if c =? 42 then Some (removelast s) else None | None => None end.

Definition selects (selector name : str) : bool :=
  match strip_suffix_star selector with
  | Some prefix => starts_with prefix name
  | None => bool_decide (selector = name)
  end.

Definition flowtables (r : Value) (config : Config) : list Finding :=
  let interfaces := ((fun u => (u_interface u, lit "uplink")) <$> cf_uplinks config) ++
                    ((fun d => (d, lit "downlink")) <$> cf_downlinks config) in
  concat ((fun '(ft, selector) => concat ((fun '(name, role) =>
    if selects selector name then [F_Flowtable ft selector role name] else []) <$> interfaces)) <$> flowtable_devices r).

(** [checks::ruleset]. *)
Definition ruleset_findings (r : Value) (config : Config) : Findings :=
  mkFindings (flowtables r config) ((F_Notrack <$> notrack_chains r) ++ (F_SourceNat <$> source_nat_chains r)).

(** ** systemd-networkd *)

Definition split_once (c : Z) (s : str) : option (str * str) :=
  match drop_while (fun d => negb (d =? c)) s with
  | [] => None
  | _ :: rest => Some (take_while (fun d => negb (d =? c)) s, rest)
  end.

(** The name of a section header. *)
Definition section_header (l : str) : option str :=
  match l with
  | 91 :: rest => match last rest with Some c => if c =? 93 then Some (removelast rest) else None | None => None end
  | _ => None
  end.

(** One line of a configuration file of systemd-networkd, after [trim]; the
    state is the current section and the settings. *)
Definition networkd_line (s : str * gmap str str) (l : str) : str * gmap str str :=
  let '(sect, settings) := s in
  if starts_with (lit "#") l || starts_with (lit ";") l || bool_decide (l = []) then s else
  match section_header l with
  | Some sect => (sect, settings)
  | None =>
      match split_once 61 l with
      | Some (k, v) => if bool_decide (sect = lit "Network") then (sect, <[str_trim k := str_trim v]> settings) else s
      | None => s
      end
  end.

(** The texts of the files that apply, in order; an unreadable file is
    skipped.  [main] is the first main file's, [dropins] each directory's
    drop-ins in the order of [CONF_DIRS], [None] for a directory that cannot
    be read. *)
Definition CONF_DIRS : list str := [lit "etc"; lit "run"; lit "usr/local/lib"; lit "usr/lib"].

Definition ends_with_conf (name : str) : bool := starts_with (rev (lit ".conf")) (rev name).

Definition dropin_files {P} (dirs : list (option (list (str * P)))) : gmap str P :=
  foldl (fun m d => foldl (fun m '(name, p) =>
      if ends_with_conf name then match m !! name with Some _ => m | None => <[name := p]> m end else m) m (default [] d))
    ∅ dirs.

Definition networkd_settings (main : option (option str)) (dirs : list (option (list (str * option str))))
    : gmap str str :=
  let files := option_list main ++ btree_values (dropin_files dirs) in
  foldl (fun settings file =>
      match file with
      | None => settings
      | Some text => (foldl networkd_line ([], settings) (str_trim <$> str_lines text)).2
      end) ∅ files.

Definition to_ascii_lowercase (s : str) : str := (fun c => if is_ascii_uppercase c then c + 32 else c) <$> s.

Definition parse_bool (v : str) : option bool :=
  let l := to_ascii_lowercase v in
  if existsb (fun w => bool_decide (l = w)) [lit "1"; lit "yes"; lit "y"; lit "true"; lit "t"; lit "on"] then Some true
  else if existsb (fun w => bool_decide (l = w)) [lit "0"; lit "no"; lit "n"; lit "false"; lit "f"; lit "off"] then Some false
  else None.

Definition networkd (settings : gmap str str) : Findings :=
  mkFindings (concat ((fun key =>
    if default true (settings !! key ≫= parse_bool) then [F_Networkd key] else []) <$>
    [lit "ManageForeignRoutingPolicyRules"; lit "ManageForeignRoutes"])) [].

Definition real_uid (status : str) : option u32 :=
  l ← head (omap (strip_prefix (lit "Uid:")) (str_lines status));
  w ← head (split_words l []);
  parse_unsigned 32 w.

(** ** Path resolution *)

(** What the loop collects: the places passed through, each once. *)
Definition collect (out v : list (list str)) : list (list str) :=
  foldl (fun out p => if bool_decide (p ∈ out) then out else out ++ [p]) out v.

Lemma collect_elem_of out v p : p ∈ collect out v <-> p ∈ out \/ p ∈ v.
Proof.
  revert out. induction v as [|q v IH]; intros out; simpl; [set_solver|]. rewrite IH.
  case_bool_decide; set_solver.
Qed.
Section resolution.
Context (link : list str -> result (option PathBuf) ErrorKind).

(** Resolving the components [rest] from [cur]: the files and directories
    passed through, symbolic links left out, and the number of links
    followed. *)
Inductive resolves : list str -> list Component -> list (list str) -> nat -> Prop :=
  | resolves_done cur : resolves cur [] [] 0
  | resolves_root cur rest v n : resolves [] rest v n -> resolves cur (RootDir :: rest) v n
  | resolves_parent cur rest v n : resolves (removelast cur) rest v n -> resolves cur (ParentDir :: rest) v n
  | resolves_cur cur rest v n : resolves cur rest v n -> resolves cur (CurDir :: rest) v n
  | resolves_link cur c rest target v n :
      link (cur ++ [c]) = Ok (Some target) -> resolves cur (components target ++ rest) v n ->
      resolves cur (Normal c :: rest) v (S n)
  | resolves_file cur c rest v n :
      link (cur ++ [c]) = Ok None -> resolves (cur ++ [c]) rest v n ->
      resolves cur (Normal c :: rest) ((cur ++ [c]) :: v) n.

(** A [CurDir] changes nothing, wherever it stands. *)
Definition drop_cur (l : list Component) : list Component :=
  List.filter (fun c => negb (bool_decide (c = CurDir))) l.

Lemma resolves_head cur c r l v n : c <> CurDir -> drop_cur l = c :: r ->
  (forall l', drop_cur l' = r -> resolves cur (c :: l') v n) -> resolves cur l v n.
Proof.
  intros Hc. induction l as [|d l IH]; simpl; [done|]. case_bool_decide as Hd; simpl.
  - subst d. intros E H. constructor. by apply IH.
  - intros [= -> E] H. by apply H.
Qed.

Lemma resolves_drop_cur cur l v n : resolves cur l v n -> forall k, drop_cur k = drop_cur l -> resolves cur k v n.
Proof.
  induction 1 as [cur|cur rest v n H IH|cur rest v n H IH|cur rest v n H IH|cur c rest target v n Hl H IH
                 |cur c rest v n Hl H IH]; intros k E; simpl in E; [|by eapply resolves_head; [|done|]; eauto using resolves..| | |].
  - induction k as [|d k IHk]; [constructor|]. simpl in E. case_bool_decide; simpl in E; [|done]. subst d.
    constructor. by apply IHk.
  - by apply IH.
  - eapply resolves_head; [|done|]; [done|]. intros l' El. eapply resolves_link; [done|]. apply IH.
    unfold drop_cur. rewrite !List.filter_app. fold (drop_cur l') (drop_cur rest). by rewrite El.
  - eapply resolves_head; [|done|]; [done|]. intros l' El. by apply resolves_file, IH.
Qed.

Lemma resolves_pushed cur target rest v n :
  resolves cur (pushed target ++ rest) v n <-> resolves cur (components target ++ rest) v n.
Proof.
  assert (E : drop_cur (pushed target ++ rest) = drop_cur (components target ++ rest)).
  { unfold pushed. fold (drop_cur (components target)). unfold drop_cur. rewrite !List.filter_app. f_equal.
    induction (components target) as [|c l IH]; simpl; [done|].
    destruct (negb (bool_decide (c = CurDir))) eqn:E; simpl; rewrite ?E; by rewrite IH. }
  split; intros H; by eapply resolves_drop_cur.
Qed.

Lemma traverse_sound links rest cur out t : traverse link links rest cur out = Ok t ->
  exists v n, resolves cur rest v n /\ (n <= links)%nat /\ t = collect out v.
Proof.
  revert rest cur out. induction links as [links IHl] using lt_wf_ind. intros rest.
  induction rest as [|c rest IH]; intros cur out.
  { destruct links; intros [= <-]; (exists [], 0%nat; split_and!; [constructor|lia|done]). }
  assert (Hr : traverse link links (c :: rest) cur out =
    match c with
    | RootDir => traverse link links rest [] out
    | ParentDir => traverse link links rest (removelast cur) out
    | CurDir => traverse link links rest cur out
    | Normal c =>
        match link (cur ++ [c]) with
        | Err e => Err e
        | Ok (Some target) =>
            match links with
            | O => Err TooManyLinks
            | S links => traverse link links (pushed target ++ rest) cur out
            end
        | Ok None => traverse link links rest (cur ++ [c]) (if bool_decide (cur ++ [c] ∈ out) then out else out ++ [cur ++ [c]])
        end
    end) by (destruct links; done).
  rewrite Hr. destruct c as [| | |c].
  - intros (v & n & H & Hn & ->)%IH. exists v, n. by split; [constructor|].
  - intros (v & n & H & Hn & ->)%IH. exists v, n. by split; [constructor|].
  - intros (v & n & H & Hn & ->)%IH. exists v, n. by split; [constructor|].
  - destruct (link (cur ++ [c])) as [[target|]|e] eqn:El; [| |done].
    + destruct links as [|links]; [done|]. intros (v & n & H & Hn & ->)%IHl; [|lia].
      exists v, (S n). split_and!; [|lia|done]. eapply resolves_link; [done|]. by apply resolves_pushed.
    + intros (v & n & H & Hn & ->)%IH. exists ((cur ++ [c]) :: v), n. by split; [apply resolves_file|].
Qed.

End resolution.

(** C13: A path that passes the ownership check is out of reach of other
    users: its resolution, through at most 40 symbolic links, passes only
    through files and directories, the root directory included, that belong
    to root and that neither their group nor others can write. *)
Theorem ownership_trusts h path what p : absolute h path = Ok p -> errors (ownership h path what) = [] ->
  exists places n, resolves (symlink_target h) [] (components p) places n /\ (n <= 40)%nat /\
    forall d, d ∈ [] :: places -> exists m, metadata h (path_text d) = Ok m /\
      md_uid m = 0 /\ Z.land (md_mode m) GROUP_OTHER_WRITE = 0.
Proof.
  unfold ownership. intros ->. destruct (traversed p (symlink_target h)) as [t|e] eqn:Et; [|done].
  apply traverse_sound in Et as (v & n & Hr & Hn & ->). cbn [errors]. intros He.
  exists v, n. split_and!; [|done|].
  - rewrite <- (app_nil_r (components p)). apply resolves_pushed. by rewrite app_nil_r.
  - intros d Hd. assert (Hin : d ∈ collect [[]] v).
    { apply collect_elem_of. apply elem_of_cons in Hd as [->|Hd]; [left|by right]. by apply list_elem_of_singleton. }
    assert (E : ownership_of h what d = []).
    { destruct (ownership_of h what d) as [|f l] eqn:E; [done|]. exfalso.
      assert (Hf : f ∈ concat (ownership_of h what <$> collect [[]] v)); [|rewrite He in Hf; by apply not_elem_of_nil in Hf].
      apply list_elem_of_In, in_concat. exists (ownership_of h what d). rewrite E. split; [|by left].
      rewrite <- E. by apply list_elem_of_In, list_elem_of_fmap_2. }
    unfold ownership_of in E. destruct (metadata h (path_text d)) as [m|]; [|done]. exists m.
    destruct (Z.eqb_spec (md_uid m) 0); [|done]. simpl in E.
    destruct (Z.eqb_spec (Z.land (md_mode m) GROUP_OTHER_WRITE) 0); done.
Qed.

(** A host on which [/etc/polywan.toml] is a link to [/opt/c.toml]. *)
Module ChecksSample.
Definition root_file : Metadata := mkMetadata 0 33188 false true.
Definition host : Host :=
  mkHost Ok
    (fun p => if bool_decide (p = [lit "etc"; lit "polywan.toml"]) then Ok (Some (lit "../opt/./c.toml")) else Ok None)
    (fun _ => true) (fun _ => Ok root_file) (fun _ => Ok (Some 0)) (fun _ => Ok None).
End ChecksSample.

Lemma ownership_trusts_witness :
  errors (ownership ChecksSample.host (lit "/etc/polywan.toml") (lit "configuration")) = [] /\
  exists places n, resolves (symlink_target ChecksSample.host) [] (components (lit "/etc/polywan.toml")) places n /\
    (n <= 40)%nat /\ forall d, d ∈ [] :: places -> exists m, metadata ChecksSample.host (path_text d) = Ok m /\
      md_uid m = 0 /\ Z.land (md_mode m) GROUP_OTHER_WRITE = 0.
Proof.
  split; [by vm_compute|].
  by apply (ownership_trusts ChecksSample.host (lit "/etc/polywan.toml") (lit "configuration")); [|vm_compute].
Defined.
