(* ===== verification/InstanceLock.v ===== *)
(** * The instance lock, the boot clock and the state directory

    Models [InstanceLock::acquire], [boot_id], [boottime_ms] and
    [StateDir::open] of crates/polywan/src/state.rs.  Several processes (daemon, cleanup,
    forget-uplink, offline tests) acquire and release the lock of a path;
    every system call is a step of its own, so their calls interleave, and
    any call can fail.  Others may create what is not there yet, also in
    between.  The lock of a file belongs to the open file that took it and
    ends with it ([flock]).

    What is proved: no two processes hold the lock of one path; what is held
    is the regular file at the path, of the process's user and closed to
    others; a file that exists is never changed; a process that is alone
    gets the lock of a new or a trusted file. *)

From stdpp Require Import prelude gmap sorting.
From Stdlib Require Import ZArith Lia.
From S2P Require Import Prelude Text Durations Config StateFiles Checks.

Local Open Scope Z_scope.
Local Open Scope polywan_scope.

(** ** Files and processes *)

Inductive FileType := Type_Regular | Type_Symlink | Type_Other.
#[export] Instance FileType_eq_dec : EqDecision FileType.
Proof. solve_decision. Defined.

Record LockFile := mkLockFile { lf_type : FileType; lf_uid : u32; lf_mode : u32 }.
#[export] Instance LockFile_eq_dec : EqDecision LockFile.
Proof. solve_decision. Defined.

(** Where a process is in [acquire]. *)
Inductive Acquiring :=
  | Acq_Start (path : PathBuf)
  | Acq_Open (path : PathBuf)
  | Acq_Opened (path : PathBuf) (inode : nat)
  | Acq_Checked (path : PathBuf) (inode : nat)
  | Acq_Held (path : PathBuf) (inode : nat)
  | Acq_Failed (e : ErrorKind).

(** Directories, the names of files, the files, which process has the lock
    of a file, and the processes: their user, their umask and where they
    are. *)
Record LockProc := mkLockProc { lp_euid : u32; lp_umask : u32; lp_at : Acquiring }.
Record LockFs := mkLockFs {
  lk_dirs : gset PathBuf;
  lk_names : gmap PathBuf nat;
  lk_files : gmap nat LockFile;
  lk_locks : gmap nat nat;
  lk_procs : gmap nat LockProc
}.

Definition ELOOP : ErrorKind := OtherError 40.
Definition WouldBlock : ErrorKind := OtherError 11.
(** [io::Error::other] of a file that is not trusted. *)
Definition NotTrusted : ErrorKind := OtherError 0.

Definition LOCK_MODE : u32 := 384 (* 0o600 *).
Definition OTHERS : u32 := 63 (* 0o077 *).

Definition lock_trusted (euid : u32) (f : LockFile) : bool :=
  bool_decide (lf_type f = Type_Regular) && (lf_uid f =? euid) && (Z.land (lf_mode f) OTHERS =? 0).

(** ** Steps *)

Definition set_proc (pid : nat) (p : LockProc) (a : Acquiring) (fs : LockFs) : LockFs :=
  mkLockFs (lk_dirs fs) (lk_names fs) (lk_files fs) (lk_locks fs) (<[pid := mkLockProc (lp_euid p) (lp_umask p) a]> (lk_procs fs)).

(** The next call of a process: its failure if it fails; [parent] is
    [Path::parent]. *)
Definition acquire_step (parent : PathBuf -> option PathBuf) (pid : nat) (fault : option ErrorKind) (fs : LockFs) : LockFs :=
  match lk_procs fs !! pid with
  | None => fs
  | Some p =>
      let fail e := set_proc pid p (Acq_Failed e) fs in
      match lp_at p, fault with
      | Acq_Start path, _ =>
          match parent path with
          | None => set_proc pid p (Acq_Open path) fs
          | Some dir =>
              if bool_decide (dir ∈ lk_dirs fs) then set_proc pid p (Acq_Open path) fs else
              match fault with
              | Some e => fail e
              | None =>
                  set_proc pid p (Acq_Open path)
                    (mkLockFs ({[dir]} ∪ lk_dirs fs) (lk_names fs) (lk_files fs) (lk_locks fs) (lk_procs fs))
              end
          end
      | Acq_Open _, Some e | Acq_Opened _ _, Some e | Acq_Checked _ _, Some e => fail e
      | Acq_Open path, None =>
          match lk_names fs !! path with
          | Some i =>
              match lf_type <$> lk_files fs !! i with
              | Some Type_Symlink => fail ELOOP
              | _ => set_proc pid p (Acq_Opened path i) fs
              end
          | None =>
              if match parent path with Some dir => bool_decide (dir ∈ lk_dirs fs) | None => true end
              then
                let i := fresh (dom (lk_files fs)) in
                set_proc pid p (Acq_Opened path i)
                  (mkLockFs (lk_dirs fs) (<[path := i]> (lk_names fs))
                     (<[i := mkLockFile Type_Regular (lp_euid p) (Z.land LOCK_MODE (Z.lnot (lp_umask p)))]> (lk_files fs))
                     (lk_locks fs) (lk_procs fs))
              else fail NotFound
          end
      | Acq_Opened path i, None =>
          match lk_files fs !! i with
          | Some f => if lock_trusted (lp_euid p) f then set_proc pid p (Acq_Checked path i) fs else fail NotTrusted
          | None => fail NotFound
          end
      | Acq_Checked path i, None =>
          match lk_locks fs !! i with
          | Some _ => fail WouldBlock
          | None =>
              set_proc pid p (Acq_Held path i)
                (mkLockFs (lk_dirs fs) (lk_names fs) (lk_files fs) (<[i := pid]> (lk_locks fs)) (lk_procs fs))
          end
      | Acq_Held _ _, _ | Acq_Failed _, _ => fs
      end
  end.

(** The lock is dropped, or its process ends: the open file is closed. *)
Definition release (pid : nat) (fs : LockFs) : LockFs :=
  match lk_procs fs !! pid with
  | Some p =>
      mkLockFs (lk_dirs fs) (lk_names fs) (lk_files fs)
        (match lp_at p with Acq_Held _ i => delete i (lk_locks fs) | _ => lk_locks fs end) (delete pid (lk_procs fs))
  | None => fs
  end.

Definition begin_acquire (pid : nat) (euid umask : u32) (path : PathBuf) (fs : LockFs) : LockFs :=
  match lk_procs fs !! pid with
  | Some _ => fs
  | None =>
      mkLockFs (lk_dirs fs) (lk_names fs) (lk_files fs) (lk_locks fs) (<[pid := mkLockProc euid umask (Acq_Start path)]> (lk_procs fs))
  end.

(** Someone else creates a file of any kind at a free name. *)
Definition foreign_create (path : PathBuf) (f : LockFile) (fs : LockFs) : LockFs :=
  match lk_names fs !! path with
  | Some _ => fs
  | None =>
      let i := fresh (dom (lk_files fs)) in
      mkLockFs (lk_dirs fs) (<[path := i]> (lk_names fs)) (<[i := f]> (lk_files fs)) (lk_locks fs) (lk_procs fs)
  end.

Inductive lock_step (parent : PathBuf -> option PathBuf) : LockFs -> LockFs -> Prop :=
  | lock_begin pid euid umask path fs : lock_step parent fs (begin_acquire pid euid umask path fs)
  | lock_call pid fault fs : lock_step parent fs (acquire_step parent pid fault fs)
  | lock_release pid fs : lock_step parent fs (release pid fs)
  | lock_foreign path f fs : lock_step parent fs (foreign_create path f fs).

Definition LockFs_init (dirs : gset PathBuf) : LockFs := mkLockFs dirs ∅ ∅ ∅ ∅.

Definition holds (fs : LockFs) (pid : nat) (path : PathBuf) : Prop :=
  exists p i, lk_procs fs !! pid = Some p /\ lp_at p = Acq_Held path i.

(** The calls of one process, one after the other. *)
Definition acquire_alone (parent : PathBuf -> option PathBuf) (pid : nat) (euid umask : u32) (path : PathBuf) (fs : LockFs) : LockFs :=
  let call := acquire_step parent pid None in call (call (call (call (begin_acquire pid euid umask path fs)))).

(** ** The invariant *)

(** What a process relies on where it is. *)
Definition proc_ok (fs : LockFs) (p : LockProc) : Prop :=
  match lp_at p with
  | Acq_Opened path i => lk_names fs !! path = Some i
  | Acq_Checked path i | Acq_Held path i =>
      lk_names fs !! path = Some i /\ exists f, lk_files fs !! i = Some f /\ lock_trusted (lp_euid p) f = true
  | _ => True
  end.

Definition held_inode (p : LockProc) : option nat := match lp_at p with Acq_Held _ i => Some i | _ => None end.

Record lock_inv (fs : LockFs) : Prop := {
  li_names : forall path i, lk_names fs !! path = Some i -> i ∈ dom (lk_files fs);
  li_distinct : forall path path' i, lk_names fs !! path = Some i -> lk_names fs !! path' = Some i -> path = path';
  li_procs : map_Forall (fun _ => proc_ok fs) (lk_procs fs);
  li_locks : forall i pid, lk_locks fs !! i = Some pid <-> lk_procs fs !! pid ≫= held_inode = Some i
}.

(** Names and files are only added. *)
Definition grows (fs fs' : LockFs) : Prop := lk_names fs ⊆ lk_names fs' /\ lk_files fs ⊆ lk_files fs'.

Lemma proc_ok_grows fs fs' p : grows fs fs' -> proc_ok fs p -> proc_ok fs' p.
Proof.
  intros [Hn Hf]. unfold proc_ok. destruct (lp_at p); [done|done| | | |done]; cbn.
  - intros ?. by eapply lookup_weaken.
  - intros [? (f & ? & ?)]. split; [by eapply lookup_weaken|]. exists f. split; [by eapply lookup_weaken|done].
  - intros [? (f & ? & ?)]. split; [by eapply lookup_weaken|]. exists f. split; [by eapply lookup_weaken|done].
Qed.

(** A process moves, without a lock before or after. *)
Lemma inv_set_proc fs pid p a : lock_inv fs -> lk_procs fs !! pid = Some p -> held_inode p = None ->
  held_inode (mkLockProc (lp_euid p) (lp_umask p) a) = None -> proc_ok fs (mkLockProc (lp_euid p) (lp_umask p) a) ->
  lock_inv (set_proc pid p a fs).
Proof.
  intros [H1 H2 H3 H4] Hp Hh Hh' Hok. split; cbn; [done|done| |].
  - apply map_Forall_insert_2; [exact Hok|exact H3].
  - intros i q. rewrite H4. destruct (decide (q = pid)) as [->|Hq]; [|by rewrite lookup_insert_ne].
    rewrite lookup_insert_eq, Hp. cbn. by rewrite Hh, Hh'.
Qed.

(** A file is created at a free name. *)
Lemma inv_create fs path f : lock_inv fs -> lk_names fs !! path = None -> let i := fresh (dom (lk_files fs)) in
  let fs' := mkLockFs (lk_dirs fs) (<[path := i]> (lk_names fs)) (<[i := f]> (lk_files fs)) (lk_locks fs) (lk_procs fs) in
  grows fs fs' /\ lock_inv fs'.
Proof.
  intros [H1 H2 H3 H4] Hn. set (i := fresh (dom (lk_files fs))). cbn zeta.
  assert (Hi : i ∉ dom (lk_files fs)) by apply is_fresh.
  assert (Hg : grows fs (mkLockFs (lk_dirs fs) (<[path := i]> (lk_names fs)) (<[i := f]> (lk_files fs)) (lk_locks fs) (lk_procs fs))).
  { split; apply insert_subseteq; [done|by apply not_elem_of_dom]. }
  split; [exact Hg|]. split; cbn; [| | |exact H4].
  - intros q j [[<- <-]|[_ Hj]]%lookup_insert_Some; rewrite dom_insert; [set_solver|]. apply H1 in Hj. set_solver.
  - intros q q' j [[<- <-]|[_ Hj]]%lookup_insert_Some [[<- ?]|[_ Hj']]%lookup_insert_Some; [done| | |by eapply H2].
    + by apply H1 in Hj'.
    + subst j. by apply H1 in Hj.
  - eapply map_Forall_impl; [exact H3|]. intros pid p. by apply proc_ok_grows.
Qed.

(** A new file is trusted by the user that created it. *)
Lemma created_trusted euid umask : lock_trusted euid (mkLockFile Type_Regular euid (Z.land LOCK_MODE (Z.lnot umask))) = true.
Proof.
  unfold lock_trusted. cbn [lf_type lf_uid lf_mode]. rewrite bool_decide_eq_true_2, Z.eqb_refl by done. cbn [andb].
  apply Z.eqb_eq. rewrite <- Z.land_assoc, (Z.land_comm _ OTHERS), Z.land_assoc. by change (Z.land LOCK_MODE OTHERS) with 0.
Qed.

Lemma inv_lock fs pid p path i : lock_inv fs -> lk_procs fs !! pid = Some p -> lp_at p = Acq_Checked path i ->
  lk_locks fs !! i = None ->
  lock_inv (set_proc pid p (Acq_Held path i)
    (mkLockFs (lk_dirs fs) (lk_names fs) (lk_files fs) (<[i := pid]> (lk_locks fs)) (lk_procs fs))).
Proof.
  intros [H1 H2 H3 H4] Hp Ha Hl. pose proof (H3 pid p Hp) as Hok. unfold proc_ok in Hok. rewrite Ha in Hok.
  split; cbn; [done|done| |].
  - by apply map_Forall_insert_2.
  - intros j q. destruct (decide (q = pid)) as [->|Hq].
    + rewrite lookup_insert_eq. cbn. split; [|intros [= <-]; by rewrite lookup_insert_eq].
      intros [[<- _]|[_ Hj]]%lookup_insert_Some; [done|]. apply H4 in Hj. rewrite Hp in Hj. cbn in Hj. unfold held_inode in Hj.
      by rewrite Ha in Hj.
    + rewrite (lookup_insert_ne (lk_procs fs)) by done. rewrite <- H4. rewrite lookup_insert_Some. split; [intros [[_ ?]|[_ ?]]; congruence|].
      intros Hj. right. split; [|done]. intros <-. congruence.
Qed.

Section runs.
Context (parent : PathBuf -> option PathBuf).

Lemma acquire_step_inv pid fault fs : lock_inv fs -> lock_inv (acquire_step parent pid fault fs) /\ grows fs (acquire_step parent pid fault fs).
Proof.
  intros HI. unfold acquire_step. destruct (lk_procs fs !! pid) as [p|] eqn:Hp; [|by split].
  pose proof (li_procs fs HI pid p Hp) as Hok. unfold proc_ok in Hok.
  assert (Hmove : forall a, held_inode p = None -> held_inode (mkLockProc (lp_euid p) (lp_umask p) a) = None ->
    proc_ok fs (mkLockProc (lp_euid p) (lp_umask p) a) -> lock_inv (set_proc pid p a fs) /\ grows fs (set_proc pid p a fs)).
  { intros a H1 H2 H3. split; [by apply inv_set_proc|by split]. }
  destruct (lp_at p) as [path|path|path i|path i|path i|e] eqn:Ha;
    (assert (Hh : held_inode p = None \/ exists path i, lp_at p = Acq_Held path i)
      by (unfold held_inode; rewrite Ha; eauto)); try (by split);
    destruct Hh as [Hh|(? & ? & ?)]; try congruence.
  - destruct (parent path) as [dir|]; [|by apply Hmove]. destruct (bool_decide _); [by apply Hmove|].
    destruct fault; [by apply Hmove|]. split; [|by split]. apply inv_set_proc; try done. by destruct HI.
  - destruct fault; [by apply Hmove|]. destruct (lk_names fs !! path) as [i|] eqn:En.
    + destruct (lf_type <$> _) as [[]|]; by apply Hmove.
    + destruct (match parent path with Some _ => _ | None => _ end); [|by apply Hmove].
      destruct (inv_create fs path (mkLockFile Type_Regular (lp_euid p) (Z.land LOCK_MODE (Z.lnot (lp_umask p)))) HI En) as [Hg HI'].
      split; [|exact Hg]. apply inv_set_proc; [exact HI'|done..|]. cbn. apply lookup_insert_eq.
  - destruct fault; [by apply Hmove|]. destruct (lk_files fs !! i) as [f|] eqn:Ef; [|by apply Hmove].
    destruct (lock_trusted (lp_euid p) f) eqn:Et; [|by apply Hmove]. apply Hmove; [done..|]. split; [done|eauto].
  - destruct fault; [by apply Hmove|]. destruct (lk_locks fs !! i) eqn:El; [by apply Hmove|]. split; [by apply inv_lock|by split].
Qed.

Lemma release_inv pid fs : lock_inv fs -> lock_inv (release pid fs).
Proof.
  intros [H1 H2 H3 H4]. unfold release. destruct (lk_procs fs !! pid) as [p|] eqn:Hp; [|done]. split; cbn; [done|done| |].
  - by apply map_Forall_delete.
  - intros i q. assert (Hheld : lk_locks fs !! i = Some q <-> lk_procs fs !! q ≫= held_inode = Some i) by apply H4.
    assert (Hown : lk_locks fs !! i = Some pid <-> held_inode p = Some i) by (rewrite H4, Hp; done).
    destruct (decide (q = pid)) as [->|Hq].
    + rewrite lookup_delete_eq. cbn. split; [|done]. intros Hl. exfalso. unfold held_inode in Hown. destruct (lp_at p);
        try by apply Hown in Hl. apply lookup_delete_Some in Hl as [Hne Hl]. apply Hown in Hl. congruence.
    + rewrite lookup_delete_ne by done. rewrite <- Hheld. destruct (lp_at p) eqn:Ha; try done.
      rewrite lookup_delete_Some. split; [by intros [_ ?]|]. intros Hl. split; [|done]. intros ->.
      unfold held_inode in Hown. rewrite Ha in Hown. destruct Hown as [_ Hown]. specialize (Hown eq_refl). congruence.
Qed.

Lemma lock_step_inv fs fs' : lock_step parent fs fs' -> lock_inv fs -> lock_inv fs' /\ grows fs fs'.
Proof.
  intros Hs HI. destruct Hs as [pid euid umask path fs|pid fault fs|pid fs|path f fs].
  - unfold begin_acquire. destruct (lk_procs fs !! pid) eqn:Hp; [by split|]. split; [|by split]. destruct HI as [H1 H2 H3 H4].
    split; cbn; [done|done|by apply map_Forall_insert_2|]. intros i q. rewrite H4.
    destruct (decide (q = pid)) as [->|Hq]; [by rewrite lookup_insert_eq, Hp|by rewrite lookup_insert_ne].
  - by apply acquire_step_inv.
  - split; [by apply release_inv|]. unfold release. by destruct (lk_procs fs !! pid).
  - unfold foreign_create. destruct (lk_names fs !! path) eqn:En; [by split|]. destruct (inv_create fs path f HI En). done.
Qed.

Lemma lock_runs_inv dirs fs : rtc (lock_step parent) (LockFs_init dirs) fs -> lock_inv fs.
Proof.
  intros Hr. refine (rtc_ind_r lock_inv (LockFs_init dirs) _ _ fs Hr).
  - split; cbn; [by intros ? ? ?|by intros ? ? ? ?|apply map_Forall_empty|]. intros i pid. rewrite !lookup_empty. done.
  - intros x y _ Hs HI. by apply (lock_step_inv x y).
Qed.

(** The inode that [acquire_alone] opens. *)
Definition opened_inode (fs : LockFs) (path : PathBuf) : nat := default (fresh (dom (lk_files fs))) (lk_names fs !! path).

Lemma acquire_alone_holds pid euid umask path fs : lk_procs fs !! pid = None ->
  lk_locks fs !! opened_inode fs path = None ->
  (forall i, lk_names fs !! path = Some i -> exists f, lk_files fs !! i = Some f /\ lock_trusted euid f = true) ->
  holds (acquire_alone parent pid euid umask path fs) pid path.
Proof.
  intros Hp Hl Hf. unfold acquire_alone, begin_acquire. rewrite Hp. cbv zeta.
  set (fs0 := mkLockFs _ _ _ _ _).
  assert (H1 : exists dirs, acquire_step parent pid None fs0 = mkLockFs dirs (lk_names fs) (lk_files fs) (lk_locks fs)
    (<[pid := mkLockProc euid umask (Acq_Open path)]> (lk_procs fs)) /\
    match parent path with Some dir => dir ∈ dirs | None => True end).
  { unfold acquire_step, fs0. cbn [lk_procs]. rewrite lookup_insert_eq. cbn [lp_at]. destruct (parent path) as [dir|].
    - cbn [lk_dirs]. case_bool_decide; eexists; (split; [unfold set_proc; cbn; by rewrite insert_insert_eq|set_solver]).
    - eexists. split; [unfold set_proc; cbn; by rewrite insert_insert_eq|done]. }
  destruct H1 as (dirs & -> & Hdir). clear fs0. unfold acquire_step at 3. cbn [lk_procs]. rewrite lookup_insert_eq. cbn [lp_at lk_names].
  assert (H2 : forall names files, names !! path = Some (opened_inode fs path) ->
    (exists f, files !! opened_inode fs path = Some f /\ lock_trusted euid f = true) ->
    holds (acquire_step parent pid None (acquire_step parent pid None
      (mkLockFs dirs names files (lk_locks fs) (<[pid := mkLockProc euid umask (Acq_Opened path (opened_inode fs path))]> (lk_procs fs)))))
      pid path).
  { intros names files Hn (f & Hi & Ht). unfold acquire_step at 2. cbn [lk_procs]. rewrite lookup_insert_eq. cbn [lp_at lk_files].
    rewrite Hi. cbn [lp_euid]. rewrite Ht. unfold set_proc, acquire_step. cbn [lk_procs]. rewrite lookup_insert_eq.
    cbn [lp_at lk_locks]. rewrite Hl. eexists _, _. cbn. rewrite lookup_insert_eq. done. }
  unfold opened_inode in *. destruct (lk_names fs !! path) as [i|] eqn:En; cbn [default] in *.
  - destruct (Hf i eq_refl) as (f & Hi & Ht). cbn [lk_files]. rewrite Hi. cbn. unfold lock_trusted in Ht.
    destruct (lf_type f) eqn:Ety; try done. unfold set_proc. cbn. rewrite insert_insert_eq. apply H2; [done|]. exists f.
    unfold lock_trusted. by rewrite Ety.
  - cbn [lk_dirs]. replace (match parent path with Some dir => bool_decide (dir ∈ dirs) | None => true end) with true;
      [|destruct (parent path); [by rewrite bool_decide_eq_true_2|done]].
    unfold set_proc. cbn [lk_dirs lk_names lk_files lk_locks lk_procs lp_euid lp_umask]. rewrite insert_insert_eq.
    apply H2; [apply lookup_insert_eq|]. eexists. split; [apply lookup_insert_eq|apply created_trusted].
Qed.

(** A lock that no process holds is free. *)
Lemma free_inode fs path : lock_inv fs -> (forall pid, ~ holds fs pid path) -> lk_locks fs !! opened_inode fs path = None.
Proof.
  intros [H1 H2 H3 H4] Hfree. apply eq_None_not_Some. intros [pid Hl]. apply H4 in Hl. apply bind_Some in Hl as (p & Hp & Hh).
  unfold held_inode in Hh. destruct (lp_at p) as [| | | |path' i|] eqn:Ha; try done. injection Hh as ->.
  pose proof (H3 pid p Hp) as Hok. unfold proc_ok in Hok. rewrite Ha in Hok. destruct Hok as [Hn _].
  unfold opened_inode in Hn. destruct (lk_names fs !! path) as [i|] eqn:En; cbn in Hn.
  - rewrite (H2 _ _ _ Hn En) in Ha. apply (Hfree pid). by exists p, (opened_inode fs path).
  - by apply H1, is_fresh in Hn.
Qed.

(** C30: The lock is exclusive and safe to take: whatever processes begin,
    interleave, fail and end, and whatever others create meanwhile, no two
    processes hold the lock of one path; who holds it has the very file at
    the path, a regular one of its user that no one else can open; no call
    removes or changes a file that exists; and a process that runs alone
    gets the lock of a path that no one holds, if its file is missing or
    trusted. *)
Theorem instance_lock_exclusive (dirs : gset PathBuf) (fs : LockFs) : rtc (lock_step parent) (LockFs_init dirs) fs ->
  (forall pid pid' path, holds fs pid path -> holds fs pid' path -> pid = pid') /\
  (forall pid path, holds fs pid path -> exists p i f, lk_procs fs !! pid = Some p /\
     lk_names fs !! path = Some i /\ lk_files fs !! i = Some f /\ lock_trusted (lp_euid p) f = true) /\
  (forall fs', lock_step parent fs fs' -> grows fs fs') /\
  (forall pid euid umask path, lk_procs fs !! pid = None -> (forall pid', ~ holds fs pid' path) ->
     (forall i, lk_names fs !! path = Some i -> exists f, lk_files fs !! i = Some f /\ lock_trusted euid f = true) ->
     holds (acquire_alone parent pid euid umask path fs) pid path).
Proof.
  intros Hr. pose proof (lock_runs_inv dirs fs Hr) as HI. split_and!.
  - intros pid pid' path (p & i & Hp & Ha) (p' & i' & Hp' & Ha'). destruct HI as [_ _ H3 H4].
    pose proof (H3 _ _ Hp) as Hok. pose proof (H3 _ _ Hp') as Hok'. unfold proc_ok in *. rewrite Ha in Hok. rewrite Ha' in Hok'.
    destruct Hok as [Hn _], Hok' as [Hn' _]. assert (i' = i) as -> by congruence.
    assert (lk_locks fs !! i = Some pid) by (apply H4; rewrite Hp; cbn; unfold held_inode; by rewrite Ha).
    assert (lk_locks fs !! i = Some pid') by (apply H4; rewrite Hp'; cbn; unfold held_inode; by rewrite Ha'). congruence.
  - intros pid path (p & i & Hp & Ha). pose proof (li_procs fs HI _ _ Hp) as Hok. unfold proc_ok in Hok. rewrite Ha in Hok.
    destruct Hok as [Hn (f & Hf & Ht)]. by exists p, i, f.
  - intros fs' Hs. by apply (lock_step_inv fs fs').
  - intros pid euid umask path Hp Hfree Hf. apply acquire_alone_holds; [done|by apply free_inode|done].
Qed.
End runs.

(** The daemon (1) and a cleanup (2) interleave: both open the new file
    before either locks it. *)
Module LockSample.
Definition parent (_ : PathBuf) : option PathBuf := Some (lit "/run/polywan").
Definition path : PathBuf := lit "/run/polywan/lock".
Definition calls : list nat := [1; 2; 1; 2; 2; 1; 1; 2]%nat.
Definition begun : LockFs := begin_acquire 2 0 18 path (begin_acquire 1 0 18 path (LockFs_init ∅)).
Definition last : LockFs := foldl (fun fs pid => acquire_step parent pid None fs) begun calls.

Lemma runs_calls l fs fs0 : rtc (lock_step parent) fs0 fs ->
  rtc (lock_step parent) fs0 (foldl (fun fs pid => acquire_step parent pid None fs) fs l).
Proof. revert fs. induction l as [|pid l IH]; intros fs Hr; [done|]. cbn. apply IH. eapply rtc_r; [exact Hr|constructor]. Qed.

Lemma last_reached : rtc (lock_step parent) (LockFs_init ∅) last.
Proof. apply runs_calls. eapply rtc_l; [apply lock_begin|]. eapply rtc_once. apply lock_begin. Qed.
End LockSample.

Lemma instance_lock_exclusive_witness :
  holds LockSample.last 1 LockSample.path /\ (lp_at <$> lk_procs LockSample.last !! 2%nat) = Some (Acq_Failed WouldBlock) /\
  ~ holds LockSample.last 2 LockSample.path.
Proof.
  assert (H1 : holds LockSample.last 1 LockSample.path) by (eexists _, _; split; [vm_compute; reflexivity|reflexivity]).
  split; [exact H1|]. split; [by vm_compute|]. intros H2.
  by pose proof (proj1 (instance_lock_exclusive LockSample.parent ∅ LockSample.last LockSample.last_reached) _ _ _ H1 H2).
Defined.

(** ** The boot clock *)

(** [boot_id]: the text of [/proc/sys/kernel/random/boot_id]. *)
Definition boot_id (contents : result str ErrorKind) : result str ErrorKind :=
  match contents with Err e => Err e | Ok text => Ok (str_trim text) end.

(** [format!("{frac:0<3}")[..3]] of an ASCII text. *)
Definition millis_digits (frac : str) : str := take 3 (frac ++ replicate (3 - length frac) 48).

Definition BadUptime : ErrorKind := OtherError 0.

(** [boottime_ms]: the text of [/proc/uptime]; the sum wraps at 64 bits. *)
Definition boottime_ms (contents : result str ErrorKind) : result u64 ErrorKind :=
  match contents with
  | Err e => Err e
  | Ok text =>
      let secs := default [] (head (split_words text [])) in
      let '(int, frac) := default (secs, lit "0") (split_once 46 secs) in
      match parse_unsigned 64 int, parse_unsigned 64 (millis_digits frac) with
      | Some int, Some frac => Ok (wrap 64 (int * 1000 + frac))
      | _, _ => Err BadUptime
      end
  end.

(** Two digits, as the kernel prints hundredths. *)
Definition two_digits (n : Z) : str := [48 + n / 10; 48 + n mod 10].

Lemma digit_not (c d : Z) : is_ascii_digit c = true -> is_ascii_digit d = false -> c <> d.
Proof. intros Hc Hd ->. congruence. Qed.

Lemma split_words_word w c s word : forallb (fun x => negb (is_whitespace x)) w = true -> is_whitespace c = true -> word ++ w <> [] ->
  split_words (w ++ c :: s) word = (word ++ w) :: split_words s [].
Proof.
  intros Hw Hc. revert word. induction w as [|x w IH]; intros word Hne.
  - rewrite app_nil_r in *. cbn. rewrite Hc. by rewrite bool_decide_eq_false_2.
  - cbn in Hw. apply andb_true_iff in Hw as [Hx Hw]. apply negb_true_iff in Hx. cbn. rewrite Hx.
    rewrite (IH Hw (word ++ [x])); [by rewrite <- (assoc (++))|by destruct word].
Qed.

Lemma two_digits_value n : 0 <= n < 100 -> parse_unsigned 64 (millis_digits (two_digits n)) = Some (n * 10).
Proof.
  intros Hn. assert (Hall : forallb (fun n => bool_decide (parse_unsigned 64 (millis_digits (two_digits n)) = Some (n * 10))) (seqZ 0 100) = true)
    by by vm_compute.
  apply forallb_elem_of with (x := n) in Hall; [by apply bool_decide_eq_true in Hall|]. apply elem_of_seqZ. lia.
Qed.

Lemma digits_forall s (q : Z -> bool) : forallb is_ascii_digit s = true -> (forall c, is_ascii_digit c = true -> q c = true) -> forallb q s = true.
Proof. intros Hs Hq. induction s as [|c s IH]; [done|]. cbn in *. apply andb_true_iff in Hs as [Hc Hs]. by rewrite Hq, IH. Qed.

(** The clock reads what the kernel prints, seconds and hundredths. *)
Lemma boottime_reads (secs hundredths : Z) (rest : str) : 0 <= secs < 2 ^ 53 -> 0 <= hundredths < 100 ->
  boottime_ms (Ok (to_decimal secs ++ 46 :: two_digits hundredths ++ 32 :: rest)) = Ok (secs * 1000 + hundredths * 10).
Proof.
  intros Hs Hh. assert (Hd : forallb is_ascii_digit (to_decimal secs) = true) by (apply to_decimal_digits; lia).
  assert (H2 : forallb is_ascii_digit (two_digits hundredths) = true).
  { cbn. unfold is_ascii_digit, in_range. pose proof (Z.div_lt_upper_bound hundredths 10 10 ltac:(lia) ltac:(lia)).
    pose proof (Z.div_pos hundredths 10 ltac:(lia) ltac:(lia)). pose proof (Z.mod_pos_bound hundredths 10 ltac:(lia)).
    rewrite !andb_true_iff, !Z.leb_le. lia. }
  assert (Hws : forall c, is_ascii_digit c = true -> negb (is_whitespace c) = true).
  { intros c Hc. unfold is_ascii_digit, in_range in Hc. apply andb_true_iff in Hc as [?%Z.leb_le ?%Z.leb_le].
    assert (Hin : forallb (fun c => negb (is_whitespace c)) (seqZ 48 10) = true) by by vm_compute.
    apply forallb_elem_of with (x := c) in Hin; [done|]. apply elem_of_seqZ. lia. }
  unfold boottime_ms. change (to_decimal secs ++ 46 :: two_digits hundredths ++ 32 :: rest)
    with (to_decimal secs ++ (46 :: two_digits hundredths) ++ 32 :: rest).
  rewrite (assoc (++)). rewrite split_words_word; [|rewrite forallb_app; cbn [forallb]; rewrite (digits_forall _ _ Hd Hws);
    pose proof (digits_forall _ _ H2 Hws) as E; cbn [forallb] in E |- *; exact E|done|by destruct (to_decimal secs)].
  cbn [head default app]. unfold split_once.
  assert (Hdot : forallb (fun d => negb (d =? 46)) (to_decimal secs) = true).
  { apply (digits_forall _ _ Hd). intros c Hc. apply negb_true_iff, Z.eqb_neq. by apply (digit_not c 46). }
  unfold id. rewrite drop_while_app, take_while_app by done. cbn [default from_option].
  rewrite parse_unsigned_to_decimal by (split; lia). rewrite two_digits_value by done.
  f_equal. unfold wrap. apply Z.mod_small. lia.
Qed.

(** ** The state directory *)

(** [StateDir::open] on the modes of the directories: a missing one is
    created with mode 0700 less the umask, an existing one keeps its mode;
    [fault] is the failure of the call. *)
Definition StateDir_open (path : PathBuf) (umask : u32) (fault : option ErrorKind) (dirs : gmap PathBuf u32)
    : result unit StateError * gmap PathBuf u32 :=
  match fault with
  | Some e => (Err (StateError_Io path e), dirs)
  | None =>
      (Ok tt, match dirs !! path with
              | Some _ => dirs
              | None => <[path := Z.land 448 (* 0o700 *) (Z.lnot umask)]> dirs
              end)
  end.

(** After success the directory exists; no directory changes its mode, and
    a new one is closed to others. *)
Lemma StateDir_open_spec path umask fault dirs r dirs' : StateDir_open path umask fault dirs = (r, dirs') ->
  dirs ⊆ dirs' /\ (r = Ok tt -> is_Some (dirs' !! path)) /\
  (forall p mode, dirs' !! p = Some mode -> dirs !! p = None -> p = path /\ Z.land mode OTHERS = 0).
Proof.
  unfold StateDir_open. destruct fault as [e|]; intros [= <- <-]; [split_and!; [done|done|congruence]|].
  destruct (dirs !! path) as [m|] eqn:E; [split_and!; [done|eauto|congruence]|]. split_and!.
  - by apply insert_subseteq.
  - intros _. rewrite lookup_insert_eq. eauto.
  - intros p mode [[<- <-]|[_ Hp]]%lookup_insert_Some Hn; [|congruence]. split; [done|].
    rewrite <- Z.land_assoc, (Z.land_comm _ OTHERS), Z.land_assoc. by change (Z.land 448 OTHERS) with 0.
Qed.
