(* ===== verification/ApiServer.v ===== *)
(** * The API: requests, sockets and the listener manager

    Models crates/polywan/src/api/mod.rs and api/socket.rs: which requests a
    listener admits and what they ask of the daemon, how a socket is bound
    and published, and the manager that prepares, commits and rolls back the
    listeners of a reloaded configuration.  HTTP itself (hyper), the serving
    of connections and serde_json's parser are not modelled; the file system
    calls of a socket are the class [SocketFs]. *)

From stdpp Require Import prelude gmap sorting.
From Stdlib Require Import ZArith Lia.
From S2P Require Import Prelude Text Model Durations Config Events StateFiles Nft Checks.

Local Open Scope Z_scope.

(** ** Listeners *)

Inductive Role := Role_Control | Role_Status | Role_Metrics.
Record Access := mkAccess { ac_gid : option u32 }.
Inductive Address := Address_Unix (path : PathBuf) (access : Access) | Address_Tcp (addr : SocketAddr).
Record Endpoint := mkEndpoint { ep_role : Role; ep_address : Address }.

#[export] Instance Role_eq_dec : EqDecision Role.
Proof. solve_decision. Defined.
#[export] Instance Access_eq_dec : EqDecision Access.
Proof. solve_decision. Defined.
#[export] Instance Address_eq_dec : EqDecision Address.
Proof. solve_decision. Defined.
#[export] Instance Endpoint_eq_dec : EqDecision Endpoint.
Proof. solve_decision. Defined.

Definition Access_mode (a : Access) : u32 := if bool_decide (is_Some (ac_gid a)) then 432 (* 0o660 *) else 438 (* 0o666 *).

Definition same_place (a b : Address) : bool :=
  match a, b with
  | Address_Unix a _, Address_Unix b _ => bool_decide (a = b)
  | Address_Tcp a, Address_Tcp b => bool_decide (a = b)
  | _, _ => false
  end.

Inductive GroupError := Group_Lookup (name : str) (e : ErrorKind) | Group_Missing (name : str).

Definition gid (h : Host) (name : str) : result u32 GroupError :=
  match group h name with
  | Err e => Err (Group_Lookup name e)
  | Ok None => Err (Group_Missing name)
  | Ok (Some g) => Ok g
  end.

Definition status_endpoint (h : Host) (api : Api) : result (list Endpoint) GroupError :=
  match api_status_socket api with
  | None => Ok []
  | Some path =>
      match match api_status_group api with
            | None => Ok None
            | Some g => match gid h g with Ok g => Ok (Some g) | Err e => Err e end
            end with
      | Ok g => Ok [mkEndpoint Role_Status (Address_Unix path (mkAccess g))]
      | Err e => Err e
      end
  end.

Definition endpoints (h : Host) (cfg : Config) : result (list Endpoint) GroupError :=
  let api := cf_api cfg in
  match gid h (api_group api) with
  | Err e => Err e
  | Ok g =>
      match status_endpoint h api with
      | Err e => Err e
      | Ok status =>
          Ok ([mkEndpoint Role_Control (Address_Unix (api_socket api) (mkAccess (Some g)))] ++ status ++
              match cf_metrics_listen cfg with Some a => [mkEndpoint Role_Metrics (Address_Tcp a)] | None => [] end)
      end
  end.

(** ** Commands of the State task *)

Inductive ApiAction :=
  | Action_Drain (uplink : str) (force : bool)
  | Action_Undrain (uplink : str)
  | Action_Forget (uplink : str)
  | Action_Reload.

Abbreviation StatusCode := Z (only parsing).

Record Answer := mkAnswer { an_code : StatusCode; an_body : Value }.
Definition Answer_error (code : StatusCode) (message : str) : Answer :=
  mkAnswer code (Object [(lit "error", Str message)]).

Definition ORDER_QUEUE : usize := 8.
Definition BODY_BYTES : usize := 64 * 1024.
Definition MAX_WAIT : Duration := from_secs 60.

(** ** Requests *)

Inductive ApiOp := Op_Drain | Op_Undrain | Op_Forget.
Inductive ApiRoute :=
  | Route_Status | Route_Events | Route_Metrics | Route_Reload | Route_NotifyTest
  | Route_Uplink (name : str) (op : ApiOp).
Inductive Method := GET | POST | Method_Other (name : str).

#[export] Instance ApiOp_eq_dec : EqDecision ApiOp.
Proof. solve_decision. Defined.
#[export] Instance ApiRoute_eq_dec : EqDecision ApiRoute.
Proof. solve_decision. Defined.
#[export] Instance Method_eq_dec : EqDecision Method.
Proof. solve_decision. Defined.

Definition op_of (op : str) : option ApiOp :=
  if bool_decide (op = lit "drain") then Some Op_Drain
  else if bool_decide (op = lit "undrain") then Some Op_Undrain
  else if bool_decide (op = lit "forget") then Some Op_Forget
  else None.

Definition Route_parse (path : str) : option ApiRoute :=
  if bool_decide (path = lit "/v1/status") then Some Route_Status
  else if bool_decide (path = lit "/v1/events") then Some Route_Events
  else if bool_decide (path = lit "/metrics") then Some Route_Metrics
  else if bool_decide (path = lit "/v1/reload") then Some Route_Reload
  else if bool_decide (path = lit "/v1/notify-test") then Some Route_NotifyTest
  else
    rest ← strip_prefix (lit "/v1/uplinks/") path;
    '(name, op) ← split_once 47 rest;
    op ← op_of op;
    if bool_decide (name = []) then None else Some (Route_Uplink name op).

Definition Route_rule (r : ApiRoute) : list Role * Method :=
  match r with
  | Route_Status | Route_Events => ([Role_Control; Role_Status], GET)
  | Route_Metrics => ([Role_Metrics], GET)
  | Route_Reload | Route_NotifyTest | Route_Uplink _ _ => ([Role_Control], POST)
  end.

Inductive BodyError := Body_TooLarge | Body_NotTaken | Body_Invalid (e : str).

(** [u8::is_ascii_whitespace]. *)
Definition is_ascii_whitespace (b : u8) : bool := (b =? 32) || (b =? 9) || (b =? 10) || (b =? 12) || (b =? 13).

(** [drain_body] is serde_json's parser of [DrainBody]: its [force]. *)
Definition parse_body (drain_body : list u8 -> result bool str) (route : ApiRoute) (body : list u8)
    : result bool BodyError :=
  if forallb is_ascii_whitespace body then Ok false else
  match route with
  | Route_Uplink _ Op_Drain => match drain_body body with Ok force => Ok force | Err e => Err (Body_Invalid e) end
  | _ => Err Body_NotTaken
  end.

(** What a request asks for: an error, a page that only reads published
    state, or work of the daemon. *)
Inductive Handled :=
  | H_Error (code : StatusCode)
  | H_Status
  | H_Events (query : str)
  | H_Metrics
  | H_NotifyTest
  | H_Command (action : ApiAction).

(** [body]: the collected body, [None] when it exceeds [BODY_BYTES]. *)
Definition handle (drain_body : list u8 -> result bool str) (method : Method) (path query : str)
    (body : option (list u8)) (role : Role) : Handled :=
  match Route_parse path with
  | None => H_Error 404
  | Some route =>
      let '(roles, wanted) := Route_rule route in
      if negb (bool_decide (role ∈ roles)) then H_Error 404 else
      if negb (bool_decide (method = wanted)) then H_Error 405 else
      let force :=
        if bool_decide (wanted = POST) then
          match body with
          | None => Err 413
          | Some b => match parse_body drain_body route b with Ok f => Ok f | Err _ => Err 400 end
          end
        else Ok false in
      match force with
      | Err code => H_Error code
      | Ok force =>
          match route with
          | Route_Status => H_Status
          | Route_Events => H_Events query
          | Route_Metrics => H_Metrics
          | Route_NotifyTest => H_NotifyTest
          | Route_Reload => H_Command Action_Reload
          | Route_Uplink name Op_Drain => H_Command (Action_Drain name force)
          | Route_Uplink name Op_Undrain => H_Command (Action_Undrain name)
          | Route_Uplink name Op_Forget => H_Command (Action_Forget name)
          end
      end
  end.

Record EventsQuery := mkEventsQuery {
  eq_instance : option str; eq_after : option u64; eq_limit : usize; eq_wait : Duration
}.

Inductive QueryError := Query_NotNumber (key : str) | Query_Instance | Query_Unknown (key : str).

Definition is_ascii_hexdigit (c : Z) : bool := is_ascii_digit c || in_range 97 102 c || in_range 65 70 c.

Definition query_field (q : EventsQuery) (kv : str * str) : result EventsQuery QueryError :=
  let '(k, v) := kv in
  let number := match parse_unsigned 64 v with Some n => Ok n | None => Err (Query_NotNumber k) end in
  if bool_decide (k = lit "instance") then
    if forallb is_ascii_hexdigit v && (str_len v <=? 64)
    then Ok (mkEventsQuery (Some v) (eq_after q) (eq_limit q) (eq_wait q)) else Err Query_Instance
  else if bool_decide (k = lit "after") then
    match number with Ok n => Ok (mkEventsQuery (eq_instance q) (Some n) (eq_limit q) (eq_wait q)) | Err e => Err e end
  else if bool_decide (k = lit "limit") then
    match number with
    | Ok n => Ok (mkEventsQuery (eq_instance q) (eq_after q) (Z.max 1 (Z.min n RING_EVENTS)) (eq_wait q))
    | Err e => Err e
    end
  else if bool_decide (k = lit "wait") then
    match number with
    | Ok n => Ok (mkEventsQuery (eq_instance q) (eq_after q) (eq_limit q) (Z.min (from_secs n) MAX_WAIT))
    | Err e => Err e
    end
  else Err (Query_Unknown k).

Fixpoint query_fields (q : EventsQuery) (fields : list (str * str)) : result EventsQuery QueryError :=
  match fields with
  | [] => Ok q
  | kv :: fields => match query_field q kv with Ok q => query_fields q fields | Err e => Err e end
  end.

(** The fields in key order, the last of a key counting. *)
Definition parse_events_query (query : str) : result EventsQuery QueryError :=
  let parts := List.filter (fun p => negb (bool_decide (p = []))) (split_on 38 query) in
  let fields : gmap str str :=
    foldl (fun m p => let '(k, v) := default (p, []) (split_once 61 p) in <[k := v]> m) ∅ parts in
  query_fields (mkEventsQuery None None RING_EVENTS 0) (btree_iter fields).

(** ** Sockets (api/socket.rs) *)

Record Published := mkPublished { pb_path : PathBuf; pb_dev : u64; pb_ino : u64 }.
Record FileStat := mkFileStat { fs_socket : bool; fs_dev : u64; fs_ino : u64 }.

(** The system calls on a socket's path; [trust] is [checks::ownership] of
    the directory now, [save] the replacement of the record of published
    sockets (a failure is only logged). *)
Class SocketFs (W : Type) := {
  trust : PathBuf -> W -> list Finding;
  lstat : PathBuf -> W -> result FileStat ErrorKind;
  remove_dir_all : PathBuf -> W -> W;
  create_dir : PathBuf -> W -> result unit ErrorKind * W;
  bind_unix : PathBuf -> W -> result unit ErrorKind * W;
  bind_tcp : SocketAddr -> W -> result unit ErrorKind * W;
  chown : PathBuf -> u32 -> W -> result unit ErrorKind * W;
  set_mode : PathBuf -> u32 -> W -> result unit ErrorKind * W;
  rename : PathBuf -> PathBuf -> W -> result unit ErrorKind * W;
  remove_file : PathBuf -> W -> W;
  remove_dir : PathBuf -> W -> W;
  save : list Published -> W -> W
}.
#[global] Hint Mode SocketFs ! : typeclass_instances.

Inductive BindError :=
  | Bind_NoParent (path : PathBuf)
  | Bind_Untrusted (f : Finding)
  | Bind_Occupied (path : PathBuf)
  | Bind_Io (e : ErrorKind)
  | Bind_Tcp (addr : SocketAddr) (e : ErrorKind).

Section sockets.
Context {W : Type} `{SocketFs W} (staging_dir : PathBuf -> PathBuf) (parent_of : PathBuf -> option PathBuf).

(** Sequencing of calls that may fail. *)
Definition try_io {A B E} (m : W -> result A E * W) (k : A -> W -> result B E * W) (w : W) : result B E * W :=
  match m w with (Ok a, w) => k a w | (Err e, w) => (Err e, w) end.

Definition apply_access (path : PathBuf) (a : Access) : W -> result unit ErrorKind * W :=
  try_io (chown path (default 0 (ac_gid a))) (fun _ => set_mode path (Access_mode a)).

Definition io_err {A} (m : W -> result A ErrorKind * W) (w : W) : result A BindError * W :=
  match m w with (Ok a, w) => (Ok a, w) | (Err e, w) => (Err (Bind_Io e), w) end.

(** The closure of [bind]: staging, access, publication. *)
Definition publish (path staged : PathBuf) (a : Access) : W -> result Published BindError * W :=
  try_io (io_err (bind_unix staged)) (fun _ =>
  try_io (io_err (apply_access staged a)) (fun _ =>
  try_io (io_err (rename staged path)) (fun _ w =>
    match lstat path w with
    | Ok m => (Ok (mkPublished path (fs_dev m) (fs_ino m)), w)
    | Err e => (Err (Bind_Io e), w)
    end))).

Definition is_ours (known : list Published) (path : PathBuf) (m : FileStat) : bool :=
  fs_socket m && existsb (fun k => bool_decide (pb_path k = path) && (pb_dev k =? fs_dev m) && (pb_ino k =? fs_ino m)) known.

Definition socket_bind (path : PathBuf) (a : Access) (known : list Published) (w : W) : result Published BindError * W :=
  match parent_of path with
  | None => (Err (Bind_NoParent path), w)
  | Some parent =>
      match trust parent w with
      | e :: _ => (Err (Bind_Untrusted e), w)
      | [] =>
          let go w :=
            let staging := staging_dir parent in
            let w := remove_dir_all staging w in
            match create_dir staging w with
            | (Err e, w) => (Err (Bind_Io e), w)
            | (Ok _, w) =>
                let '(r, w) := publish path (staging ++ lit "/s") a w in (r, remove_dir staging w)
            end in
          match lstat path w with
          | Err NotFound => go w
          | Err e => (Err (Bind_Io e), w)
          | Ok m => if is_ours known path m then go w else (Err (Bind_Occupied path), w)
          end
      end
  end.

Definition unpublish (p : Published) (w : W) : W :=
  match lstat (pb_path p) w with
  | Ok m => if fs_socket m && (fs_dev m =? pb_dev p) && (fs_ino m =? pb_ino p) then remove_file (pb_path p) w else w
  | Err _ => w
  end.

(** ** The listener manager *)

Record Bound := mkBound { bo_endpoint : Endpoint; bo_published : option Published }.
(** [li_cut] advances when the connections admitted so far are to close. *)
Record Listener := mkListener { li_endpoint : Endpoint; li_published : option Published; li_cut : u64 }.

Record Manager := mkManager { mg_serving : list Listener; mg_prepared : list Bound; mg_next : option (list Endpoint) }.

Inductive ApiCommand := Cmd_Prepare (endpoints : list Endpoint) | Cmd_Commit | Cmd_Rollback | Cmd_Shutdown.

Inductive PrepareError := Prepare_Role (address : Address) (from to : Role) | Prepare_Bind (e : BindError).

Definition api_bind (e : Endpoint) (known : list Published) (w : W) : result Bound BindError * W :=
  match ep_address e with
  | Address_Unix path access =>
      match socket_bind path access known w with
      | (Ok p, w) => (Ok (mkBound e (Some p)), w)
      | (Err err, w) => (Err err, w)
      end
  | Address_Tcp addr =>
      match bind_tcp addr w with
      | (Ok _, w) => (Ok (mkBound e None), w)
      | (Err err, w) => (Err (Bind_Tcp addr err), w)
      end
  end.

Definition serve (b : Bound) : Listener := mkListener (bo_endpoint b) (bo_published b) 0.

Definition unpublish_opt (p : option Published) (w : W) : W := match p with Some p => unpublish p w | None => w end.
Definition close (l : Listener) (w : W) : W := unpublish_opt (li_published l) w.
Definition discard (prepared : list Bound) (w : W) : W := foldl (fun w b => unpublish_opt (bo_published b) w) w prepared.

Definition save_all (m : Manager) (w : W) : W :=
  save (omap li_published (mg_serving m) ++ omap bo_published (mg_prepared m)) w.

(** The loop of [Prepare]. *)
Fixpoint prepare_loop (serving : list Listener) (es : list Endpoint) (prepared : list Bound) (w : W)
    : result unit PrepareError * list Bound * W :=
  match es with
  | [] => (Ok tt, prepared, w)
  | e :: es =>
      match find_first (fun l => same_place (ep_address (li_endpoint l)) (ep_address e)) serving with
      | Some l =>
          if negb (bool_decide (ep_role (li_endpoint l) = ep_role e))
          then (Err (Prepare_Role (ep_address e) (ep_role (li_endpoint l)) (ep_role e)), prepared, w)
          else prepare_loop serving es prepared w
      | None =>
          match api_bind e [] w with
          | (Ok b, w) => prepare_loop serving es (prepared ++ [b]) w
          | (Err err, w) => (Err (Prepare_Bind err), prepared, w)
          end
      end
  end.

(** The loop of [Commit] over the serving listeners: those kept. *)
Fixpoint commit_loop (wanted : list Endpoint) (serving : list Listener) (w : W) : list Listener * W :=
  match serving with
  | [] => ([], w)
  | l :: serving =>
      match find_first (fun e => same_place (ep_address e) (ep_address (li_endpoint l))) wanted with
      | None => commit_loop wanted serving (close l w)
      | Some e =>
          if bool_decide (e = li_endpoint l)
          then let '(kept, w) := commit_loop wanted serving w in (l :: kept, w)
          else
            let '(applied, w) := match ep_address e with
                                 | Address_Unix path access => apply_access path access w
                                 | Address_Tcp _ => (Ok tt, w)
                                 end in
            match applied with
            | Err _ => commit_loop wanted serving (close l w)
            | Ok _ =>
                let '(kept, w) := commit_loop wanted serving w in
                (mkListener e (li_published l) (li_cut l + 1) :: kept, w)
            end
      end
  end.

(** A command: the manager afterwards and the answer to a preparation. *)
Definition manager_step (c : ApiCommand) (m : Manager) (w : W) : Manager * option (result unit PrepareError) * W :=
  match c with
  | Cmd_Prepare es =>
      let w := discard (mg_prepared m) w in
      let '(r, prepared, w) := prepare_loop (mg_serving m) es [] w in
      let '(m, w) := match r with
                     | Err _ => (mkManager (mg_serving m) [] None, discard prepared w)
                     | Ok _ => (mkManager (mg_serving m) prepared (Some es), w)
                     end in
      (m, Some r, save_all m w)
  | Cmd_Commit =>
      match mg_next m with
      | None => (m, None, w)
      | Some wanted =>
          let '(kept, w) := commit_loop wanted (mg_serving m) w in
          let m := mkManager (kept ++ (serve <$> mg_prepared m)) [] None in
          (m, None, save_all m w)
      end
  | Cmd_Rollback =>
      let m' := mkManager (mg_serving m) [] None in
      (m', None, save_all m' (discard (mg_prepared m) w))
  | Cmd_Shutdown =>
      let w := foldl (fun w l => close l w) w (mg_serving m) in
      let w := discard (mg_prepared m) w in
      let m := mkManager [] [] (mg_next m) in
      (m, None, save_all m w)
  end.

(** The start of [manager]: the listeners of the configuration, none when
    one of them cannot be bound. *)
Fixpoint start_loop (known : list Published) (initial : list Endpoint) (serving : list Listener) (w : W)
    : result unit BindError * list Listener * W :=
  match initial with
  | [] => (Ok tt, serving, w)
  | e :: initial =>
      match api_bind e known w with
      | (Ok b, w) => start_loop known initial (serving ++ [serve b]) w
      | (Err err, w) => (Err err, serving, w)
      end
  end.

Definition manager_start (known : list Published) (initial : list Endpoint) (w : W)
    : Manager * result unit BindError * W :=
  let '(r, serving, w) := start_loop known initial [] w in
  let '(serving, w) := match r with
                       | Err _ => ([], foldl (fun w l => close l w) w serving)
                       | Ok _ => (serving, w)
                       end in
  let m := mkManager serving [] None in
  (m, r, save_all m w).
End sockets.

(** ** Requests and roles *)

(** C14: The role of a listener decides what a request can do: commands and
    notification tests are reached only through the control socket and with
    POST; the status socket serves the status and the events, the metrics
    listener the metrics; everything else is an error and has no effect. *)
Theorem handle_authorized drain_body method path query body role :
  match handle drain_body method path query body role with
  | H_Error _ => True
  | H_Status | H_Events _ => method = GET /\ role <> Role_Metrics
  | H_Metrics => method = GET /\ role = Role_Metrics
  | H_NotifyTest | H_Command _ => method = POST /\ role = Role_Control
  end.
Proof.
  unfold handle. destruct (Route_parse path) as [route|]; [|done].
  assert (Hrule : forall roles m, Route_rule route = (roles, m) -> role ∈ roles ->
    match route with
    | Route_Status | Route_Events => m = GET /\ role <> Role_Metrics
    | Route_Metrics => m = GET /\ role = Role_Metrics
    | _ => m = POST /\ role = Role_Control
    end).
  { intros roles m. destruct route; simpl; intros [= <- <-]; set_unfold; naive_solver. }
  destruct (Route_rule route) as [roles wanted]. case_bool_decide as Hr; simpl; [|done].
  case_bool_decide as Hm; simpl; [|done]. subst method. specialize (Hrule roles wanted eq_refl Hr).
  destruct (if bool_decide (wanted = POST) then _ else _) as [force|code]; [|done].
  by destruct route as [| | | | |name []].
Qed.

(** ** Switching listeners *)

Section manager.
Context {W : Type} `{SocketFs W} (staging_dir : PathBuf -> PathBuf) (parent_of : PathBuf -> option PathBuf).
Set Default Proof Using "Type".

Lemma same_place_sym a b : same_place a b = same_place b a.
Proof. destruct a, b; simpl; try done; by rewrite (bool_decide_ext _ _ (symmetry_iff (=) _ _)). Qed.

Lemma same_place_refl a : same_place a a = true.
Proof. destruct a; simpl; by rewrite bool_decide_eq_true_2. Qed.

Lemma same_place_trans a b c : same_place a b = true -> same_place b c = true -> same_place a c = true.
Proof. destruct a, b, c; simpl; try done; rewrite !bool_decide_eq_true; congruence. Qed.

(** Endpoints at different places. *)
Definition distinct_places (l : list Endpoint) : Prop :=
  forall i j a b, l !! i = Some a -> l !! j = Some b -> same_place (ep_address a) (ep_address b) = true -> i = j.

Definition served_at (serving : list Listener) (e : Endpoint) : option Listener :=
  find_first (fun l => same_place (ep_address (li_endpoint l)) (ep_address e)) serving.

Lemma api_bind_endpoint e known (w w' : W) b :
  api_bind staging_dir parent_of e known w = (Ok b, w') -> bo_endpoint b = e.
Proof.
  unfold api_bind. destruct (ep_address e); [destruct (socket_bind _ _ _ _ _ _) as [[]]|destruct (bind_tcp _ _) as [[]]];
    by intros [= <- _].
Qed.

Lemma prepare_loop_spec serving es prepared (w w' : W) r p :
  prepare_loop staging_dir parent_of serving es prepared w = (r, p, w') ->
  r = Ok tt ->
  (bo_endpoint <$> p) = (bo_endpoint <$> prepared) ++
    List.filter (fun e => bool_decide (served_at serving e = None)) es /\
  (forall e l, e ∈ es -> served_at serving e = Some l -> ep_role (li_endpoint l) = ep_role e).
Proof.
  revert prepared w w'. induction es as [|e es IH]; intros prepared w w'; simpl.
  { intros [= <- <- _] _. rewrite app_nil_r. split; [done|]. intros e l He. by apply not_elem_of_nil in He. }
  fold (served_at serving e). destruct (served_at serving e) as [l|] eqn:El.
  - case_bool_decide as Hrole; simpl; [|by intros [= <- _ _] [=]]. intros E Hr.
    destruct (IH _ _ _ E Hr) as [-> Hroles]. split; [done|]. intros e' l' [->|He]%elem_of_cons; [|by apply Hroles].
    rewrite El. by intros [= <-].
  - destruct (api_bind _ _ e [] w) as [[b|err] w1] eqn:Eb; [|by intros [= <- _ _] [=]]. intros E Hr.
    destruct (IH _ _ _ E Hr) as [-> Hroles]. rewrite fmap_app, <- app_assoc. simpl.
    apply api_bind_endpoint in Eb as ->. split; [done|].
    intros e' l' [->|He]%elem_of_cons; [by rewrite El|by apply Hroles].
Qed.

(** Every listener kept has an endpoint wanted, and all the places that were
    served and are wanted are kept when the access changes apply. *)
Lemma commit_loop_sound wanted serving (w w' : W) kept : commit_loop wanted serving w = (kept, w') ->
  Forall (fun l => li_endpoint l ∈ wanted) kept.
Proof.
  revert w w' kept. induction serving as [|l serving IH]; intros w w' kept; simpl; [by intros [= <- _]|].
  destruct (find_first _ wanted) as [e|] eqn:Ef; [|apply IH]. apply find_first_Some in Ef as [He _].
  case_bool_decide as Hsame.
  - destruct (commit_loop wanted serving w) as [k w1] eqn:E. intros [= <- _]. constructor; [by subst e|by eapply IH].
  - destruct (match ep_address e with Address_Unix _ _ => _ | Address_Tcp _ => _ end) as [[]w1]; [|apply IH].
    destruct (commit_loop wanted serving w1) as [k w2] eqn:E. intros [= <- _]. constructor; [done|by eapply IH].
Qed.

Lemma commit_loop_complete wanted serving (w w' : W) kept e l :
  (forall path a (w : W), fst (apply_access path a w) = Ok tt) ->
  distinct_places wanted -> commit_loop wanted serving w = (kept, w') ->
  e ∈ wanted -> l ∈ serving -> same_place (ep_address (li_endpoint l)) (ep_address e) = true ->
  exists l', l' ∈ kept /\ li_endpoint l' = e.
Proof.
  intros Happly Hd. revert w w' kept. induction serving as [|x serving IH]; intros w w' kept; simpl.
  { intros _ _ Hl. by apply not_elem_of_nil in Hl. }
  intros E He Hl Hs. assert (Hfind : l = x ->
    find_first (fun e => same_place (ep_address e) (ep_address (li_endpoint x))) wanted = Some e).
  { intros ->. destruct (find_first _ wanted) as [e'|] eqn:Ef.
    - apply find_first_Some in Ef as [He' Hp]. f_equal.
      apply list_elem_of_lookup in He as [i Hi], He' as [j Hj]. rewrite same_place_sym in Hp.
      assert (Ht : same_place (ep_address e') (ep_address e) = true).
      { eapply same_place_trans; [|done]. by rewrite same_place_sym. }
      pose proof (Hd j i _ _ Hj Hi Ht) as ->. by rewrite Hi in Hj; injection Hj.
    - exfalso. pose proof (find_none _ _ Ef e) as Hn. rewrite same_place_sym in Hs. rewrite Hn in Hs; [done|].
      by apply list_elem_of_In. }
  apply elem_of_cons in Hl as [->|Hl].
  - rewrite (Hfind eq_refl) in E. case_bool_decide as Hsame.
    + destruct (commit_loop wanted serving w) as [k w1]. injection E as <- _. exists x. split; [by left|done].
    + assert (Ha : exists w1, (match ep_address e with Address_Unix p a => apply_access p a w | Address_Tcp _ => (Ok tt, w) end)
        = (Ok tt, w1)).
      { destruct (ep_address e) as [p a|]; [|by eexists]. specialize (Happly p a w).
        destruct (apply_access p a w) as [r w1]. simpl in Happly. subst r. by eexists. }
      destruct Ha as [w1 Ha]. rewrite Ha in E. destruct (commit_loop wanted serving w1) as [k w2]. injection E as <- _.
      eexists. split; [by left|done].
  - destruct (find_first _ wanted) as [e'|]; [|by eapply IH]. case_bool_decide.
    + destruct (commit_loop wanted serving w) as [k w1] eqn:Ek. injection E as <- _.
      destruct (IH _ _ _ Ek He Hl Hs) as (l' & Hl' & El'). exists l'. split; [by right|done].
    + destruct (match ep_address e' with Address_Unix _ _ => _ | Address_Tcp _ => _ end) as [[] w1]; [|by eapply IH].
      destruct (commit_loop wanted serving w1) as [k w2] eqn:Ek. injection E as <- _.
      destruct (IH _ _ _ Ek He Hl Hs) as (l' & Hl' & El'). exists l'. split; [by right|done].
Qed.

(** C15: A reload of the API's listeners: while one is prepared, every
    listener stays as it is, and none is taken over by another role.  After
    the commit only endpoints of the new configuration are served (never
    one with its old access), and all of them are when the changes of access
    succeed. *)
Theorem reload_switches_listeners es (m m1 m2 : Manager) (w w1 w1' w2 : W) :
  manager_step staging_dir parent_of (Cmd_Prepare es) m w = (m1, Some (Ok tt), w1) ->
  manager_step staging_dir parent_of Cmd_Commit m1 w1' = (m2, None, w2) ->
  distinct_places es ->
  mg_serving m1 = mg_serving m /\
  (forall e l, e ∈ es -> served_at (mg_serving m) e = Some l -> ep_role (li_endpoint l) = ep_role e) /\
  Forall (fun l => li_endpoint l ∈ es) (mg_serving m2) /\ mg_prepared m2 = [] /\
  ((forall path a (w : W), fst (apply_access path a w) = Ok tt) ->
   forall e, e ∈ es -> exists l, l ∈ mg_serving m2 /\ li_endpoint l = e).
Proof.
  unfold manager_step at 1. destruct (prepare_loop _ _ _ es [] _) as [[r p] wp] eqn:Ep.
  destruct r as [[]|err]; intros [= <- _]. destruct (prepare_loop_spec _ _ _ _ _ _ _ Ep eq_refl) as [Hp Hroles].
  unfold manager_step. cbn [mg_next mg_serving mg_prepared]. simpl in Hp.
  destruct (commit_loop es (mg_serving m) w1') as [kept wc] eqn:Ec. intros [= <- _] Hd. cbn [mg_serving mg_prepared].
  split_and!; [done|done| |done|].
  - apply Forall_app. split; [by eapply commit_loop_sound|]. rewrite Forall_fmap, Forall_forall. intros b Hb. simpl.
    assert (Hin : bo_endpoint b ∈ bo_endpoint <$> p) by by apply list_elem_of_fmap_2.
    rewrite Hp in Hin. apply list_elem_of_In, filter_In in Hin as [Hin _]. by apply list_elem_of_In.
  - intros Happly e He. destruct (served_at (mg_serving m) e) as [l|] eqn:El.
    + apply find_first_Some in El as [Hl Hs].
      destruct (commit_loop_complete es (mg_serving m) w1' wc kept e l Happly Hd Ec He Hl Hs) as (l' & Hl' & E).
      exists l'. split; [|done]. apply elem_of_app. by left.
    + assert (Hin : e ∈ bo_endpoint <$> p).
      { rewrite Hp. apply list_elem_of_In, filter_In. split; [by apply list_elem_of_In|]. by rewrite bool_decide_eq_true_2. }
      apply list_elem_of_fmap in Hin as (b & -> & Hb). exists (serve b). split; [|done].
      apply elem_of_app. right. by apply list_elem_of_fmap_2.
Qed.

(** A preparation that fails, or is rolled back, changes no listener:
    the same ones are served, nothing stays prepared, and a commit that came
    anyway would do nothing. *)
Theorem rollback_keeps_listeners c (m m' : Manager) r (w w' : W) :
  manager_step staging_dir parent_of c m w = (m', r, w') ->
  c = Cmd_Rollback \/ (exists es e, c = Cmd_Prepare es /\ r = Some (Err e)) ->
  mg_serving m' = mg_serving m /\ mg_prepared m' = [] /\
  forall w : W, manager_step staging_dir parent_of Cmd_Commit m' w = (m', None, w).
Proof.
  intros E [->|(es & e & -> & ->)].
  - by injection E as <- <- <-.
  - unfold manager_step in E. destruct (prepare_loop _ _ _ es [] _) as [[[]p] wp]; [done|]. by injection E as <- <- <-.
Qed.
End manager.

(** A file system that holds the sockets bound so far. *)
Module ApiSample.
Definition Files : Type := list (PathBuf * FileStat).
Definition at_path (p : PathBuf) (w : Files) : option FileStat := snd <$> find_first (fun f => bool_decide (fst f = p)) w.
Definition without (p : PathBuf) (w : Files) : Files := List.filter (fun f => negb (bool_decide (fst f = p))) w.
#[global] Instance SocketFs_Files : SocketFs Files := {|
  trust _ _ := [];
  lstat p w := match at_path p w with Some s => Ok s | None => Err NotFound end;
  remove_dir_all _ w := w;
  create_dir _ w := (Ok tt, w);
  bind_unix p w := (Ok tt, (p, mkFileStat true 1 (Z.of_nat (length w) + 10)) :: w);
  bind_tcp _ w := (Ok tt, w);
  chown _ _ w := (Ok tt, w);
  set_mode _ _ w := (Ok tt, w);
  rename p q w := match at_path p w with Some s => (Ok tt, (q, s) :: without p w) | None => (Err NotFound, w) end;
  remove_file p w := without p w;
  remove_dir _ w := w;
  save _ w := w
|}.
Definition control (gid : u32) : Endpoint :=
  mkEndpoint Role_Control (Address_Unix (lit "/run/polywan/control.sock") (mkAccess (Some gid))).
Definition status : Endpoint := mkEndpoint Role_Status (Address_Unix (lit "/run/polywan/status.sock") (mkAccess None)).
Definition metrics : Endpoint := mkEndpoint Role_Metrics (Address_Tcp (mkSocketAddr (IpV4 2130706433) 9100 0 0)).
Definition staging (p : PathBuf) : PathBuf := p ++ lit "/.polywan-staging-1".
Definition dir (_ : PathBuf) : option PathBuf := Some (lit "/run/polywan").
Definition started : Manager * result unit BindError * Files := manager_start staging dir [] [control 0; status] [].
Definition prepared := manager_step staging dir (Cmd_Prepare [control 5; metrics]) (fst (fst started)) (snd started).
Definition committed := manager_step staging dir Cmd_Commit (fst (fst prepared)) (snd prepared).
End ApiSample.

Lemma reload_switches_listeners_witness :
  Forall (fun l => li_endpoint l ∈ [ApiSample.control 5; ApiSample.metrics]) (mg_serving (fst (fst ApiSample.committed))) /\
  forall e, e ∈ [ApiSample.control 5; ApiSample.metrics] ->
    exists l, l ∈ mg_serving (fst (fst ApiSample.committed)) /\ li_endpoint l = e.
Proof.
  destruct (reload_switches_listeners ApiSample.staging ApiSample.dir [ApiSample.control 5; ApiSample.metrics]
    (fst (fst ApiSample.started)) (fst (fst ApiSample.prepared)) (fst (fst ApiSample.committed))
    (snd ApiSample.started) (snd ApiSample.prepared) (snd ApiSample.prepared) (snd ApiSample.committed))
    as (_ & _ & Hs & _ & Hc).
  - by vm_compute.
  - by vm_compute.
  - intros [|[|i]] [|[|j]] a b; simpl; intros [= <-] [= <-]; done.
  - split; [exact Hs|]. apply Hc. done.
Defined.

Lemma rollback_keeps_listeners_witness :
  let m := fst (fst ApiSample.prepared) in
  let '(m', r, w') := manager_step ApiSample.staging ApiSample.dir Cmd_Rollback m (snd ApiSample.prepared) in
  length (mg_prepared m) = 1%nat /\ mg_serving m' = mg_serving m /\ mg_prepared m' = [].
Proof.
  destruct (manager_step ApiSample.staging ApiSample.dir Cmd_Rollback (fst (fst ApiSample.prepared)) (snd ApiSample.prepared))
    as [[m' r] w'] eqn:E.
  destruct (rollback_keeps_listeners _ _ Cmd_Rollback _ m' r _ w' E (or_introl eq_refl)) as (H1 & H2 & _).
  split; [by vm_compute|done].
Defined.
