(* ===== verification/Worker.v ===== *)
(** * Work outside the State task

    Models crates/polywan/src/worker.rs: the jobs of the two lanes and their
    completions, the bounded queues, the persistence lane (which owns the
    manifest: every change of it is a job) with its order, and the
    validation of a reload.  Texts ([format!], [to_string]) are the record
    [Texts]; the files below /proc/sys are [ProcSys], the state directory
    is [StateDirOps]; [nft] is a parameter.  The blocking pool and the I/O
    thread are not modelled; [test_hooks] are those of a release build. *)

From stdpp Require Import prelude gmap sorting.
From Stdlib Require Import ZArith Lia.
From S2P Require Import Prelude Text Model Durations Config Plan Msg Netlink System Reconcile Discover StateFiles.
From S2P Require Import Sysctl Nft Checks ApiServer.

Local Open Scope Z_scope.

Inductive SysctlScope := Global | Interface (name : str).

#[export] Instance SysctlScope_eq_dec : EqDecision SysctlScope.
Proof. solve_decision. Defined.
#[export] Instance SysctlScope_countable : Countable SysctlScope.
Proof.
  apply (inj_countable' (fun s => match s with Global => None | Interface n => Some n end)
    (fun o => match o with None => Global | Some n => Interface n end)).
  by intros [].
Defined.
#[export] Instance SysctlScope_Cmp : Cmp SysctlScope :=
  cmp_by (fun s => match s with Global => None | Interface n => Some n end).
#[export] Instance SysctlScope_CmpOrder : CmpOrder SysctlScope.
Proof. apply CmpOrder_by. by intros [] [] [=]; subst. Qed.

(** ** Jobs and completions *)

Inductive NftJob :=
  | NftJob_Apply (seq : u64) (nft : PathBuf) (transaction : str)
  | NftJob_Inspect (seq : u64) (nft : PathBuf).

Inductive PersistJob :=
  | Job_Sysctls (seq : u64) (scope : SysctlScope) (settings : list Setting) (manage : bool)
  | Job_Bind (seq : u64) (config : Config) (drain : option DrainState)
  | Job_HandBack (seq : u64) (families : list Family)
  | Job_Drain (seq : u64) (state : DrainState)
  | Job_Forget (seq : u64) (uplink : str)
  | Job_Checkpoint (c : Checkpoint)
  | Job_GatewayWarning (uplink interface delay : str).

Record ReloadOutcome := mkReloadOutcome {
  ro_seq : u64;
  ro_result : result (Config * list Endpoint) (list str);
  ro_running_flowtables : option (result Value str)
}.

Inductive Done :=
  | Done_NftApplied (seq : u64) (result : result (option Value) str)
  | Done_NftInspected (seq : u64) (table : result (option Value) str) (flowtables : result Value str)
  | Done_Sysctls (seq : u64) (scope : SysctlScope) (result : result unit str) (manifest : Manifest)
  | Done_Bound (seq : u64) (result : result unit (list str)) (manifest : Manifest)
  | Done_HandedBack (seq : u64) (result : result unit str) (manifest : Manifest)
  | Done_Drained (seq : u64) (result : result unit str)
  | Done_Forgotten (seq : u64) (result : result u8 str) (manifest : Manifest)
  | Done_Reload (outcome : ReloadOutcome)
  | Done_ApiPrepared (seq : u64) (result : result unit str).

(** ** The lanes' queues *)

Inductive Lost := Full | Closed.

Definition LANE_QUEUE : usize := 64.

(** A bounded [mpsc] channel: what is queued, and whether its receiver is
    there. *)
Record Channel (J : Type) := mkChannel { ch_queue : list J; ch_open : bool }.
Arguments mkChannel {J}.
Arguments ch_queue {J}.
Arguments ch_open {J}.

Definition channel_try_send {J} (c : Channel J) (job : J) : Channel J * result unit Lost :=
  if negb (ch_open c) then (c, Err Closed)
  else if LANE_QUEUE <=? Z.of_nat (length (ch_queue c)) then (c, Err Full)
  else (mkChannel (ch_queue c ++ [job]) true, Ok tt).

Record Lanes := mkLanes { ln_nft : Channel NftJob; ln_persist : Channel PersistJob }.

Definition Lanes_nft (l : Lanes) (job : NftJob) : Lanes * result unit Lost :=
  let '(c, r) := channel_try_send (ln_nft l) job in (mkLanes c (ln_persist l), r).
Definition Lanes_persist (l : Lanes) (job : PersistJob) : Lanes * result unit Lost :=
  let '(c, r) := channel_try_send (ln_persist l) job in (mkLanes (ln_nft l) c, r).

(** ** Running a job *)

Record Texts := mkTexts {
  tx_state : StateError -> str;
  tx_apply : ApplyError -> str;
  tx_conflict : ManifestConflict -> str;
  tx_forget : ForgetError -> str;
  tx_io : ErrorKind -> str;
  tx_finding : Finding -> str;
  tx_group : GroupError -> str
}.

Class StateDirOps (W : Type) := {
  write_manifest : Manifest -> W -> result unit StateError * W;
  write_drain : DrainState -> W -> result unit StateError * W;
  write_checkpoint : Checkpoint -> W -> result unit StateError * W
}.
#[global] Hint Mode StateDirOps ! : typeclass_instances.

Section persist.
Context {W : Type} `{ProcSys W, StateDirOps W} (tx : Texts).

(** [dir.write_manifest(&m).map_err(|e| e.to_string())]. *)
Definition manifest_text (m : Manifest) (w : W) : result unit str * W :=
  match write_manifest m w with (Ok _, w) => (Ok tt, w) | (Err e, w) => (Err (tx_state tx e), w) end.

(** The loop of [HandBack]: the failures, the manifest and the world. *)
Fixpoint hand_back_families (families : list Family) (m : Manifest) (w : W) : list str * Manifest * W :=
  match families with
  | [] => ([], m, w)
  | f :: families =>
      let '(h, m, w) := hand_back m f w in
      let '(rest, m, w) := hand_back_families families m w in
      (((fun '(k, e) => dotted k ++ lit ": " ++ tx_io tx e) <$> ho_failed h) ++ rest, m, w)
  end.

Definition persist (job : PersistJob) (m : Manifest) (w : W) : option Done * Manifest * W :=
  match job with
  | Job_Sysctls seq scope settings manage =>
      let '(r, m, w) := apply_sysctls settings manage manifest_text (Ok tt) m w in
      (Some (Done_Sysctls seq scope (match r with Ok _ => Ok tt | Err e => Err (tx_apply tx e) end) m), m, w)
  | Job_Bind seq config drain =>
      match Manifest_check m config with
      | _ :: _ as conflicts => (Some (Done_Bound seq (Err (tx_conflict tx <$> conflicts)) m), m, w)
      | [] =>
          let bound := Manifest_bind m config in
          match write_manifest bound w with
          | (Err e, w) => (Some (Done_Bound seq (Err [tx_state tx e]) m), m, w)
          | (Ok _, w) =>
              let '(r, w) := match drain with
                             | None => (Ok tt, w)
                             | Some d => match write_drain d w with
                                         | (Ok _, w) => (Ok tt, w)
                                         | (Err e, w) => (Err [tx_state tx e], w)
                                         end
                             end in
              (Some (Done_Bound seq r bound), bound, w)
          end
      end
  | Job_HandBack seq families =>
      let '(failures, m, w) := hand_back_families families m w in
      let '(failures, w) := match write_manifest m w with
                            | (Ok _, w) => (failures, w)
                            | (Err e, w) => (failures ++ [lit "manifest: " ++ tx_state tx e], w)
                            end in
      let r := match failures with [] => Ok tt | _ => Err (str_join (lit "; ") failures) end in
      (Some (Done_HandedBack seq r m), m, w)
  | Job_Drain seq state =>
      let '(r, w) := write_drain state w in
      (Some (Done_Drained seq (match r with Ok _ => Ok tt | Err e => Err (tx_state tx e) end)), m, w)
  | Job_Forget seq uplink =>
      let '(released, r) := Manifest_forget m uplink in
      match r with
      | Err e => (Some (Done_Forgotten seq (Err (tx_forget tx e)) m), m, w)
      | Ok id =>
          match write_manifest released w with
          | (Ok _, w) => (Some (Done_Forgotten seq (Ok (UplinkId_get id)) released), released, w)
          | (Err e, w) => (Some (Done_Forgotten seq (Err (tx_state tx e)) m), m, w)
          end
      end
  | Job_Checkpoint c => let '(_, w) := write_checkpoint c w in (None, m, w)
  | Job_GatewayWarning _ _ _ => (None, m, w)
  end.

(** ** The persistence lane *)

(** Between jobs the lane sorts what is queued; with nothing to do it waits
    for the next job, which it then runs as received. *)
Inductive LanePhase := Sorting | Waiting.

Record PersistLane := mkPersistLane {
  pl_phase : LanePhase;
  pl_queue : list PersistJob;
  pl_checkpoint : option Checkpoint;
  pl_manifest : Manifest
}.

(** The [while let Ok(job) = jobs.try_recv()] loop. *)
Fixpoint sort_jobs (jobs queue : list PersistJob) (c : option Checkpoint) : list PersistJob * option Checkpoint :=
  match jobs with
  | [] => (queue, c)
  | Job_Checkpoint c :: jobs => sort_jobs jobs queue (Some c)
  | job :: jobs => sort_jobs jobs (queue ++ [job]) c
  end.

(** The job an iteration runs, with the channel and the lane left; [None]
    when it waits. *)
Definition next_job (jobs : list PersistJob) (l : PersistLane) : option PersistJob * list PersistJob * PersistLane :=
  match pl_phase l with
  | Sorting =>
      let '(queue, c) := sort_jobs jobs (pl_queue l) (pl_checkpoint l) in
      match queue, c with
      | job :: queue, _ => (Some job, [], mkPersistLane Sorting queue c (pl_manifest l))
      | [], Some c => (Some (Job_Checkpoint c), [], mkPersistLane Sorting [] None (pl_manifest l))
      | [], None => (None, [], mkPersistLane Waiting [] None (pl_manifest l))
      end
  | Waiting =>
      match jobs with
      | job :: jobs => (Some job, jobs, mkPersistLane Sorting (pl_queue l) (pl_checkpoint l) (pl_manifest l))
      | [] => (None, [], l)
      end
  end.

(** One iteration of [persist_lane]: the job run, if any, and its report. *)
Definition persist_lane (jobs : list PersistJob) (l : PersistLane) (w : W)
    : option PersistJob * option Done * list PersistJob * PersistLane * W :=
  match next_job jobs l with
  | (None, jobs, l) => (None, None, jobs, l, w)
  | (Some job, jobs, l) =>
      let '(report, m, w) := persist job (pl_manifest l) w in
      (Some job, report, jobs, mkPersistLane (pl_phase l) (pl_queue l) (pl_checkpoint l) m, w)
  end.

Definition PersistLane_new (m : Manifest) : PersistLane := mkPersistLane Sorting [] None m.
End persist.

(** ** The nftables lane *)

(** Running [nft]: applying a transaction, listing the table and the
    flowtables ([nftctl]). *)
Class NftOps (N : Type) := {
  nft_apply : PathBuf -> str -> N -> result unit str * N;
  nft_table : PathBuf -> N -> result (option Value) str * N;
  nft_flowtables : PathBuf -> N -> result Value str * N
}.
#[global] Hint Mode NftOps ! : typeclass_instances.

Definition nft_lane {N} `{NftOps N} (job : NftJob) (n : N) : Done * N :=
  match job with
  | NftJob_Apply seq nft transaction =>
      match nft_apply nft transaction n with
      | (Err e, n) => (Done_NftApplied seq (Err e), n)
      | (Ok _, n) =>
          let '(t, n) := nft_table nft n in
          (Done_NftApplied seq (Ok (match t with Ok t => t | Err _ => None end)), n)
      end
  | NftJob_Inspect seq nft =>
      let '(table, n) := nft_table nft n in
      let '(flowtables, n) := nft_flowtables nft n in
      (Done_NftInspected seq table flowtables, n)
  end.

(** ** Validation of a reload *)

Record ReloadContext := mkReloadContext {
  rc_structural : Structural;
  rc_state_dir : PathBuf;
  rc_nft_path : PathBuf;
  rc_local_addresses : list LocalAddress
}.

Inductive ReloadError := Reload_Structural | Reload_StateDir | Reload_Panicked | Reload_Flowtables (e : str).

(** The blocking part: [loaded] is what [config::load] gave. *)
Definition validate_loaded (tx : Texts) (h : Host) (path : PathBuf) (inherited : list i32)
    (reload_text : ReloadError -> str) (loaded : result Config str) (running : ReloadContext)
    : result (Config * list Endpoint) (list str) :=
  match loaded with
  | Err e => Err [e]
  | Ok new =>
      if negb (bool_decide (Config_structural new = rc_structural running)) then Err [reload_text Reload_Structural] else
      if negb (bool_decide (cf_state_dir new = rc_state_dir running)) then Err [reload_text Reload_StateDir] else
      match Runnable_errors (runnable h path new inherited) with
      | _ :: _ as e => Err (tx_finding tx <$> e)
      | [] =>
          match targets (rc_local_addresses running) new with
          | _ :: _ as e => Err (tx_finding tx <$> e)
          | [] => match endpoints h new with Ok es => Ok (new, es) | Err e => Err [tx_group tx e] end
          end
      end
  end.

(** [loaded] is [None] when loading panicked. *)
Definition validate {N} `{NftOps N} (tx : Texts) (h : Host) (path : PathBuf) (inherited : list i32)
    (reload_text : ReloadError -> str) (loaded : option (result Config str)) (seq : u64) (running : ReloadContext)
    (n : N) : ReloadOutcome * N :=
  match loaded with
  | None => (mkReloadOutcome seq (Err [reload_text Reload_Panicked]) None, n)
  | Some loaded =>
      match validate_loaded tx h path inherited reload_text loaded running with
      | Err e => (mkReloadOutcome seq (Err e) None, n)
      | Ok (new, es) =>
          let '(listing, n) := nft_flowtables (rc_nft_path running) n in
          let '(proposed, n) :=
            if bool_decide (fw_nft_path (cf_firewall new) = rc_nft_path running) then (listing, n)
            else nft_flowtables (fw_nft_path (cf_firewall new)) n in
          match proposed with
          | Err e => (mkReloadOutcome seq (Err [reload_text (Reload_Flowtables e)]) (Some listing), n)
          | Ok r =>
              match flowtables r new with
              | _ :: _ as found => (mkReloadOutcome seq (Err (tx_finding tx <$> found)) (Some listing), n)
              | [] => (mkReloadOutcome seq (Ok (new, es)) (Some listing), n)
              end
          end
      end
  end.

(** ** The order of the persistence lane *)

Definition admin (jobs : list PersistJob) : list PersistJob :=
  List.filter (fun j => match j with Job_Checkpoint _ => false | _ => true end) jobs.
Definition checkpoints (jobs : list PersistJob) : list Checkpoint :=
  omap (fun j => match j with Job_Checkpoint c => Some c | _ => None end) jobs.

(** What happens to the lane: a job is queued, or it makes an iteration. *)
Inductive LaneEvent := Queue (job : PersistJob) | Iterate.

(** The lane with its channel and its history. *)
Record LaneRun := mkLaneRun {
  lr_channel : list PersistJob; lr_lane : PersistLane; lr_sent : list PersistJob; lr_ran : list PersistJob
}.

Definition lane_step {W} `{ProcSys W, StateDirOps W} (tx : Texts) (s : LaneRun * W) (e : LaneEvent) : LaneRun * W :=
  let '(r, w) := s in
  match e with
  | Queue job => (mkLaneRun (lr_channel r ++ [job]) (lr_lane r) (lr_sent r ++ [job]) (lr_ran r), w)
  | Iterate =>
      let '(job, _, jobs, l, w) := persist_lane tx (lr_channel r) (lr_lane r) w in
      (mkLaneRun jobs l (lr_sent r) (lr_ran r ++ option_list job), w)
  end.

(** Nothing is lost or reordered among the administrative jobs, only the
    latest checkpoint counts, and a waiting lane holds nothing. *)
Record lane_inv (r : LaneRun) : Prop := {
  li_admin : admin (lr_sent r) = admin (lr_ran r) ++ admin (pl_queue (lr_lane r)) ++ admin (lr_channel r);
  li_latest : last (checkpoints (lr_sent r)) =
    last (checkpoints (lr_ran r) ++ option_list (pl_checkpoint (lr_lane r)) ++ checkpoints (lr_channel r));
  li_queue : admin (pl_queue (lr_lane r)) = pl_queue (lr_lane r);
  li_waiting : pl_phase (lr_lane r) = Waiting -> pl_queue (lr_lane r) = [] /\ pl_checkpoint (lr_lane r) = None
}.

Lemma admin_app a b : admin (a ++ b) = admin a ++ admin b.
Proof. apply List.filter_app. Qed.
Lemma checkpoints_app a b : checkpoints (a ++ b) = checkpoints a ++ checkpoints b.
Proof. apply omap_app. Qed.

Lemma last_app_cons {A} (a b c : list A) : last b = last c -> last (a ++ b) = last (a ++ c).
Proof. intros E. by rewrite !last_app, E. Qed.

(** Sorting keeps the administrative jobs in order and the last checkpoint. *)
Lemma sort_jobs_spec jobs queue c queue' c' : admin queue = queue -> sort_jobs jobs queue c = (queue', c') ->
  queue' = queue ++ admin jobs /\ last (option_list c') = last (option_list c ++ checkpoints jobs) /\ admin queue' = queue'.
Proof.
  revert queue c. induction jobs as [|job jobs IH]; intros queue c Hq; simpl.
  { intros [= <- <-]. by rewrite !app_nil_r. }
  assert (Hadmin : forall j, admin [j] = [j] -> sort_jobs jobs (queue ++ [j]) c = (queue', c') ->
    queue' = queue ++ j :: admin jobs /\ last (option_list c') = last (option_list c ++ checkpoints jobs) /\
    admin queue' = queue').
  { intros j Hj E. destruct (IH (queue ++ [j]) c) as (-> & Hl & Ha); [by rewrite admin_app, Hq, Hj|done|].
    rewrite <- app_assoc in *. done. }
  destruct job; try by apply Hadmin. intros (-> & Hl & Ha)%IH; [|done]. split_and!; [done| |done].
  rewrite Hl. by destruct c.
Qed.

Section lane.
Context {W : Type} `{ProcSys W, StateDirOps W} (tx : Texts).
Set Default Proof Using "Type".

(** What an iteration runs and leaves. *)
Lemma next_job_inv r job jobs l : lane_inv r -> next_job (lr_channel r) (lr_lane r) = (job, jobs, l) ->
  admin (option_list job) ++ admin (pl_queue l) ++ admin jobs = admin (pl_queue (lr_lane r)) ++ admin (lr_channel r) /\
  last (checkpoints (option_list job) ++ option_list (pl_checkpoint l) ++ checkpoints jobs) =
    last (option_list (pl_checkpoint (lr_lane r)) ++ checkpoints (lr_channel r)) /\
  admin (pl_queue l) = pl_queue l /\
  (pl_phase l = Waiting -> pl_queue l = [] /\ pl_checkpoint l = None) /\
  (forall c, job = Some (Job_Checkpoint c) -> pl_queue l = []).
Proof.
  intros [_ _ Hq Hw]. unfold next_job. destruct (pl_phase (lr_lane r)).
  - destruct (sort_jobs _ _ _) as [queue c] eqn:Es. apply sort_jobs_spec in Es as (-> & Hl & Ha); [|done].
    rewrite Hq. destruct (pl_queue (lr_lane r) ++ admin (lr_channel r)) as [|j queue] eqn:Eq.
    + rewrite <- Hl. destruct c as [c|]; intros [= <- <- <-]; simpl; rewrite ?Eq; by split_and!.
    + assert (Hj : admin [j] = [j] /\ admin queue = queue /\ checkpoints [j] = []).
      { change (j :: queue) with ([j] ++ queue) in Ha. rewrite admin_app in Ha.
        destruct j; simpl in Ha; try (injection Ha as Ha; done). exfalso.
        pose proof (filter_length_le (fun j => match j with Job_Checkpoint _ => false | _ => true end) queue) as Hle.
        fold (admin queue) in Hle. rewrite Ha in Hle. simpl in Hle. lia. }
      destruct Hj as (Hj & Hqq & Hc). intros [= <- <- <-]. change (option_list (Some j)) with [j]. cbn [pl_queue pl_checkpoint pl_phase].
      rewrite Hj, Hqq, Hc. simpl. rewrite !app_nil_r. split_and!; try done; intros c0 [= ->]. done.
  - destruct (Hw eq_refl) as [Eq Ec]. rewrite Eq, Ec. destruct (lr_channel r) as [|j ch]; intros [= <- <- <-]; simpl.
    + rewrite Eq, Ec. by split_and!.
    + split_and!; try done; by destruct j.
Qed.

Lemma lane_step_inv r (w : W) e r' w' : lane_inv r -> lane_step tx (r, w) e = (r', w') -> lane_inv r'.
Proof.
  intros Hi. destruct e as [job|]; simpl.
  - intros [= <- _]. destruct Hi as [Ha Hl Hq Hw]. split; simpl; [| |done|done].
    + by rewrite !admin_app, Ha, <- !app_assoc.
    + rewrite !checkpoints_app, !app_assoc. rewrite app_assoc in Hl.
      by rewrite !(last_app _ (checkpoints [job])), Hl.
  - unfold persist_lane. destruct (next_job (lr_channel r) (lr_lane r)) as [[job jobs] l] eqn:En.
    pose proof (next_job_inv r job jobs l Hi En) as (Ha & Hl & Hq & Hw & _). destruct Hi as [Ha0 Hl0 _ _].
    assert (Hgoal : forall m, lane_inv (mkLaneRun jobs (mkPersistLane (pl_phase l) (pl_queue l) (pl_checkpoint l) m)
      (lr_sent r) (lr_ran r ++ option_list job))).
    { intros m. split; simpl; [| |done|done].
      - by rewrite Ha0, admin_app, <- app_assoc, Ha.
      - rewrite Hl0, checkpoints_app, <- app_assoc. by apply last_app_cons. }
    destruct job as [job|].
    + destruct (persist tx job (pl_manifest l) w) as [[report m] w1]. intros [= <- _]. apply Hgoal.
    + intros [= <- _]. specialize (Hgoal (pl_manifest l)). by destruct l.
Qed.

(** The persistence lane runs administrative jobs in the order they
    were queued and loses none: those run, followed by those still waiting,
    are those queued.  Of the checkpoints the latest counts (the last one
    run, or one that waits, is the last one queued), and a checkpoint runs
    only when no administrative job that the lane took waits. *)
Theorem persist_lane_order events (w : W) m :
  let '(r, _) := foldl (lane_step tx) (mkLaneRun [] (PersistLane_new m) [] [], w) events in
  admin (lr_sent r) = admin (lr_ran r) ++ pl_queue (lr_lane r) ++ admin (lr_channel r) /\
  last (checkpoints (lr_sent r)) =
    last (checkpoints (lr_ran r) ++ option_list (pl_checkpoint (lr_lane r)) ++ checkpoints (lr_channel r)) /\
  forall c, fst (fst (next_job (lr_channel r) (lr_lane r))) = Some (Job_Checkpoint c) ->
    pl_queue (snd (next_job (lr_channel r) (lr_lane r))) = [].
Proof.
  set (s := (mkLaneRun [] (PersistLane_new m) [] [], w)).
  assert (Hs : lane_inv (fst s)) by (by split). clearbody s. revert s Hs. induction events as [|e events IH]; intros [r w0] Hs.
  - simpl in *. pose proof Hs as [Ha Hl Hq Hw]. rewrite Hq in Ha. split_and!; [done|done|].
    destruct (next_job (lr_channel r) (lr_lane r)) as [[job jobs] l] eqn:En. simpl.
    by destruct (next_job_inv r job jobs l Hs En) as (_ & _ & _ & _ & ?).
  - cbn [foldl]. apply IH. destruct (lane_step tx (r, w0) e) as [r' w'] eqn:E. by eapply lane_step_inv.
Qed.
End lane.

(** ** What a completion promises *)

(** The manifest and the drain intent on disk. *)
Class StateDirView (W : Type) := { disk_manifest : W -> Manifest; disk_drain : W -> DrainState }.
#[global] Hint Mode StateDirView ! : typeclass_instances.

(** A successful write is on disk; nothing else changes what is there. *)
Class StateDirLaws (W : Type) `{ProcSys W, StateDirOps W, StateDirView W} := {
  write_manifest_Ok : forall m (w w' : W), write_manifest m w = (Ok tt, w') -> disk_manifest w' = m;
  write_manifest_drain : forall m (w : W), disk_drain (snd (write_manifest m w)) = disk_drain w;
  write_drain_Ok : forall d (w w' : W), write_drain d w = (Ok tt, w') -> disk_drain w' = d;
  write_drain_manifest : forall d (w : W), disk_manifest (snd (write_drain d w)) = disk_manifest w;
  write_checkpoint_manifest : forall c (w : W), disk_manifest (snd (write_checkpoint c w)) = disk_manifest w;
  write_checkpoint_drain : forall c (w : W), disk_drain (snd (write_checkpoint c w)) = disk_drain w;
  proc_write_manifest : forall k v (w : W), disk_manifest (snd (proc_write k v w)) = disk_manifest w
}.
#[global] Hint Mode StateDirLaws ! - - - : typeclass_instances.

(** Whether a completion reports success. *)
Definition report_ok (d : Done) : bool :=
  match d with
  | Done_NftApplied _ (Ok _) | Done_Sysctls _ _ (Ok _) _ | Done_Bound _ (Ok _) _ | Done_HandedBack _ (Ok _) _
  | Done_Drained _ (Ok _) | Done_Forgotten _ (Ok _) _ | Done_ApiPrepared _ (Ok _) => true
  | Done_NftInspected _ (Ok _) (Ok _) => true
  | Done_Reload o => match ro_result o with Ok _ => true | Err _ => false end
  | _ => false
  end.

(** The manifest a completion carries. *)
Definition report_manifest (d : Done) : option Manifest :=
  match d with
  | Done_Sysctls _ _ _ m | Done_Bound _ _ m | Done_HandedBack _ _ m | Done_Forgotten _ _ m => Some m
  | _ => None
  end.

Section durable.
Context {W : Type} `{StateDirLaws W} (tx : Texts).
Set Default Proof Using "Type*".

Lemma sysctl_write_manifest k v (w : W) : disk_manifest (snd (sysctl_write k v w)) = disk_manifest w.
Proof. unfold sysctl_write. destruct (valid_key k); [apply proc_write_manifest|done]. Qed.

Lemma write_values_manifest diffs (w : W) : disk_manifest (snd (write_values diffs w)) = disk_manifest w.
Proof.
  revert w. induction diffs as [|d diffs IH]; intros w; simpl; [done|].
  pose proof (sysctl_write_manifest (sg_key (df_setting d)) (sg_value (df_setting d)) w) as E.
  destruct (sysctl_write _ _ w) as [[] w1]; simpl in *; [|done]. by rewrite IH.
Qed.

Lemma apply_sysctls_durable settings manage m (w w' : W) m' r : disk_manifest w = m ->
  apply_sysctls settings manage (manifest_text tx) (Ok tt) m w = (r, m', w') -> r = Ok tt -> disk_manifest w' = m'.
Proof.
  intros Hd. unfold apply_sysctls. destruct (differences _ _) as [[|d diffs]|e]; [by intros [= <- <- <-]| |].
  - destruct manage; cbn [negb]; [|by intros [= <- <- <-]]. set (recorded := record m (d :: diffs)).
    case_bool_decide.
    + pose proof (write_values_manifest (d :: diffs) w) as Hv.
      destruct (write_values (d :: diffs) w) as [r1 w1]. cbn in Hv. intros [= <- <- <-] _. by rewrite Hv.
    + unfold manifest_text. destruct (write_manifest recorded w) as [[[]|e] w1] eqn:Ew; [|by intros [= <- <- <-]].
      apply write_manifest_Ok in Ew. pose proof (write_values_manifest (d :: diffs) w1) as Hv.
      destruct (write_values (d :: diffs) w1) as [r1 w2]. cbn in Hv. intros [= <- <- <-] _. by rewrite Hv.
  - destruct manage; simpl; by intros [= <- <- <-].
Qed.

(** C18: What the persistence lane reports as done is on disk, and what it
    reports is its own manifest: starting with the manifest on disk, a
    completion that reports success leaves the lane's manifest on disk, and
    a job without one leaves it there; a drain intent reported written is
    the intent on disk; a reload reported bound had no conflict, and its
    bindings and its pruned drain intent are on disk. *)
Theorem persist_durable job m (w w' : W) r m' : disk_manifest w = m -> persist tx job m w = (r, m', w') ->
  (forall d, r = Some d -> report_manifest d = None \/ report_manifest d = Some m') /\
  (match r with Some d => report_ok d = true | None => True end -> disk_manifest w' = m') /\
  match job, r with
  | Job_Drain _ state, Some (Done_Drained _ (Ok _)) => disk_drain w' = state
  | Job_Bind _ config drain, Some (Done_Bound _ (Ok _) _) =>
      Manifest_check m config = [] /\ m' = Manifest_bind m config /\ forall d, drain = Some d -> disk_drain w' = d
  | _, _ => True
  end.
Proof.
  intros Hd. destruct job as [seq scope settings manage|seq config drain|seq fams|seq state|seq up|c|u i dl]; simpl.
  - destruct (apply_sysctls _ _ _ _ m w) as [[ra ma] wa] eqn:E. intros [= <- <- <-].
    split_and!; [by intros d [= <-]; right| |done]. destruct ra as [[]|]; [|done]. intros _. by eapply apply_sysctls_durable.
  - destruct (Manifest_check m config) as [|k ks]; [|intros [= <- <- <-]; split_and!; [by intros d [= <-]; right|done|done]].
    destruct (write_manifest (Manifest_bind m config) w) as [[[]|e] w1] eqn:Ew;
      [|intros [= <- <- <-]; split_and!; [by intros d [= <-]; right|done|done]].
    apply write_manifest_Ok in Ew. destruct drain as [dr|].
    + pose proof (write_drain_manifest dr w1) as Hm. destruct (write_drain dr w1) as [[[]|e] w2] eqn:Edr; intros [= <- <- <-];
        simpl in Hm; (split; [by intros d [= <-]; right|split; [congruence|]]); [|done].
      split_and!; [done..|]. intros d [= <-]. by eapply write_drain_Ok.
    + intros [= <- <- <-]. split_and!; [by intros d [= <-]; right|done|done|done|done].
  - destruct (hand_back_families tx fams m w) as [[failures mh] wh].
    destruct (write_manifest mh wh) as [[[]|e] w1] eqn:Ew; intros [= <- <- <-];
      (split_and!; [by intros d [= <-]; right| |done]).
    + apply write_manifest_Ok in Ew. done.
    + by destruct failures.
  - pose proof (write_drain_manifest state w) as Hm. destruct (write_drain state w) as [[[]|e] w1] eqn:E;
      intros [= <- <- <-]; simpl in Hm; (split; [by intros d [= <-]; left|split; [congruence|]]); [by eapply write_drain_Ok|done].
  - destruct (Manifest_forget m up) as [released [id|e]]; [|intros [= <- <- <-]; split_and!; [by intros d [= <-]; right|done|done]].
    destruct (write_manifest released w) as [[[]|e] w1] eqn:Ew; intros [= <- <- <-];
      (split_and!; [by intros d [= <-]; right| |done]); [|done]. intros _. by eapply write_manifest_Ok.
  - pose proof (write_checkpoint_manifest c w) as Hm. destruct (write_checkpoint c w) as [rc w1]. intros [= <- <- <-].
    simpl in Hm. split_and!; [done|congruence|done].
  - intros [= <- <- <-]. by split_and!.
Qed.
End durable.

(** ** Accepted reloads *)

Lemma validate_accepts {N} `{NftOps N} tx h path inherited text loaded seq running (n n' : N) o new es :
  validate tx h path inherited text loaded seq running n = (o, n') -> ro_result o = Ok (new, es) ->
  loaded = Some (Ok new) /\ Config_structural new = rc_structural running /\ cf_state_dir new = rc_state_dir running /\
  Runnable_errors (runnable h path new inherited) = [] /\ targets (rc_local_addresses running) new = [] /\
  endpoints h new = Ok es.
Proof.
  unfold validate. destruct loaded as [loaded|]; [|by intros [= <- _]]. unfold validate_loaded.
  destruct loaded as [c|e]; [|by intros [= <- _]].
  case_bool_decide as Hs; cbn [negb]; [|by intros [= <- _]]. case_bool_decide as Hd; cbn [negb]; [|by intros [= <- _]].
  destruct (Runnable_errors _) eqn:Hr; [|by intros [= <- _]]. destruct (targets _ _) eqn:Ht; [|by intros [= <- _]].
  destruct (endpoints h c) as [es'|] eqn:He; [|by intros [= <- _]].
  destruct (nft_flowtables (rc_nft_path running) n) as [listing n1].
  destruct (if bool_decide (fw_nft_path (cf_firewall c) = _) then _ else _) as [[r|e] n2]; [|by intros [= <- _]].
  destruct (flowtables r c); intros [= <- _]; [|done]. simpl. intros [= <- <-]. by split_and!.
Qed.

(** ** A sample state directory *)

Module WorkerSample.
Record World := mkWorld { files : gmap str str; manifest : Manifest; drain : DrainState; checkpoint : option Checkpoint }.
#[global] Instance World_ProcSys : ProcSys World := {|
  proc_read := fun k w => match files w !! k with Some s => Ok s | None => Err NotFound end;
  proc_write := fun k v w => (Ok tt, mkWorld (<[k := v]> (files w)) (manifest w) (drain w) (checkpoint w))
|}.
#[global] Instance World_StateDirOps : StateDirOps World := {|
  write_manifest := fun m w => (Ok tt, mkWorld (files w) m (drain w) (checkpoint w));
  write_drain := fun d w => (Ok tt, mkWorld (files w) (manifest w) d (checkpoint w));
  write_checkpoint := fun c w => (Ok tt, mkWorld (files w) (manifest w) (drain w) (Some c))
|}.
#[global] Instance World_StateDirView : StateDirView World := {| disk_manifest := manifest; disk_drain := drain |}.
#[global] Instance World_StateDirLaws : StateDirLaws World.
Proof. split; simpl; try done; intros *; by intros [= <-]. Qed.
Definition texts : Texts := mkTexts (fun _ => []) (fun _ => []) (fun _ => []) (fun _ => []) (fun _ => []) (fun _ => []) (fun _ => []).
Definition start : World := mkWorld ∅ (Manifest_new NftSample.plain_name) DrainState_default None.
Definition job : PersistJob := Job_Bind 7 NftSample.plain_name (Some (DrainState_of [lit "fiber"])).
End WorkerSample.

Lemma persist_durable_witness :
  let '(r, m', w') := persist WorkerSample.texts WorkerSample.job (WorkerSample.manifest WorkerSample.start) WorkerSample.start in
  disk_manifest w' = m' /\ disk_drain w' = DrainState_of [lit "fiber"].
Proof.
  destruct (persist WorkerSample.texts WorkerSample.job (WorkerSample.manifest WorkerSample.start) WorkerSample.start)
    as [[r m'] w'] eqn:E.
  destruct (persist_durable WorkerSample.texts WorkerSample.job (WorkerSample.manifest WorkerSample.start)
    WorkerSample.start w' r m') as (_ & Hd & Hb); [reflexivity|exact E|].
  assert (Hr : r = Some (Done_Bound 7 (Ok tt) m')) by (vm_compute in E; by injection E as <- <- <-).
  rewrite Hr in Hd, Hb. split; [by apply Hd|]. by apply Hb.
Defined.
