(* ===== verification/MailText.v ===== *)
(** * Email: the text of messages

    Models the parts of crates/polywan/src/mail.rs that construct messages:
    the lines and bounds of a batch, the bodies, Message-IDs, dates, the
    base64 encoding, the complete message and the sendmail run; and the body
    of a test message of crates/polywan/src/notifytest.rs. *)

From stdpp Require Import prelude.
From Stdlib Require Import ZArith Lia.
From S2P Require Import Prelude Text Durations Config Msg Events Validate Validated Nft.

Local Open Scope Z_scope.
Local Open Scope polywan_scope.

(** ** Bytes and chunks *)

(** [str::as_bytes]: the UTF-8 encoding. *)
Definition char_utf8 (c : Z) : list u8 :=
  if c <? 0x80 then [c]
  else if c <? 0x800 then [0xc0 + c / 64; 0x80 + c mod 64]
  else if c <? 0x10000 then [0xe0 + c / 4096; 0x80 + c / 64 mod 64; 0x80 + c mod 64]
  else [0xf0 + c / 262144; 0x80 + c / 4096 mod 64; 0x80 + c / 64 mod 64; 0x80 + c mod 64].
Definition utf8 (s : str) : list u8 := concat (char_utf8 <$> s).

(** [slice::chunks]; the length is enough fuel. *)
Fixpoint chunks_fuel {A} (fuel n : nat) (l : list A) : list (list A) :=
  match fuel, l with
  | S fuel, _ :: _ => take n l :: chunks_fuel fuel n (drop n l)
  | _, _ => []
  end.
Definition chunks {A} (n : nat) (l : list A) : list (list A) := chunks_fuel (length l) n l.

(** ** Bounds *)

Definition BATCH_CHANGES : usize := 200.
Definition BATCH_BYTES : usize := Z.shiftl 64 10.
Definition BODY_BYTES : usize := Z.shiftl 128 10.
Definition MESSAGE_BYTES : usize := Z.shiftl 512 10.

(** ** A batch *)

Inductive MailKind := Kind_Notification | Kind_Suppressed | Kind_Test.

Definition MailKind_subject (k : MailKind) : str :=
  match k with
  | Kind_Notification => lit "PolyWAN notification"
  | Kind_Suppressed => lit "PolyWAN notifications suppressed"
  | Kind_Test => lit "PolyWAN notification test"
  end.

(** [char::escape_unicode]. *)
Definition escape_unicode (c : Z) : str := lit "\u{" ++ to_hex c ++ lit "}".

Definition change_line {Value} (e : Event Value) : str :=
  ev_timestamp e ++ lit " " ++ ev_kind e ++
  concat ((fun part => lit " " ++ part) <$> (option_list (ev_uplink e) ++ option_list (ev_family e))) ++
  lit ": " ++ concat ((fun c => if is_control c then escape_unicode c else [c]) <$> ev_message e) ++ [10].

Record Batch := mkBatch { ba_deadline : Instant; ba_text : str; ba_changes : usize; ba_omitted : usize }.

Definition Batch_new (deadline : Instant) : Batch := mkBatch deadline [] 0 0.

Definition Batch_add {Value} (b : Batch) (e : Event Value) : Batch :=
  let line := change_line e in
  if (ba_changes b <? BATCH_CHANGES) && (str_len (ba_text b) + str_len line <=? BATCH_BYTES)
  then mkBatch (ba_deadline b) (ba_text b ++ line) (ba_changes b + 1) (ba_omitted b)
  else mkBatch (ba_deadline b) (ba_text b) (ba_changes b) (ba_omitted b + 1).

Definition on_host (host : option str) : str := match host with Some h => lit " on " ++ h | None => [] end.
Definition plural (n : Z) : str := if n =? 1 then [] else lit "s".
Definition was_were (n : Z) : str := if n =? 1 then lit " was" else lit "s were".

Definition Batch_body (b : Batch) (host : option str) (suppressed : u64) : str :=
  let total := ba_changes b + ba_omitted b in
  lit "PolyWAN" ++ on_host host ++ lit " reports " ++ to_decimal total ++ lit " change" ++ plural total ++ lit ":" ++
  [10; 10] ++ ba_text b ++
  (if 0 <? ba_omitted b then
     [10] ++ to_decimal (ba_omitted b) ++ lit " further change" ++ was_were (ba_omitted b) ++
     lit " omitted (a message lists at most " ++ to_decimal BATCH_CHANGES ++ lit " changes and " ++
     to_decimal (Z.shiftr BATCH_BYTES 10) ++ lit " KiB)." ++ [10]
   else []) ++
  (if 0 <? suppressed then
     [10] ++ to_decimal suppressed ++ lit " notification" ++ was_were suppressed ++
     lit " suppressed by notify.email.max_per_hour before this one." ++ [10]
   else []).

Definition suppression_body (host : option str) (max_per_hour : u32) : str :=
  lit "PolyWAN" ++ on_host host ++ lit " reached its limit of " ++ to_decimal max_per_hour ++ lit " notification" ++
  plural max_per_hour ++ lit " per hour (notify.email.max_per_hour)." ++ [10; 10] ++
  lit "Further notifications are suppressed until the rolling hour leaves room; the next notification reports how many were suppressed. At most one such notice is sent per hour." ++
  [10].

(** The body of a test message (notifytest::body). *)
Definition test_body (host : option str) : str :=
  lit "This is a test of PolyWAN's email notifications" ++ on_host host ++
  lit ", requested with `polywan notify-test`; no routing change caused it." ++ [10; 10] ++
  lit "The next line has non-ASCII text, the one after it a single dot:" ++ [10] ++
  lit "PolyWAN " ++ [0x2014] ++ lit " prova " ++ [0x2713] ++ [10] ++ lit "." ++ [10] ++ lit "End of the test." ++ [10].

(** ** A message *)

Record MailMessage := mkMailMessage {
  mm_kind : MailKind; mm_id : str; mm_date : Z; mm_body : str; mm_failures : usize; mm_due : Instant
}.

Definition message_id (instance : str) (n : u64) (from : str) : str :=
  let domain := match rsplit_once 64 from with Some (_, d) => d | None => lit "localhost" end in
  lit "<" ++ to_decimal n ++ lit "." ++ instance ++ lit "@" ++ domain ++ lit ">".

(** [trim_end_matches('\n')]. *)
Definition trim_newlines (s : str) : str := rev (drop_while (Z.eqb 10) (rev s)).

Definition host_suffix (raw : str) : option str :=
  let h := trim_newlines raw in
  if negb (bool_decide (h = [])) && (str_len h <=? 63) && forallb dns_label (split_on 46 h) then Some h else None.

Definition DAYS : list str := [lit "Thu"; lit "Fri"; lit "Sat"; lit "Sun"; lit "Mon"; lit "Tue"; lit "Wed"].
Definition MONTHS : list str :=
  [lit "Jan"; lit "Feb"; lit "Mar"; lit "Apr"; lit "May"; lit "Jun"; lit "Jul"; lit "Aug"; lit "Sep"; lit "Oct";
   lit "Nov"; lit "Dec"].

(** [t]: nanoseconds since the epoch (0 for an earlier time). *)
Definition rfc5322_date (t : Z) : str :=
  let secs := t / 1000000000 in
  let days := secs / 86400 in
  let rem := secs mod 86400 in
  let '(y, m, d) := civil days in
  nth (Z.to_nat (days mod 7)) DAYS [] ++ lit ", " ++ padded 2 d ++ lit " " ++ nth (Z.to_nat (m - 1)) MONTHS [] ++ lit " " ++
  padded 4 y ++ lit " " ++ padded 2 (rem / 3600) ++ lit ":" ++ padded 2 (rem mod 3600 / 60) ++ lit ":" ++
  padded 2 (rem mod 60) ++ lit " +0000".

(** ** Transfer encoding *)

Definition ALPHABET : list u8 := lit "ABCDEFGHIJKLMNOPQRSTUVWXYZabcdefghijklmnopqrstuvwxyz0123456789+/".

Definition base64_group (c : list u8) : str :=
  let n := Z.lor (Z.lor (Z.shiftl (nth 0 c 0) 16) (Z.shiftl (nth 1 c 0) 8)) (nth 2 c 0) in
  (fun i => if i <=? Z.of_nat (length c)
            then nth (Z.to_nat (Z.land (Z.shiftr n (18 - 6 * i)) 63)) ALPHABET 0 else 61) <$> [0; 1; 2; 3].

Definition base64_line (line : list u8) : str := concat (base64_group <$> chunks 3 line) ++ [10].
Definition base64_lines (data : list u8) : str := concat (base64_line <$> chunks 57 data).

(** [is_char_boundary] and [truncate]: the prefix of exactly [n] bytes. *)
Fixpoint prefix_at (s : str) (n : usize) : option str :=
  if n =? 0 then Some []
  else match s with
       | c :: s => if n <? 0 then None else (cons c) <$> prefix_at s (n - char_len_utf8 c)
       | [] => None
       end.

(** The loop of [truncate_utf8]; a character has at most four bytes. *)
Fixpoint truncate_loop (fuel : nat) (body : str) (end_ : usize) : str :=
  match prefix_at body end_, fuel with
  | Some p, _ => p
  | None, S fuel => truncate_loop fuel body (end_ - 1)
  | None, O => []
  end.
Definition truncate_utf8 (body : str) (max : usize) : str :=
  if max <? str_len body then truncate_loop 4 body max else body.

Definition CUT : str := [10] ++ lit "[truncated]" ++ [10].

Definition message_body (body : str) : str :=
  if BODY_BYTES <? str_len body then truncate_utf8 body (BODY_BYTES - str_len CUT) ++ CUT else body.

Definition header (m : MailMessage) (email : Email) (host : option str) : str :=
  lit "Date: " ++ rfc5322_date (mm_date m) ++ [10] ++ lit "Message-ID: " ++ mm_id m ++ [10] ++
  lit "From: " ++ em_from email ++ [10] ++ lit "To: " ++ str_join ([44; 10; 32]) (em_to email) ++ [10] ++
  lit "Subject: " ++ MailKind_subject (mm_kind m) ++ match host with Some h => lit " (" ++ h ++ lit ")" | None => [] end ++
  [10] ++ lit "MIME-Version: 1.0" ++ [10] ++ lit "Content-Type: text/plain; charset=UTF-8" ++ [10] ++
  lit "Content-Transfer-Encoding: base64" ++ [10] ++ lit "Auto-Submitted: auto-generated" ++ [10].

(** [Err] carries the length of the message that was too long. *)
Definition render (m : MailMessage) (email : Email) (host : option str) : result (list u8) usize :=
  let s := header m email host ++ [10] ++ base64_lines (utf8 (message_body (mm_body m))) in
  if MESSAGE_BYTES <? str_len s then Err (str_len s) else Ok (utf8 s).

(** ** Reading a message back *)

(** The lines up to the first empty one, and what follows it. *)
Fixpoint read_header (s line : str) : list str * str :=
  match s with
  | [] => ([line], [])
  | c :: s =>
      if c =? 10 then
        match line with
        | [] => ([], s)
        | _ => let '(lines, rest) := read_header s [] in (line :: lines, rest)
        end
      else read_header s (line ++ [c])
  end.

(** The position of a character of the base64 alphabet. *)
Definition base64_value (c : Z) : option Z :=
  if is_ascii_uppercase c then Some (c - 65) else if is_ascii_lowercase c then Some (c - 71)
  else if is_ascii_digit c then Some (c + 4) else if c =? 43 then Some 62 else if c =? 47 then Some 63 else None.

(** The decoder of RFC 2045: line ends are skipped, [=] pads the last group. *)
Fixpoint base64_decode (s : str) : option (list u8) :=
  match s with
  | [] => Some []
  | a :: s =>
      if a =? 10 then base64_decode s
      else match s with
           | b :: c :: d :: s =>
               a ← base64_value a; b ← base64_value b;
               if c =? 61 then (fun l => (a * 4 + b / 16) :: l) <$> base64_decode s
               else c ← base64_value c;
                 let n := (a * 64 + b) * 64 + c in
                 if d =? 61 then (fun l => [n / 1024; n / 4 mod 256] ++ l) <$> base64_decode s
                 else d ← base64_value d;
                   let n := n * 64 + d in
                   (fun l => [n / 65536; n / 256 mod 256; n mod 256] ++ l) <$> base64_decode s
           | _ => None
           end
  end.

Definition is_byte (b : Z) : Prop := 0 <= b < 256.

(** ** Lemmas *)

Lemma str_len_app a b : str_len (a ++ b) = str_len a + str_len b.
Proof. unfold str_len. induction a as [|c a IH]; simpl; lia. Qed.

Lemma char_len_bounds c : 1 <= char_len_utf8 c <= 4.
Proof. unfold char_len_utf8. repeat case_match; lia. Qed.

Lemma char_utf8_len c : Z.of_nat (length (char_utf8 c)) = char_len_utf8 c.
Proof. unfold char_utf8, char_len_utf8. by repeat case_match. Qed.

Lemma utf8_app a b : utf8 (a ++ b) = utf8 a ++ utf8 b.
Proof. unfold utf8. by rewrite fmap_app, concat_app. Qed.

Lemma utf8_len s : Z.of_nat (length (utf8 s)) = str_len s.
Proof.
  unfold utf8, str_len. induction s as [|c s IH]; [done|]. cbn [fmap list_fmap concat foldr].
  rewrite length_app, Nat2Z.inj_add, char_utf8_len. lia.
Qed.

(** The bytes of scalar values are bytes, and ASCII text is its own encoding. *)
Lemma utf8_bytes s : Forall (fun c => 0 <= c < 0x110000) s -> Forall is_byte (utf8 s).
Proof.
  unfold utf8. induction 1 as [|c s Hc Hs IH]; [done|]. cbn [fmap list_fmap concat]. apply Forall_app. split; [|done].
  unfold char_utf8, is_byte. repeat case_match; repeat constructor; try lia;
    Z.to_euclidean_division_equations; lia.
Qed.

Lemma utf8_ascii s : Forall (fun c => c < 0x80) s -> utf8 s = s.
Proof.
  unfold utf8. induction 1 as [|c s Hc Hs IH]; [done|]. cbn [fmap list_fmap concat]. rewrite IH. unfold char_utf8.
  by rewrite (proj2 (Z.ltb_lt _ _) Hc).
Qed.

(** *** Chunks *)

Lemma chunks_fuel_enough {A} n (l : list A) fuel : (0 < n)%nat -> (length l <= fuel)%nat ->
  chunks_fuel fuel n l = chunks n l.
Proof.
  intros Hn. assert (H : forall f1 f2 (l : list A), (length l <= f1)%nat -> (length l <= f2)%nat ->
    chunks_fuel f1 n l = chunks_fuel f2 n l); [|intros; by apply H].
  clear l fuel. induction f1 as [|f1 IH]; intros [|f2] l H1 H2; destruct l as [|x l]; try done; simpl in *; try lia.
  f_equal. apply IH; rewrite length_drop; simpl; lia.
Qed.

Lemma chunks_cons {A} n (l : list A) : (0 < n)%nat -> l <> [] -> chunks n l = take n l :: chunks n (drop n l).
Proof.
  intros Hn Hl. destruct l as [|x l]; [done|]. unfold chunks at 1. cbn [length chunks_fuel]. f_equal.
  apply chunks_fuel_enough; [done|]. rewrite length_drop. cbn [length]. lia.
Qed.

(** Induction on the chunks of a list. *)
Lemma chunks_ind {A} (n : nat) (P : list A -> Prop) : (0 < n)%nat ->
  P [] -> (forall l, l <> [] -> P (drop n l) -> P l) -> forall l, P l.
Proof.
  intros Hn H0 HS l. remember (length l) as k eqn:E. revert l E. induction (lt_wf k) as [k _ IH]. intros l ->.
  destruct l as [|x l]; [done|]. apply HS; [done|]. eapply IH; [|done]. rewrite length_drop. simpl. lia.
Qed.

Lemma concat_chunks {A} n (l : list A) : (0 < n)%nat -> concat (chunks n l) = l.
Proof.
  intros Hn. pattern l; apply (chunks_ind n); [done..|]. clear l. intros l Hl IH. rewrite chunks_cons by done. cbn [concat].
  rewrite IH. apply take_drop.
Qed.

(** *** Base64 *)

Lemma lor_shiftl a b k : 0 <= k -> 0 <= b < 2 ^ k -> Z.lor (Z.shiftl a k) b = a * 2 ^ k + b.
Proof.
  intros Hk Hb. assert (Hd : Z.land (a * 2 ^ k) b = 0).
  { apply Z.bits_inj'. intros i Hi. rewrite Z.land_spec, Z.bits_0. destruct (Z.ltb_spec i k) as [Hl|Hl].
    - by rewrite Z.mul_pow2_bits_low by lia.
    - rewrite <- (Z.mod_small b (2 ^ k)) by done. rewrite Z.mod_pow2_bits_high by lia. apply andb_false_r. }
  rewrite Z.shiftl_mul_pow2 by done. rewrite <- Z.lxor_lor by done. symmetry. by apply Z.add_nocarry_lxor.
Qed.

Lemma base64_value_spec i : 0 <= i < 64 ->
  base64_value (nth (Z.to_nat i) ALPHABET 0) = Some i /\
  (nth (Z.to_nat i) ALPHABET 0 =? 10) = false /\ (nth (Z.to_nat i) ALPHABET 0 =? 61) = false.
Proof.
  intros Hi. assert (H : forallb (fun i => bool_decide (base64_value (nth (Z.to_nat i) ALPHABET 0) = Some i) &&
    negb (nth (Z.to_nat i) ALPHABET 0 =? 10) && negb (nth (Z.to_nat i) ALPHABET 0 =? 61)) (seqZ 0 64) = true)
    by (by vm_compute).
  rewrite forallb_forall in H. specialize (H i). rewrite !andb_true_iff, !negb_true_iff, bool_decide_eq_true in H.
  by destruct H as [[??]?]; [apply list_elem_of_In, elem_of_seqZ; lia|].
Qed.

(** The sextets of a 24-bit number. *)
Lemma sextet_spec n i : 0 <= i <= 3 -> Z.land (Z.shiftr n (18 - 6 * i)) 63 = n / 2 ^ (18 - 6 * i) mod 64.
Proof. intros Hi. rewrite Z.shiftr_div_pow2 by lia. apply (Z.land_ones _ 6). lia. Qed.

(** The number a group encodes. *)
Lemma group_number c : Forall is_byte c ->
  Z.lor (Z.lor (Z.shiftl (nth 0 c 0) 16) (Z.shiftl (nth 1 c 0) 8)) (nth 2 c 0) =
  (nth 0 c 0 * 256 + nth 1 c 0) * 256 + nth 2 c 0.
Proof.
  intros Hc. assert (Hn : forall k, 0 <= nth k c 0 < 2 ^ 8).
  { intros k. destruct (nth_in_or_default k c 0) as [Hin| ->]; [|lia].
    rewrite Forall_forall in Hc. apply Hc. by apply list_elem_of_In. }
  change 16 with (8 + 8). rewrite <- Z.shiftl_shiftl by lia.
  rewrite <- Z.shiftl_lor, !lor_shiftl by (done || lia). lia.
Qed.

Lemma base64_group_decode c rest : (1 <= length c <= 3)%nat -> Forall is_byte c ->
  base64_decode (base64_group c ++ rest) = (fun l => c ++ l) <$> base64_decode rest.
Proof.
  intros Hl Hc. unfold base64_group. rewrite group_number by done.
  set (n := (nth 0 c 0 * 256 + nth 1 c 0) * 256 + nth 2 c 0).
  set (A i := nth (Z.to_nat (Z.land (Z.shiftr n (18 - 6 * i)) 63)) ALPHABET 0).
  change (base64_decode (((fun i => if i <=? Z.of_nat (length c) then A i else 61) <$> [0; 1; 2; 3]) ++ rest) =
    (fun l => c ++ l) <$> base64_decode rest).
  assert (HA : forall i, 0 <= i <= 3 ->
    base64_value (A i) = Some (n / 2 ^ (18 - 6 * i) mod 64) /\ (A i =? 10) = false /\ (A i =? 61) = false).
  { intros i Hi. rewrite <- (sextet_spec n i) by done. apply base64_value_spec. rewrite sextet_spec by done.
    by apply Z.mod_pos_bound. }
  clearbody A. destruct (HA 0 ltac:(lia)) as (V0 & N0 & _), (HA 1 ltac:(lia)) as (V1 & _ & _),
    (HA 2 ltac:(lia)) as (V2 & _ & P2), (HA 3 ltac:(lia)) as (V3 & _ & P3). clear HA.
  destruct c as [|x [|y [|z [|??]]]]; simpl in Hl; try lia; cbn in n; simpl; rewrite N0, V0; simpl; rewrite V1; simpl;
    try (rewrite P2, V2; simpl); try (rewrite P3, V3; simpl); destruct (base64_decode rest) as [l|]; simpl; try done.
  all: repeat match goal with H : Forall _ (_ :: _) |- _ => apply Forall_cons in H as [? H] end; unfold is_byte in *; subst n.
  all: repeat f_equal; cbn [Z.pow Z.pow_pos Pos.iter Z.mul Pos.mul]; Z.to_euclidean_division_equations; lia.
Qed.

Lemma take_chunk_len {A} (n : nat) (l : list A) : (0 < n)%nat -> l <> [] -> (1 <= length (take n l) <= n)%nat.
Proof. intros Hn Hl. destruct l; [done|]. rewrite length_take. simpl. lia. Qed.

Lemma base64_groups_decode line rest : Forall is_byte line ->
  base64_decode (concat (base64_group <$> chunks 3 line) ++ rest) = (fun l => line ++ l) <$> base64_decode rest.
Proof.
  pattern line; apply (chunks_ind 3); [lia| |].
  - intros _. simpl. by destruct (base64_decode rest).
  - intros l Hl IH Hb. rewrite chunks_cons by (done || lia). cbn [fmap list_fmap concat]. rewrite <- app_assoc.
    rewrite base64_group_decode; [|apply take_chunk_len; [lia|done]|by apply Forall_take].
    rewrite IH by (by apply Forall_drop). destruct (base64_decode rest) as [r|]; [|done]. simpl. f_equal.
    rewrite app_assoc. by rewrite take_drop.
Qed.

Lemma base64_roundtrip data : Forall is_byte data -> base64_decode (base64_lines data) = Some data.
Proof.
  unfold base64_lines. pattern data; apply (chunks_ind 57); [lia|done|].
  intros l Hl IH Hb. rewrite chunks_cons by (done || lia). cbn [fmap list_fmap concat]. unfold base64_line at 1.
  rewrite <- app_assoc, base64_groups_decode by (by apply Forall_take).
  change (base64_decode (10 :: ?r)) with (base64_decode r). cbn [app].
  change (base64_decode (10 :: ?r)) with (base64_decode r).
  rewrite IH by (by apply Forall_drop). simpl. by rewrite take_drop.
Qed.

(** Every 57 bytes make at most 77 characters, all of them ASCII. *)
Lemma base64_group_len c : length (base64_group c) = 4%nat.
Proof. done. Qed.

Lemma base64_groups_len line : Z.of_nat (length (concat (base64_group <$> chunks 3 line))) = 4 * ((Z.of_nat (length line) + 2) / 3).
Proof.
  pattern line; apply (chunks_ind 3); [lia|done|]. intros l Hl IH. rewrite chunks_cons by (done || lia).
  cbn [fmap list_fmap concat]. rewrite length_app, Nat2Z.inj_add, IH, base64_group_len, length_drop.
  assert (1 <= length l)%nat by (destruct l; [done|simpl; lia]).
  destruct (decide (3 <= length l)%nat); Z.to_euclidean_division_equations; lia.
Qed.

Lemma base64_lines_len data : Z.of_nat (length (base64_lines data)) <= 77 * ((Z.of_nat (length data) + 56) / 57).
Proof.
  unfold base64_lines. pattern data; apply (chunks_ind 57); [lia|done|]. intros l Hl IH. rewrite chunks_cons by (done || lia).
  cbn [fmap list_fmap concat]. unfold base64_line at 1. rewrite !length_app, !Nat2Z.inj_add, base64_groups_len, length_take.
  rewrite length_drop in IH. assert (1 <= length l)%nat by (destruct l; [done|simpl; lia]). cbn [length].
  destruct (decide (57 <= length l)%nat); Z.to_euclidean_division_equations; lia.
Qed.

Lemma alphabet_ascii i : nth i ALPHABET 0 < 0x80.
Proof.
  destruct (nth_in_or_default i ALPHABET 0) as [Hin| ->]; [|done].
  assert (H : forallb (fun c => c <? 0x80) ALPHABET = true) by (by vm_compute).
  rewrite forallb_forall in H. by apply Z.ltb_lt, H.
Qed.

Lemma base64_lines_ascii data : Forall (fun c => c < 0x80) (base64_lines data).
Proof.
  unfold base64_lines. apply Forall_concat. apply Forall_fmap, Forall_true. intros line. unfold base64_line, compose.
  apply Forall_app. split; [|by repeat constructor]. apply Forall_concat, Forall_fmap, Forall_true. intros c.
  unfold base64_group. apply Forall_fmap, Forall_true. intros i. cbn. destruct (i <=? _); [apply alphabet_ascii|done].
Qed.

(** *** Truncation *)

Lemma prefix_at_spec s n p : prefix_at s n = Some p <-> exists r, s = p ++ r /\ str_len p = n.
Proof.
  revert n p. induction s as [|c s IH]; intros n p; cbn [prefix_at].
  - destruct (Z.eqb_spec n 0) as [->|Hn].
    + split; [intros [= <-]; by exists []|]. intros (r & E & _). by destruct p.
    + split; [done|]. intros (r & E & El). by destruct p; simpl in El.
  - destruct (Z.eqb_spec n 0) as [->|Hn].
    + split; [intros [= <-]; by eexists|]. intros (r & E & El). destruct p as [|d p]; [done|].
      unfold str_len in El. simpl in El. fold (str_len p) in El. pose proof (char_len_bounds d).
      pose proof (str_len_nonneg p). lia.
    + destruct (Z.ltb_spec n 0) as [Hneg|Hpos].
      * split; [done|]. intros (r & E & El). pose proof (str_len_nonneg p). lia.
      * rewrite fmap_Some. setoid_rewrite IH. split.
        -- intros (q & (r & -> & El) & ->). exists r. split; [done|]. cbn [str_len foldr] in *. unfold str_len in *. lia.
        -- intros (r & E & El). destruct p as [|d q]; [done|]. injection E as <- ->. exists q.
           split; [|done]. exists r. split; [done|]. unfold str_len in *. cbn [foldr] in El. lia.
Qed.

Lemma str_len_cons c s : str_len (c :: s) = char_len_utf8 c + str_len s.
Proof. done. Qed.

Lemma prefix_at_app p r : prefix_at (p ++ r) (str_len p) = Some p.
Proof. apply prefix_at_spec. eauto. Qed.

(** No prefix ends inside a character. *)
Lemma prefix_at_inside p c r k q : 0 <= k < char_len_utf8 c -> prefix_at (p ++ c :: r) (str_len p + k) = Some q -> q = p.
Proof.
  intros Hk (r' & E & El)%prefix_at_spec. apply app_eq_inv in E as [(k' & -> & E)|(k' & -> & E)];
    rewrite str_len_app in El; destruct k' as [|d k']; rewrite ?app_nil_r; try done; exfalso;
    rewrite str_len_cons in El; pose proof (str_len_nonneg k').
  - pose proof (char_len_bounds d). lia.
  - injection E as <- _. lia.
Qed.

Lemma truncate_loop_spec p c r fuel k : 0 <= k < char_len_utf8 c -> k <= Z.of_nat fuel ->
  truncate_loop fuel (p ++ c :: r) (str_len p + k) = p.
Proof.
  revert k. induction fuel as [|fuel IH]; intros k Hk Hf; cbn [truncate_loop];
    (destruct (prefix_at _ _) as [q|] eqn:E; [by eapply prefix_at_inside|]);
    (destruct (decide (k = 0)) as [->|Hk0]; [rewrite Z.add_0_r, prefix_at_app in E; done|]); [lia|].
  replace (str_len p + k - 1) with (str_len p + (k - 1)) by lia. apply IH; lia.
Qed.

(** A text longer than [max] has a character that crosses [max]. *)
Lemma crossing body max : 0 <= max < str_len body ->
  exists p c r, body = p ++ c :: r /\ str_len p <= max < str_len p + char_len_utf8 c.
Proof.
  revert max. induction body as [|c body IH]; intros max Hl; [simpl in Hl; lia|]. rewrite str_len_cons in Hl.
  destruct (Z.ltb_spec max (char_len_utf8 c)) as [Hc|Hc]; [exists [], c, body; split; [done|simpl; lia]|].
  destruct (IH (max - char_len_utf8 c)) as (p & d & r & -> & Hp); [lia|].
  exists (c :: p), d, r. split; [done|]. rewrite str_len_cons. lia.
Qed.

(** The longest prefix of at most [max] bytes. *)
Lemma truncate_utf8_spec body max : 0 <= max ->
  exists r, body = truncate_utf8 body max ++ r /\ str_len (truncate_utf8 body max) <= max /\
    (forall c r', r = c :: r' -> max < str_len (truncate_utf8 body max) + char_len_utf8 c).
Proof.
  intros Hm. unfold truncate_utf8. destruct (Z.ltb_spec max (str_len body)) as [Hl|Hl]; [|by exists []; rewrite app_nil_r].
  destruct (crossing body max) as (p & c & r & -> & Hp); [lia|]. pose proof (char_len_bounds c).
  replace max with (str_len p + (max - str_len p)) by lia. rewrite truncate_loop_spec by lia.
  exists (c :: r). split_and!; [done|lia|]. intros ?? [= <- _]. lia.
Qed.

(** *** Header lines *)

(** A character that can stand in a header line. *)
Definition plain (c : Z) : Prop := c < 0x80 /\ c <> 10.
Definition plainb (c : Z) : bool := (c <? 0x80) && negb (c =? 10).

Lemma plainb_Forall s : forallb plainb s = true -> Forall plain s.
Proof.
  intros H. apply Forall_forall. intros c Hc. apply list_elem_of_In in Hc. rewrite forallb_forall in H.
  specialize (H c Hc). unfold plainb in H. unfold plain. apply andb_true_iff in H as [?%Z.ltb_lt ?%negb_true_iff].
  split; [done|]. by apply Z.eqb_neq.
Qed.

Lemma plain_lit s : forallb plainb (lit s) = true -> Forall plain (lit s).
Proof. apply plainb_Forall. Qed.

Lemma plain_decimal n : Forall plain (to_decimal n).
Proof.
  unfold to_decimal. assert (H : forall fuel n acc, Forall plain acc -> Forall plain (decimal_digits fuel n acc)).
  { induction fuel as [|fuel IH]; intros k acc Ha; simpl; [done|].
    assert (Forall plain ((48 + k mod 10) :: acc)).
    { constructor; [|done]. pose proof (Z.mod_pos_bound k 10). unfold plain. lia. }
    destruct (k / 10 =? 0); [done|]. by apply IH. }
  by apply H.
Qed.

Lemma plain_padded w n : Forall plain (padded w n).
Proof. unfold padded. apply Forall_app. split; [apply Forall_replicate; done|apply plain_decimal]. Qed.

Lemma plain_nth (l : list str) (i : nat) : forallb (forallb plainb) l = true -> Forall plain (nth i l []).
Proof.
  intros H. destruct (nth_in_or_default i l []) as [Hin| ->]; [|constructor]. apply plainb_Forall.
  rewrite forallb_forall in H. by apply H.
Qed.

Lemma plain_mailbox t : check_mailbox t = Ok tt -> Forall plain t.
Proof.
  unfold check_mailbox. destruct (negb (is_ascii t) || _) eqn:E; [done|]. intros _. apply orb_false_iff in E as [Ha Hc].
  apply negb_false_iff in Ha. apply Forall_forall. intros c Hin. apply list_elem_of_In in Hin.
  unfold is_ascii in Ha. rewrite forallb_forall in Ha. specialize (Ha c Hin). apply in_range_spec in Ha. split; [lia|].
  intros ->. assert (Hx : existsb (fun b => is_ascii_control b || (b =? 32)) t = true).
  { apply existsb_exists. by exists 10. }
  congruence.
Qed.

Lemma plain_host raw h : host_suffix raw = Some h -> Forall plain h.
Proof.
  unfold host_suffix. destruct (_ && _) eqn:E; [|done]. intros [= <-]. apply andb_true_iff in E as [_ E].
  eapply Forall_impl; [eapply dots_char; [exact E|]|].
  - intros w c Hw Hc. apply andb_true_iff in Hw as [_ Hw]. apply label_char. by apply (proj1 (forallb_elem_of _ _) Hw).
  - intros c [[Hr _] _]. apply in_range_spec in Hr. unfold plain. lia.
Qed.

Lemma plain_message_id instance n from : Forall plain instance -> check_mailbox from = Ok tt ->
  Forall plain (message_id instance n from).
Proof.
  intros Hi Hf%plain_mailbox. unfold message_id. rewrite !Forall_app. split_and!; try (by apply plain_lit); try done.
  - apply plain_decimal.
  - destruct (rsplit_once 64 from) as [[l d]|] eqn:E; [|by apply plain_lit].
    apply rsplit_once_Some in E as [-> _]. apply Forall_app in Hf as [_ Hf]. by inversion Hf.
Qed.

Lemma plain_date t : Forall plain (rfc5322_date t).
Proof.
  unfold rfc5322_date. destruct (civil _) as [[y m] d]. rewrite !Forall_app. split_and!; try apply plain_padded;
    try (by apply plain_lit); by apply plain_nth; vm_compute.
Qed.

Create HintDb mail.
#[export] Hint Resolve plain_decimal plain_padded plain_mailbox plain_host plain_date plain_message_id : mail.

Fixpoint to_lines (prefix : str) (to : list str) : list str :=
  match to with
  | [] => [prefix]
  | [t] => [prefix ++ t]
  | t :: to => (prefix ++ t ++ [44]) :: to_lines [32] to
  end.

Definition header_lines (kind : MailKind) (id : str) (date : Z) (email : Email) (host : option str) : list str :=
  [lit "Date: " ++ rfc5322_date date; lit "Message-ID: " ++ id; lit "From: " ++ em_from email] ++
  to_lines (lit "To: ") (em_to email) ++
  [lit "Subject: " ++ MailKind_subject kind ++ match host with Some h => lit " (" ++ h ++ lit ")" | None => [] end;
   lit "MIME-Version: 1.0"; lit "Content-Type: text/plain; charset=UTF-8"; lit "Content-Transfer-Encoding: base64";
   lit "Auto-Submitted: auto-generated"].

Definition end_lines (lines : list str) : str := concat ((fun l => l ++ [10]) <$> lines).

Lemma to_lines_join prefix to : end_lines (to_lines prefix to) = prefix ++ str_join [44; 10; 32] to ++ [10].
Proof.
  unfold end_lines. revert prefix. induction to as [|t to IH]; intros prefix; [simpl; by rewrite app_nil_r|].
  destruct to as [|t' to]; [simpl; by rewrite app_nil_r, <- app_assoc|].
  cbn [to_lines str_join fmap list_fmap concat] in *. rewrite (IH [32]). rewrite <- !app_assoc. simpl. done.
Qed.

Lemma header_end_lines m e host : header m e host = end_lines (header_lines (mm_kind m) (mm_id m) (mm_date m) e host).
Proof.
  unfold header, header_lines. assert (Happ : forall a b, end_lines (a ++ b) = end_lines a ++ end_lines b).
  { intros a b. unfold end_lines. by rewrite fmap_app, concat_app. }
  rewrite !Happ, to_lines_join. unfold end_lines. cbn [fmap list_fmap concat]. rewrite app_nil_r, <- !app_assoc. done.
Qed.

Lemma read_header_line l rest line : Forall plain l -> line ++ l <> [] ->
  read_header (l ++ [10] ++ rest) line = (let '(lines, r) := read_header rest [] in ((line ++ l) :: lines, r)).
Proof.
  intros Hl. revert line. induction Hl as [|c l [_ Hc] Hl IH]; intros line Hne.
  - rewrite app_nil_r in *. simpl. by destruct line.
  - cbn [app read_header]. rewrite (proj2 (Z.eqb_neq _ _) Hc). rewrite IH by (by destruct line).
    by rewrite <- app_assoc.
Qed.

Lemma read_header_lines lines rest : Forall (fun l => l <> [] /\ Forall plain l) lines ->
  read_header (end_lines lines ++ [10] ++ rest) [] = (lines, rest).
Proof.
  unfold end_lines. induction 1 as [|l lines [Hne Hl] Hls IH]; [done|]. cbn [fmap list_fmap concat].
  rewrite <- !app_assoc, read_header_line by done. by rewrite IH.
Qed.

Lemma to_lines_plain prefix to : prefix <> [] -> Forall plain prefix -> Forall (Forall plain) to ->
  Forall (fun l => l <> [] /\ Forall plain l) (to_lines prefix to).
Proof.
  intros Hne Hp Ht. revert prefix Hne Hp. induction Ht as [|t to Hx Ht IH]; intros prefix Hne Hp; [by apply Forall_singleton|].
  assert (Hc : prefix ++ t <> [] /\ Forall plain (prefix ++ t)) by (split; [by destruct prefix|by apply Forall_app]).
  destruct to as [|t' to]; [by apply Forall_singleton|]. cbn [to_lines]. apply Forall_cons. split.
  - rewrite app_assoc. split; [by destruct (prefix ++ t)|]. apply Forall_app. split; [by apply Hc|by repeat constructor].
  - apply IH; [done|by repeat constructor].
Qed.

(** A kernel host name that qualifies, or none. *)
Definition hostname (raw : option str) : option str := raw ≫= host_suffix.

Lemma header_lines_plain kind id date e raw : email_valid e -> Forall plain id ->
  Forall (fun l => l <> [] /\ Forall plain l) (header_lines kind id date e (hostname raw)).
Proof.
  intros He Hid. assert (Hlit : forall s rest, lit s <> [] -> forallb plainb (lit s) = true -> Forall plain rest ->
    lit s ++ rest <> [] /\ Forall plain (lit s ++ rest)).
  { intros s rest Hs Hf Hr. split; [by destruct (lit s)|]. apply Forall_app. split; [by apply plain_lit|done]. }
  assert (Hnil : forall s, lit s <> [] -> forallb plainb (lit s) = true -> lit s <> [] /\ Forall plain (lit s)).
  { intros s Hs Hf. split; [done|by apply plain_lit]. }
  unfold header_lines. rewrite !Forall_app. split_and!.
  - repeat apply Forall_cons_2; [..|apply Forall_nil_2]; apply Hlit; try done; [apply plain_date|]. by apply plain_mailbox, He.
  - apply to_lines_plain; [done|by apply plain_lit|]. eapply Forall_impl; [apply (ev_to _ He)|]. apply plain_mailbox.
  - repeat apply Forall_cons_2; [|apply Hnil; done..|apply Forall_nil_2]. apply Hlit; try done. apply Forall_app. split.
    + by destruct kind; apply plain_lit.
    + destruct (hostname raw) as [h|] eqn:E; [|constructor]. unfold hostname in E. destruct raw as [r|]; [|done].
      rewrite !Forall_app. split_and!; [by apply plain_lit|by eapply plain_host|by apply plain_lit].
Qed.

(** The body that is sent: the text itself, or its longest prefix that
    leaves room for the mark of the cut. *)
Lemma message_body_spec body :
  str_len (message_body body) <= BODY_BYTES /\
  exists p r, body = p ++ r /\
    (r = [] /\ message_body body = body \/
     BODY_BYTES < str_len body /\ message_body body = p ++ CUT /\ BODY_BYTES - str_len CUT < str_len p + 4).
Proof.
  unfold message_body. destruct (Z.ltb_spec BODY_BYTES (str_len body)) as [Hl|Hl].
  - destruct (truncate_utf8_spec body (BODY_BYTES - str_len CUT)) as (r & E & Hp & Hmax); [by vm_compute|].
    rewrite str_len_app. split; [lia|]. eexists _, r. split; [exact E|]. right. split_and!; [done..|].
    destruct r as [|c r]; [rewrite app_nil_r in E; rewrite E in Hl at 1; vm_compute (str_len CUT) in *; lia|].
    specialize (Hmax c r eq_refl). pose proof (char_len_bounds c). lia.
  - split; [done|]. exists body, []. rewrite app_nil_r. by split; [|left].
Qed.

(** a message says what it should to the mail system: its
    header is exactly the documented lines, whatever the changes say, no
    text of an event or a body can add to it, and what follows decodes to
    the body (cut at a character within 128 KiB); the whole message has at
    most 512 KiB and can always be built when the recipients take less than
    about 330 KiB. *)
Theorem render_reads_back (m : MailMessage) (email : Email) (raw : option str) :
  email_valid email -> Forall plain (mm_id m) -> Forall (fun c => 0 <= c < 0x110000) (mm_body m) ->
  str_len (header m email (hostname raw)) <= 340000 ->
  exists out content, render m email (hostname raw) = Ok out /\ Z.of_nat (length out) <= MESSAGE_BYTES /\
    read_header out [] = (header_lines (mm_kind m) (mm_id m) (mm_date m) email (hostname raw), content) /\
    base64_decode content = Some (utf8 (message_body (mm_body m))) /\
    Z.of_nat (length (utf8 (message_body (mm_body m)))) <= BODY_BYTES /\
    exists p r, mm_body m = p ++ r /\
      (r = [] /\ message_body (mm_body m) = mm_body m \/
       BODY_BYTES < str_len (mm_body m) /\ message_body (mm_body m) = p ++ CUT /\ BODY_BYTES - str_len CUT < str_len p + 4).
Proof.
  intros He Hid Hb Hh. destruct (message_body_spec (mm_body m)) as [Hlen Hcut].
  set (content := base64_lines (utf8 (message_body (mm_body m)))).
  set (s := header m email (hostname raw) ++ [10] ++ content).
  pose proof (header_lines_plain (mm_kind m) (mm_id m) (mm_date m) email raw He Hid) as Hlines.
  assert (Hutf : utf8 s = s).
  { apply utf8_ascii. unfold s. rewrite !Forall_app. split_and!; [|by repeat constructor|apply base64_lines_ascii].
    rewrite header_end_lines. unfold end_lines. apply Forall_concat, Forall_fmap. eapply Forall_impl; [exact Hlines|].
    intros l [_ Hl]. apply Forall_app. split; [|by repeat constructor]. eapply Forall_impl; [exact Hl|]. by intros c [? _]. }
  assert (Hsize : str_len s <= MESSAGE_BYTES).
  { unfold s. rewrite !str_len_app. pose proof (base64_lines_len (utf8 (message_body (mm_body m)))) as Hn.
    rewrite utf8_len in Hn. fold content in Hn.
    assert (Hc : str_len content = Z.of_nat (length content)).
    { rewrite <- utf8_len. unfold content. by rewrite utf8_ascii by apply base64_lines_ascii. }
    change (str_len [10]) with 1. change MESSAGE_BYTES with 524288. change BODY_BYTES with 131072 in Hlen.
    Z.to_euclidean_division_equations. lia. }
  exists (utf8 s), content. split_and!; [| |  | | |exact Hcut].
  - change (render m email (hostname raw)) with (if MESSAGE_BYTES <? str_len s then @inr (list u8) usize (str_len s) else Ok (utf8 s)).
    rewrite (proj2 (Z.ltb_ge _ _) Hsize). reflexivity.
  - by rewrite utf8_len.
  - rewrite Hutf. unfold s. rewrite header_end_lines. by apply read_header_lines.
  - apply base64_roundtrip, utf8_bytes. destruct Hcut as (p & r & E & [[_ ->]|(_ & -> & _)]); [done|].
    apply Forall_app. split; [|apply (bool_decide_unpack _); by vm_compute]. rewrite E in Hb. by apply Forall_app in Hb as [? _].
  - by rewrite utf8_len.
Qed.

Module MailTextSample.
Definition email : Email :=
  mkEmail (lit "gw@example.net") [lit "ops@example.net"; lit "noc@example.org"] (lit "/usr/sbin/sendmail") 10
    [lit "path_state_changed"].

Lemma email_ok : email_valid email.
Proof.
  split.
  - by vm_compute.
  - split; [done|]. repeat apply Forall_cons_2; [by vm_compute..|apply Forall_nil_2].
  - by vm_compute.
  - by vm_compute.
  - split; [done|]. split; [apply NoDup_singleton|]. intros e He. apply list_elem_of_singleton in He as ->.
    apply (bool_decide_unpack _). by vm_compute.
Qed.

Definition message : MailMessage :=
  mkMailMessage Kind_Notification (message_id (lit "c0ffee") 7 (em_from email)) 1790989323000000000
    (lit "PolyWAN reports 1 change:" ++ [10; 10] ++ lit "From: nobody" ++ [10; 10]) 0 0.
End MailTextSample.

Lemma render_reads_back_witness :
  exists out content, render MailTextSample.message MailTextSample.email (Some (lit "gw")) = Ok out /\
    read_header out [] = (header_lines Kind_Notification (lit "<7.c0ffee@example.net>") 1790989323000000000
      MailTextSample.email (Some (lit "gw")), content).
Proof.
  destruct (render_reads_back MailTextSample.message MailTextSample.email (Some (lit "gw" ++ [10])))
    as (out & content & Hr & _ & Hh & _).
  - exact MailTextSample.email_ok.
  - apply plainb_Forall. by vm_compute.
  - apply (bool_decide_unpack _). by vm_compute.
  - vm_compute. discriminate.
  - exists out, content. split; [exact Hr|exact Hh].
Defined.
