(* ===== verification/Subprocess.v ===== *)
(** * The runner of sendmail and hooks

    Models crates/polywan/src/subprocess.rs: what is run, how a run ends and
    what is kept of its output.  The process is an argument: whether it
    starts, when its input is written and it exits, when its output closes
    and what is read of it. *)

From stdpp Require Import prelude.
From Stdlib Require Import ZArith Lia.
From S2P Require Import Prelude Text Durations Config.

Local Open Scope Z_scope.
Local Open Scope polywan_scope.

Definition CAPTURE : usize := 64 * 1024.
Definition AFTER_EXIT : Duration := from_secs 1.

Record RunSpec := mkRunSpec {
  rs_program : PathBuf; rs_args : list str; rs_env : list (str * str); rs_uid : u32; rs_gid : u32; rs_input : list u8;
  rs_capture_stdout : bool; rs_supervise_descendants : bool; rs_input_may_go_unread : bool; rs_timeout : Duration
}.

Record Captured := mkCaptured { cp_data : list u8; cp_truncated : bool }.
Definition Captured_default : Captured := mkCaptured [] false.

Inductive RunEnd :=
  End_Exited (code : i32) | End_Signaled (signal : i32) | End_TimedOut | End_SpawnFailed (e : str) | End_InputFailed (e : str).
#[export] Instance RunEnd_eq_dec : EqDecision RunEnd.
Proof. solve_decision. Defined.

Definition End_success (e : RunEnd) : bool := bool_decide (e = End_Exited 0).

Record RunOutcome := mkRunOutcome { oc_end : RunEnd; oc_stdout : Captured; oc_stderr : Captured }.

(** [ExitStatus]: [code] and [signal]. *)
Record ExitStatus := mkExitStatus { es_code : option i32; es_signal : option i32 }.

Definition exit_end (status : result ExitStatus str) (written : result unit str) : RunEnd :=
  match status with
  | Err e => End_SpawnFailed e
  | Ok s =>
      match es_code s, es_signal s, written with
      | _, Some sig, _ => End_Signaled sig
      | Some c, None, Err e => if c =? 0 then End_InputFailed e else End_Exited c
      | Some c, None, Ok _ => End_Exited c
      | None, None, _ => End_SpawnFailed (lit "no exit status")
      end
  end.

(** One [read] of [drain], which gave [buf] (up to 8192 bytes). *)
Definition drain_read (c : Captured) (buf : list u8) : Captured :=
  let room := Z.max 0 (CAPTURE - Z.of_nat (length (cp_data c))) in
  mkCaptured (cp_data c ++ take (Z.to_nat room) buf)
    (if room <? Z.of_nat (length buf) then true else cp_truncated c).

(** The reads until the stream ended, failed or was given up. *)
Definition drain (reads : list (list u8)) : Captured := foldl drain_read Captured_default reads.

(** What the process does, in time since the start: when the input is
    written (or could not be) and the child was waited for, and when both
    outputs ended; [None] is never. *)
Record Child := mkChild {
  ch_spawn : result unit str;
  ch_exit : option Duration;
  ch_written : result unit str;
  ch_status : result ExitStatus str;
  ch_closed : option Duration;
  ch_stdout : list (list u8);
  ch_stderr : list (list u8)
}.

Definition within (t : option Duration) (limit : Duration) : bool :=
  match t with Some t => t <=? limit | None => false end.

(** The end of a run, and whether its process group was killed. *)
Definition run_end (spec : RunSpec) (c : Child) : RunEnd * bool :=
  match ch_exit c with
  | Some t =>
      if t <=? rs_timeout spec then
        let drained := within (ch_closed c) t in
        let after_exit := if rs_supervise_descendants spec then Z.max 0 (rs_timeout spec - t) else AFTER_EXIT in
        let held := negb drained && negb (within (ch_closed c) (t + after_exit)) in
        if held && rs_supervise_descendants spec then (End_TimedOut, true)
        else (exit_end (ch_status c)
                (match ch_written c with Err e => if rs_input_may_go_unread spec then Ok tt else Err e | Ok u => Ok u end), false)
      else (End_TimedOut, true)
  | None => (End_TimedOut, true)
  end.

Definition run (spec : RunSpec) (c : Child) : RunOutcome * bool :=
  match ch_spawn c with
  | Err e => (mkRunOutcome (End_SpawnFailed e) Captured_default Captured_default, false)
  | Ok _ =>
      let '(end_, killed) := run_end spec c in
      (mkRunOutcome end_ (if rs_capture_stdout spec then drain (ch_stdout c) else Captured_default) (drain (ch_stderr c)), killed)
  end.

(** ** Inherited descriptors *)

(** [i32::from_str_radix]: an optional sign, at least one digit, no overflow. *)
Fixpoint radix_value (radix : Z) (s : str) (acc : Z) : option Z :=
  match s with
  | [] => Some acc
  | c :: s => if in_range 48 (47 + radix) c then radix_value radix s (radix * acc + (c - 48)) else None
  end.
Definition parse_i32 (radix : Z) (s : str) : option i32 :=
  let '(sign, digits) := match s with
                         | c :: rest => if c =? 43 then (1, rest) else if c =? 45 then (-1, rest) else (1, s)
                         | [] => (1, s)
                         end in
  match digits with
  | [] => None
  | _ => match radix_value radix digits 0 with
         | Some n => if in_range (- 2 ^ 31) (2 ^ 31 - 1) (sign * n) then Some (sign * n) else None
         | None => None
         end
  end.

Definition O_CLOEXEC : Z := 0x80000.

(** The flags of an entry of /proc/self/fdinfo, given its text. *)
Definition fd_flags (text : str) : option i32 :=
  f ← head (omap (strip_prefix (lit "flags:")) (split_on 10 text)); parse_i32 8 (str_trim f).

(** [fdinfo]: the entries of /proc/self/fdinfo with their texts, [None] for
    what cannot be read. *)
Definition inherited_descriptors (fdinfo : option (list (str * option str))) : list i32 :=
  match fdinfo with
  | None => []
  | Some entries =>
      sort_by_key (fun fd => fd) (omap (fun '(name, text) =>
        fd ← parse_i32 10 name;
        if negb (2 <? fd) then None else
        t ← text; flags ← fd_flags t;
        if Z.land flags O_CLOEXEC =? 0 then Some fd else None) entries)
  end.

(** ** Theorems *)

Lemma drain_spec reads :
  cp_data (drain reads) = take (Z.to_nat CAPTURE) (concat reads) /\
  (cp_truncated (drain reads) = true <-> CAPTURE < Z.of_nat (length (concat reads))).
Proof.
  unfold drain. induction reads as [|b reads [IHd IHt]] using rev_ind.
  { split; [symmetry; apply take_nil|]. unfold CAPTURE. simpl. split; [done|lia]. }
  rewrite foldl_app, concat_app. cbn [foldl concat]. rewrite app_nil_r. set (c := foldl _ _ _) in *.
  unfold drain_read. cbn [cp_data cp_truncated]. rewrite IHd, length_take, length_app.
  assert (0 <= CAPTURE) by (unfold CAPTURE; lia). split.
  - rewrite take_app. f_equal. f_equal. lia.
  - destruct (Z.ltb_spec (Z.max 0 (CAPTURE - Z.of_nat (Z.to_nat CAPTURE `min` length (concat reads)))) (Z.of_nat (length b))).
    + split; [lia|done].
    + rewrite IHt. lia.
Qed.

Lemma within_le t a b : a <= b -> within t a = true -> within t b = true.
Proof. destruct t as [t|]; [|done]. simpl. intros Hab ?%Z.leb_le. apply Z.leb_le. lia. Qed.

Lemma exit_end_success status written : End_success (exit_end status written) = true <->
  (exists s, status = Ok s /\ es_code s = Some 0 /\ es_signal s = None) /\ written = Ok tt.
Proof.
  unfold End_success, exit_end. rewrite bool_decide_eq_true. destruct status as [[[code|] [sig|]]|e]; cbn.
  all: try (split; [done|]; intros [(s & [= <-] & ? & ?) _]; done).
  destruct written as [[]|e].
  - split; [intros [= ->]; eauto 6|]. by intros [(s & [= <-] & [= ->] & _) _].
  - destruct (Z.eqb_spec code 0); (split; [congruence|by intros [_ ?]]).
Qed.

Lemma exit_end_timeout status written : exit_end status written <> End_TimedOut.
Proof. unfold exit_end. repeat case_match; done. Qed.

(** A run succeeds exactly when the child started, exited by itself
    with status 0 before its deadline and read its whole input (unless that
    may go unread) and, when its descendants are supervised, the output was
    closed by the deadline; the process group is killed exactly when the
    run timed out; of each output the first 64 KiB are kept, and a cut is
    reported. *)
Theorem run_spec (spec : RunSpec) (c : Child) :
  let '(o, killed) := run spec c in
  (End_success (oc_end o) = true <->
     ch_spawn c = Ok tt /\ within (ch_exit c) (rs_timeout spec) = true /\
     (exists s, ch_status c = Ok s /\ es_code s = Some 0 /\ es_signal s = None) /\
     (rs_input_may_go_unread spec = false -> ch_written c = Ok tt) /\
     (rs_supervise_descendants spec = true -> within (ch_closed c) (rs_timeout spec) = true)) /\
  (killed = true <-> oc_end o = End_TimedOut) /\
  cp_data (oc_stderr o) = take (Z.to_nat CAPTURE) (match ch_spawn c with Ok _ => concat (ch_stderr c) | Err _ => [] end) /\
  (cp_truncated (oc_stderr o) = true <->
     ch_spawn c = Ok tt /\ CAPTURE < Z.of_nat (length (concat (ch_stderr c)))).
Proof.
  unfold run. destruct (ch_spawn c) as [[]|e]; [|split_and!; [split; [done|]|done|symmetry; apply take_nil|split; [done|]]; by intros [[=] _]].
  assert (Hend : (End_success (run_end spec c).1 = true <->
     within (ch_exit c) (rs_timeout spec) = true /\
     (exists s, ch_status c = Ok s /\ es_code s = Some 0 /\ es_signal s = None) /\
     (rs_input_may_go_unread spec = false -> ch_written c = Ok tt) /\
     (rs_supervise_descendants spec = true -> within (ch_closed c) (rs_timeout spec) = true)) /\
     ((run_end spec c).2 = true <-> (run_end spec c).1 = End_TimedOut)).
  { unfold run_end. destruct (ch_exit c) as [t|]; cbn [within]; [|split; split; try done; by intros []].
    destruct (Z.leb_spec t (rs_timeout spec)) as [Ht|Ht]; [|split; split; try done; by intros []].
    assert (Hw : (match ch_written c with Err e => if rs_input_may_go_unread spec then Ok tt else Err e | Ok u => Ok u end)
      = @inl unit str tt <-> (rs_input_may_go_unread spec = false -> ch_written c = Ok tt)).
    { destruct (ch_written c) as [[]|e], (rs_input_may_go_unread spec); split; try done. intros H. by specialize (H eq_refl). }
    destruct (rs_supervise_descendants spec) eqn:Es.
    - rewrite andb_true_r. replace (t + Z.max 0 (rs_timeout spec - t)) with (rs_timeout spec) by lia.
      destruct (within (ch_closed c) (rs_timeout spec)) eqn:Ec; cbn [negb].
      + rewrite andb_false_r. cbn [fst snd]. rewrite exit_end_success, Hw. split; [tauto|].
        split; [done|]. by intros ?%exit_end_timeout.
      + destruct (within (ch_closed c) t) eqn:Ed; [rewrite (within_le _ t (rs_timeout spec)) in Ec by done; done|].
        cbn. split; [|done]. split; [done|]. intros (_ & _ & _ & H). by specialize (H eq_refl).
    - rewrite andb_false_r. cbn [fst snd]. rewrite exit_end_success, Hw. split; [naive_solver|].
      split; [done|]. by intros ?%exit_end_timeout. }
  destruct (run_end spec c) as [e killed]. cbn [oc_end oc_stderr]. destruct Hend as [H1 H2].
  destruct (drain_spec (ch_stderr c)) as [Hd Ht]. split_and!; [rewrite H1; tauto|done|done|rewrite Ht; tauto].
Qed.

(** ** Output in logs *)

Definition hex_digit (d : Z) : Z := if d <? 10 then 48 + d else 87 + d.

(** [u8::escape_ascii] *)
Definition escape_byte (b : u8) : str :=
  if b =? 9 then [92; 116]
  else if b =? 13 then [92; 114]
  else if b =? 10 then [92; 110]
  else if (b =? 39) || (b =? 34) || (b =? 92) then [92; b]
  else if in_range 32 126 b then [b]
  else [92; 120; hex_digit (b / 16); hex_digit (b mod 16)].

(** [Captured::escaped] *)
Definition Captured_escaped (c : Captured) : str :=
  concat (escape_byte <$> cp_data c) ++ if cp_truncated c then lit " [truncated]" else [].

(** [End::fmt] *)
Definition i32_display (n : i32) : str := if n <? 0 then lit "-" ++ to_decimal (- n) else to_decimal n.
Definition End_display (e : RunEnd) : str :=
  match e with
  | End_Exited c => lit "exit status " ++ i32_display c
  | End_Signaled s => lit "killed by signal " ++ i32_display s
  | End_TimedOut => lit "timed out"
  | End_SpawnFailed e => lit "could not start: " ++ e
  | End_InputFailed e => lit "input not written: " ++ e
  end.

(** The reading of an escaped line. *)
Definition hex_value (c : Z) : Z := if c <? 58 then c - 48 else c - 87.
Fixpoint unescape (s : str) : list u8 :=
  match s with
  | [] => []
  | c :: rest =>
      if negb (c =? 92) then c :: unescape rest else
      match rest with
      | 120 :: h :: l :: rest => hex_value h * 16 + hex_value l :: unescape rest
      | 116 :: rest => 9 :: unescape rest
      | 114 :: rest => 13 :: unescape rest
      | 110 :: rest => 10 :: unescape rest
      | x :: rest => x :: unescape rest
      | [] => []
      end
  end.

(** Every byte, by evaluation. *)
Lemma bytes_forall (p : Z -> bool) : forallb p (seqZ 0 256) = true -> forall b, 0 <= b < 256 -> p b = true.
Proof. intros H b Hb. apply forallb_elem_of with (x := b) in H; [done|]. apply elem_of_seqZ. lia. Qed.

Lemma unescape_byte b s : 0 <= b < 256 -> unescape (escape_byte b ++ s) = b :: unescape s.
Proof.
  intros Hb. pose proof (bytes_forall (fun b => bool_decide (hex_value (hex_digit (b / 16)) * 16 + hex_value (hex_digit (b mod 16)) = b))
    ltac:(by vm_compute) b Hb) as Hh%bool_decide_eq_true. unfold escape_byte.
  repeat match goal with |- context [?x =? ?y] => destruct (Z.eqb_spec x y); [subst; reflexivity|] end. cbn [orb].
  destruct (in_range 32 126 b) eqn:Er; cbn [app unescape]; [by rewrite (proj2 (Z.eqb_neq b 92))|]. cbn. by rewrite Hh.
Qed.

(** Output in a log stays one line of printable ASCII, whatever the process
    wrote, and nothing of what is kept is lost or confused: it reads back. *)
Lemma escaped_reads_back (c : Captured) : Forall (fun b => 0 <= b < 256) (cp_data c) ->
  Forall (fun x => 32 <= x <= 126) (Captured_escaped c) /\ (cp_truncated c = false -> unescape (Captured_escaped c) = cp_data c).
Proof.
  intros Hd. unfold Captured_escaped. split.
  - apply Forall_app. split; [|by destruct (cp_truncated c); repeat constructor]. apply Forall_concat, Forall_fmap.
    eapply Forall_impl; [exact Hd|]. intros b Hb.
    pose proof (bytes_forall (fun b => forallb (in_range 32 126) (escape_byte b)) ltac:(by vm_compute) b Hb) as Hp. cbn in Hp |- *.
    apply Forall_forall. intros x Hx. apply forallb_elem_of with (x := x) in Hp; [|done]. unfold in_range in Hp. lia.
  - intros ->. rewrite app_nil_r. induction Hd as [|b l Hb Hl IH]; [done|]. cbn [fmap list_fmap concat]. by rewrite unescape_byte, IH.
Qed.
