(* ===== verification/NftRun.v ===== *)
(** * Running nft

    Models [run], [apply], [table], [flowtables] and [ruleset] of
    crates/polywan/src/nftctl.rs.  The process is an argument: whether it
    starts, takes its input, what it writes, how and when it ends.  The
    texts of errors other than those of a path, serde_json's parser and
    [from_utf8_lossy] are parameters.  The operations are an instance of the
    interface that the nftables lane is written against.

    What is proved: nft runs only while its file is trusted, and a run is a
    success exactly when the process took its input and ended with status 0
    within ten seconds; and that a missing nft is taken for a missing
    table. *)

From stdpp Require Import prelude.
From Stdlib Require Import ZArith Lia.
From S2P Require Import Prelude Text Durations Config StateFiles Nft Checks Subprocess Worker.

Local Open Scope Z_scope.
Local Open Scope polywan_scope.

Definition NFT_DEADLINE : Duration := from_secs 10.

(** [str::contains] *)
Fixpoint str_contains (sub s : str) : bool :=
  starts_with sub s || match s with [] => false | _ :: s => str_contains sub s end.

Lemma str_contains_app sub a b : str_contains sub (a ++ sub ++ b) = true.
Proof.
  induction a as [|c a IH]; cbn [app].
  - assert (E : starts_with sub (sub ++ b) = true) by (unfold starts_with; by rewrite strip_prefix_app).
    destruct (sub ++ b) eqn:Es; cbn [str_contains]; rewrite E; done.
  - cbn [str_contains]. rewrite IH. apply orb_true_r.
Qed.

(** The process: [nc_ends] is when the writing, the reading and the wait of
    [run] end, or the writing failed. *)
Record NftChild := mkNftChild {
  nc_spawn : result unit str;
  nc_written : result unit str;
  nc_stdout : list u8;
  nc_stderr : list (list u8);
  nc_status : result ExitStatus str;
  nc_ends : option Duration
}.

Class NftWorld (N : Type) := {
  nft_host : N -> Host;
  nft_child : PathBuf -> list str -> option str -> N -> NftChild * N
}.
#[global] Hint Mode NftWorld ! : typeclass_instances.

Definition ExitStatus_success (s : ExitStatus) : bool := bool_decide (es_code s = Some 0).

Section run.
Context {N : Type} `{NftWorld N}.
Context (lossy : list u8 -> str) (io_text : ErrorKind -> str) (other_text : Finding -> str) (status_text : ExitStatus -> str)
  (parse_json : str -> result Value str).

(** The text of a finding; [checks::ownership] and [executable] build the
    one of a path. *)
Definition finding_text (f : Finding) : str :=
  match f with
  | F_Path what path e => what ++ lit ": " ++ path ++ lit ": " ++ io_text e
  | f => other_text f
  end.

(** Without an input nothing is written. *)
Definition input_written (input : option str) (c : NftChild) : result unit str :=
  match input with Some _ => nc_written c | None => Ok tt end.

Definition nft_outcome (nft : PathBuf) (input : option str) (c : NftChild) : result str str :=
  match nc_spawn c with
  | Err e => Err (lit "cannot run " ++ nft ++ lit ": " ++ e)
  | Ok _ =>
      if negb (within (nc_ends c) NFT_DEADLINE)
      then Err (lit "nft did not finish within " ++ to_decimal (NFT_DEADLINE / NANOS_PER_SEC) ++ lit " s") else
      match input_written input c, nc_status c with
      | Err e, _ => Err (lit "writing to nft: " ++ e)
      | Ok _, Err e => Err (lit "waiting for nft: " ++ e)
      | Ok _, Ok s =>
          if ExitStatus_success s then Ok (lossy (nc_stdout c))
          else Err (lit "nft failed (" ++ status_text s ++ lit "): " ++ str_trim (lossy (cp_data (drain (nc_stderr c)))))
      end
  end.

Definition nft_run (nft : PathBuf) (args : list str) (input : option str) (n : N) : result str str * N :=
  match errors (executable (nft_host n) nft (lit "firewall.nft_path")) with
  | [] => let '(c, n) := nft_child nft args input n in (nft_outcome nft input c, n)
  | e => (Err (str_join (lit "; ") (finding_text <$> e)), n)
  end.

Definition nftctl_apply (nft : PathBuf) (transaction : str) (n : N) : result unit str * N :=
  let '(r, n) := nft_run nft [lit "-f"; lit "-"] (Some transaction) n in
  (match r with Ok _ => Ok tt | Err e => Err e end, n).

Definition NO_SUCH_FILE : str := lit "No such file or directory".

Definition nftctl_table (nft : PathBuf) (n : N) : result (option Value) str * N :=
  let '(r, n) := nft_run nft [lit "-j"; lit "list"; lit "table"; lit "inet"; TABLE] None n in
  (match r with
   | Ok text => match parse_json text with Ok v => Ok (Some (normalize v)) | Err e => Err (lit "nft JSON: " ++ e) end
   | Err e => if str_contains NO_SUCH_FILE e || str_contains (lit "does not exist") e then Ok None else Err e
   end, n).

(** [flowtables] and [ruleset]. *)
Definition nft_listing (what : str) (nft : PathBuf) (n : N) : result Value str * N :=
  let '(r, n) := nft_run nft [lit "-j"; lit "list"; what] None n in
  (match r with
   | Ok text => match parse_json text with Ok v => Ok v | Err e => Err (lit "nft JSON: " ++ e) end
   | Err e => Err e
   end, n).
Definition nftctl_flowtables : PathBuf -> N -> result Value str * N := nft_listing (lit "flowtables").
Definition nftctl_ruleset : PathBuf -> N -> result Value str * N := nft_listing (lit "ruleset").

(** The operations of the nftables lane. *)
#[local] Instance NftWorld_Ops : NftOps N := {|
  nft_apply := nftctl_apply; nft_table := nftctl_table; nft_flowtables := nftctl_flowtables
|}.

Lemma nft_outcome_ok nft input c text : nft_outcome nft input c = Ok text <->
  nc_spawn c = Ok tt /\ within (nc_ends c) NFT_DEADLINE = true /\ input_written input c = Ok tt /\
  (exists s, nc_status c = Ok s /\ es_code s = Some 0) /\ text = lossy (nc_stdout c).
Proof.
  unfold nft_outcome. split.
  - destruct (nc_spawn c) as [[]|]; [|done]. destruct (within _ _); [|done]. cbn [negb].
    destruct (input_written input c) as [[]|]; [|done]. destruct (nc_status c) as [s|]; [|done].
    unfold ExitStatus_success. case_bool_decide; [|done]. intros [= <-]. eauto 8.
  - intros (-> & -> & -> & (s & -> & Hs) & ->). cbn [negb]. unfold ExitStatus_success. by rewrite bool_decide_eq_true_2.
Qed.

(** A run of nft succeeds exactly when its file passed the ownership check,
    the process took the whole input and ended with status 0 within ten
    seconds, with the whole standard output; while its file is not trusted,
    no process starts.  So does a transaction through the nftables lane: the
    lane reports that it was applied exactly in this case. *)
Theorem nft_run_spec (nft : PathBuf) (args : list str) (input : option str) (n : N) (seq : u64) (transaction : str) :
  let trusted := errors (executable (nft_host n) nft (lit "firewall.nft_path")) = [] in
  let succeeds input c := nc_spawn c = Ok tt /\ within (nc_ends c) NFT_DEADLINE = true /\ input_written input c = Ok tt /\
    exists s, nc_status c = Ok s /\ es_code s = Some 0 in
  (forall text, (nft_run nft args input n).1 = Ok text <->
     trusted /\ succeeds input (nft_child nft args input n).1 /\ text = lossy (nc_stdout (nft_child nft args input n).1)) /\
  (~ trusted -> (nft_run nft args input n).2 = n) /\
  ((exists listing n', nft_lane (NftJob_Apply seq nft transaction) n = (Done_NftApplied seq (Ok listing), n')) <->
     trusted /\ succeeds (Some transaction) (nft_child nft [lit "-f"; lit "-"] (Some transaction) n).1).
Proof.
  cbv zeta. assert (Hrun : forall args input text, (nft_run nft args input n).1 = Ok text <->
     errors (executable (nft_host n) nft (lit "firewall.nft_path")) = [] /\
     (nc_spawn (nft_child nft args input n).1 = Ok tt /\ within (nc_ends (nft_child nft args input n).1) NFT_DEADLINE = true /\
      input_written input (nft_child nft args input n).1 = Ok tt /\ exists s, nc_status (nft_child nft args input n).1 = Ok s /\ es_code s = Some 0) /\
     text = lossy (nc_stdout (nft_child nft args input n).1)).
  { intros args' input' text. unfold nft_run. destruct (errors _) as [|e l]; [|split; [done|by intros [? _]]].
    destruct (nft_child nft args' input' n) as [c n']. cbn [fst]. rewrite nft_outcome_ok. naive_solver. }
  split; [apply Hrun|]. split.
  - intros Hn. unfold nft_run. by destruct (errors _).
  - cbn. unfold nftctl_apply. specialize (Hrun [lit "-f"; lit "-"] (Some transaction)).
    destruct (nft_run nft [lit "-f"; lit "-"] (Some transaction) n) as [[text|e] n1]; cbn [fst] in Hrun.
    + destruct (nftctl_table nft n1) as [t n2]. split; [intros _|intros _; eauto]. destruct (Hrun text) as [Hr _].
      destruct (Hr eq_refl) as (? & ? & _). done.
    + split; [by intros (? & ? & ?)|]. intros [Ht Hs]. destruct (Hrun (lossy (nc_stdout (nft_child nft [lit "-f"; lit "-"] (Some transaction) n).1)))
        as [_ Hr]. by specialize (Hr (conj Ht (conj Hs eq_refl))).
Qed.

(** A missing nft is taken for a missing table: where the path of nft does
    not resolve because a file is missing, [table] answers that the table
    does not exist, without having run anything; the check of the ruleset
    then finds a table that a third party removed. *)
Theorem missing_nft_hides_table (nft p : PathBuf) (n : N) (before after : str) :
  io_text NotFound = before ++ NO_SUCH_FILE ++ after ->
  absolute (nft_host n) nft = Ok p -> traversed p (symlink_target (nft_host n)) = Err NotFound ->
  nftctl_table nft n = (Ok None, n).
Proof.
  intros Hio Ha Ht. unfold nftctl_table, nft_run, executable, ownership. rewrite Ha, Ht. cbn [errors Findings_error].
  cbn [fmap list_fmap str_join finding_text]. rewrite Hio.
  rewrite !(assoc (++)), <- (assoc (++) _ NO_SUCH_FILE after). rewrite str_contains_app. done.
Qed.
End run.

(** A host without [/usr/sbin/nft], on which nothing can be run. *)
Module NftRunSample.
Definition host : Host :=
  mkHost Ok (fun p => if bool_decide (p = [lit "usr"; lit "sbin"; lit "nft"]) then Err NotFound else Ok None)
    (fun _ => true) (fun _ => Ok (mkMetadata 0 33261 false true)) (fun _ => Ok (Some 0)) (fun _ => Ok None).
#[global] Instance World_Nft : NftWorld Host := {|
  nft_host := fun h => h;
  nft_child := fun _ _ _ h => (mkNftChild (Err (lit "not run")) (Ok tt) [] [] (Err []) None, h)
|}.
Definition io_text (e : ErrorKind) : str := match e with NotFound => lit "No such file or directory (os error 2)" | _ => [] end.
End NftRunSample.

Lemma missing_nft_hides_table_witness :
  nftctl_table (fun b => b) NftRunSample.io_text (fun _ => []) (fun _ => []) (fun _ => Err []) (lit "/usr/sbin/nft") NftRunSample.host =
    (Ok None, NftRunSample.host).
Proof.
  apply (missing_nft_hides_table (fun b => b) NftRunSample.io_text (fun _ => []) (fun _ => []) (fun _ => Err [])
    (lit "/usr/sbin/nft") (lit "/usr/sbin/nft") NftRunSample.host [] (lit " (os error 2)")).
  - vm_compute. reflexivity.
  - reflexivity.
  - vm_compute. reflexivity.
Defined.
