(* ===== verification/Mail.v ===== *)
(** * Email: admission, retries and the notifier

    Models crates/polywan/src/mail.rs from the rolling-hour limit to the
    notifier: the waiting messages and their retries ([Mail]), one
    submission, the loop [drive] as a step on the inputs its [select]
    accepts, in any order, and the last submissions of a stopping daemon
    ([flush]).  How a submission ends, the clock and the host name are
    arguments. *)

From stdpp Require Import prelude sorting.
From Stdlib Require Import ZArith Lia.
From S2P Require Import Prelude Text Durations Config Msg Events Checks Subprocess MailText.

Local Open Scope Z_scope.
Local Open Scope polywan_scope.

(** ** Times *)

Definition WAITING : usize := 8.
Definition WAITING_BYTES : usize := Z.shiftl 4 20.
Definition RETRY_MINUTES : list u32 := [1; 5; 15].
Definition DEADLINE : Duration := from_secs 60.

Record Times := mkTimes { ti_minute : Duration; ti_deadline : Duration }.
Definition Times_default : Times := mkTimes (from_secs 60) DEADLINE.
Definition Times_hour (t : Times) : Duration := ti_minute t * 60.
Definition Times_retry (t : Times) (n : usize) : option Duration :=
  (fun m => ti_minute t * m) <$> nth_error RETRY_MINUTES (Z.to_nat n).

(** ** The rolling-hour limit *)

Record Admission := mkAdmission { ad_admitted : list Instant; ad_notice : option Instant; ad_suppressed : u64 }.
Definition Admission_default : Admission := mkAdmission [] None 0.

Inductive Admit := Admit_Yes (suppressed : u64) | Admit_No (notice : bool).

(** [Instant::duration_since], which saturates. *)
Definition duration_since (now t : Instant) : Duration := Z.max 0 (now - t).

Fixpoint expire_admitted (now : Instant) (hour : Duration) (admitted : list Instant) : list Instant :=
  match admitted with
  | t :: rest => if hour <=? duration_since now t then expire_admitted now hour rest else admitted
  | [] => []
  end.

Definition Admission_admit (a : Admission) (now : Instant) (max_per_hour : u32) (hour : Duration) : Admission * Admit :=
  let admitted := expire_admitted now hour (ad_admitted a) in
  if Z.of_nat (length admitted) <? max_per_hour
  then (mkAdmission (admitted ++ [now]) (ad_notice a) 0, Admit_Yes (ad_suppressed a))
  else
    let notice := match ad_notice a with None => true | Some t => hour <=? duration_since now t end in
    (mkAdmission admitted (if notice then Some now else ad_notice a) (ad_suppressed a + 1), Admit_No notice).

(** ** The decisions of the notifier *)

Record Mail := mkMail {
  ml_times : Times;
  ml_failures : u64;
  ml_instance : str;
  ml_ids : u64;
  ml_batch : option Batch;
  ml_admission : Admission;
  ml_waiting : list MailMessage
}.

Definition Mail_new (instance : str) (times : Times) (failures ids : u64) : Mail :=
  mkMail times failures instance ids None Admission_default [].

Definition with_batch (b : option Batch) (m : Mail) : Mail :=
  mkMail (ml_times m) (ml_failures m) (ml_instance m) (ml_ids m) b (ml_admission m) (ml_waiting m).
Definition with_admission (a : Admission) (m : Mail) : Mail :=
  mkMail (ml_times m) (ml_failures m) (ml_instance m) (ml_ids m) (ml_batch m) a (ml_waiting m).
Definition with_waiting (l : list MailMessage) (m : Mail) : Mail :=
  mkMail (ml_times m) (ml_failures m) (ml_instance m) (ml_ids m) (ml_batch m) (ml_admission m) l.

(** [Sendmail::next_id], shared with notification tests. *)
Definition next_id (m : Mail) : u64 * Mail :=
  (ml_ids m + 1,
   mkMail (ml_times m) (ml_failures m) (ml_instance m) (ml_ids m + 1) (ml_batch m) (ml_admission m) (ml_waiting m)).

Definition Failures_add_email (m : Mail) : Mail :=
  mkMail (ml_times m) (ml_failures m + 1) (ml_instance m) (ml_ids m) (ml_batch m) (ml_admission m) (ml_waiting m).

Definition Mail_add {Value} (m : Mail) (now : Instant) (coalesce : Duration) (e : Event Value) : Mail :=
  with_batch (Some (Batch_add (default (Batch_new (now + coalesce)) (ml_batch m)) e)) m.

(** [wall]: the system time, for the Date header. *)
Definition Mail_message (m : Mail) (kind : MailKind) (body : str) (email : Email) (now : Instant) (wall : Z) :
    MailMessage * Mail :=
  let '(n, m) := next_id m in
  (mkMailMessage kind (message_id (ml_instance m) n (em_from email)) wall body 0 now, m).

Definition bodies_len (l : list MailMessage) : usize := foldr (fun m n => str_len (mm_body m) + n) 0 l.

(** The loop of [wait]. *)
Fixpoint evict_waiting (l : list MailMessage) : list MailMessage :=
  match l with
  | [] => []
  | _ :: rest => if (WAITING <? Z.of_nat (length l)) || (WAITING_BYTES <? bodies_len l) then evict_waiting rest else l
  end.

Definition Mail_wait (m : Mail) (msg : MailMessage) : Mail := with_waiting (evict_waiting (ml_waiting m ++ [msg])) m.

Definition close_batch (m : Mail) (now : Instant) (wall : Z) (email : Email) (host : option str) : Mail :=
  match ml_batch m with
  | None => m
  | Some batch =>
      let m := with_batch None m in
      let '(a, r) := Admission_admit (ml_admission m) now (em_max_per_hour email) (Times_hour (ml_times m)) in
      let m := with_admission a m in
      match r with
      | Admit_Yes suppressed =>
          let '(msg, m) := Mail_message m Kind_Notification (Batch_body batch host suppressed) email now wall in
          Mail_wait m msg
      | Admit_No notice =>
          if notice then
            let '(msg, m) := Mail_message m Kind_Suppressed (suppression_body host (em_max_per_hour email)) email now wall in
            Mail_wait m msg
          else m
      end
  end.

Definition next_due (m : Mail) : option Instant :=
  match mm_due <$> ml_waiting m with [] => None | t :: l => Some (foldl Z.min t l) end.

(** The first of the waiting messages due at [now] with the least [due]. *)
Fixpoint due_index (now : Instant) (waiting : list MailMessage) : option (nat * Instant) :=
  match waiting with
  | [] => None
  | m :: rest =>
      match due_index now rest with
      | Some (i, d) => if (mm_due m <=? now) && (mm_due m <=? d) then Some (O, mm_due m) else Some (S i, d)
      | None => if mm_due m <=? now then Some (O, mm_due m) else None
      end
  end.

Definition take_due (m : Mail) (now : Instant) : option MailMessage * Mail :=
  match due_index now (ml_waiting m) with
  | Some (i, _) => (nth_error (ml_waiting m) i, with_waiting (take i (ml_waiting m) ++ drop (S i) (ml_waiting m)) m)
  | None => (None, m)
  end.

Definition retried (msg : MailMessage) (due : Instant) : MailMessage :=
  mkMailMessage (mm_kind msg) (mm_id msg) (mm_date msg) (mm_body msg) (mm_failures msg + 1) due.

Definition Mail_failed (m : Mail) (msg : MailMessage) (now : Instant) : Mail :=
  match Times_retry (ml_times m) (mm_failures msg) with
  | Some delay => Mail_wait m (retried msg (now + delay))
  | None => m
  end.

Definition Mail_discard (m : Mail) : usize * Mail :=
  (Z.of_nat (length (ml_waiting m)) + (match ml_batch m with Some _ => 1 | None => 0 end), with_batch None (with_waiting [] m)).

(** ** Submissions *)

(** The text of a failure is represented by what it is built from. *)
Inductive Submitted := Accepted | SubmitFailed (why : list Finding + RunOutcome) | Unbuildable (size : usize).

Inductive Before := Before_Unbuildable (size : usize) | Before_Untrusted (errors : list Finding).

Definition spec (email : Email) (input : list u8) (deadline : Duration) : RunSpec :=
  mkRunSpec (em_sendmail email) ([lit "-i"; lit "-f"; em_from email] ++ em_to email) [] 0 0 input false false false deadline.

(** [child]: what the process of a run does. *)
Definition attempt (h : Host) (raw : option str) (child : RunSpec -> Child) (m : MailMessage) (email : Email)
    (deadline : Duration) : result RunOutcome Before :=
  match render m email (hostname raw) with
  | Err size => Err (Before_Unbuildable size)
  | Ok input =>
      match errors (executable h (em_sendmail email) (lit "notify.email.sendmail")) with
      | [] => let s := spec email input deadline in Ok (fst (run s (child s)))
      | l => Err (Before_Untrusted l)
      end
  end.

Definition submit (h : Host) (raw : option str) (child : RunSpec -> Child) (m : MailMessage) (email : Email)
    (deadline : Duration) : Submitted :=
  match attempt h raw child m email deadline with
  | Err (Before_Unbuildable size) => Unbuildable size
  | Err (Before_Untrusted l) => SubmitFailed (inl l)
  | Ok o => if End_success (oc_end o) then Accepted else SubmitFailed (inr o)
  end.

Definition test_message (instance : str) (n : u64) (email : Email) (raw : option str) (wall : Z) (now : Instant) : MailMessage :=
  mkMailMessage Kind_Test (message_id instance n (em_from email)) wall (test_body (hostname raw)) 0 now.

Definition finished (m : Mail) (msg : MailMessage) (result : Submitted) (now : Instant) (retry : bool) : Mail :=
  match result with
  | Accepted => m
  | Unbuildable _ => Failures_add_email m
  | SubmitFailed _ => let m := Failures_add_email m in if retry then Mail_failed m msg now else m
  end.

(** ** The notifier *)

(** The state of [drive]: the running submission holds its message and the
    configuration it started with. *)
Record Drive := mkDrive { dv_mail : Mail; dv_notify : Notify; dv_running : option (MailMessage * Email) }.

(** What the [select] of [drive] can take: a reload, the end of the running
    submission, the sendmail turn once a message is due, the end of the
    batch, an event; and, between its turns, a number taken by a
    notification test. *)
Inductive DriveInput {Value : Type} :=
  | Drive_Config (next : Notify)
  | Drive_Finished (now : Instant) (result : Submitted)
  | Drive_Turn (now : Instant)
  | Drive_Close (now : Instant) (wall : Z) (raw : option str)
  | Drive_Event (now : Instant) (e : Event Value)
  | Drive_TestId.
Arguments DriveInput : clear implicits.

Definition drive_ready {Value} (d : Drive) (i : DriveInput Value) : bool :=
  match i with
  | Drive_Finished _ _ => match dv_running d with Some _ => true | None => false end
  | Drive_Turn now =>
      match dv_running d, next_due (dv_mail d) with None, Some due => due <=? now | _, _ => false end
  | Drive_Close now _ _ => match ml_batch (dv_mail d) with Some b => ba_deadline b <=? now | None => false end
  | _ => true
  end.

Definition drive_step {Value} (d : Drive) (i : DriveInput Value) : Drive :=
  let mail := dv_mail d in
  let notify := dv_notify d in
  match i with
  | Drive_Config next =>
      let removed := match nt_email notify, nt_email next with Some _, None => true | _, _ => false end in
      mkDrive (if removed then snd (Mail_discard mail) else mail) next (dv_running d)
  | Drive_Finished now result =>
      match dv_running d with
      | Some (m, _) =>
          mkDrive (finished mail m result now (match nt_email notify with Some _ => true | None => false end)) notify None
      | None => d
      end
  | Drive_Turn now =>
      match nt_email notify with
      | Some email =>
          match take_due mail now with
          | (Some m, mail) => mkDrive mail notify (Some (m, email))
          | (None, mail) => mkDrive mail notify (dv_running d)
          end
      | None => mkDrive (snd (Mail_discard mail)) notify (dv_running d)
      end
  | Drive_Close now wall raw =>
      mkDrive (match nt_email notify with
               | Some email => close_batch mail now wall email (hostname raw)
               | None => snd (Mail_discard mail)
               end) notify (dv_running d)
  | Drive_Event now e =>
      mkDrive (match nt_email notify with Some _ => Mail_add mail now (nt_coalesce notify) e | None => mail end)
        notify (dv_running d)
  | Drive_TestId => mkDrive (snd (next_id mail)) notify (dv_running d)
  end.

(** The submissions of the messages due at shutdown, as far as [results]
    goes: when the time is over, the rest is discarded. *)
Fixpoint flush_pending (mail : Mail) (pending : list MailMessage) (results : list (Submitted * Instant)) : Mail :=
  match pending, results with
  | m :: pending, (r, now) :: results => flush_pending (finished mail m r now false) pending results
  | _, _ => mail
  end.

(** The messages that a stopping daemon submits, and its last state. *)
Definition flush (mail : Mail) (notify : Notify) (running : option (MailMessage * Email)) (now : Instant) (wall : Z)
    (raw : option str) (results : list (Submitted * Instant)) : list MailMessage * Mail :=
  let '(pending, mail) :=
    match nt_email notify with
    | Some email =>
        let mail := close_batch mail now wall email (hostname raw) in
        (List.filter (fun m => mm_due m <=? now) (ml_waiting mail), with_waiting [] mail)
    | None => ([], mail)
    end in
  match running, results with
  | Some (m, _), (r, t) :: results => (pending, flush_pending (finished mail m r t false) pending results)
  | Some _, [] => (pending, mail)
  | None, _ => (pending, flush_pending mail pending results)
  end.

(** The stop: the events still queued join the batch first. *)
Definition drive_stop {Value} (d : Drive) (events : list (Event Value)) (now : Instant) (wall : Z) (raw : option str)
    (results : list (Submitted * Instant)) : list MailMessage * Mail :=
  let mail := match nt_email (dv_notify d) with
              | Some _ => foldl (fun m e => Mail_add m now (nt_coalesce (dv_notify d)) e) (dv_mail d) events
              | None => dv_mail d
              end in
  flush mail (dv_notify d) (dv_running d) now wall raw results.

(** ** The rolling hour *)

(** The calls of [Admission_admit] one after the other: the last state and what each
    answered. *)
Definition admit_next (hour : Duration) (s : Admission * list (Instant * Admit)) (call : Instant * u32) :
    Admission * list (Instant * Admit) :=
  let '(a, log) := s in
  let '(a, r) := Admission_admit a (fst call) (snd call) hour in (a, log ++ [(fst call, r)]).
Definition admits (hour : Duration) (calls : list (Instant * u32)) : Admission * list (Instant * Admit) :=
  foldl (admit_next hour) (Admission_default, []) calls.

Definition yes_times (log : list (Instant * Admit)) : list Instant :=
  omap (fun x => match snd x with Admit_Yes _ => Some (fst x) | _ => None end) log.
Definition notice_times (log : list (Instant * Admit)) : list Instant :=
  omap (fun x => match snd x with Admit_No true => Some (fst x) | _ => None end) log.
Definition reported (log : list (Instant * Admit)) : u64 :=
  foldr (fun x n => match snd x with Admit_Yes s => s + n | _ => n end) 0 log.
Definition suppressions (log : list (Instant * Admit)) : list (Instant * Admit) :=
  List.filter (fun x => match snd x with Admit_No _ => true | _ => false end) log.

(** The times of [l] in the hour from [t] on, and in the hour up to [t]. *)
Definition in_window (hour : Duration) (t : Instant) (l : list Instant) : list Instant :=
  List.filter (fun x => (t <=? x) && (x <? t + hour)) l.
Definition in_last (hour : Duration) (t : Instant) (l : list Instant) : list Instant :=
  List.filter (fun x => t - x <? hour) l.

Lemma admits_snoc hour calls c : admits hour (calls ++ [c]) = admit_next hour (admits hour calls) c.
Proof. unfold admits. by rewrite foldl_app. Qed.

Lemma omap_snoc {A B} (f : A -> option B) l x : omap f (l ++ [x]) = omap f l ++ option_list (f x).
Proof. rewrite omap_app. simpl. by destruct (f x). Qed.

Lemma expire_admitted_filter hour t l : StronglySorted Z.le l -> (forall x, x ∈ l -> x <= t) ->
  expire_admitted t hour l = in_last hour t l.
Proof.
  unfold in_last, duration_since. induction l as [|a l IH]; intros Hs Ht; [done|]. inversion Hs as [|? ? Hs' Ha]; subst.
  cbn [expire_admitted List.filter]. unfold duration_since. assert (a <= t) by (apply Ht; by left). rewrite (Z.max_r 0 (t - a)) by lia.
  destruct (Z.leb_spec hour (t - a)), (Z.ltb_spec (t - a) hour); try lia.
  - apply IH; [done|]. intros x Hx. apply Ht. by right.
  - f_equal. symmetry. apply filter_all. intros x Hx. rewrite Forall_forall in Ha. specialize (Ha x Hx). apply Z.ltb_lt. lia.
Qed.

Lemma in_last_in_last hour t t' l : t <= t' -> in_last hour t' (in_last hour t l) = in_last hour t' l.
Proof.
  intros Ht. unfold in_last. induction l as [|x l IH]; simpl; [done|].
  destruct (Z.ltb_spec (t - x) hour); simpl; rewrite IH; [done|]. by rewrite (proj2 (Z.ltb_ge (t' - x) hour)) by lia.
Qed.

(** What the admission remembers of its calls, the last not after [t]. *)
Record admission_inv (hour : Duration) (t : Instant) (s : Admission * list (Instant * Admit)) : Prop := {
  ai_admitted : forall u, t <= u -> expire_admitted u hour (ad_admitted s.1) = in_last hour u (yes_times s.2);
  ai_notice : ad_notice s.1 = last (notice_times s.2);
  ai_suppressed : reported s.2 + ad_suppressed s.1 = Z.of_nat (length (suppressions s.2));
  ai_times : Forall (fun x => fst x <= t) s.2;
  ai_sorted : StronglySorted Z.le (yes_times s.2);
  ai_notices : StronglySorted Z.le (notice_times s.2)
}.

Lemma log_times_le f t (log : list (Instant * Admit)) x : Forall (fun x => fst x <= t) log ->
  (forall e y, f e = Some y -> y = fst e) -> x ∈ omap f log -> x <= t.
Proof.
  intros Hl Hf (e & He & E)%list_elem_of_omap. rewrite Forall_forall in Hl. specialize (Hl e He).
  by rewrite (Hf _ _ E).
Qed.

Lemma yes_le t log x : Forall (fun x => fst x <= t) log -> x ∈ yes_times log -> x <= t.
Proof. intros Hl. apply log_times_le; [done|]. intros [? []] ?; naive_solver. Qed.
Lemma notice_le t log x : Forall (fun x => fst x <= t) log -> x ∈ notice_times log -> x <= t.
Proof. intros Hl. apply log_times_le; [done|]. intros [? [|[]]] ?; naive_solver. Qed.

Lemma sorted_snoc l t : StronglySorted Z.le l -> (forall x, x ∈ l -> x <= t) -> StronglySorted Z.le (l ++ [t]).
Proof.
  induction 1 as [|a l Hs IH Ha]; intros Ht; simpl; [repeat constructor|]. constructor.
  - apply IH. intros x Hx. apply Ht. by right.
  - apply Forall_app. split; [done|]. constructor; [|done]. apply Ht. by left.
Qed.

Lemma reported_app a b : reported (a ++ b) = reported a + reported b.
Proof. unfold reported. induction a as [|[? []] a IH]; simpl in *; lia. Qed.

Lemma in_last_elem_of hour t l x : x ∈ in_last hour t l -> x ∈ l.
Proof. unfold in_last. intros Hx%list_elem_of_In. apply filter_In in Hx as [Hx _]. by apply list_elem_of_In. Qed.

Lemma in_last_sorted hour t l : StronglySorted Z.le l -> StronglySorted Z.le (in_last hour t l).
Proof.
  unfold in_last. induction 1 as [|x l Hs IH Hx]; simpl; [constructor|]. destruct (t - x <? hour); [|done].
  constructor; [done|]. apply Forall_forall. intros y Hy%in_last_elem_of. rewrite Forall_forall in Hx. by apply Hx.
Qed.

Lemma in_last_snoc hour t l : 0 < hour -> in_last hour t (l ++ [t]) = in_last hour t l ++ [t].
Proof. intros Hh. unfold in_last. rewrite List.filter_app. simpl. by rewrite Z.sub_diag, (proj2 (Z.ltb_lt 0 hour)). Qed.

(** Expiring what is remembered at [t] gives what counts at [u]. *)
Lemma expire_remembered hour t u l : t <= u -> StronglySorted Z.le l -> (forall x, x ∈ l -> x <= t) ->
  expire_admitted u hour (in_last hour t l) = in_last hour u l.
Proof.
  intros Hu Hs Hl. rewrite expire_admitted_filter; [by apply in_last_in_last|by apply in_last_sorted|].
  intros x Hx%in_last_elem_of. specialize (Hl x Hx). lia.
Qed.

Lemma admit_next_inv hour t s t' max : 0 < hour -> t <= t' -> admission_inv hour t s ->
  admission_inv hour t' (admit_next hour s (t', max)).
Proof.
  intros Hh Ht [Ha Hn Hs Hl Hys Hns]. destruct s as [a log]. cbn [fst snd] in *. unfold admit_next, Admission_admit. cbn [fst snd].
  assert (Hl' : Forall (fun x => fst x <= t') log) by (eapply Forall_impl; [exact Hl|]; intros [] ?; simpl in *; lia).
  assert (Hy' : forall x, x ∈ yes_times log -> x <= t') by (intros x; by apply yes_le).
  rewrite (Ha t' Ht). destruct (Z.of_nat _ <? max).
  - split; cbn [fst snd ad_admitted ad_notice ad_suppressed]; unfold yes_times, notice_times, suppressions;
      rewrite ?omap_snoc, ?List.filter_app; cbn [option_list snd fst List.filter]; rewrite ?app_nil_r; try done.
    + intros u Hu. rewrite <- in_last_snoc by done. apply expire_remembered; [done|by apply sorted_snoc|].
      intros x [Hx|Hx%list_elem_of_singleton]%elem_of_app; [by apply Hy'|lia].
    + rewrite reported_app. simpl. unfold suppressions in Hs. lia.
    + apply Forall_app. split; [done|]. by repeat constructor; simpl.
    + by apply sorted_snoc.
  - set (notice := match ad_notice a with None => true | Some u => hour <=? duration_since t' u end).
    split; cbn [fst snd ad_admitted ad_notice ad_suppressed]; unfold yes_times, notice_times, suppressions;
      rewrite ?omap_snoc, ?List.filter_app; cbn [option_list snd fst List.filter]; rewrite ?app_nil_r; try done.
    + intros u Hu. by apply expire_remembered.
    + destruct notice; simpl; [by rewrite last_snoc|by rewrite app_nil_r].
    + rewrite reported_app, length_app. simpl. unfold suppressions in Hs. lia.
    + apply Forall_app. split; [done|]. by repeat constructor; simpl.
    + destruct notice; simpl; [|by rewrite app_nil_r]. apply sorted_snoc; [done|]. intros x. by apply notice_le.
Qed.

Lemma admission_inv_mono hour t u s : t <= u -> admission_inv hour t s -> admission_inv hour u s.
Proof.
  intros Hu [Ha Hn Hs Hl Hy Hno]. split; try done; [intros v Hv; apply Ha; lia|].
  eapply Forall_impl; [exact Hl|]. intros x ?. simpl in *. lia.
Qed.

Lemma sorted_app_l l k : StronglySorted Z.le (l ++ k) -> StronglySorted Z.le l.
Proof.
  induction l as [|a l IH]; simpl; [constructor|]. inversion 1 as [|? ? Hs Ha]; subst. constructor; [by apply IH|].
  by apply Forall_app in Ha as [? _].
Qed.

Lemma sorted_snoc_le l t x : StronglySorted Z.le (l ++ [t]) -> x ∈ l -> x <= t.
Proof.
  induction l as [|a l IH]; simpl; [by intros _ ?%not_elem_of_nil|]. inversion 1 as [|? ? Hs Ha]; subst.
  apply Forall_app in Ha as [_ Ha]. inversion Ha; subst. intros [->|Hx]%elem_of_cons; [done|by apply IH].
Qed.

(** The invariant after any calls in the order of their times. *)
Lemma admits_inv hour calls t : 0 < hour -> StronglySorted Z.le ((fst <$> calls) ++ [t]) ->
  admission_inv hour t (admits hour calls).
Proof.
  intros Hh. revert t. induction calls as [|[t' max] calls IH] using rev_ind; intros t Hs; [by split; try constructor|].
  assert (Htt : t' <= t) by (eapply sorted_snoc_le; [exact Hs|]; rewrite fmap_app; apply elem_of_app; right; by left).
  rewrite fmap_app in Hs. apply sorted_app_l in Hs. rewrite admits_snoc.
  apply (admission_inv_mono hour t'); [done|]. apply (admit_next_inv hour t'); [done..|by apply IH].
Qed.

(** The times of a window that are not after [t], which is in it, are in
    the hour up to [t]. *)
Lemma window_in_last hour s t l : s <= t < s + hour -> (length (in_window hour s l) <= length (in_last hour t l))%nat.
Proof.
  intros Ht. unfold in_window, in_last. induction l as [|x l IH]; simpl; [lia|].
  destruct (Z.leb_spec s x), (Z.ltb_spec x (s + hour)), (Z.ltb_spec (t - x) hour); simpl; lia.
Qed.

Lemma in_window_snoc hour s l t :
  in_window hour s (l ++ [t]) = in_window hour s l ++ if (s <=? t) && (t <? s + hour) then [t] else [].
Proof. unfold in_window. by rewrite List.filter_app. Qed.

(** An hour after the last of sorted times, none of them is in a window
    that reaches it. *)
Lemma in_window_after hour s t l u : StronglySorted Z.le l -> last l = Some u -> hour <= t - u -> s <= t < s + hour ->
  in_window hour s l = [].
Proof.
  intros Hs Hl Hu Ht. apply last_Some in Hl as [k ->]. unfold in_window.
  assert (H : forall x, x ∈ k ++ [u] -> x <= u).
  { intros x [Hx|Hx%list_elem_of_singleton]%elem_of_app; [by eapply sorted_snoc_le|lia]. }
  induction (k ++ [u]) as [|x m IH]; [done|]. simpl. assert (x <= u) by (apply H; by left).
  rewrite (proj2 (Z.leb_gt s x)) by lia. simpl. apply IH; [by inversion Hs|]. intros y Hy. apply H. by right.
Qed.

Lemma admits_windows hour calls N : 0 < hour -> 0 <= N -> StronglySorted Z.le (fst <$> calls) ->
  Forall (fun c => snd c <= N) calls -> forall s,
  Z.of_nat (length (in_window hour s (yes_times (admits hour calls).2))) <= N /\
  (length (in_window hour s (notice_times (admits hour calls).2)) <= 1)%nat.
Proof.
  intros Hh HN. induction calls as [|[t max] calls IH] using rev_ind; intros Hs Hm s; [simpl; lia|].
  rewrite fmap_app in Hs. apply Forall_app in Hm as [Hm Hmax]. inversion Hmax as [|? ? Hmax' _]; subst. simpl in Hmax'.
  destruct (admits_inv hour calls t Hh Hs) as [Ha Hn _ Hl _ Hno]. specialize (IH (sorted_app_l _ _ Hs) Hm s).
  rewrite admits_snoc. destruct (admits hour calls) as [a log]. cbn [fst snd] in *.
  unfold admit_next, Admission_admit. cbn [fst snd]. rewrite (Ha t (Z.le_refl _)).
  destruct (Z.ltb_spec (Z.of_nat (length (in_last hour t (yes_times log)))) max) as [Hlt|Hge]; cbn [fst snd];
    unfold yes_times, notice_times in *; rewrite !omap_snoc; cbn [snd fst option_list].
  - rewrite app_nil_r. split; [|apply IH]. change (option_list (Some t)) with [t]. rewrite in_window_snoc, length_app.
    destruct (Z.leb_spec s t), (Z.ltb_spec t (s + hour)); simpl; try lia.
    pose proof (window_in_last hour s t (yes_times log) ltac:(lia)). unfold yes_times in *. lia.
  - rewrite app_nil_r. split; [apply IH|].
    destruct (match ad_notice a with None => true | Some u => hour <=? duration_since t u end) eqn:En;
      [change (option_list (Some t)) with [t]|rewrite app_nil_r; apply IH].
    rewrite in_window_snoc, length_app. destruct (Z.leb_spec s t), (Z.ltb_spec t (s + hour)); simpl; try lia.
    replace (in_window hour s _) with (@nil Instant); [simpl; lia|]. symmetry. destruct (ad_notice a) as [u|].
    + apply Z.leb_le in En. unfold duration_since in En. apply (in_window_after hour s t _ u); [done|by symmetry|lia..].
    + symmetry in Hn. apply last_None in Hn. by rewrite Hn.
Qed.

(** C21: The rolling-hour limit, over any calls in the order of their times
    (the limit may change in between): a message is admitted exactly when
    fewer than the limit were admitted in the hour before; so no hour has
    more admissions than the largest limit, nor more than one suppression
    notice; and no suppression goes unreported: those that admitted
    messages reported, with those pending, are all there were. *)
Theorem rate_limit (hour : Duration) (calls : list (Instant * u32)) (t : Instant) (max N : u32) :
  0 < hour -> StronglySorted Z.le (fst <$> (calls ++ [(t, max)])) -> Forall (fun c => snd c <= N) (calls ++ [(t, max)]) ->
  0 <= N ->
  let before := (admits hour calls).2 in
  let '(a, log) := admits hour (calls ++ [(t, max)]) in
  exists r, log = before ++ [(t, r)] /\
    ((exists s, r = Admit_Yes s) <-> Z.of_nat (length (in_last hour t (yes_times before))) < max) /\
    (forall s, Z.of_nat (length (in_window hour s (yes_times log))) <= N) /\
    (forall s, (length (in_window hour s (notice_times log)) <= 1)%nat) /\
    reported log + ad_suppressed a = Z.of_nat (length (suppressions log)).
Proof.
  intros Hh Hs Hm HN before. pose proof (admits_windows hour _ N Hh HN Hs Hm) as Hw.
  rewrite fmap_app in Hs. pose proof (admits_inv hour calls t Hh Hs) as Hinv.
  pose proof (admit_next_inv hour t _ t max Hh (Z.le_refl _) Hinv) as [_ _ Hr _ _ _]. rewrite <- admits_snoc in Hr.
  destruct Hinv as [Ha _ _ _ _ _]. specialize (Ha t (Z.le_refl _)). subst before.
  assert (E : exists r, (admits hour (calls ++ [(t, max)])).2 = (admits hour calls).2 ++ [(t, r)] /\
    ((exists s, r = Admit_Yes s) <-> Z.of_nat (length (in_last hour t (yes_times (admits hour calls).2))) < max)).
  { rewrite admits_snoc. destruct (admits hour calls) as [a log]. cbn [fst snd] in *. unfold admit_next, Admission_admit.
    cbn [fst snd]. rewrite Ha. destruct (Z.ltb_spec (Z.of_nat (length (in_last hour t (yes_times log)))) max); cbn [fst snd].
    - eexists. split; [done|]. split; eauto.
    - eexists. split; [done|]. split; [by intros [? ?]|lia]. }
  destruct E as (r & E & Hyes). destruct (admits hour (calls ++ [(t, max)])) as [a' log']. cbn [fst snd] in *.
  exists r. split_and!; [done..| | |done]; intros s; apply Hw.
Qed.

Lemma rate_limit_witness :
  exists r, (admits 3600 [(0, 2); (10, 2); (20, 2)]).2 = (admits 3600 [(0, 2); (10, 2)]).2 ++ [(20, r)] /\
    ~ exists s, r = Admit_Yes s.
Proof.
  destruct (rate_limit 3600 [(0, 2); (10, 2)] 20 2 2) as (r & E & Hy & _).
  - lia.
  - repeat (apply SSorted_cons; [|apply (bool_decide_unpack _); by vm_compute]). apply SSorted_nil.
  - repeat constructor; simpl; lia.
  - lia.
  - exists r. split; [exact E|]. rewrite Hy. vm_compute. congruence.
Defined.

(** ** The notifier's runs *)

(** What happens to a message: a submission starts; it fails and is retried
    or given up; it ends otherwise (accepted, unbuildable, or email was
    removed from the configuration). *)
Inductive Happening := Happened_Start | Happened_Fail | Happened_End.
Record LogEntry := mkLogEntry { lg_id : str; lg_at : Instant; lg_what : Happening }.

Definition drive_log {Value} (d : Drive) (i : DriveInput Value) : list LogEntry :=
  match i with
  | Drive_Turn now =>
      match nt_email (dv_notify d), fst (take_due (dv_mail d) now) with
      | Some _, Some m => [mkLogEntry (mm_id m) now Happened_Start]
      | _, _ => []
      end
  | Drive_Finished now result =>
      match dv_running d with
      | Some (m, _) =>
          [mkLogEntry (mm_id m) now
             (match result, nt_email (dv_notify d) with SubmitFailed _, Some _ => Happened_Fail | _, _ => Happened_End end)]
      | None => []
      end
  | _ => []
  end.

Inductive driven {Value} (times : Times) (instance : str) : Drive -> list LogEntry -> Prop :=
  | driven_start notify failures ids : 0 <= ids ->
      driven times instance (mkDrive (Mail_new instance times failures ids) notify None) []
  | driven_step d log (i : DriveInput Value) : driven times instance d log -> drive_ready d i = true ->
      driven times instance (drive_step d i) (log ++ drive_log d i).

(** The protocol of one message: the delays before its retries still to
    come, and when the next submission may start. *)
Inductive Phase := Phase_Waiting (delays : list Duration) (from : option Instant)
  | Phase_Submitting (delays : list Duration) | Phase_Over | Phase_Wrong.

Definition phase_step (p : Phase) (e : LogEntry) : Phase :=
  match p, lg_what e with
  | Phase_Waiting delays from, Happened_Start =>
      if match from with Some f => f <=? lg_at e | None => true end then Phase_Submitting delays else Phase_Wrong
  | Phase_Submitting (d :: delays), Happened_Fail => Phase_Waiting delays (Some (lg_at e + d))
  | Phase_Submitting [], Happened_Fail => Phase_Over
  | Phase_Submitting _, Happened_End => Phase_Over
  | _, _ => Phase_Wrong
  end.

Definition delays (times : Times) : list Duration := (fun m => ti_minute times * m) <$> RETRY_MINUTES.
Definition entries_of (id : str) (log : list LogEntry) : list LogEntry :=
  List.filter (fun e => bool_decide (lg_id e = id)) log.
Definition phase (times : Times) (id : str) (log : list LogEntry) : Phase :=
  foldl phase_step (Phase_Waiting (delays times) None) (entries_of id log).
Definition starts (log : list LogEntry) : list LogEntry :=
  List.filter (fun e => match lg_what e with Happened_Start => true | _ => false end) log.

(** At most one submission at a time: [None] when two overlapped. *)
Definition busy_step (busy : option bool) (e : LogEntry) : option bool :=
  match busy, lg_what e with
  | Some false, Happened_Start => Some true
  | Some true, Happened_Fail | Some true, Happened_End => Some false
  | _, _ => None
  end.

Definition held (d : Drive) : list MailMessage :=
  ml_waiting (dv_mail d) ++ match dv_running d with Some (m, _) => [m] | None => [] end.

Record drive_inv (times : Times) (instance : str) (d : Drive) (log : list LogEntry) : Prop := {
  di_times : ml_times (dv_mail d) = times;
  di_instance : ml_instance (dv_mail d) = instance;
  di_ids : 0 <= ml_ids (dv_mail d);
  di_nodup : NoDup (mm_id <$> held d);
  di_known : forall id, id ∈ mm_id <$> held d \/ id ∈ lg_id <$> log ->
    exists n from, 0 <= n <= ml_ids (dv_mail d) /\ id = message_id instance n from;
  di_waiting : forall m, m ∈ ml_waiting (dv_mail d) -> 0 <= mm_failures m <= 3 /\
    exists from, phase times (mm_id m) log = Phase_Waiting (drop (Z.to_nat (mm_failures m)) (delays times)) from /\
      (from = None \/ from = Some (mm_due m));
  di_running : forall m e, dv_running d = Some (m, e) -> 0 <= mm_failures m <= 3 /\
    phase times (mm_id m) log = Phase_Submitting (drop (Z.to_nat (mm_failures m)) (delays times));
  di_ok : forall id, phase times id log <> Phase_Wrong;
  di_busy : foldl busy_step (Some false) log = Some (match dv_running d with Some _ => true | None => false end)
}.

(** *** Message-IDs are distinct *)

Lemma digits_until a b a' b' : Forall (fun c => c <> 46) a -> Forall (fun c => c <> 46) a' ->
  a ++ 46 :: b = a' ++ 46 :: b' -> a = a'.
Proof.
  revert a'. induction a as [|c a IH]; intros [|c' a'] Ha Ha' E; simplify_eq/=; [done|by inversion Ha'|by inversion Ha|].
  f_equal. apply IH; [by inversion Ha|by inversion Ha'|done].
Qed.

Lemma to_decimal_no_dot k : 0 <= k -> Forall (fun c => c <> 46) (to_decimal k).
Proof.
  intros Hk. apply Forall_forall. intros c Hc ->. pose proof (to_decimal_digits k Hk) as Hd.
  rewrite forallb_forall in Hd. apply list_elem_of_In in Hc. by specialize (Hd 46 Hc).
Qed.

Lemma message_id_number instance n from n' from' : 0 <= n -> 0 <= n' ->
  message_id instance n from = message_id instance n' from' -> n = n'.
Proof.
  intros Hn Hn' E. unfold message_id in E. apply app_inv_head in E.
  change (lit "." ++ ?x) with (46 :: x) in E. apply digits_until in E; [|by apply to_decimal_no_dot..].
  assert (Some n = Some n') by (by rewrite <- (to_decimal_value n), <- (to_decimal_value n'), E). congruence.
Qed.

(** *** The protocol of a message *)

Lemma phase_snoc times id log e :
  phase times id (log ++ [e]) = if bool_decide (lg_id e = id) then phase_step (phase times id log) e else phase times id log.
Proof.
  unfold phase, entries_of. rewrite List.filter_app. cbn [List.filter]. case_bool_decide.
  - by rewrite foldl_app.
  - by rewrite app_nil_r.
Qed.

Lemma phase_fresh times id log : id ∉ lg_id <$> log -> phase times id log = Phase_Waiting (delays times) None.
Proof.
  intros Hn. unfold phase, entries_of. induction log as [|e log IH]; [done|]. cbn [List.filter].
  rewrite bool_decide_eq_false_2; [|intros <-; apply Hn; by left]. apply IH. intros H. apply Hn. by right.
Qed.

(** A message's submissions are bounded by its phase. *)
Lemma phase_starts times id log : phase times id log <> Phase_Wrong ->
  (length (starts (entries_of id log)) <= 4)%nat.
Proof.
  set (left p := match p with
                 | Phase_Waiting ds _ => 1 + length ds | Phase_Submitting ds => length ds | _ => 0 end%nat).
  assert (H : forall l p, foldl phase_step p l <> Phase_Wrong -> (length (starts l) <= left p)%nat).
  { induction l as [|[i t w] l IH]; intros p Hp; [simpl; lia|]. cbn [foldl] in Hp. specialize (IH _ Hp).
    assert (Hw : forall l, foldl phase_step Phase_Wrong l = Phase_Wrong) by (intros l'; induction l'; done).
    destruct p as [ds from|[|d ds]| |], w; unfold starts in *; simpl in *; try (exfalso; by apply Hp, Hw); try lia.
    destruct (match from with Some _ => _ | None => _ end); [simpl in *; lia|exfalso; by apply Hp, Hw]. }
  intros Hp. apply H in Hp. exact Hp.
Qed.

(** *** Preservation *)

Lemma fmap_sublist {A B} (f : A -> B) l k : l `sublist_of` k -> f <$> l `sublist_of` f <$> k.
Proof. induction 1; simpl; by constructor. Qed.

Lemma drive_inv_ext times instance d d' log :
  ml_times (dv_mail d') = ml_times (dv_mail d) -> ml_instance (dv_mail d') = ml_instance (dv_mail d) ->
  ml_ids (dv_mail d) <= ml_ids (dv_mail d') -> ml_waiting (dv_mail d') `sublist_of` ml_waiting (dv_mail d) ->
  dv_running d' = dv_running d -> drive_inv times instance d log -> drive_inv times instance d' log.
Proof.
  intros Ht Hi Hids Hw Hr [I1 I2 I3 I4 I5 I6 I7 I8 I9].
  assert (Hh : held d' `sublist_of` held d) by (unfold held; rewrite Hr; by apply sublist_app).
  split; rewrite ?Ht, ?Hi, ?Hr; try done.
  - lia.
  - eapply sublist_NoDup; [exact I4|]. by apply fmap_sublist.
  - intros id [Hid|Hid]; (destruct (I5 id) as (n & from & Hn & E); [|exists n, from; split; [lia|done]]); [left|by right].
    apply list_elem_of_fmap in Hid as (m & -> & Hm). apply list_elem_of_fmap_2. by eapply elem_of_sublist.
  - intros m Hm. apply I6. by eapply elem_of_sublist.
Qed.

Lemma evict_suffix l : exists k, l = k ++ evict_waiting l.
Proof.
  induction l as [|m l [k IH]]; [by exists []|]. cbn [evict_waiting]. destruct (_ || _); [|by exists []].
  exists (m :: k). simpl. by rewrite <- IH.
Qed.

Lemma evict_sublist l : evict_waiting l `sublist_of` l.
Proof. destruct (evict_suffix l) as [k E]. rewrite E at 2. by apply sublist_inserts_l. Qed.

(** A message that joins those waiting. *)
Lemma wait_inv times instance mail notify running log m :
  drive_inv times instance (mkDrive mail notify running) log ->
  mm_id m ∉ mm_id <$> held (mkDrive mail notify running) ->
  (exists n from, 0 <= n <= ml_ids mail /\ mm_id m = message_id instance n from) ->
  0 <= mm_failures m <= 3 ->
  (exists from, phase times (mm_id m) log = Phase_Waiting (drop (Z.to_nat (mm_failures m)) (delays times)) from /\
    (from = None \/ from = Some (mm_due m))) ->
  drive_inv times instance (mkDrive (Mail_wait mail m) notify running) log.
Proof.
  intros [I1 I2 I3 I4 I5 I6 I7 I8 I9] Hnew Hn Hf Hp.
  apply (drive_inv_ext times instance (mkDrive (with_waiting (ml_waiting mail ++ [m]) mail) notify running));
    try done; [apply evict_sublist|].
  assert (Hh : held (mkDrive (with_waiting (ml_waiting mail ++ [m]) mail) notify running) ≡ₚ
    m :: held (mkDrive mail notify running)).
  { unfold held. cbn [dv_mail with_waiting ml_waiting dv_running]. rewrite <- app_assoc. symmetry. apply Permutation_middle. }
  split; try done.
  - rewrite Hh. cbn [fmap list_fmap]. by constructor.
  - intros id [Hid|Hid]; [|by apply I5; right]. rewrite Hh in Hid. cbn [fmap list_fmap] in Hid.
    apply elem_of_cons in Hid as [->|Hid]; [done|]. apply I5. by left.
  - cbn [dv_mail with_waiting ml_waiting]. intros m' [Hm|Hm%list_elem_of_singleton]%elem_of_app; [by apply I6|by subst].
Qed.

Lemma fresh_id times instance d log from : drive_inv times instance d log ->
  (message_id instance (ml_ids (dv_mail d) + 1) from ∉ mm_id <$> held d) /\
  (message_id instance (ml_ids (dv_mail d) + 1) from ∉ lg_id <$> log).
Proof.
  intros [_ _ I3 _ I5 _ _ _ _].
  assert (H : ~ (message_id instance (ml_ids (dv_mail d) + 1) from ∈ mm_id <$> held d \/
    message_id instance (ml_ids (dv_mail d) + 1) from ∈ lg_id <$> log)); [|tauto].
  intros (n & from' & Hn & E)%I5. apply message_id_number in E; lia.
Qed.

Lemma new_message_inv times instance mail notify running log kind body email now wall :
  drive_inv times instance (mkDrive mail notify running) log ->
  let '(m, mail') := Mail_message mail kind body email now wall in
  drive_inv times instance (mkDrive (Mail_wait mail' m) notify running) log.
Proof.
  intros HI. pose proof (fresh_id _ _ _ _ (em_from email) HI) as [Hh Hl]. cbn [dv_mail] in *.
  unfold Mail_message, next_id. cbn [fst snd ml_ids ml_instance].
  pose proof (di_ids _ _ _ _ HI) as H0. pose proof (di_instance _ _ _ _ HI) as Hi. cbn [dv_mail] in *. rewrite Hi.
  apply wait_inv; cbn [mm_id mm_failures mm_due ml_ids].
  - eapply drive_inv_ext; [..|exact HI]; try done. cbn. lia.
  - exact Hh.
  - eexists _, _. split; [|done]. cbn. lia.
  - lia.
  - exists None. split; [by rewrite phase_fresh|by left].
Qed.

Lemma close_batch_inv times instance mail notify running log now wall email host :
  drive_inv times instance (mkDrive mail notify running) log ->
  drive_inv times instance (mkDrive (close_batch mail now wall email host) notify running) log.
Proof.
  intros HI. unfold close_batch. destruct (ml_batch mail) as [b|]; [|done].
  destruct (Admission_admit _ _ _ _) as [a r].
  assert (HI' : drive_inv times instance (mkDrive (with_admission a (with_batch None mail)) notify running) log)
    by (by eapply drive_inv_ext; [..|exact HI]).
  destruct r as [s|[]]; [| |done].
  - pose proof (new_message_inv _ _ _ _ _ _ Kind_Notification (Batch_body b host s) email now wall HI') as H.
    by destruct (Mail_message _ _ _ _ _ _) as [m mail'].
  - pose proof (new_message_inv _ _ _ _ _ _ Kind_Suppressed (suppression_body host (em_max_per_hour email)) email now wall HI') as H.
    by destruct (Mail_message _ _ _ _ _ _) as [m mail'].
Qed.

(** The message taken is the first of those due the longest. *)
Lemma due_index_spec now l i d : due_index now l = Some (i, d) ->
  exists a m b, l = a ++ m :: b /\ length a = i /\ mm_due m = d /\ d <= now /\
    Forall (fun x => now < mm_due x \/ d < mm_due x) a /\ Forall (fun x => now < mm_due x \/ d <= mm_due x) b.
Proof.
  revert i d. induction l as [|x l IH]; intros i d; [done|]. cbn [due_index].
  destruct (due_index now l) as [[j e]|] eqn:E.
  - destruct (IH j e eq_refl) as (a & m & b & -> & Hj & Hm & Hn & Ha & Hb).
    destruct (Z.leb_spec (mm_due x) now), (Z.leb_spec (mm_due x) e); cbn [andb]; intros [= <- <-];
      try (exists (x :: a), m, b; split_and!; [done|simpl; lia|done|done| |done]; constructor; [lia|done]).
    exists [], x, (a ++ m :: b). split_and!; [done..| ]. apply Forall_app. split; [|constructor; [lia|]];
      eapply Forall_impl; [exact Ha| |exact Hb|]; simpl; lia.
  - destruct (Z.leb_spec (mm_due x) now); [|done]. intros [= <- <-]. exists [], x, l. split_and!; [done..|].
    clear IH. revert E. induction l as [|y l IHl]; [done|]. cbn [due_index].
    destruct (due_index now l) as [[??]|]; [by destruct (_ && _)|]. destruct (Z.leb_spec (mm_due y) now); [done|].
    intros _. constructor; [by left|by apply IHl].
Qed.

Lemma take_due_spec mail now m mail' : take_due mail now = (Some m, mail') ->
  exists a b, ml_waiting mail = a ++ m :: b /\ mail' = with_waiting (a ++ b) mail /\ mm_due m <= now.
Proof.
  unfold take_due. destruct (due_index now (ml_waiting mail)) as [[i d]|] eqn:E; [|done].
  apply due_index_spec in E as (a & x & b & E & <- & <- & Hn & _). rewrite E. intros [= Hx <-].
  rewrite nth_error_app2, Nat.sub_diag in Hx by lia. injection Hx as ->. exists a, b. split_and!; [done| |done].
  f_equal. rewrite take_app_length. f_equal. by rewrite drop_app_ge, Nat.sub_succ_l, Nat.sub_diag by lia.
Qed.

Lemma take_due_none mail now mail' : take_due mail now = (None, mail') ->  ml_waiting mail' `sublist_of` ml_waiting mail /\
  ml_times mail' = ml_times mail /\ ml_instance mail' = ml_instance mail /\ ml_ids mail' = ml_ids mail.
Proof.
  unfold take_due. destruct (due_index now (ml_waiting mail)) as [[i d]|] eqn:E; [|by intros [= <-]].
  apply due_index_spec in E as (a & x & b & E & <- & _). rewrite E, nth_error_app2, Nat.sub_diag by lia. done.
Qed.

(** An entry about a message that is held: the other messages keep their phase. *)
Lemma log_other times instance d log m e x :
  drive_inv times instance d log -> held d ≡ₚ m :: x -> lg_id e = mm_id m ->
  forall m', m' ∈ x -> phase times (mm_id m') (log ++ [e]) = phase times (mm_id m') log.
Proof.
  intros HI Hh He m' Hm'. rewrite phase_snoc, He, bool_decide_eq_false_2; [done|]. intros E.
  pose proof (di_nodup _ _ _ _ HI) as Hn. rewrite Hh in Hn. cbn [fmap list_fmap] in Hn.
  apply NoDup_cons in Hn as [Hn _]. apply Hn. rewrite E. by apply list_elem_of_fmap_2.
Qed.

Lemma start_inv times instance mail notify log now m mail' email :
  drive_inv times instance (mkDrive mail notify None) log -> take_due mail now = (Some m, mail') ->
  drive_inv times instance (mkDrive mail' notify (Some (m, email))) (log ++ [mkLogEntry (mm_id m) now Happened_Start]).
Proof.
  intros HI (a & b & Hw & -> & Hdue)%take_due_spec. pose proof HI as [I1 I2 I3 I4 I5 I6 I7 I8 I9].
  assert (Hh : held (mkDrive mail notify None) ≡ₚ m :: (a ++ b)).
  { unfold held. cbn [dv_mail dv_running]. rewrite app_nil_r, Hw. symmetry. apply Permutation_middle. }
  assert (Hh' : held (mkDrive (with_waiting (a ++ b) mail) notify (Some (m, email))) ≡ₚ m :: (a ++ b)).
  { unfold held. cbn [dv_mail dv_running with_waiting ml_waiting]. by rewrite Permutation_app_comm. }
  destruct (I6 m) as (Hf & from & Hp & Hfrom); [cbn [dv_mail]; rewrite Hw; set_solver|].
  assert (Hnew : phase times (mm_id m) (log ++ [mkLogEntry (mm_id m) now Happened_Start]) =
    Phase_Submitting (drop (Z.to_nat (mm_failures m)) (delays times))).
  { rewrite phase_snoc, bool_decide_eq_true_2, Hp by done. cbn. destruct Hfrom as [->| ->]; [done|].
    by rewrite (proj2 (Z.leb_le _ _) Hdue). }
  split; try done.
  - by rewrite Hh', <- Hh.
  - intros id Hid. apply I5. rewrite Hh' in Hid. rewrite Hh. rewrite fmap_app in Hid. cbn in Hid |- *. set_solver.
  - cbn [dv_mail with_waiting ml_waiting]. intros m' Hm'. rewrite (log_other times instance _ log m _ (a ++ b) HI Hh) by done.
    apply I6. cbn [dv_mail]. rewrite Hw. set_solver.
  - intros m' e [= <- <-]. done.
  - intros id. destruct (decide (id = mm_id m)) as [->|Hne]; [by rewrite Hnew|].
    rewrite phase_snoc, bool_decide_eq_false_2; [apply I8|]. cbn. congruence.
  - rewrite foldl_app, I9. done.
Qed.

Lemma finish_inv times instance mail notify log now m email what :
  drive_inv times instance (mkDrive mail notify (Some (m, email))) log -> what <> Happened_Start ->
  let log' := log ++ [mkLogEntry (mm_id m) now what] in
  drive_inv times instance (mkDrive mail notify None) log' /\
  (mm_id m ∉ mm_id <$> held (mkDrive mail notify None)) /\
  (exists n from, 0 <= n <= ml_ids mail /\ mm_id m = message_id instance n from) /\
  0 <= mm_failures m <= 3 /\
  phase times (mm_id m) log' = phase_step (Phase_Submitting (drop (Z.to_nat (mm_failures m)) (delays times)))
    (mkLogEntry (mm_id m) now what).
Proof.
  intros HI Hwhat log'. pose proof HI as [I1 I2 I3 I4 I5 I6 I7 I8 I9].
  assert (Hh : held (mkDrive mail notify (Some (m, email))) ≡ₚ m :: held (mkDrive mail notify None)).
  { unfold held. cbn [dv_mail dv_running]. rewrite app_nil_r. by rewrite Permutation_app_comm. }
  destruct (I7 m email eq_refl) as [Hf Hp].
  assert (Hnew : phase times (mm_id m) log' = phase_step (Phase_Submitting (drop (Z.to_nat (mm_failures m)) (delays times)))
    (mkLogEntry (mm_id m) now what)) by (unfold log'; by rewrite phase_snoc, bool_decide_eq_true_2, Hp).
  rewrite Hh in I4. cbn [fmap list_fmap] in I4. apply NoDup_cons in I4 as [Hm I4].
  assert (Hid : exists n from, 0 <= n <= ml_ids mail /\ mm_id m = message_id instance n from).
  { apply I5. left. rewrite Hh. by left. }
  split; [|exact (conj Hm (conj Hid (conj Hf Hnew)))]. split; try done.
  - intros id H. unfold log' in H. rewrite fmap_app in H. cbn in H. destruct H as [H|H].
    + apply I5. left. rewrite Hh. by right.
    + apply elem_of_app in H as [H| ->%list_elem_of_singleton]; [by apply I5; right|done].
  - cbn [dv_mail]. intros m' Hm'. unfold log'. rewrite (log_other times instance _ log m _ _ HI Hh); [by apply I6|done|].
    unfold held. cbn. by rewrite app_nil_r.
  - intros id. destruct (decide (id = mm_id m)) as [->|Hne].
    + rewrite Hnew. destruct (drop _ _), what; done.
    + unfold log'. rewrite phase_snoc, bool_decide_eq_false_2; [apply I8|]. cbn. congruence.
  - unfold log'. rewrite foldl_app, I9. by destruct what.
Qed.

Lemma finished_inv times instance mail notify log now m email result :
  drive_inv times instance (mkDrive mail notify (Some (m, email))) log ->
  drive_inv times instance
    (mkDrive (finished mail m result now (match nt_email notify with Some _ => true | None => false end)) notify None)
    (log ++ drive_log (Value := unit) (mkDrive mail notify (Some (m, email))) (Drive_Finished now result)).
Proof.
  intros HI. set (what := match result, nt_email notify with SubmitFailed _, Some _ => Happened_Fail | _, _ => Happened_End end).
  assert (Hwhat : what <> Happened_Start) by (subst what; by destruct result, (nt_email notify)).
  destruct (finish_inv _ _ _ _ _ now _ _ what HI Hwhat) as (HI' & Hheld & Hid & Hf & Hp).
  cbn [drive_log dv_running]. fold what. set (log' := log ++ _) in *. cbn [dv_notify].
  assert (Hadd : drive_inv times instance (mkDrive (Failures_add_email mail) notify None) log')
    by (by eapply drive_inv_ext; [..|exact HI']).
  unfold finished. destruct result as [|why|size]; [exact HI'| |exact Hadd].
  subst what. destruct (nt_email notify) as [em|]; [|exact Hadd].
  unfold Mail_failed. pose proof (di_times _ _ _ _ HI) as Ht. cbn [dv_mail] in Ht. cbn [Failures_add_email ml_times].
  rewrite Ht. unfold Times_retry. destruct (nth_error RETRY_MINUTES (Z.to_nat (mm_failures m))) as [k|] eqn:Ek; [|exact Hadd].
  cbn [fmap option_fmap option_map].
  assert (Hk : mm_failures m < 3 /\ drop (Z.to_nat (mm_failures m)) (delays times) =
    ti_minute times * k :: drop (Z.to_nat (mm_failures m + 1)) (delays times)).
  { assert (mm_failures m = 0 \/ mm_failures m = 1 \/ mm_failures m = 2 \/ mm_failures m = 3) as [E|[E|[E|E]]] by lia;
      rewrite E in Ek |- *; simplify_eq/=; done. }
  destruct Hk as [Hk Hd]. apply wait_inv; cbn [retried mm_id mm_failures mm_due]; try done; [lia|].
  exists (Some (now + ti_minute times * k)). split; [|by right]. rewrite Hp, Hd. done.
Qed.

Lemma discard_inv times instance mail notify notify' running log :
  drive_inv times instance (mkDrive mail notify running) log ->
  drive_inv times instance (mkDrive (snd (Mail_discard mail)) notify' running) log.
Proof. intros HI. eapply drive_inv_ext; [..|exact HI]; try done. apply sublist_nil_l. Qed.

Lemma drive_step_inv {Value} times instance d log (i : DriveInput Value) :
  drive_inv times instance d log -> drive_ready d i = true ->
  drive_inv times instance (drive_step d i) (log ++ drive_log d i).
Proof.
  destruct d as [mail notify running]. intros HI Hr.
  destruct i as [next|now result|now|now wall raw|now e|]; cbn [drive_step dv_mail dv_notify dv_running].
  - cbn [drive_log]. rewrite app_nil_r. destruct (nt_email notify), (nt_email next);
      first [by eapply discard_inv|by eapply drive_inv_ext; [..|exact HI]].
  - destruct running as [[m email]|]; [|done]. pose proof (finished_inv _ _ _ _ _ now _ _ result HI) as H. exact H.
  - cbn [drive_ready dv_running] in Hr. destruct running; [done|]. cbn [drive_log dv_notify dv_mail].
    destruct (nt_email notify) as [email|]; [|rewrite app_nil_r; by eapply discard_inv].
    destruct (take_due mail now) as [[m|] mail'] eqn:E; cbn [fst].
    + by eapply start_inv.
    + rewrite app_nil_r. destruct (take_due_none _ _ _ E) as (Hw & Ht & Hi & Hids).
      eapply drive_inv_ext; [..|exact HI]; try done. cbn. lia.
  - cbn [drive_log]. rewrite app_nil_r. destruct (nt_email notify); [by apply close_batch_inv|by eapply discard_inv].
  - cbn [drive_log]. rewrite app_nil_r. destruct (nt_email notify); [|done]. by eapply drive_inv_ext; [..|exact HI].
  - cbn [drive_log]. rewrite app_nil_r. eapply drive_inv_ext; [..|exact HI]; try done. cbn. lia.
Qed.

Lemma driven_inv {Value} times instance d log : @driven Value times instance d log -> drive_inv times instance d log.
Proof.
  induction 1 as [notify failures ids Hids|d log i _ IH Hr]; [|by apply drive_step_inv].
  split; try done; [apply NoDup_nil_2| |]; [intros id [H|H]|intros m H]; by apply not_elem_of_nil in H.
Qed.

(** C20: In every run of the email notifier, whatever its configuration, its
    submissions and their order: at most one submission runs at a time, and
    every message is submitted at most four times, again only after a failed
    submission, and then not before 1, 5 and 15 minutes (of [times]) after
    the failure; a message accepted, given up or unbuildable is never
    submitted again. *)
Theorem submissions_follow_protocol {Value} (times : Times) (instance : str) (d : Drive) (log : list LogEntry) :
  @driven Value times instance d log ->
  foldl busy_step (Some false) log = Some (match dv_running d with Some _ => true | None => false end) /\
  forall id, phase times id log <> Phase_Wrong /\ (length (starts (entries_of id log)) <= 4)%nat.
Proof.
  intros [_ _ _ _ _ _ _ Hok Hbusy]%driven_inv. split; [done|]. intros id. split; [apply Hok|]. by eapply phase_starts, Hok.
Qed.

(** *** Bounds *)

Record mail_bounded (m : Mail) : Prop := {
  mb_waiting : Z.of_nat (length (ml_waiting m)) <= WAITING;
  mb_bodies : bodies_len (ml_waiting m) <= WAITING_BYTES;
  mb_batch : forall b, ml_batch m = Some b ->
    0 <= ba_changes b <= BATCH_CHANGES /\ str_len (ba_text b) <= BATCH_BYTES /\ 0 <= ba_omitted b
}.

Lemma evict_bounds l : Z.of_nat (length (evict_waiting l)) <= WAITING /\ bodies_len (evict_waiting l) <= WAITING_BYTES.
Proof.
  induction l as [|m l IH]; [by vm_compute|]. cbn [evict_waiting]. destruct (_ || _) eqn:E; [done|].
  apply orb_false_iff in E as [?%Z.ltb_ge ?%Z.ltb_ge]. done.
Qed.

Lemma bodies_len_app a b : bodies_len (a ++ b) = bodies_len a + bodies_len b.
Proof. unfold bodies_len. induction a as [|m a IH]; simpl; lia. Qed.

Lemma bodies_len_nonneg l : 0 <= bodies_len l.
Proof. unfold bodies_len. induction l as [|m l IH]; simpl; [lia|]. pose proof (str_len_nonneg (mm_body m)). lia. Qed.

Lemma wait_bounded m msg : mail_bounded m -> mail_bounded (Mail_wait m msg).
Proof. intros [_ _ Hb]. destruct (evict_bounds (ml_waiting m ++ [msg])). by split. Qed.

Lemma bounded_ext m m' : ml_waiting m' = ml_waiting m -> (ml_batch m' = ml_batch m \/ ml_batch m' = None) ->
  mail_bounded m -> mail_bounded m'.
Proof. intros Hw Hb [H1 H2 H3]. split; rewrite ?Hw; try done. intros b Eb. apply H3. destruct Hb; congruence. Qed.

Lemma Batch_add_bounded {Value} b (e : Event Value) :
  0 <= ba_changes b <= BATCH_CHANGES -> str_len (ba_text b) <= BATCH_BYTES -> 0 <= ba_omitted b ->
  0 <= ba_changes (Batch_add b e) <= BATCH_CHANGES /\ str_len (ba_text (Batch_add b e)) <= BATCH_BYTES /\
  0 <= ba_omitted (Batch_add b e).
Proof.
  intros Hc Ht Ho. unfold Batch_add. destruct (Z.ltb_spec (ba_changes b) BATCH_CHANGES); cbn [andb ba_changes ba_text ba_omitted]; [|lia].
  destruct (Z.leb_spec (str_len (ba_text b) + str_len (change_line e)) BATCH_BYTES); cbn [ba_changes ba_text ba_omitted]; [|lia].
  rewrite str_len_app. lia.
Qed.

Lemma close_batch_bounded m now wall email host : mail_bounded m -> mail_bounded (close_batch m now wall email host).
Proof.
  intros H. unfold close_batch. destruct (ml_batch m) as [b|]; [|done]. destruct (Admission_admit _ _ _ _) as [a r].
  assert (H' : forall ids, mail_bounded (mkMail (ml_times m) (ml_failures m) (ml_instance m) ids None a (ml_waiting m)))
    by (intros; apply (bounded_ext m); [done|by right|exact H]).
  destruct r as [s|[]]; cbv beta iota zeta delta [Mail_message next_id]; [apply wait_bounded, H'..|apply H'].
Qed.

Lemma finished_bounded m msg r now retry : mail_bounded m -> mail_bounded (finished m msg r now retry).
Proof.
  intros H. assert (H' : mail_bounded (Failures_add_email m)) by (apply (bounded_ext m); [done|by left|exact H]).
  unfold finished. destruct r; [done| |done]. destruct retry; [|done]. unfold Mail_failed.
  destruct (Times_retry _ _); [by apply wait_bounded|done].
Qed.

Lemma discard_bounded m : mail_bounded (snd (Mail_discard m)).
Proof. split; cbn; [by vm_compute..|done]. Qed.

Lemma take_due_bounded m now : mail_bounded m -> mail_bounded (snd (take_due m now)).
Proof.
  intros [H1 H2 H3]. destruct (take_due m now) as [[msg|] m'] eqn:E; cbn [snd].
  - apply take_due_spec in E as (a & b & Hw & -> & _). rewrite Hw in H1, H2. rewrite bodies_len_app in H2.
    split; cbn [with_waiting ml_waiting ml_batch]; [| |done].
    + rewrite length_app in *. simpl in H1. lia.
    + rewrite bodies_len_app. unfold bodies_len in H2 at 2. cbn [foldr] in H2. fold (bodies_len b) in H2.
      pose proof (str_len_nonneg (mm_body msg)). lia.
  - unfold take_due in E. destruct (due_index now (ml_waiting m)) as [[i d]|] eqn:Ed; [|by injection E as <-].
    apply due_index_spec in Ed as (a & x & b & Ew & <- & _). rewrite Ew, nth_error_app2, Nat.sub_diag in E by lia. done.
Qed.

Lemma add_bounded {Value} m now coalesce (e : Event Value) : mail_bounded m -> mail_bounded (Mail_add m now coalesce e).
Proof.
  intros [H1 H2 H3]. split; [done..|]. cbn [Mail_add with_batch ml_batch]. intros b [= <-].
  destruct (ml_batch m) as [b|]; cbn [default id from_option]; [by apply Batch_add_bounded; apply H3|].
  apply Batch_add_bounded; by vm_compute.
Qed.

(** The memory of the email notifier is bounded in every run: at most
    eight messages wait, with at most 4 MiB of text, and the open batch
    holds at most 200 changes and 64 KiB; messages are evicted oldest first. *)
Theorem mail_memory_bounded {Value} (times : Times) (instance : str) (d : Drive) (log : list LogEntry) :
  @driven Value times instance d log -> mail_bounded (dv_mail d) /\
  forall l, (exists k, l = k ++ evict_waiting l) /\ Z.of_nat (length (evict_waiting l)) <= WAITING.
Proof.
  intros Hd. split; [|intros l; split; [apply evict_suffix|apply evict_bounds]].
  induction Hd as [notify failures ids Hids|d log i _ IH Hr]; [split; cbn; [by vm_compute..|done]|].
  destruct d as [mail notify running]. destruct i as [next|now result|now|now wall raw|now e|]; cbn in IH |- *.
  - destruct (nt_email notify), (nt_email next); first [exact IH|apply discard_bounded].
  - destruct running as [[m email]|]; [|exact IH]. cbn. by apply finished_bounded.
  - destruct (nt_email notify); [|apply discard_bounded]. pose proof (take_due_bounded mail now IH) as H.
    by destruct (take_due mail now) as [[m|] mail'].
  - destruct (nt_email notify); [by apply close_batch_bounded|apply discard_bounded].
  - destruct (nt_email notify); [by apply add_bounded|exact IH].
  - apply (bounded_ext mail); [done|by left|exact IH].
Qed.

(** ** A run: a change, its message refused twice, then accepted *)
Module MailSample.
Definition notify : Notify := mkNotify (from_secs 30) (Some MailTextSample.email) [] (lit "nobody").
Definition event : Event unit :=
  mkEvent 1 (lit "c0ffee") (lit "2026-10-05T01:02:03.000Z") (lit "path_state_changed") (Some (lit "isp")) (Some (lit "ipv4"))
    None None None (lit "isp ipv4 is down") false.
Definition refused : Submitted := SubmitFailed (inl []).
Definition at_ (s : Z) : Instant := from_secs s.
Definition inputs : list (DriveInput unit) :=
  [Drive_Event (at_ 0) event; Drive_Close (at_ 30) 0 None; Drive_Turn (at_ 30); Drive_Finished (at_ 31) refused;
   Drive_Turn (at_ 91); Drive_Finished (at_ 92) refused; Drive_Turn (at_ 392); Drive_Finished (at_ 393) Accepted].
Definition start : Drive := mkDrive (Mail_new (lit "c0ffee") Times_default 0 0) notify None.

(** The state and the log after [inputs], each of them ready. *)
Definition play (s : Drive * list LogEntry) (i : DriveInput unit) : Drive * list LogEntry :=
  (drive_step (fst s) i, snd s ++ drive_log (fst s) i).
Fixpoint all_ready (d : Drive) (l : list (DriveInput unit)) : bool :=
  match l with [] => true | i :: l => drive_ready d i && all_ready (drive_step d i) l end.

Lemma play_driven s l : @driven unit Times_default (lit "c0ffee") (fst s) (snd s) -> all_ready (fst s) l = true ->
  @driven unit Times_default (lit "c0ffee") (fst (foldl play s l)) (snd (foldl play s l)).
Proof.
  revert s. induction l as [|i l IH]; intros s Hs Hr; [done|]. cbn [all_ready] in Hr. apply andb_true_iff in Hr as [Hi Hr].
  cbn [foldl]. apply IH; [by apply driven_step|done].
Qed.

Definition final : Drive * list LogEntry := foldl play (start, []) inputs.

Lemma final_driven : @driven unit Times_default (lit "c0ffee") (fst final) (snd final).
Proof. apply (play_driven (start, [])); [by apply driven_start|]. by vm_compute. Qed.
End MailSample.

Lemma submissions_follow_protocol_witness :
  length (starts (snd MailSample.final)) = 3%nat /\
  phase Times_default (lit "<1.c0ffee@example.net>") (snd MailSample.final) <> Phase_Wrong.
Proof.
  split; [by vm_compute|].
  apply (submissions_follow_protocol Times_default (lit "c0ffee") (fst MailSample.final) (snd MailSample.final) MailSample.final_driven).
Defined.

Lemma mail_memory_bounded_witness : mail_bounded (dv_mail (fst MailSample.final)).
Proof.
  apply (mail_memory_bounded Times_default (lit "c0ffee") (fst MailSample.final) (snd MailSample.final) MailSample.final_driven).
Defined.
