(* ===== verification/Hooks.v ===== *)
(** * Hooks and notification tests

    Models crates/polywan/src/hooks.rs (the environment and the run of a
    hook, the hook user, the notifier with its slots) and the parts of
    crates/polywan/src/notifytest.rs that report how the channels ended.
    The account database is what [identity::user] gives at each event; what
    a run does is an argument. *)

From stdpp Require Import prelude.
From Stdlib Require Import ZArith Lia.
From S2P Require Import Prelude Text Durations Config Events StateFiles Sysctl Nft Checks Subprocess MailText Mail.

Local Open Scope Z_scope.
Local Open Scope polywan_scope.

Definition CONCURRENCY : usize := 4.

Section hooks.
(** [serde_json]: the text of a value that is no string, and an event's JSON
    ([None] when it cannot be written). *)
Context (value_text : Value -> str) (event_json : Event Value -> option (list u8)).

Definition environment_text (v : option Value) : str :=
  match v with
  | None | Some Null => []
  | Some (Str s) => s
  | Some other => value_text other
  end.

Definition environment (e : Event Value) : list (str * str) :=
  [(lit "POLYWAN_EVENT", ev_kind e); (lit "POLYWAN_UPLINK", default [] (ev_uplink e));
   (lit "POLYWAN_FAMILY", default [] (ev_family e)); (lit "POLYWAN_OLD", environment_text (ev_old e));
   (lit "POLYWAN_NEW", environment_text (ev_new e)); (lit "POLYWAN_REASON", default [] (ev_reason e))].

Definition hook_selects (hook : Hook) (kind : str) : bool :=
  match hk_events hook with None => true | Some list => existsb (fun k => bool_decide (k = kind)) list end.

Definition hook_spec (hook : Hook) (event : Event Value) (user : u32 * u32) : option RunSpec :=
  match hk_command hook with
  | [] => None
  | program :: args =>
      Some (mkRunSpec program args (environment event) (fst user) (snd user) (default [] (event_json event))
              true true true (hk_timeout hook))
  end.

Inductive UserError := User_Lookup (e : ErrorKind) | User_NotFound (name : str) | User_UidZero (name : str) | User_GidZero (name : str).

(** [accounts]: what [identity::user] gives. *)
Definition resolve_user (accounts : str -> result (option User) ErrorKind) (name : str) : result (u32 * u32) UserError :=
  match accounts name with
  | Err e => Err (User_Lookup e)
  | Ok None => Err (User_NotFound name)
  | Ok (Some u) =>
      if us_uid u =? 0 then Err (User_UidZero name)
      else if us_gid u =? 0 then Err (User_GidZero name) else Ok (us_uid u, us_gid u)
  end.

(** ** The notifier *)

(** The runs of the current event not started yet, those running with a
    slot, the slots that notification tests hold, and the runs that failed. *)
Record Hooks := mkHooks {
  hs_user : option (str * (u32 * u32)); hs_pending : list RunSpec; hs_running : list RunSpec; hs_tests : usize; hs_failures : u64
}.
Definition Hooks_new : Hooks := mkHooks None [] [] 0 0.

(** The hook user for an event: resolved again when its name changed. *)
Definition hook_user (accounts : str -> result (option User) ErrorKind) (user : option (str * (u32 * u32))) (name : str) :
    option (str * (u32 * u32)) :=
  match user with
  | Some (n, ids) => if bool_decide (n = name) then user
                     else match resolve_user accounts name with Ok ids => Some (name, ids) | Err _ => None end
  | None => match resolve_user accounts name with Ok ids => Some (name, ids) | Err _ => None end
  end.

(** The loop's turn for one event, up to the runs it will start. *)
Definition hooks_event (accounts : str -> result (option User) ErrorKind) (notify : Notify) (e : Event Value) (h : Hooks) : Hooks :=
  match List.filter (fun hook => hook_selects hook (ev_kind e)) (nt_hooks notify) with
  | [] => h
  | wanted =>
      let user := hook_user accounts (hs_user h) (nt_hook_user notify) in
      match user with
      | Some (_, ids) =>
          mkHooks user (omap (fun hook => hook_spec hook e ids) wanted) (hs_running h) (hs_tests h) (hs_failures h)
      | None => mkHooks None (hs_pending h) (hs_running h) (hs_tests h) (hs_failures h)
      end
  end.

Inductive HooksInput :=
  | Hooks_Event (accounts : str -> result (option User) ErrorKind) (notify : Notify) (e : Event Value)
  | Hooks_Slot
  | Hooks_Ended (i : nat) (o : RunEnd)
  | Hooks_TestStart
  | Hooks_TestEnd.

(** An event is received once every run of the one before has its slot; a
    slot is given while fewer than [CONCURRENCY] are held. *)
Definition hooks_ready (h : Hooks) (i : HooksInput) : bool :=
  let held := Z.of_nat (length (hs_running h)) + hs_tests h in
  match i with
  | Hooks_Event _ _ _ => bool_decide (hs_pending h = [])
  | Hooks_Slot => negb (bool_decide (hs_pending h = [])) && (held <? CONCURRENCY)
  | Hooks_Ended i _ => (i <? length (hs_running h))%nat
  | Hooks_TestStart => held <? CONCURRENCY
  | Hooks_TestEnd => 0 <? hs_tests h
  end.

Definition hooks_step (h : Hooks) (i : HooksInput) : Hooks :=
  match i with
  | Hooks_Event accounts notify e => hooks_event accounts notify e h
  | Hooks_Slot =>
      match hs_pending h with
      | s :: pending => mkHooks (hs_user h) pending (hs_running h ++ [s]) (hs_tests h) (hs_failures h)
      | [] => h
      end
  | Hooks_Ended i o =>
      mkHooks (hs_user h) (hs_pending h) (take i (hs_running h) ++ drop (S i) (hs_running h)) (hs_tests h)
        (if End_success o then hs_failures h else hs_failures h + 1)
  | Hooks_TestStart => mkHooks (hs_user h) (hs_pending h) (hs_running h) (hs_tests h + 1) (hs_failures h)
  | Hooks_TestEnd => mkHooks (hs_user h) (hs_pending h) (hs_running h) (hs_tests h - 1) (hs_failures h)
  end.

(** ** Theorems *)

(** The runs an event asks for, with the ids of the hook user. *)
Definition asked (notify : Notify) (e : Event Value) (ids : u32 * u32) : list RunSpec :=
  omap (fun hook => hook_spec hook e ids) (List.filter (fun hook => hook_selects hook (ev_kind e)) (nt_hooks notify)).

(** A run of the notifier: its state, the runs started so far in order, and
    what each event received asked for: the runs of [asked], or none when
    the hook user was not to be had. *)
Inductive hooked : Hooks -> list RunSpec -> list (list RunSpec) -> Prop :=
  | hooked_start : hooked Hooks_new [] []
  | hooked_event h started events accounts notify e :
      hooked h started events -> hooks_ready h (Hooks_Event accounts notify e) = true ->
      hooked (hooks_event accounts notify e h) started
        (events ++ [match hook_user accounts (hs_user h) (nt_hook_user notify) with
                    | Some (_, ids) => asked notify e ids | None => [] end])
  | hooked_slot h started events s pending :
      hooked h started events -> hooks_ready h Hooks_Slot = true -> hs_pending h = s :: pending ->
      hooked (hooks_step h Hooks_Slot) (started ++ [s]) events
  | hooked_other h started events i :
      hooked h started events -> hooks_ready h i = true ->
      match i with Hooks_Ended _ _ | Hooks_TestStart | Hooks_TestEnd => True | _ => False end ->
      hooked (hooks_step h i) started events.

Lemma resolve_user_safe accounts name ids : resolve_user accounts name = Ok ids -> fst ids <> 0 /\ snd ids <> 0.
Proof.
  unfold resolve_user. destruct (accounts name) as [[u|]|]; try done.
  destruct (Z.eqb_spec (us_uid u) 0); [done|]. destruct (Z.eqb_spec (us_gid u) 0); [done|]. by intros [= <-].
Qed.

Lemma hook_user_safe accounts user name :
  (forall n ids, user = Some (n, ids) -> fst ids <> 0 /\ snd ids <> 0) ->
  forall n ids, hook_user accounts user name = Some (n, ids) -> fst ids <> 0 /\ snd ids <> 0.
Proof.
  intros Hu n ids. unfold hook_user. assert (Hr : match resolve_user accounts name with Ok ids => Some (name, ids) | Err _ => None end
    = Some (n, ids) -> fst ids <> 0 /\ snd ids <> 0).
  { destruct (resolve_user accounts name) as [i|] eqn:E; [|done]. intros [= <- <-]. by eapply resolve_user_safe. }
  destruct user as [[n' i]|]; [|done]. case_bool_decide; [|done]. intros [= <- <-]. by eapply Hu.
Qed.

Record hooks_inv (h : Hooks) (started : list RunSpec) (events : list (list RunSpec)) : Prop := {
  hi_slots : Z.of_nat (length (hs_running h)) + hs_tests h <= CONCURRENCY;
  hi_tests : 0 <= hs_tests h;
  hi_runs : started ++ hs_pending h = concat events;
  hi_user : forall n ids, hs_user h = Some (n, ids) -> fst ids <> 0 /\ snd ids <> 0;
  hi_safe : Forall (fun s => rs_uid s <> 0 /\ rs_gid s <> 0) (started ++ hs_pending h)
}.

Lemma asked_safe notify e ids : fst ids <> 0 /\ snd ids <> 0 -> Forall (fun s => rs_uid s <> 0 /\ rs_gid s <> 0) (asked notify e ids).
Proof.
  intros Hi. unfold asked. apply Forall_forall. intros s (hook & _ & E)%list_elem_of_omap.
  unfold hook_spec in E. destruct (hk_command hook); [done|]. by injection E as <-.
Qed.

Lemma hooked_inv h started events : hooked h started events -> hooks_inv h started events.
Proof.
  induction 1 as [|h started events accounts notify e _ [I1 I2 I3 I4 I5] Hr|h started events s pending _ [I1 I2 I3 I4 I5] Hr Hp|
    h started events i _ [I1 I2 I3 I4 I5] Hr Hi].
  - by split.
  - cbn in Hr. apply bool_decide_eq_true in Hr. rewrite Hr, app_nil_r in *.
    pose proof (hook_user_safe accounts (hs_user h) (nt_hook_user notify) I4) as Hu. unfold hooks_event, asked.
    set (user := hook_user accounts (hs_user h) (nt_hook_user notify)) in *.
    destruct (List.filter _ _) as [|w wanted] eqn:Ew.
    + split; rewrite ?Hr, ?app_nil_r; try done. rewrite concat_app, I3. simpl.
      destruct user as [[n ids]|]; by rewrite app_nil_r.
    + destruct user as [[n ids]|]; split; cbn [hs_pending hs_user hs_running hs_tests]; rewrite ?Hr, ?app_nil_r; try done.
      * rewrite concat_app, I3. simpl. by rewrite app_nil_r.
      * apply Forall_app. split; [done|]. rewrite <- Ew. by apply asked_safe, (Hu n).
      * rewrite concat_app, I3. simpl. by rewrite app_nil_r.
  - cbn in Hr. rewrite Hp in *. cbn [hooks_step]. rewrite Hp. apply andb_true_iff in Hr as [_ Hr%Z.ltb_lt].
    split; cbn [hs_pending hs_user hs_running hs_tests]; try done; rewrite <- ?app_assoc; try done.
    rewrite length_app. simpl. lia.
  - destruct i as [| |i o| |]; try done; cbn in Hr; split; cbn [hooks_step hs_pending hs_user hs_running hs_tests]; try done.
    + rewrite length_app, length_take, length_drop. apply Nat.ltb_lt in Hr. lia.
    + apply Z.ltb_lt in Hr. lia.
    + lia.
    + apply Z.ltb_lt in Hr. lia.
    + apply Z.ltb_lt in Hr. lia.
Qed.

(** C22: Hooks run as configured and without root's privileges: in every
    run of the notifier at most four hooks and tests run at a time; the runs
    started, with those that wait for a slot, are exactly those that the
    events asked for, in order and each once; and none has uid or gid 0. *)
Theorem hooks_run_as_asked (h : Hooks) (started : list RunSpec) (events : list (list RunSpec)) :
  hooked h started events ->
  Z.of_nat (length (hs_running h)) + hs_tests h <= CONCURRENCY /\
  started ++ hs_pending h = concat events /\
  Forall (fun s => rs_uid s <> 0 /\ rs_gid s <> 0) started.
Proof. intros [H1 _ H3 _ H5]%hooked_inv. split_and!; [done..|]. by apply Forall_app in H5 as [? _]. Qed.
End hooks.

(** ** Notification tests *)

Inductive TestOutcome := Test_Succeeded | Test_Failed | Test_TimedOut | Test_NotStarted.

(** [error]: why it failed before or around the process. *)
Record TestReport := mkTestReport {
  tr_channel : str; tr_program : option str; tr_outcome : TestOutcome; tr_exit_status : option i32; tr_signal : option i32;
  tr_error : option str; tr_stderr : list u8; tr_stderr_truncated : bool
}.

Definition Report_new (channel : str) (program : option str) (outcome : TestOutcome) : TestReport :=
  mkTestReport channel program outcome None None None [] false.

(** [stderr] keeps the bytes of which [from_utf8_lossy] makes the text. *)
Definition Report_of (channel : str) (program : option str) (run : result RunOutcome str) : TestReport :=
  match run with
  | Err e => mkTestReport channel program Test_Failed None None (Some e) [] false
  | Ok o =>
      let outcome := match oc_end o with
                     | End_Exited c => if c =? 0 then Test_Succeeded else Test_Failed
                     | End_TimedOut => Test_TimedOut
                     | _ => Test_Failed
                     end in
      mkTestReport channel program outcome
        (match oc_end o with End_Exited c => Some c | _ => None end)
        (match oc_end o with End_Signaled s => Some s | _ => None end)
        (match oc_end o with End_SpawnFailed e | End_InputFailed e => Some e | _ => None end)
        (cp_data (oc_stderr o)) (cp_truncated (oc_stderr o))
  end.

Definition test_event {Value} (instance : str) (wall : Z) : Event Value :=
  mkEvent 0 instance (rfc3339 wall) (lit "notify_test") None None None None None (lit "notification test") true.

Definition budget (notify : Notify) (times : Times) : Duration :=
  foldr (fun h n => hk_timeout h + n) 0 (nt_hooks notify) + ti_deadline times.

Inductive Refusal := Refusal_Busy | Refusal_Unavailable.

(** A channel's slot at the end of the budget: whether it started, and its
    report if it ended. *)
Record TestSlot := mkTestSlot { sl_started : bool; sl_report : option (result RunOutcome str) }.

Definition test_channels (notify : Notify) : list (str * option str) :=
  (match nt_email notify with Some _ => [(lit "email", None)] | None => [] end) ++
  ((fun h => (lit "hook", head (hk_command h))) <$> nt_hooks notify).

Definition slot_report (c : str * option str) (s : TestSlot) : TestReport :=
  match sl_report s with
  | Some run => Report_of (fst c) (snd c) run
  | None => Report_new (fst c) (snd c) (if sl_started s then Test_TimedOut else Test_NotStarted)
  end.

(** [closed]: the email notifier ended; [slots]: how the channels stand when
    the tasks are over, in their order. *)
Definition test_run (notify : Notify) (closed : bool) (slots : list TestSlot) : result (list TestReport) Refusal :=
  match nt_email notify, closed with
  | Some _, true => Err Refusal_Unavailable
  | _, _ => Ok (zip_with slot_report (test_channels notify) slots)
  end.

(** [Tester::begin] on its flag. *)
Definition Tester_begin (busy : bool) : bool * result unit Refusal :=
  if busy then (busy, Err Refusal_Busy) else (true, Ok tt).

(** A test that is not refused reports every configured channel once, in
    order, as succeeded only if its run succeeded. *)
Lemma test_run_reports notify closed slots reports : test_run notify closed slots = Ok reports ->
  length slots = length (test_channels notify) ->
  (fun r => (tr_channel r, tr_program r)) <$> reports = test_channels notify /\
  forall i r s, reports !! i = Some r -> slots !! i = Some s ->
    tr_outcome r = Test_Succeeded <-> exists o, sl_report s = Some (Ok o) /\ End_success (oc_end o) = true.
Proof.
  intros E Hl. assert (reports = zip_with slot_report (test_channels notify) slots) as ->.
  { unfold test_run in E. destruct (nt_email notify), closed; congruence. }
  assert (Hch : forall c s, (tr_channel (slot_report c s), tr_program (slot_report c s)) = c).
  { intros [c p] [st [[o|e]|]]; unfold slot_report; simpl; by try destruct st. }
  split.
  - clear E. revert slots Hl. generalize (test_channels notify). intros l. induction l as [|c l IH]; intros [|s slots] Hl; try done.
    cbn [zip_with fmap list_fmap]. f_equal; [apply Hch|]. apply IH. by simpl in Hl; lia.
  - intros i r s Hr Hs. apply lookup_zip_with_Some in Hr as (c & s' & -> & _ & Hs'). assert (s' = s) as -> by congruence.
    unfold slot_report. destruct (sl_report s) as [[o|e]|] eqn:Er.
    + cbn. unfold End_success. setoid_rewrite bool_decide_eq_true. destruct (oc_end o) as [code| | | |] eqn:Eo; cbn.
      1: destruct (Z.eqb_spec code 0). all: split; try done; try (intros (o' & [= <-] & ?); congruence).
      * intros _. exists o. split; [done|]. rewrite Eo. by subst.
    + cbn. split; [done|]. by intros (o' & ? & _).
    + cbn. destruct (sl_started s); (split; [done|]; by intros (o' & ? & _)).
Qed.

(** ** A run: an event with one hook, and a test *)
Module HooksSample.
Definition hook : Hook := mkHook [lit "/usr/local/bin/notify"; lit "-v"] (Some [lit "path_state_changed"]) (from_secs 10).
Definition notify : Notify := mkNotify (from_secs 30) None [hook] (lit "nobody").
Definition accounts (name : str) : result (option User) ErrorKind :=
  Ok (if bool_decide (name = lit "nobody") then Some (mkUser 65534 65534) else None).
Definition event : Event Value :=
  mkEvent 1 (lit "c0ffee") (lit "t") (lit "path_state_changed") (Some (lit "isp")) None None (Some (Str (lit "down"))) None
    (lit "isp is down") false.
Definition text (_ : Value) : str := [].
Definition json (_ : Event Value) : option (list u8) := None.
Definition h1 : Hooks := hooks_event text json accounts notify event Hooks_new.
Definition spec1 : RunSpec :=
  mkRunSpec (lit "/usr/local/bin/notify") [lit "-v"] (environment text event) 65534 65534 [] true true true (from_secs 10).

Lemma run : hooked text json (hooks_step text json h1 Hooks_Slot) ([] ++ [spec1]) ([] ++ [[spec1]]).
Proof.
  eapply (hooked_slot text json h1 [] _ spec1 []); [|by vm_compute|by vm_compute].
  eapply (hooked_event text json Hooks_new [] [] accounts notify event); [constructor|by vm_compute].
Qed.
End HooksSample.

Lemma hooks_run_as_asked_witness :
  Forall (fun s => rs_uid s <> 0 /\ rs_gid s <> 0) [HooksSample.spec1].
Proof.
  apply (hooks_run_as_asked HooksSample.text HooksSample.json _ _ _ HooksSample.run).
Defined.
