(* ===== verification/NotifyTest.v ===== *)
(** * A notification test: its channels' tasks

    Models [run] of crates/polywan/src/notifytest.rs with the tasks that it
    spawns: one for email, which waits for the turn of sendmail, and one for
    each hook, which waits for a slot; the notifiers use the same turn and
    slots meanwhile.  The tasks run in any order; the test ends when all
    have ended or when the budget is over, which aborts them.  How a process
    ends is an argument ([Subprocess]).

    What is proved: tests and notifiers together keep the limits at all
    times; every permit a test took is back when it is over; every channel
    is reported once, in order, with the outcome of its task; and no hook of
    a test runs as root. *)

From stdpp Require Import prelude.
From Stdlib Require Import ZArith Lia.
From S2P Require Import Prelude Text Durations Config StateFiles Events Nft Checks Subprocess MailText Mail Hooks.

Local Open Scope Z_scope.
Local Open Scope polywan_scope.

(** ** Tasks *)

Inductive TestChannel := Channel_Email | Channel_Hook (spec : result RunSpec str).
Inductive TaskPhase := Task_Waiting | Task_Running | Task_Ended.
#[export] Instance TaskPhase_eq_dec : EqDecision TaskPhase.
Proof. solve_decision. Defined.

Record TestTask := mkTestTask { tk_channel : TestChannel; tk_phase : TaskPhase; tk_slot : TestSlot }.

(** Who has the turn of sendmail. *)
Inductive Turn := Turn_Free | Turn_Notifier | Turn_Test.
#[export] Instance Turn_eq_dec : EqDecision Turn.
Proof. solve_decision. Defined.

(** [ts_hooks]: the slots that the hooks notifier uses. *)
Record Testing := mkTesting { ts_tasks : list TestTask; ts_turn : Turn; ts_closed : bool; ts_hooks : Z; ts_over : bool }.

Definition uses_slot (t : TestTask) : bool :=
  bool_decide (tk_phase t = Task_Running) && match tk_channel t with Channel_Hook _ => true | _ => false end.
Definition uses_turn (t : TestTask) : bool :=
  bool_decide (tk_phase t = Task_Running) && match tk_channel t with Channel_Email => true | _ => false end.

Definition test_slots (l : list TestTask) : Z := Z.of_nat (length (List.filter uses_slot l)).
Definition test_turns (l : list TestTask) : Z := Z.of_nat (length (List.filter uses_turn l)).

(** A task ends; its permit is dropped with it. *)
Definition end_task (t : TestTask) (report : option (result RunOutcome str)) : TestTask :=
  mkTestTask (tk_channel t) Task_Ended (mkTestSlot (sl_started (tk_slot t)) report).
Definition start_task (t : TestTask) : TestTask :=
  mkTestTask (tk_channel t) Task_Running (mkTestSlot true None).

Section testing.
Context (value_text : Value -> str) (event_json : Event Value -> option (list u8)) (user_text : UserError -> str).

Definition hook_task (user : result (u32 * u32) UserError) (e : Event Value) (hook : Hook) : TestTask :=
  mkTestTask
    (Channel_Hook
       match user with
       | Ok ids => match hook_spec value_text event_json hook e ids with Some s => Ok s | None => Err (lit "empty command") end
       | Err e => Err (user_text e)
       end) Task_Waiting (mkTestSlot false None).

(** The tasks that are spawned. *)
Definition test_tasks (accounts : str -> result (option User) ErrorKind) (notify : Notify) (e : Event Value) : list TestTask :=
  (match nt_email notify with Some _ => [mkTestTask Channel_Email Task_Waiting (mkTestSlot false None)] | None => [] end) ++
  (hook_task (resolve_user accounts (nt_hook_user notify)) e <$> nt_hooks notify).

(** What happens: a waiting task goes on; a running one ends; the notifiers
    take and return the turn and slots, or the email notifier stops; all
    tasks have ended; the budget is over. *)
Inductive TestingInput :=
  | Te_Go (i : nat)
  | Te_End (i : nat) (run : result RunOutcome str)
  | Te_TurnTaken | Te_TurnReturned | Te_Closed
  | Te_SlotTaken | Te_SlotReturned
  | Te_Joined
  | Te_Budget.

Definition set_task (i : nat) (f : TestTask -> TestTask) (turn : Turn) (t : Testing) : Testing :=
  mkTesting (alter f i (ts_tasks t)) turn (ts_closed t) (ts_hooks t) (ts_over t).

(** A waiting task: [None] if it waits on. *)
Definition task_go (t : Testing) (i : nat) : option Testing :=
  match ts_tasks t !! i with
  | Some task =>
      if negb (bool_decide (tk_phase task = Task_Waiting)) then None else
      match tk_channel task with
      | Channel_Email =>
          if ts_closed t then Some (set_task i (fun t => end_task t (Some (Err (lit "the email notifier stopped")))) (ts_turn t) t)
          else match ts_turn t with
               | Turn_Free => Some (set_task i start_task Turn_Test t)
               | _ => None
               end
      | Channel_Hook (Err e) => Some (set_task i (fun t => end_task t (Some (Err e))) (ts_turn t) t)
      | Channel_Hook (Ok _) =>
          if test_slots (ts_tasks t) + ts_hooks t <? CONCURRENCY then Some (set_task i start_task (ts_turn t) t) else None
      end
  | None => None
  end.

Definition task_end (t : Testing) (i : nat) (run : result RunOutcome str) : option Testing :=
  match ts_tasks t !! i with
  | Some task =>
      if negb (bool_decide (tk_phase task = Task_Running)) then None else
      Some (set_task i (fun t => end_task t (Some run)) (match tk_channel task with Channel_Email => Turn_Free | _ => ts_turn t end) t)
  | None => None
  end.

(** [abort_all]: what has not ended is dropped, with its permit. *)
Definition abort_task (t : TestTask) : TestTask := mkTestTask (tk_channel t) Task_Ended (tk_slot t).

Definition testing_step (t : Testing) (i : TestingInput) : option Testing :=
  if ts_over t then None else
  match i with
  | Te_Go i => task_go t i
  | Te_End i run => task_end t i run
  | Te_TurnTaken =>
      if bool_decide (ts_turn t = Turn_Free) && negb (ts_closed t)
      then Some (mkTesting (ts_tasks t) Turn_Notifier (ts_closed t) (ts_hooks t) false) else None
  | Te_TurnReturned =>
      if bool_decide (ts_turn t = Turn_Notifier) then Some (mkTesting (ts_tasks t) Turn_Free (ts_closed t) (ts_hooks t) false) else None
  | Te_Closed => Some (mkTesting (ts_tasks t) (ts_turn t) true (ts_hooks t) false)
  | Te_SlotTaken =>
      if test_slots (ts_tasks t) + ts_hooks t <? CONCURRENCY
      then Some (mkTesting (ts_tasks t) (ts_turn t) (ts_closed t) (ts_hooks t + 1) false) else None
  | Te_SlotReturned =>
      if 0 <? ts_hooks t then Some (mkTesting (ts_tasks t) (ts_turn t) (ts_closed t) (ts_hooks t - 1) false) else None
  | Te_Joined =>
      if forallb (fun t => bool_decide (tk_phase t = Task_Ended)) (ts_tasks t)
      then Some (mkTesting (ts_tasks t) (ts_turn t) (ts_closed t) (ts_hooks t) true) else None
  | Te_Budget =>
      Some (mkTesting (abort_task <$> ts_tasks t)
              (match ts_turn t with Turn_Test => Turn_Free | x => x end) (ts_closed t) (ts_hooks t) true)
  end.

Inductive tested (accounts : str -> result (option User) ErrorKind) (notify : Notify) (e : Event Value) : Testing -> Prop :=
  | tested_start turn hooks : turn <> Turn_Test -> 0 <= hooks <= CONCURRENCY ->
      tested accounts notify e (mkTesting (test_tasks accounts notify e) turn false hooks false)
  | tested_step t i t' : tested accounts notify e t -> testing_step t i = Some t' -> tested accounts notify e t'.

(** ** Invariant *)

(** What a slot says of its task. *)
Definition slot_ok (over : bool) (t : TestTask) : Prop :=
  match tk_phase t with
  | Task_Waiting => tk_slot t = mkTestSlot false None
  | Task_Running => tk_slot t = mkTestSlot true None
  | Task_Ended => over = true \/ is_Some (sl_report (tk_slot t))
  end /\
  match tk_channel t with
  | Channel_Hook (Ok s) => rs_uid s <> 0 /\ rs_gid s <> 0
  | Channel_Hook (Err _) => sl_started (tk_slot t) = false
  | Channel_Email => True
  end.

Definition test_channel (t : TestTask) : bool := match tk_channel t with Channel_Email => true | Channel_Hook _ => false end.

Record tested_inv (notify : Notify) (t : Testing) : Prop := {
  te_slots : 0 <= ts_hooks t /\ test_slots (ts_tasks t) + ts_hooks t <= CONCURRENCY;
  te_turn : test_turns (ts_tasks t) = if decide (ts_turn t = Turn_Test) then 1 else 0;
  te_tasks : Forall (slot_ok (ts_over t)) (ts_tasks t);
  te_length : length (ts_tasks t) = length (test_channels notify);
  te_over : ts_over t = true -> Forall (fun t => tk_phase t = Task_Ended) (ts_tasks t)
}.

(** Counting after one task changed. *)
Lemma count_alter (p : TestTask -> bool) f i l task : l !! i = Some task ->
  Z.of_nat (length (List.filter p (alter f i l))) =
    Z.of_nat (length (List.filter p l)) - (if p task then 1 else 0) + (if p (f task) then 1 else 0).
Proof.
  revert i. induction l as [|x l IH]; intros [|i] Hi; try done.
  - injection Hi as ->. cbn. destruct (p task), (p (f task)); cbn [length]; lia.
  - specialize (IH i Hi). cbn. change (list_alter f i l) with (alter f i l). destruct (p x); cbn [length]; lia.
Qed.

Lemma Forall_alter_at {A} (P : A -> Prop) f i (l : list A) : Forall P l -> (forall x, l !! i = Some x -> P (f x)) -> Forall P (alter f i l).
Proof. intros Hl Hf. apply Forall_alter; [done|]. intros x Hx _. by apply Hf. Qed.

Lemma resolved_user accounts name ids : resolve_user accounts name = Ok ids -> fst ids <> 0 /\ snd ids <> 0.
Proof.
  unfold resolve_user. destruct (accounts name) as [[u|]|]; [|done..]. destruct (Z.eqb_spec (us_uid u) 0); [done|].
  destruct (Z.eqb_spec (us_gid u) 0); [done|]. by intros [= <-].
Qed.

Lemma test_tasks_ok accounts notify e :
  Forall (fun t => tk_phase t = Task_Waiting /\ slot_ok false t) (test_tasks accounts notify e).
Proof.
  unfold test_tasks. apply Forall_app. split; [destruct (nt_email notify); repeat constructor|].
  apply Forall_fmap, Forall_forall. intros hook _. split; [done|]. split; [done|]. cbn.
  destruct (resolve_user _ _) as [ids|] eqn:Eu; [|done]. apply resolved_user in Eu as [Hu Hg].
  unfold hook_spec. by destruct (hk_command hook).
Qed.

Lemma filter_waiting (p : TestTask -> bool) l : Forall (fun t => tk_phase t = Task_Waiting) l ->
  (forall t, tk_phase t = Task_Waiting -> p t = false) -> List.filter p l = [].
Proof. intros Hl Hp. induction Hl as [|t l Ht Hl IH]; [done|]. cbn. by rewrite Hp. Qed.

Lemma waiting_unused t : tk_phase t = Task_Waiting \/ tk_phase t = Task_Ended -> uses_slot t = false /\ uses_turn t = false.
Proof. intros H. unfold uses_slot, uses_turn. rewrite bool_decide_eq_false_2; [done|]. by destruct H as [-> | ->]. Qed.

Lemma started_uses t : uses_slot (start_task t) = negb (test_channel t) /\ uses_turn (start_task t) = test_channel t.
Proof. unfold uses_slot, uses_turn, test_channel. cbn. by destruct (tk_channel t). Qed.

Lemma tested_inv_start accounts notify e turn hooks : turn <> Turn_Test -> 0 <= hooks <= CONCURRENCY ->
  tested_inv notify (mkTesting (test_tasks accounts notify e) turn false hooks false).
Proof.
  intros Ht Hh. pose proof (test_tasks_ok accounts notify e) as Hall.
  assert (Hw : Forall (fun t => tk_phase t = Task_Waiting) (test_tasks accounts notify e)) by (eapply Forall_impl; [exact Hall|by intros ? []]).
  split; cbn.
  - unfold test_slots. rewrite (filter_waiting uses_slot _ Hw); [cbn; lia|]. intros t Hp. apply waiting_unused. by left.
  - unfold test_turns. rewrite (filter_waiting uses_turn _ Hw); [by rewrite decide_False|]. intros t Hp. apply waiting_unused. by left.
  - eapply Forall_impl; [exact Hall|by intros ? []].
  - unfold test_tasks, test_channels. rewrite !length_app, !length_fmap. by destruct (nt_email notify).
  - done.
Qed.

(** One task changes; the permits follow. *)
Lemma tested_inv_task notify t i task f turn : tested_inv notify t -> ts_over t = false -> ts_tasks t !! i = Some task ->
  slot_ok false (f task) ->
  test_slots (ts_tasks t) - (if uses_slot task then 1 else 0) + (if uses_slot (f task) then 1 else 0) + ts_hooks t <= CONCURRENCY ->
  (if decide (ts_turn t = Turn_Test) then 1 else 0) - (if uses_turn task then 1 else 0) + (if uses_turn (f task) then 1 else 0) =
    (if decide (turn = Turn_Test) then 1 else 0) ->
  tested_inv notify (set_task i f turn t).
Proof.
  intros [[H1 H1'] H2 H3 H4 H5] Ho Hi Hf Hs Ht. unfold set_task. rewrite Ho in *. split; cbn.
  - split; [done|]. unfold test_slots. rewrite (count_alter uses_slot f i _ task Hi). done.
  - unfold test_turns in *. rewrite (count_alter uses_turn f i _ task Hi), H2. done.
  - apply Forall_alter_at; [done|]. intros x Hx. by simplify_eq.
  - by rewrite length_alter.
  - done.
Qed.

Lemma tested_inv_go notify t i t' : tested_inv notify t -> ts_over t = false -> task_go t i = Some t' -> tested_inv notify t'.
Proof.
  intros HI Ho. unfold task_go. destruct (ts_tasks t !! i) as [task|] eqn:Hi; [|done]. case_bool_decide as Hp; [|done]. cbn [negb].
  pose proof (te_tasks _ _ HI) as Hall. rewrite Forall_lookup in Hall. destruct (Hall i task Hi) as [Hslot Hch]. rewrite Hp in Hslot.
  destruct (waiting_unused task ltac:(by left)) as [Eu Et]. pose proof (te_slots _ _ HI) as [Hh Hlim].
  assert (Hend : forall r, uses_slot (end_task task r) = false /\ uses_turn (end_task task r) = false)
    by (intros r; apply waiting_unused; by right).
  destruct (tk_channel task) as [|[s|e]] eqn:Ec.
  - destruct (ts_closed t).
    + intros [= <-]. destruct (Hend (Some (Err (lit "the email notifier stopped")))) as [E1 E2].
      apply (tested_inv_task notify t i task); [done..| | |]; rewrite ?Eu, ?Et, ?E1, ?E2; [|lia|lia].
      split; [right; cbn; eauto|]. cbn. by rewrite Ec.
    + destruct (ts_turn t) eqn:Ett; try done. intros [= <-]. apply (tested_inv_task notify t i task); [done..| | |].
      * split; [done|]. cbn. by rewrite Ec.
      * rewrite Eu, (proj1 (started_uses task)). unfold test_channel. rewrite Ec. cbn [negb]. lia.
      * rewrite Et, (proj2 (started_uses task)). unfold test_channel. by rewrite Ec, Ett.
  - destruct (Z.ltb_spec (test_slots (ts_tasks t) + ts_hooks t) CONCURRENCY); [|done]. intros [= <-].
    apply (tested_inv_task notify t i task); [done..| | |].
    + split; [done|]. cbn. by rewrite Ec.
    + rewrite Eu. destruct (uses_slot (start_task task)); lia.
    + rewrite Et, (proj2 (started_uses task)). unfold test_channel. rewrite Ec. lia.
  - intros [= <-]. destruct (Hend (Some (Err e))) as [E1 E2].
    apply (tested_inv_task notify t i task); [done..| | |]; rewrite ?Eu, ?Et, ?E1, ?E2; [|lia|lia].
    split; [right; cbn; eauto|]. cbn. rewrite Ec. by rewrite Hslot.
Qed.

Lemma tested_inv_end notify t i run t' : tested_inv notify t -> ts_over t = false -> task_end t i run = Some t' -> tested_inv notify t'.
Proof.
  intros HI Ho. unfold task_end. destruct (ts_tasks t !! i) as [task|] eqn:Hi; [|done]. case_bool_decide as Hp; [|done]. cbn [negb]. intros [= <-].
  pose proof (te_tasks _ _ HI) as Hall. rewrite Forall_lookup in Hall. destruct (Hall i task Hi) as [Hslot Hch]. rewrite Hp in Hslot.
  destruct (waiting_unused (end_task task (Some run)) ltac:(by right)) as [E1 E2]. pose proof (te_slots _ _ HI) as [Hh Hlim].
  apply (tested_inv_task notify t i task); [done..| | |]; rewrite ?E1, ?E2.
  - split; [right; cbn; eauto|]. cbn [tk_channel end_task tk_slot sl_started]. destruct (tk_channel task) as [|[s|e]]; try done.
  - destruct (uses_slot task); lia.
  - unfold uses_turn. rewrite bool_decide_eq_true_2 by done. cbn [andb].
    destruct (tk_channel task) eqn:Ec; [|lia]. rewrite (decide_False (P := Turn_Free = Turn_Test)) by done.
    pose proof (te_turn _ _ HI) as Hturn. destruct (decide (ts_turn t = Turn_Test)); [lia|].
    assert (Hin : task ∈ List.filter uses_turn (ts_tasks t)).
    { apply elem_of_list_filter_bool. split; [by eapply list_elem_of_lookup_2|]. unfold uses_turn. rewrite Ec. by rewrite bool_decide_eq_true_2. }
    unfold test_turns in Hturn. destruct (List.filter uses_turn (ts_tasks t)); [by apply not_elem_of_nil in Hin|cbn in Hturn; lia].
Qed.

Lemma all_ended_unused l : Forall (fun t => tk_phase t = Task_Ended) l -> test_slots l = 0 /\ test_turns l = 0.
Proof.
  intros Hl. unfold test_slots, test_turns. induction Hl as [|t l Ht Hl [IH1 IH2]]; [done|]. cbn.
  destruct (waiting_unused t ltac:(by right)) as [-> ->]. done.
Qed.

Lemma tested_invariant accounts notify e t : tested accounts notify e t -> tested_inv notify t.
Proof.
  induction 1 as [turn hooks Ht Hh|t i t' _ IH Hs]; [by apply tested_inv_start|]. unfold testing_step in Hs.
  destruct (ts_over t) eqn:Ho; [done|]. destruct i as [i|i run| | | | | | |].
  - by eapply tested_inv_go.
  - by eapply tested_inv_end.
  - case_bool_decide as E; [|done]. destruct (ts_closed t) eqn:Ec; [done|]. injection Hs as <-. destruct IH as [H1 H2 H3 H4 H5].
    split; cbn; rewrite ?Ho in *; try done. by rewrite H2, E.
  - case_bool_decide as E; [|done]. injection Hs as <-. destruct IH as [H1 H2 H3 H4 H5]. split; cbn; rewrite ?Ho in *; try done. by rewrite H2, E.
  - injection Hs as <-. destruct IH as [H1 H2 H3 H4 H5]. by split; cbn; rewrite ?Ho in *.
  - destruct (Z.ltb_spec (test_slots (ts_tasks t) + ts_hooks t) CONCURRENCY); [|done]. injection Hs as <-.
    destruct IH as [H1 H2 H3 H4 H5]. split; cbn; rewrite ?Ho in *; try done. lia.
  - destruct (Z.ltb_spec 0 (ts_hooks t)); [|done]. injection Hs as <-.
    destruct IH as [H1 H2 H3 H4 H5]. split; cbn; rewrite ?Ho in *; try done. lia.
  - destruct (forallb _ _) eqn:Ef; [|done]. injection Hs as <-. destruct IH as [H1 H2 H3 H4 H5]. split; cbn; rewrite ?Ho in *; try done.
    + eapply Forall_impl; [exact H3|]. intros x [Hx ?]. split; [|done]. destruct (tk_phase x); [done|done|by left].
    + intros _. apply Forall_forall. intros x Hx. apply forallb_elem_of with (x := x) in Ef; [|done]. by apply bool_decide_eq_true in Ef.
  - injection Hs as <-. destruct IH as [[H1 H1'] H2 H3 H4 H5].
    assert (Hall : Forall (fun t => tk_phase t = Task_Ended) (abort_task <$> ts_tasks t)) by (apply Forall_fmap, Forall_forall; done).
    destruct (all_ended_unused _ Hall) as [E1 E2]. split; cbn.
    + rewrite E1. unfold test_slots in H1'. lia.
    + rewrite E2. by destruct (ts_turn t).
    + apply Forall_fmap. eapply Forall_impl; [exact H3|]. intros x [_ Hx]. split; [by left|exact Hx].
    + by rewrite length_fmap.
    + done.
Qed.

Lemma not_started c sl : tr_outcome (slot_report c sl) = Test_NotStarted <-> sl_started sl = false /\ sl_report sl = None.
Proof.
  unfold slot_report. destruct (sl_report sl) as [[o|x]|]; cbn.
  - split; [|by intros [_ ?]]. destruct (oc_end o) as [c0| | | |]; try done. by destruct (c0 =? 0).
  - split; [done|by intros [_ ?]].
  - destruct (sl_started sl); split; try done; by intros [? _].
Qed.

(** A notification test, in every order of its tasks and of what the
    notifiers do meanwhile: tests and notifiers never use more than the four
    slots and the one turn; no hook of a test has uid or gid 0; the budget
    can always end it.  Once it is over, it has returned every permit and
    reports every configured channel once, in their order: as succeeded
    exactly when its process succeeded, as not started exactly when it got
    no permit and no error. *)
Theorem notification_test_sound accounts (notify : Notify) (e : Event Value) (t : Testing) : tested accounts notify e t ->
  (0 <= ts_hooks t /\ test_slots (ts_tasks t) + ts_hooks t <= CONCURRENCY /\ test_turns (ts_tasks t) <= 1) /\
  (forall i task s, ts_tasks t !! i = Some task -> tk_channel task = Channel_Hook (Ok s) -> rs_uid s <> 0 /\ rs_gid s <> 0) /\
  (ts_over t = false -> is_Some (testing_step t Te_Budget)) /\
  (ts_over t = true -> test_slots (ts_tasks t) = 0 /\ ts_turn t <> Turn_Test /\
     exists reports, test_run notify false (tk_slot <$> ts_tasks t) = Ok reports /\
       (fun r => (tr_channel r, tr_program r)) <$> reports = test_channels notify /\
       forall i r task, reports !! i = Some r -> ts_tasks t !! i = Some task ->
         (tr_outcome r = Test_Succeeded <-> exists o, sl_report (tk_slot task) = Some (Ok o) /\ End_success (oc_end o) = true) /\
         (tr_outcome r = Test_NotStarted <-> sl_started (tk_slot task) = false /\ sl_report (tk_slot task) = None)).
Proof.
  intros Ht. destruct (tested_invariant _ _ _ _ Ht) as [[H1 H1'] H2 H3 H4 H5]. split_and!; try done.
  - rewrite H2. by destruct (decide _).
  - intros i task s Hi Hc. rewrite Forall_lookup in H3. destruct (H3 i task Hi) as [_ H]. by rewrite Hc in H.
  - intros Ho. unfold testing_step. rewrite Ho. eauto.
  - intros Ho. destruct (all_ended_unused _ (H5 Ho)) as [E1 E2]. split_and!; [done| |].
    + intros E. rewrite E2, decide_True in H2 by done. done.
    + assert (Er : test_run notify false (tk_slot <$> ts_tasks t) = Ok (zip_with slot_report (test_channels notify) (tk_slot <$> ts_tasks t)))
        by (unfold test_run; by destruct (nt_email notify)).
      exists (zip_with slot_report (test_channels notify) (tk_slot <$> ts_tasks t)). split; [done|].
      destruct (test_run_reports notify false _ _ Er ltac:(by rewrite length_fmap)) as [Hn Hr]. split; [done|].
      intros i r task Hi Hk. assert (Hs : (tk_slot <$> ts_tasks t) !! i = Some (tk_slot task)) by (by rewrite list_lookup_fmap, Hk).
      split; [by apply (Hr i r)|]. apply lookup_zip_with_Some in Hi as (c & sl & -> & _ & Hsl). assert (sl = tk_slot task) as -> by congruence.
      apply not_started.
Qed.
End testing.

(** Email and two hooks, while the notifiers have the turn and three slots:
    one hook runs and succeeds, the other one has not ended when the budget
    is over, and email never gets the turn. *)
Module NotifyTestSample.
Definition notify : Notify :=
  mkNotify (from_secs 30) (Some MailTextSample.email) [HooksSample.hook; HooksSample.hook] (lit "nobody").
Definition accounts (_ : str) : result (option User) ErrorKind := Ok (Some (mkUser 65534 65534)).
Definition start : Testing :=
  mkTesting (test_tasks (fun _ => []) (fun _ => None) (fun _ => []) accounts notify (test_event (lit "c0ffee") 0)) Turn_Notifier false 3 false.
Definition inputs : list TestingInput :=
  [Te_Go 1; Te_End 1 (Ok (mkRunOutcome (End_Exited 0) Captured_default Captured_default)); Te_Go 2; Te_Budget].
Definition outcomes (t : Testing) : list TestOutcome :=
  match test_run notify false (tk_slot <$> ts_tasks t) with Ok r => tr_outcome <$> r | Err _ => [] end.
Fixpoint run (t : Testing) (l : list TestingInput) : option Testing :=
  match l with [] => Some t | i :: l => t' ← testing_step t i; run t' l end.
Lemma run_tested l t t' : tested (fun _ => []) (fun _ => None) (fun _ => []) accounts notify (test_event (lit "c0ffee") 0) t -> run t l = Some t' ->
  tested (fun _ => []) (fun _ => None) (fun _ => []) accounts notify (test_event (lit "c0ffee") 0) t'.
Proof.
  revert t. induction l as [|i l IH]; intros t Ht; cbn; [by intros [= <-]|]. destruct (testing_step t i) as [t1|] eqn:E; [|done].
  apply IH. by eapply tested_step.
Qed.
End NotifyTestSample.

Lemma notification_test_sound_witness : exists t reports, NotifyTestSample.run NotifyTestSample.start NotifyTestSample.inputs = Some t /\
  test_run NotifyTestSample.notify false (tk_slot <$> ts_tasks t) = Ok reports /\
  tr_outcome <$> reports = [Test_NotStarted; Test_Succeeded; Test_TimedOut] /\ test_slots (ts_tasks t) = 0.
Proof.
  destruct (NotifyTestSample.run NotifyTestSample.start NotifyTestSample.inputs) as [t|] eqn:E; [|by vm_compute in E].
  assert (Eo : ts_over <$> NotifyTestSample.run NotifyTestSample.start NotifyTestSample.inputs = Some true) by by vm_compute.
  assert (Er : NotifyTestSample.outcomes <$> NotifyTestSample.run NotifyTestSample.start NotifyTestSample.inputs = Some [Test_NotStarted; Test_Succeeded; Test_TimedOut]) by by vm_compute.
  rewrite E in Eo, Er. injection Eo as Eo. apply Some_inj in Er. exists t.
  assert (Hs : tested (fun _ => []) (fun _ => None) (fun _ => []) NotifyTestSample.accounts NotifyTestSample.notify (test_event (lit "c0ffee") 0) NotifyTestSample.start)
    by (apply tested_start; [done|vm_compute; split; discriminate]).
  destruct (notification_test_sound (fun _ => []) (fun _ => None) (fun _ => []) _ _ _ t (NotifyTestSample.run_tested _ _ _ Hs E)) as (_ & _ & _ & H).
  destruct (H Eo) as (H1 & _ & reports & H2 & _). exists reports. unfold NotifyTestSample.outcomes in Er. rewrite H2 in Er. done.
Defined.
