(* ===== verification/Cleanup.v ===== *)
(** * Cleanup, and Router Advertisements

    Models crates/polywan/src/cleanup.rs: the removal of every artifact of
    the installed and of the configured layout in the reverse order of
    installation, the settings and the manifest last; [StateDir::reset] of
    crates/polywan/src/state.rs; and crates/polywan/src/ra.rs, which reports
    the interfaces that received Router Advertisements.  nft, the kernel,
    /proc/sys and the files are interfaces. *)

From stdpp Require Import prelude gmap sorting.
From Stdlib Require Import ZArith Lia.
From S2P Require Import Prelude Text Model Durations Config Plan Msg Netlink System Reconcile Observer StateFiles Sysctl Nft.
From S2P Require Import Probe.

Local Open Scope Z_scope.
Local Open Scope polywan_scope.

(** ** Cleanup *)

Definition MANIFEST : str := lit "manifest.json".
Definition DRAIN : str := lit "drain.json".
Definition CHECKPOINT : str := lit "health.json".

Inductive CleanupError :=
  | Cleanup_Manifest (e : StateError)
  | Cleanup_Nft (e : str)
  | Cleanup_Socket (e : str)
  | Cleanup_Dump (e : KernelError)
  | Cleanup_Op (f : Failure)
  | Cleanup_Sysctls (failed : list (str * ErrorKind))
  | Cleanup_File (name : str) (e : ErrorKind).

(** What cleanup uses of the world besides /proc/sys and dumps: the manifest
    it reads, nft, netlink mutations and the removal of a state file. *)
Class CleanupWorld (W : Type) := {
  read_manifest : W -> result (option Manifest) StateError;
  nft_apply : PathBuf -> str -> W -> result unit str * W;
  kernel_mutate : W -> RouteNetlinkMessage -> Mutation -> W * option KernelError;
  remove_file : str -> W -> result unit ErrorKind * W
}.
#[global] Hint Mode CleanupWorld ! : typeclass_instances.

Section cleanup.
Context {W D : Type} `{Clock W, Dumper D W, ProcSys W, CleanupWorld W}.

(** A missing file is no error. *)
Definition remove_existing (name : str) (w : W) : result unit CleanupError * W :=
  match remove_file name w with
  | (Err NotFound, w) | (Ok _, w) => (Ok tt, w)
  | (Err e, w) => (Err (Cleanup_File name e), w)
  end.

Definition StateDir_reset (w : W) : result unit CleanupError * W :=
  match remove_existing DRAIN w with
  | (Ok _, w) => remove_existing CHECKPOINT w
  | r => r
  end.

Definition installed_layout (m : Manifest) : Layout * u8 :=
  (mkLayout (rst_table_base (mf_structure m)) (rst_rule_priority_base (mf_structure m))
     (default FwMask_DEFAULT (RecordedStructure_mask (mf_structure m))),
   rst_route_protocol (mf_structure m)).

Definition cleanup_layouts (cfg : Config) (m : option Manifest) : list (Layout * u8) :=
  match m with Some m => [installed_layout m] | None => [] end ++ [(Layout_of cfg, rt_route_protocol (cf_routing cfg))].

Definition cleanup_managed (cfg : Config) (m : option Manifest) : bool :=
  bool_decide (fw_mode (cf_firewall cfg) = Managed) ||
  match m with Some m => bool_decide (rst_firewall_mode (mf_structure m) = Mode_Managed) | None => false end.

(** The settings that could not be restored. *)
Definition restore_failures (log : list (str * result unit ErrorKind)) : list (str * ErrorKind) :=
  omap (fun x => match snd x with Err e => Some (fst x, e) | Ok _ => None end) log.

(** [client]: [Client::new], made once the table is gone.  The steps of the
    test hooks do nothing in release builds. *)
Definition cleanup_run (cfg : Config) (client : result D str) (w : W) : result unit CleanupError * W :=
  match read_manifest w with
  | Err e => (Err (Cleanup_Manifest e), w)
  | Ok manifest =>
      let layouts := cleanup_layouts cfg manifest in
      let '(removed, w) :=
        if cleanup_managed cfg manifest then nft_apply (fw_nft_path (cf_firewall cfg)) Nft.removal w else (Ok tt, w) in
      match removed with
      | Err e => (Err (Cleanup_Nft e), w)
      | Ok _ =>
          let scope := mkScope ((fun l => tables (fst l)) <$> layouts) [] in
          match client with
          | Err e => (Err (Cleanup_Socket e), w)
          | Ok client =>
          match full client scope w with
          | (Err e, w) => (Err (Cleanup_Dump e), w)
          | (Ok view, w) =>
              let '(now, w) := clock_now w in
              match execute kernel_mutate scope (rt_route_protocol (cf_routing cfg)) now w (vw_system view)
                      (teardown (vw_system view) layouts) with
              | (w, _, Err f) => (Err (Cleanup_Op f), w)
              | (w, _, Ok _) =>
                  let '(failed, w) :=
                    match manifest with
                    | Some m => let '(log, w) := restore m (fun _ => true) w in (restore_failures log, w)
                    | None => ([], w)
                    end in
                  match failed with
                  | _ :: _ => (Err (Cleanup_Sysctls failed), w)
                  | [] =>
                      match StateDir_reset w with
                      | (Err e, w) => (Err e, w)
                      | (Ok _, w) => remove_existing MANIFEST w
                      end
                  end
              end
          end
          end
      end
  end.
End cleanup.

(** ** What the interfaces promise *)

(** The manifest and the settings stay as they are. *)
Definition same_state {W} `{ProcSys W, CleanupWorld W} (w w' : W) : Prop :=
  read_manifest w' = read_manifest w /\ forall k, proc_read k w' = proc_read k w.

Class CleanupLaws (W D : Type) `{Clock W, Dumper D W, ProcSys W, CleanupWorld W} := {
  clock_same : forall w : W, same_state w (snd (clock_now w));
  dump_same : forall (d : D) f (w : W), same_state w (snd (dumper_dump d f w));
  fresh_same : forall (d : D) (w : W), same_state w (snd (dumper_fresh d w));
  nft_same : forall p t (w : W), same_state w (snd (nft_apply p t w));
  mutate_same : forall (w : W) m k, same_state w (fst (kernel_mutate w m k));
  proc_write_manifest : forall k v (w : W), read_manifest (snd (proc_write k v w)) = read_manifest w;
  remove_other : forall n (w : W), n <> MANIFEST -> same_state w (snd (remove_file n w));
  remove_settings : forall n (w : W) k, proc_read k (snd (remove_file n w)) = proc_read k w;
  remove_failed : forall (w : W) e, fst (remove_file MANIFEST w) = Err e -> e <> NotFound ->
    read_manifest (snd (remove_file MANIFEST w)) = read_manifest w;
  remove_manifest : forall w : W, fst (remove_file MANIFEST w) = Ok tt \/ fst (remove_file MANIFEST w) = Err NotFound ->
    read_manifest (snd (remove_file MANIFEST w)) = Ok None
}.
#[global] Hint Mode CleanupLaws ! - - - - - : typeclass_instances.

Section laws.
Context {W D : Type} `{CleanupLaws W D, !ProcSysLaws W}.

#[global] Instance same_state_preorder : PreOrder (@same_state W _ _).
Proof.
  split; [done|]. intros a b c [S1 S2] [S3 S4]. split; [by rewrite S3|]. intros k. by rewrite S4.
Qed.

(** Computations of the observer keep the state. *)
Definition io_same {A} (m : io W A) : Prop := forall w, same_state w (snd (m w)).

Lemma io_same_bind {A B} (m : io W A) (k : A -> io W B) : io_same m -> (forall a, io_same (k a)) -> io_same (io_bind m k).
Proof.
  intros Hm Hk w. unfold io_bind. specialize (Hm w). destruct (m w) as [[a|e] w1]; [|done].
  etrans; [exact Hm|apply Hk].
Qed.

Lemma bounded_same (d : D) f : io_same (bounded d f).
Proof.
  assert (Hf : forall n (d : D), io_same (bounded_fresh n d f)).
  { induction n as [|n IH]; intros d' w; cbn [bounded_fresh]; [done|].
    pose proof (fresh_same d' w) as S1. destruct (dumper_fresh d' w) as [[d1|e] w1]; [|done].
    pose proof (dump_same d1 f w1) as S2. destruct (dumper_dump d1 f w1) as [[r|] w2]; (etrans; [exact S1|]); [done|].
    etrans; [exact S2|apply IH]. }
  intros w. unfold bounded. pose proof (dump_same d f w) as S1. destruct (dumper_dump d f w) as [[r|] w1]; [done|].
  etrans; [exact S1|apply Hf].
Qed.

Lemma dump_io_same (d : D) f : io_same (dump d f).
Proof.
  apply io_same_bind; [apply bounded_same|]. generalize INTERRUPTED_RETRIES. intros n.
  induction n as [|n IH]; intros last; cbn [dump_retry]; [by intros w|]. destruct (negb _); [by intros w|].
  apply io_same_bind; [apply bounded_same|apply IH].
Qed.

Lemma full_same (d : D) scope : io_same (full d scope).
Proof.
  unfold full. generalize full_filters (mkView System_default false). intros l.
  induction l as [|f l IH]; intros v; [by intros w|]. apply io_same_bind; [apply dump_io_same|]. intros dp.
  apply io_same_bind; [|intros; apply IH]. generalize (vw_system v). induction (dp_messages dp) as [|m ms IHm]; intros sys w; [done|].
  cbn [apply_messages]. pose proof (clock_same w) as Hc. destruct (clock_now w) as [now w1]. etrans; [exact Hc|apply IHm].
Qed.

Lemma execute_same scope protocol now ops : forall (w : W) sys,
  same_state w (fst (fst (execute kernel_mutate scope protocol now w sys ops))).
Proof.
  induction ops as [|op ops IH]; intros w sys; cbn [execute]; [done|].
  destruct (netlink_op op protocol) as [[[m kind] tol]|]; [|done]. unfold execute_op.
  pose proof (mutate_same w m kind) as Hm. destruct (kernel_mutate w m kind) as [w1 [e|]]; cbn [fst] in Hm.
  - destruct (existsb _ _); [etrans; [exact Hm|apply IH]|done].
  - etrans; [exact Hm|apply IH].
Qed.

Lemma restore_manifest m keys entries : forall w : W, read_manifest (snd (restore_loop m keys entries w)) = read_manifest w.
Proof.
  induction entries as [|[k s] entries IH]; intros w; cbn [restore_loop]; [done|].
  destruct (negb (keys k)); [apply IH|]. destruct (mf_sysctl_baseline m !! k) as [b|]; [|apply IH].
  destruct (sysctl_read k w) as [cur|e].
  - destruct (_ && _); [|apply IH]. destruct (sysctl_write k b w) as [r w1] eqn:E.
    specialize (IH w1). destruct (restore_loop m keys entries w1) as [v w2]. cbn [snd] in *. rewrite IH.
    unfold sysctl_write in E. destruct (valid_key k); [|by injection E as _ <-].
    pose proof (proc_write_manifest k b w) as Hw. by rewrite E in Hw.
  - case_bool_decide; [apply IH|]. specialize (IH w). destruct (restore_loop m keys entries w) as [v w2]. exact IH.
Qed.

Lemma remove_existing_other n (w : W) : n <> MANIFEST -> same_state w (snd (remove_existing n w)).
Proof.
  intros Hn. pose proof (remove_other n w Hn) as Hr. unfold remove_existing.
  by destruct (remove_file n w) as [[u|[|c]] w1].
Qed.

Lemma reset_same (w : W) : same_state w (snd (StateDir_reset w)).
Proof.
  unfold StateDir_reset. pose proof (remove_existing_other DRAIN w ltac:(done)) as S1.
  destruct (remove_existing DRAIN w) as [[u|e] w1]; [|done]. etrans; [exact S1|]. by apply remove_existing_other.
Qed.

Lemma same_sysctl (w w' : W) k : same_state w w' -> sysctl_read k w' = sysctl_read k w.
Proof. intros [_ Hp]. unfold sysctl_read. by rewrite Hp. Qed.

Lemma restore_failures_nil log : restore_failures log = [] -> Forall (fun e => snd e = Ok tt) log.
Proof.
  unfold restore_failures. induction log as [|[k [[]|e]] log IH]; cbn; intros E; [done| |done]. constructor; [done|]. by apply IH.
Qed.

(** The settings after the last step that can leave some of them. *)
Lemma restored_spec (m : option Manifest) (w w4 : W) failed w5 : read_manifest w = Ok m -> same_state w w4 ->
  match m with
  | Some m => let '(log, w) := restore m (fun _ => true) w4 in (restore_failures log, w)
  | None => ([], w4)
  end = (failed, w5) ->
  read_manifest w5 = Ok m /\
  (failed = [] -> forall m' (w0 : W), m = Some m' -> tracks wanted_value w0 m' w ->
     forall k, unaffected W k -> sysctl_read k w5 = sysctl_read k w0).
Proof.
  intros Em S4. destruct m as [m|]; [|intros [= <- <-]; split; [by rewrite (proj1 S4)|done]].
  pose proof (restore_manifest m (fun _ => true) (btree_iter (mf_sysctl_set m)) w4) as Hm. fold (restore m (fun _ => true) w4) in Hm.
  destruct (restore m (fun _ => true) w4) as [log w6] eqn:Er. cbn [snd] in Hm. intros [= <- <-].
  split; [by rewrite Hm, (proj1 S4)|]. intros Hf%restore_failures_nil m' w0 [= <-] Ht.
  eapply (restore_spec wanted_value wanted_value_trim w0 m w4 log w6); [|done|done].
  eapply tracks_reads; [|exact Ht]. intros k. by apply same_sysctl.
Qed.

(** The firewall is managed by the configuration or was by the manifest's. *)
Definition firewall_managed (cfg : Config) (m : option Manifest) : Prop :=
  fw_mode (cf_firewall cfg) = Managed \/
  exists m', m = Some m' /\ rst_firewall_mode (mf_structure m') = Mode_Managed.

Lemma managed_removal (cfg : Config) (m : option Manifest) (w w1 : W) :
  (Ok tt, w1) = (if cleanup_managed cfg m then nft_apply (fw_nft_path (cf_firewall cfg)) Nft.removal w else (Ok tt, w)) ->
  firewall_managed cfg m -> nft_apply (fw_nft_path (cf_firewall cfg)) Nft.removal w = (Ok tt, w1).
Proof.
  intros E Hm. assert (Hc : cleanup_managed cfg m = true); [|by rewrite Hc in E].
  unfold cleanup_managed. apply orb_true_iff. rewrite bool_decide_eq_true.
  destruct Hm as [|(m' & -> & Hm)]; [by left|right]. by apply bool_decide_eq_true.
Qed.

(** C19: The manifest is the last thing that cleanup removes: whatever
    fails, it is still there as it was, so that cleanup can run again.
    When cleanup succeeds: nft accepted the removal of PolyWAN's table,
    first of all, if the configuration or the manifest has the firewall
    managed; then the teardown of both layouts over a full dump of the kernel
    was executed to its end; every setting that the manifest accounts for,
    and every other one that the kernel does not change along with these, is
    back at the value it had before PolyWAN changed it; and the manifest is
    gone. *)
Theorem cleanup_manifest_last (cfg : Config) (client : result D str) (w w' : W) (r : result unit CleanupError) :
  cleanup_run cfg client w = (r, w') ->
  (forall e, r = Err e -> read_manifest w' = read_manifest w) /\
  (r = Ok tt -> exists m, read_manifest w = Ok m /\ read_manifest w' = Ok None /\
     (exists socket view (wa wb wc wd : W) now sys b, client = Ok socket /\
        (firewall_managed cfg m -> nft_apply (fw_nft_path (cf_firewall cfg)) Nft.removal w = (Ok tt, wa)) /\
        full socket (mkScope ((fun l => tables (fst l)) <$> cleanup_layouts cfg m) []) wa = (Ok view, wb) /\
        clock_now wb = (now, wc) /\
        execute kernel_mutate (mkScope ((fun l => tables (fst l)) <$> cleanup_layouts cfg m) [])
          (rt_route_protocol (cf_routing cfg)) now wc (vw_system view)
          (teardown (vw_system view) (cleanup_layouts cfg m)) = (wd, sys, Ok b)) /\
     forall m' (w0 : W), m = Some m' -> tracks wanted_value w0 m' w ->
     forall k, unaffected W k -> sysctl_read k w' = sysctl_read k w0).
Proof.
  unfold cleanup_run. destruct (read_manifest w) as [m|e] eqn:Em; [|by intros [= <- <-]].
  set (scope := mkScope _ _). set (nft := if cleanup_managed cfg m then _ else _).
  assert (Sn : same_state w (snd nft)) by (unfold nft; destruct (cleanup_managed cfg m); [apply nft_same|done]).
  assert (Hnft : nft = if cleanup_managed cfg m then nft_apply (fw_nft_path (cf_firewall cfg)) Nft.removal w else (Ok tt, w)) by done.
  clearbody nft. destruct nft as [[[]|e] w1]; cbn [snd] in Sn; [|intros [= <- <-]; split; [intros _ _; by rewrite (proj1 Sn)|done]].
  destruct client as [client|e]; [|intros [= <- <-]; split; [intros _ _; by rewrite (proj1 Sn)|done]].
  pose proof (full_same client scope w1) as Sf. destruct (full client scope w1) as [[view|e] w2] eqn:Ef; cbn [snd] in Sf;
    [|intros [= <- <-]; split; [intros _ _; by rewrite (proj1 Sf), (proj1 Sn)|done]].
  pose proof (clock_same w2) as Sc. destruct (clock_now w2) as [now w3] eqn:Ec. cbn [snd] in Sc.
  pose proof (execute_same scope (rt_route_protocol (cf_routing cfg)) now (teardown (vw_system view) (cleanup_layouts cfg m)) w3
    (vw_system view)) as Se.
  destruct (execute _ _ _ _ _ _ _) as [[w4 sys] [b|f]] eqn:Ee; cbn [fst] in Se;
    assert (S4 : same_state w w4) by (by rewrite Sn, Sf, Sc, Se);
    [|intros [= <- <-]; split; [intros _ _; by rewrite (proj1 S4)|done]].
  destruct (match m with Some m => _ | None => _ end) as [failed w5] eqn:Er.
  destruct (restored_spec m w w4 failed w5 Em S4 Er) as [Sr Hset].
  destruct failed as [|x failed]; [|intros [= <- <-]; split; [intros _ _; done|done]].
  pose proof (reset_same w5) as Sreset. destruct (StateDir_reset w5) as [[[]|e] w6]; cbn [snd] in Sreset;
    [|intros [= <- <-]; split; [intros _ _; by rewrite (proj1 Sreset)|done]].
  unfold remove_existing. pose proof (remove_failed w6) as Hfail. pose proof (remove_manifest w6) as Hgone.
  pose proof (remove_settings MANIFEST w6) as Hkeep.
  destruct (remove_file MANIFEST w6) as [[[]|[|c]] w7]; cbn [fst snd] in *; intros [= <- <-].
  3: { split; [|done]. intros _ _. by rewrite (Hfail (OtherError c)), (proj1 Sreset). }
  all: split; [done|]; intros _; exists m; split_and!; [done|by apply Hgone; eauto| |].
  all: try (exists client, view, w1, w2, w3, w4, now, sys, b; split_and!; [done|by apply managed_removal|done..]).
  all: intros m' w0 Hm Ht k Hu; rewrite <- (Hset eq_refl m' w0 Hm Ht k Hu), <- (same_sysctl w5 w6 k) by done.
  all: unfold sysctl_read; by rewrite Hkeep.
Qed.
End laws.

(** ** A host without rules or routes of PolyWAN, with one setting changed *)
Module CleanupSample.
Record World := mkWorld { files : gmap str str; manifest : option Manifest }.
#[global] Instance World_ProcSys : ProcSys World := {|
  proc_read := fun k w => match files w !! k with Some s => Ok s | None => Err NotFound end;
  proc_write := fun k v w =>
    match files w !! k with
    | Some _ => (Ok tt, mkWorld (spread_write k v (files w)) (manifest w))
    | None => (Err NotFound, w)
    end
|}.
#[global] Instance World_ProcSysLaws : ProcSysLaws World.
Proof.
  apply (Build_ProcSysLaws World _ (fun k k' => spreads k k' = true)).
  - intros k v w w'. simpl. destruct (files w !! k); intros [= <-] Hv. exists v. simpl. by rewrite spread_write_same.
  - intros k v w w' r k'. simpl. destruct (files w !! k); intros [= _ <-] _ _ Hne Hs; [|done]. simpl.
    rewrite spread_write_other; [done..|]. by apply not_true_iff_false.
  - intros k v w w' e k'. simpl. by destruct (files w !! k); intros [= _ <-].
  - intros k k' Hk Hk' Hne. simpl. apply not_true_iff_false. by apply spreads_managed.
Defined.
#[global] Instance World_Clock : Clock World := {| clock_now := fun w => (0, w) |}.
#[global] Instance World_Dumper : Dumper unit World := {|
  dumper_dump := fun _ _ w => (Some (Ok (mkDump [] false)), w);
  dumper_fresh := fun _ w => (Ok tt, w)
|}.
#[global] Instance World_Cleanup : CleanupWorld World := {|
  read_manifest := fun w => Ok (manifest w);
  nft_apply := fun _ _ w => (Ok tt, w);
  kernel_mutate := fun w _ _ => (w, None);
  remove_file := fun n w =>
    if bool_decide (n = MANIFEST) then
      match manifest w with Some _ => (Ok tt, mkWorld (files w) None) | None => (Err NotFound, w) end
    else (Err NotFound, w)
|}.
#[global] Instance World_CleanupLaws : CleanupLaws World unit.
Proof.
  split; try done.
  - intros k v w. cbn. by destruct (files w !! k).
  - intros n w Hn. cbn. by rewrite bool_decide_eq_false_2.
  - intros n w k. cbn. case_bool_decide; [|done]. by destruct (manifest w).
  - intros w e. cbn. destruct (manifest w); [done|]. by intros [= <-].
  - intros [fs [m|]]; done.
Qed.

Definition key : str := lit "net/ipv4/ip_forward".
Definition before : World := mkWorld {[ key := lit "0" ]} None.
Definition recorded : Manifest :=
  set_sysctls (Manifest_new Sample.config) {[ key := lit "0" ]} {[ key := lit "1" ]}.
Definition after : World := mkWorld {[ key := lit "1" ]} (Some recorded).

(** The manifest that was read. *)
Definition known (r : result (option Manifest) StateError) : option Manifest := match r with Ok m => m | Err _ => None end.

Lemma key_managed : managed_key key.
Proof.
  split; [by vm_compute|]. exists (global key (lit "1") V4). split; [|done]. split; [|done].
  exists Sample.config. apply list_elem_of_lookup. by exists 0%nat.
Qed.

Lemma tracked : tracks wanted_value before recorded after.
Proof.
  split.
  { intros k. cbn [recorded set_sysctls mf_sysctl_set]. intros [v Hv]. apply lookup_singleton_Some in Hv as [<- _].
    apply key_managed. }
  intros k _. unfold tracks_key. cbn [recorded set_sysctls mf_sysctl_set mf_sysctl_baseline].
  destruct (decide (k = key)) as [->|Hk].
  - rewrite lookup_singleton_eq. split; [by vm_compute|]. exists (lit "0"). rewrite lookup_singleton_eq.
    split_and!; try (by vm_compute). left. by vm_compute.
  - rewrite !lookup_singleton_ne by done. split; [done|]. unfold sysctl_read, proc_read, World_ProcSys.
    cbn [files after before]. by rewrite !lookup_singleton_ne.
Qed.
End CleanupSample.

Lemma cleanup_manifest_last_witness :
  let w := snd (cleanup_run Sample.config (Ok tt) CleanupSample.after) in
  CleanupSample.manifest w = None /\ sysctl_read CleanupSample.key w = Ok (lit "0").
Proof.
  destruct (cleanup_manifest_last Sample.config (Ok tt) CleanupSample.after _ _
    (surjective_pairing (cleanup_run Sample.config (Ok tt) CleanupSample.after))) as [_ H].
  destruct H as (m & Em & Hnone & _ & Hset); [by vm_compute|]. split.
  - exact (f_equal CleanupSample.known Hnone).
  - rewrite (Hset CleanupSample.recorded CleanupSample.before); [by vm_compute| |exact CleanupSample.tracked|].
    + exact (eq_sym (f_equal CleanupSample.known Em)).
    + apply managed_unaffected, CleanupSample.key_managed.
Defined.

(** ** Router Advertisements *)

Definition ROUTER_ADVERTISEMENT : u8 := 134.
Definition HEADER_LEN : usize := 16.
Definition WINDOW : Duration := 100 * NANOS_PER_MILLI.

(** [from]: the scope of an IPv6 source address, [None] for another family. *)
Definition advertisement (packet : list u8) (from : option u32) : option u32 :=
  match from with
  | Some scope_id =>
      if (Z.of_nat (length packet) =? HEADER_LEN) && (nth 0 packet 0 =? ROUTER_ADVERTISEMENT) && (nth 1 packet 0 =? 0) &&
         negb (scope_id =? 0) then Some scope_id else None
  | None => None
  end.

(** The state of [listen]: the interfaces to report, and when. *)
Record Listen := mkListen { ls_pending : list u32; ls_due : option Instant }.
Definition Listen_new : Listen := mkListen [] None.

(** [BTreeSet::insert]. *)
Fixpoint set_insert (x : u32) (l : list u32) : list u32 :=
  match l with
  | [] => [x]
  | y :: l => if x <? y then x :: y :: l else if x =? y then y :: l else y :: set_insert x l
  end.

Definition listen_packet (l : Listen) (now : Instant) (packet : list u8) (from : option u32) : Listen :=
  match advertisement packet from with
  | Some i => mkListen (set_insert i (ls_pending l)) (Some (default (now + WINDOW) (ls_due l)))
  | None => l
  end.

(** The window is over: what is reported. *)
Definition listen_due (l : Listen) : list u32 * Listen := (ls_pending l, Listen_new).

Inductive ListenInput := Listen_Packet (now : Instant) (packet : list u8) (from : option u32) | Listen_Due (now : Instant).

Definition listen_ready (l : Listen) (i : ListenInput) : bool :=
  match i with
  | Listen_Packet _ _ _ => true
  | Listen_Due now => match ls_due l with Some due => due <=? now | None => false end
  end.

Definition listen_step (l : Listen) (i : ListenInput) : Listen :=
  match i with
  | Listen_Packet now packet from => listen_packet l now packet from
  | Listen_Due _ => snd (listen_due l)
  end.

(** What happened, in order: an advertisement was received on an interface,
    an interface was reported. *)
Inductive Advertised := Saw (t : Instant) (i : u32) | Told (t : Instant) (i : u32).
Definition on_interface (a : Advertised) : u32 := match a with Saw _ i | Told _ i => i end.

Definition listen_trace (l : Listen) (i : ListenInput) : list Advertised :=
  match i with
  | Listen_Packet now packet from => match advertisement packet from with Some x => [Saw now x] | None => [] end
  | Listen_Due now => Told now <$> fst (listen_due l)
  end.

Inductive listens : Listen -> list Advertised -> Prop :=
  | listens_start : listens Listen_new []
  | listens_step l trace i : listens l trace -> listen_ready l i = true ->
      listens (listen_step l i) (trace ++ listen_trace l i).

(** The latest event of an interface. *)
Definition latest (i : u32) (trace : list Advertised) : option Advertised :=
  last (List.filter (fun a => on_interface a =? i) trace).

Lemma set_insert_elem_of x y l : y ∈ set_insert x l <-> y = x \/ y ∈ l.
Proof.
  induction l as [|z l IH]; cbn [set_insert]; [set_solver|]. destruct (Z.ltb_spec x z); [set_solver|].
  destruct (Z.eqb_spec x z) as [->|]; [set_solver|]. rewrite !elem_of_cons, IH. tauto.
Qed.

Lemma set_insert_NoDup x l : StronglySorted Z.lt l -> StronglySorted Z.lt (set_insert x l).
Proof.
  induction 1 as [|z l Hs IH Hz]; cbn [set_insert]; [repeat constructor|].
  destruct (Z.ltb_spec x z).
  - constructor; [by constructor|]. constructor; [done|]. eapply Forall_impl; [exact Hz|]. intros y ?. simpl in *. lia.
  - destruct (Z.eqb_spec x z); [by constructor|]. constructor; [done|]. apply Forall_forall. intros y Hy.
    apply set_insert_elem_of in Hy as [->|Hy]; [lia|]. rewrite Forall_forall in Hz. by apply Hz.
Qed.

Lemma latest_snoc i trace a : latest i (trace ++ [a]) = if on_interface a =? i then Some a else latest i trace.
Proof.
  unfold latest. rewrite List.filter_app. cbn [List.filter]. destruct (on_interface a =? i); [apply last_snoc|by rewrite app_nil_r].
Qed.

Lemma latest_told i trace now l : latest i (trace ++ (Told now <$> l)) = if bool_decide (i ∈ l) then Some (Told now i) else latest i trace.
Proof.
  induction l as [|x l IH] using rev_ind; [by rewrite app_nil_r, bool_decide_eq_false_2 by apply not_elem_of_nil|].
  rewrite fmap_app, app_assoc. cbn [fmap list_fmap]. rewrite latest_snoc, IH. cbn [on_interface].
  destruct (Z.eqb_spec x i) as [->|Hne].
  - rewrite bool_decide_eq_true_2; [done|]. set_solver.
  - repeat case_bool_decide; set_solver.
Qed.

(** Every advertisement is reported, and nothing else: in every run of the
    listener, an interface is pending exactly when its latest event is an
    advertisement, so that a report of the interface follows each one; the
    pending interfaces are distinct, and while there are some, a report is
    due 100 ms after an advertisement that was received. *)
Theorem advertisements_reported (l : Listen) (trace : list Advertised) : listens l trace ->
  (forall i, i ∈ ls_pending l <-> exists t, latest i trace = Some (Saw t i)) /\
  StronglySorted Z.lt (ls_pending l) /\
  (ls_pending l <> [] <-> is_Some (ls_due l)) /\
  (forall due, ls_due l = Some due -> exists t i, Saw t i ∈ trace /\ due = t + WINDOW).
Proof.
  induction 1 as [|l trace [now packet from|now] _ (I1 & I2 & I3 & I4) Hr]; cbn [listen_step listen_trace].
  - split_and!; [intros i; split; [by intros ?%not_elem_of_nil|by intros [? [=]]]|constructor|by split; [|intros []]|done].
  - unfold listen_packet. destruct (advertisement packet from) as [x|]; [|by rewrite app_nil_r].
    cbn [ls_pending ls_due]. split_and!.
    + intros i. rewrite set_insert_elem_of, latest_snoc, I1. cbn [on_interface]. destruct (Z.eqb_spec x i) as [->|Hne].
      * split; [eauto|by left].
      * split; [intros [->|?]; done|by right].
    + by apply set_insert_NoDup.
    + split; [eauto|]. intros _ E. apply (not_elem_of_nil x). rewrite <- E. apply set_insert_elem_of. by left.
    + intros due [= <-]. destruct (ls_due l) as [d|]; cbn.
      * destruct (I4 d eq_refl) as (t & i & Ht & ->). exists t, i. set_solver.
      * exists now, x. set_solver.
  - cbn [listen_due fst snd Listen_new ls_pending ls_due]. split_and!; [|constructor|by split; [|intros []]|done].
    intros i. split; [by intros ?%not_elem_of_nil|]. intros [t E]. rewrite latest_told in E. case_bool_decide as Hi; [done|].
    exfalso. apply Hi, I1. by exists t.
Qed.

Lemma advertisements_reported_witness : exists l trace, listens l trace /\ 7 ∈ ls_pending l /\ latest 7 trace = Some (Saw 5 7).
Proof.
  set (ra := 134 :: 0 :: replicate 14 0).
  assert (H : listens (listen_step Listen_new (Listen_Packet 5 ra (Some 7))) ([] ++ listen_trace Listen_new (Listen_Packet 5 ra (Some 7)))).
  { apply listens_step; [apply listens_start|reflexivity]. }
  exists (listen_step Listen_new (Listen_Packet 5 ra (Some 7))), ([] ++ listen_trace Listen_new (Listen_Packet 5 ra (Some 7))).
  split; [exact H|]. split; [|vm_compute; reflexivity].
  apply (advertisements_reported _ _ H). exists 5. vm_compute. reflexivity.
Defined.
