(* ===== verification/DaemonState.v ===== *)
(** * The State task: its state and its effects

    Models the data of crates/polywan/src/daemon.rs.  One task owns all of
    it and runs one handler at a time, so a handler is a function on the
    state: [M], a state monad over the daemon and the world outside it (the
    clocks, the kernel, the clients that may have gone).  What the task hands
    to others (answers, probers, work of the I/O runtime, events) is appended
    to [d_out] in order; the queues of the two lanes are part of the state.
    A failed [expect] sets [d_panicked].  A log line has no effect on the
    state and is not modelled. *)

From stdpp Require Import prelude gmap sorting.
From Stdlib Require Import ZArith Lia.
From S2P Require Import Prelude Text Model Health QualityGates Probe Select Durations Config Plan Msg Netlink System.
From S2P Require Import Reconcile Discover Observer Events StateFiles Sysctl Nft Status Checks ApiServer Worker.

Local Open Scope Z_scope.

(** ** Record updates *)

(** [update proj f r] is [r] with the field [proj] changed by [f]: the
    setters are found by replacing the projection in the record's
    expansion. *)
Class Expansion (R : Type) := expansion : R -> R.
Class Update {R T : Type} (proj : R -> T) := update : (T -> T) -> R -> R.
Arguments update {R T} proj {_} f r.

Ltac solve_update :=
  lazymatch goal with
  | |- @Update ?R ?T ?proj =>
      let e := constr:(ltac:(let x := eval hnf in (@expansion R _) in exact x) : R -> R) in
      let e := eval cbv beta in e in
      let p := eval pattern proj in e in
      lazymatch p with ?g _ => exact (fun f => g (fun r => f (proj r))) end
  end.
#[export] Hint Extern 1 (Update _) => solve_update : typeclass_instances.

Notation "r <| proj := v |>" := (update proj (fun _ => v) r)
  (at level 1, left associativity, format "r  <| proj  :=  v |>") : polywan_scope.
Notation "r <| proj ::= f |>" := (update proj f r)
  (at level 1, left associativity, format "r  <| proj  ::=  f |>") : polywan_scope.
Local Open Scope polywan_scope.

(** ** Parts of the state *)

#[export] Instance Discovered_eq_dec : EqDecision Discovered.
Proof. solve_decision. Defined.
#[export] Instance Spec_eq_dec : EqDecision Probe.Spec.
Proof. solve_decision. Defined.
#[export] Instance Setting_eq_dec : EqDecision Setting.
Proof. solve_decision. Defined.
#[export] Instance Desired_eq_dec : EqDecision Desired.
Proof. solve_decision. Defined.
#[export] Instance FailureKind_eq_dec : EqDecision FailureKind.
Proof. solve_decision. Defined.
#[export] Instance FailureKind_countable : Countable FailureKind.
Proof.
  apply (inj_countable' (fun k => match k with FailRoute => 0 | FailRule => 1 | FailNftables => 2 | FailSysctl => 3 end)
    (fun n => if n =? 0 then FailRoute else if n =? 1 then FailRule else if n =? 2 then FailNftables else FailSysctl)).
  by intros [].
Defined.

(** One configured path at runtime; a prober is known by its specification. *)
Record PathRuntime := mkPathRuntime {
  pr_discovered : option Discovered;
  pr_machine : Health.Machine;
  pr_since_ms : u64;
  pr_generation : u64;
  pr_prober : option Probe.Spec;
  pr_window : QualityGates.Window;
  pr_stats : QualityGates.Stats;
  pr_violating : bool;
  pr_gateway_wait : option (Instant * bool)
}.
#[export] Instance PathRuntime_expansion : Expansion PathRuntime := fun p =>
  mkPathRuntime (pr_discovered p) (pr_machine p) (pr_since_ms p) (pr_generation p) (pr_prober p) (pr_window p)
    (pr_stats p) (pr_violating p) (pr_gateway_wait p).

Definition Stats_default : QualityGates.Stats := QualityGates.mkStats 0 0 None None 0 None 0.

Definition PathRuntime_new (discovered : option Discovered) (machine : Health.Machine) (now_ms : u64) : PathRuntime :=
  mkPathRuntime discovered machine now_ms 0 None (QualityGates.mkWindow []) Stats_default false None.

Definition GATEWAY_WARNING : Duration := from_secs 30.
Definition NOTIFICATION_BATCH : usize := 1000.
Definition COMMAND_WAIT : Duration := from_secs 8.
Definition NOTIFY_RETRY : Duration := from_millis 200.
Definition RESYNC_AFTER_INTERRUPTED : Duration := from_secs 1.
Definition SYSCTL_ATTEMPT : str := lit "sysctls".

Definition Assignment : Type := PathKey * str.

Record Retry := mkRetry { re_at : Instant; re_backoff : Duration; re_attempt : str }.

Record Ownership := mkOwnership { ow_removals : list Instant; ow_conflict : bool; ow_clean_reconciliations : u8 }.
Definition Ownership_default : Ownership := mkOwnership [] false 0.

(** The sender of an answer, by its number. *)
Definition Reply : Type := nat.

Inductive Active :=
  | Persisting (seq : u64) (uplink : UplinkId) (drain : bool) (reply : Reply)
  | Reloading (reply : Reply)
  | Forgetting (seq : u64) (uplink : str) (reply : Reply)
  | Applying (target : option u64) (since : Instant) (step : str) (answer : Value) (reply : Reply).

Definition Active_reply (a : Active) : Reply :=
  match a with Persisting _ _ _ r | Reloading r | Forgetting _ _ r | Applying _ _ _ _ r => r end.

Definition SysctlJob : Type := list Setting * bool.

Record NftFlight := mkNftFlight {
  fl_seq : u64; fl_transaction : str; fl_configured : gset Assignment; fl_attempt : str
}.

Inductive ReloadPhase :=
  | Validating (seq : u64)
  | Preparing (seq : u64) (config : Config)
  | Binding (seq : u64) (config : Config) (drained : gset UplinkId).

(** [metrics::Totals]; the dropped events are those of the bus. *)
Record Totals := mkTotals {
  to_transitions : gmap (UplinkId * Family * str) u64;
  to_probe_samples : gmap (UplinkId * Family * Target * str) u64;
  to_repairs : gmap str u64;
  to_apply_failures : gmap FailureKind u64;
  to_events_dropped : list (str * u64)
}.
#[export] Instance Totals_expansion : Expansion Totals := fun t =>
  mkTotals (to_transitions t) (to_probe_samples t) (to_repairs t) (to_apply_failures t) (to_events_dropped t).
Definition Totals_default : Totals := mkTotals ∅ ∅ ∅ ∅ [].

(** [Totals::count]: the map and the new count. *)
Definition Totals_count {K} `{Countable K} (key : K) (m : gmap K u64) : gmap K u64 :=
  <[key := default 0 (m !! key) + 1]> m.

Definition Totals_retain_uplinks (configured : UplinkId -> bool) (t : Totals) : Totals :=
  t <| to_transitions ::= filter (fun e => configured e.1.1.1 = true) |>
    <| to_probe_samples ::= filter (fun e => configured e.1.1.1.1 = true) |>.

(** What the State task gives to others. *)
Inductive Effect :=
  | E_Reply (reply : Reply) (answer : Answer)
  | E_Spawn (spec : Probe.Spec)
  | E_Abort (spec : Probe.Spec)
  | E_ValidateReload (seq : u64) (context : ReloadContext)
  | E_PrepareApi (seq : u64) (endpoints : list Endpoint)
  | E_Api (c : ApiCommand)
  | E_Emit (event : NewEvent Value)
  | E_Notify (notify : Notify).

(** [Failure] of reconcile.rs as the daemon reports it. *)
Record DFailure := mkDFailure {
  df_op : str; df_kind : FailureKind; df_errno : option i32; df_extack : option str; df_error : str;
  df_route : option (Family * u32)
}.
Definition Failure_new (op : str) (kind : FailureKind) (error : str) : DFailure := mkDFailure op kind None None error None.

(** ** The daemon *)

Record Daemon := mkDaemon {
  d_cfg : Config;
  d_lanes : Lanes;
  d_seq : u64;
  d_nft_flight : option NftFlight;
  d_inspection : option u64;
  d_sysctls_flight : gmap SysctlScope (u64 * SysctlJob);
  d_sysctls_applied : gmap SysctlScope SysctlJob;
  d_installing : bool;
  d_attempted : bool;
  d_hand_back : option (u64 * str);
  d_reload : option ReloadPhase;
  d_reload_again : bool;
  d_reload_deferred : bool;
  d_applied_ops : usize;
  d_fatal : option str;
  d_desired_generation : u64;
  d_applied_generation : u64;
  d_planned : bool;
  d_last_desired : option (Desired * str * str);
  d_bus : Bus Value;
  d_pending_events : list (NewEvent Value);
  d_status_dirty : bool;
  d_repairs : gset str;
  d_totals : Totals;
  d_api : bool;
  d_command : option Active;
  d_layout : Layout;
  d_scope : Scope;
  d_protocol : u8;
  d_system : System;
  d_manifest : Manifest;
  d_paths : gmap PathKey PathRuntime;
  d_active : gmap Family (gset UplinkId);
  d_drained : gset UplinkId;
  d_route_failed : gmap PathKey str;
  d_nft_transaction : str;
  d_nft_applied : option (str * gset Assignment);
  d_nft_listing : option Value;
  d_nft_missing : bool;
  d_nft_adopted : option (gset Assignment);
  d_retry : option Retry;
  d_degraded : gset str;
  d_ownership : gmap str Ownership;
  d_held_rules : list ObservedRule;
  d_held_routes : gset (Family * u32);
  d_full_pass : bool;
  d_resync_due : bool;
  d_sysctls_pending : gset SysctlScope;
  d_sysctls_failed : gmap str str;
  d_sysctl_retries : gmap str Retry;
  d_probe_generation : u64;
  d_boot_id : str;
  d_dirty : bool;
  d_reread : gset (Family * u32);
  d_expiry_checked : Instant;
  d_last_checkpoint : Instant;
  d_started : Z;
  d_status : Status;
  d_status_line : str;
  d_notifier : option Notifications;
  d_notify_retry : option Instant;
  d_out : list Effect;
  d_panicked : bool
}.
#[export] Instance Daemon_expansion : Expansion Daemon := fun d =>
  mkDaemon (d_cfg d) (d_lanes d) (d_seq d) (d_nft_flight d) (d_inspection d) (d_sysctls_flight d)
    (d_sysctls_applied d) (d_installing d) (d_attempted d) (d_hand_back d) (d_reload d) (d_reload_again d)
    (d_reload_deferred d) (d_applied_ops d) (d_fatal d) (d_desired_generation d) (d_applied_generation d)
    (d_planned d) (d_last_desired d) (d_bus d) (d_pending_events d) (d_status_dirty d) (d_repairs d)
    (d_totals d) (d_api d) (d_command d) (d_layout d) (d_scope d) (d_protocol d) (d_system d) (d_manifest d)
    (d_paths d) (d_active d) (d_drained d) (d_route_failed d) (d_nft_transaction d) (d_nft_applied d)
    (d_nft_listing d) (d_nft_missing d) (d_nft_adopted d) (d_retry d) (d_degraded d) (d_ownership d)
    (d_held_rules d) (d_held_routes d) (d_full_pass d) (d_resync_due d) (d_sysctls_pending d)
    (d_sysctls_failed d) (d_sysctl_retries d) (d_probe_generation d) (d_boot_id d) (d_dirty d) (d_reread d)
    (d_expiry_checked d) (d_last_checkpoint d) (d_started d) (d_status d) (d_status_line d) (d_notifier d)
    (d_notify_retry d) (d_out d) (d_panicked d).

(** ** Handlers *)

(** The world of the State task: its clocks, whether the client that waits
    for an answer has gone, and systemd's socket. *)
Class DaemonWorld (W : Type) := {
  instant_now : W -> Instant * W;
  boottime_ms : W -> u64 * W;
  system_time : W -> Z * W;
  reply_closed : Reply -> W -> bool;
  notify_send : str -> W -> Sent * W
}.
#[global] Hint Mode DaemonWorld ! : typeclass_instances.

Record St (W : Type) := mkSt { st_d : Daemon; st_w : W }.
Arguments mkSt {W}.
Arguments st_d {W}.
Arguments st_w {W}.

Definition M (W A : Type) : Type := St W -> A * St W.

#[export] Instance M_ret W : MRet (M W) := fun A a s => (a, s).
#[export] Instance M_bind W : MBind (M W) := fun A B k m s => let '(a, s) := m s in k a s.

Section monad.
Context {W : Type}.

Definition get_d : M W Daemon := fun s => (st_d s, s).
Definition gets {A} (f : Daemon -> A) : M W A := fun s => (f (st_d s), s).
Definition modify (f : Daemon -> Daemon) : M W unit := fun s => (tt, mkSt (f (st_d s)) (st_w s)).
Definition when (b : bool) (m : M W unit) : M W unit := if b then m else mret tt.
Fixpoint for_each {A} (l : list A) (f : A -> M W unit) : M W unit :=
  match l with [] => mret tt | x :: l => f x ;; for_each l f end.

Context `{DaemonWorld W}.
Definition now : M W Instant := fun s => let '(t, w) := instant_now (st_w s) in (t, mkSt (st_d s) w).
Definition now_ms : M W u64 := fun s => let '(t, w) := boottime_ms (st_w s) in (t, mkSt (st_d s) w).
Definition wall_now : M W Z := fun s => let '(t, w) := system_time (st_w s) in (t, mkSt (st_d s) w).
Definition is_closed (r : Reply) : M W bool := fun s => (reply_closed r (st_w s), s).

(** An effect, and an event of the current step. *)
Definition give (e : Effect) : M W unit := modify (fun d => d <| d_out ::= fun o => o ++ [e] |>).
Definition push_event (e : NewEvent Value) : M W unit :=
  modify (fun d => d <| d_pending_events ::= fun l => l ++ [e] |>).
Definition reply_send (r : Reply) (a : Answer) : M W unit := give (E_Reply r a).
Definition set_dirty : M W unit := modify (fun d => d <| d_dirty := true |>).

(** A failed [expect]. *)
Definition panic : M W unit := modify (fun d => d <| d_panicked := true |>).

(** A lane is gone. *)
Definition lost : M W unit := modify (fun d => d <| d_fatal := Some (lit "an internal I/O lane stopped") |>).
Definition next_seq : M W u64 := modify (fun d => d <| d_seq ::= fun n => n + 1 |>) ;; gets d_seq.

(** [self.lanes.persist(job)] and [self.lanes.nft(job)]. *)
Definition lanes_persist (job : PersistJob) : M W (result unit Lost) := fun s =>
  let '(l, r) := Lanes_persist (d_lanes (st_d s)) job in (r, mkSt ((st_d s) <| d_lanes := l |>) (st_w s)).
Definition lanes_nft (job : NftJob) : M W (result unit Lost) := fun s =>
  let '(l, r) := Lanes_nft (d_lanes (st_d s)) job in (r, mkSt ((st_d s) <| d_lanes := l |>) (st_w s)).
End monad.
