(* ===== verification/DaemonCore.v ===== *)
(** * The State task: observation, health and readiness

    Models the handlers of crates/polywan/src/daemon.rs that follow the
    kernel's notifications and the probers, keep the degradation reasons and
    the ownership of artifacts, and evaluate discovery into the planner's
    input. *)

From stdpp Require Import prelude gmap sorting.
From Stdlib Require Import ZArith Lia.
From S2P Require Import Prelude Text Model Health QualityGates Probe Select Durations Config Plan Msg Netlink System.
From S2P Require Import Reconcile Discover Observer Events StateFiles Sysctl Nft Status Checks ApiServer Worker.
From S2P Require Import DaemonState.

Local Open Scope Z_scope.
Local Open Scope polywan_scope.

(** ** Functions without state *)

(** The loop of [batch]: [last] and [n] are the last item taken and their
    number; what is not taken stays queued. *)
Fixpoint batch_loop {T} (limit : usize) (ends : T -> bool) (queued : list T) (last : T) (n : usize) : list T * list T :=
  match queued with
  | [] => ([], [])
  | x :: q =>
      if (n <? limit) && negb (ends last)
      then let '(items, rest) := batch_loop limit ends q x (n + 1) in (x :: items, rest)
      else ([], queued)
  end.

Definition batch {T} (first : T) (queued : list T) (limit : usize) (ends : T -> bool) : list T * list T :=
  let '(items, rest) := batch_loop limit ends queued first 1 in (first :: items, rest).

Definition unassigned (configured : gset Assignment) (known : option (gset Assignment)) : gset PathKey :=
  match known with
  | None => ∅
  | Some known => set_map fst (configured ∖ known)
  end.

Definition sysctl_scope (s : Setting) : SysctlScope :=
  match sg_interface s with Some i => Interface i | None => Global end.

Definition state_name (s : Health.State) : str := match s with Up => lit "up" | Down => lit "down" end.

Definition Reason_as_str (r : Reason) : str :=
  match r with
  | R_ProbeFailed => lit "probe_failed"
  | R_Degraded => lit "degraded"
  | R_CarrierLost => lit "carrier_lost"
  | R_InterfaceRemoved => lit "interface_removed"
  | R_AddressLost => lit "address_lost"
  | R_AddressConflict => lit "address_conflict"
  | R_GatewayLost => lit "gateway_lost"
  | R_RouteInstallFailed => lit "route_install_failed"
  | R_ProbesRecovered => lit "probes_recovered"
  | R_Startup => lit "startup"
  end.

Definition FailureKind_as_str (k : FailureKind) : str :=
  match k with
  | FailRoute => lit "route" | FailRule => lit "rule" | FailNftables => lit "nftables" | FailSysctl => lit "sysctl"
  end.

Definition path_event (uplink : str) (family : Family) (t : Transition) : NewEvent Value :=
  let from := state_name (tr_from t) in
  let to := state_name (tr_to t) in
  let text := lit "uplink " ++ uplink ++ lit " " ++ Family_key family ++ lit ": " ++ from ++ lit " -> " ++ to ++
              lit " (" ++ Reason_as_str (tr_reason t) ++ lit ")" in
  NewEvent_reason (NewEvent_change (NewEvent_path (NewEvent_new (lit "path_state_changed") text)
    uplink (Family_key family)) (Str from) (Str to)) (Reason_as_str (tr_reason t)).

Definition change_event (kind what uplink : str) (family : Family) (old new : option IpAddr) : NewEvent Value :=
  let text a := match a with None => lit "none" | Some a => IpAddr_display a end in
  let value a := match a with None => Null | Some a => Str (IpAddr_display a) end in
  let message := lit "uplink " ++ uplink ++ lit " " ++ Family_key family ++ lit ": " ++ what ++ lit " " ++ text old ++
                 lit " -> " ++ text new in
  NewEvent_change (NewEvent_path (NewEvent_new kind message) uplink (Family_key family)) (value old) (value new).

Definition failure_event (op : str) (kind : FailureKind) (errno : option i32) (extack : option str) : NewEvent Value :=
  let message := op ++ lit " failed" ++
    match errno with Some e => lit " (errno " ++ to_decimal_i e ++ lit ")" | None => [] end ++
    match extack with Some x => lit ": " ++ x | None => [] end in
  NewEvent_reason (NewEvent_new (lit "apply_failed") message) (FailureKind_as_str kind).

Section core.
Context {W : Type} `{DaemonWorld W}.
Abbreviation M := (M W).

(** ** Degradation *)

Definition degrade (reason : str) : M unit :=
  d ← get_d;
  when (bool_decide (d_degraded d = ∅) && negb (bool_decide (reason ∈ d_degraded d)))
    (push_event (NewEvent_reason (NewEvent_change
      (NewEvent_new (lit "status_degraded") (lit "status degraded (" ++ reason ++ lit ")"))
      (Str (lit "ok")) (Str (lit "degraded"))) reason)) ;;
  modify (fun d => d <| d_degraded ::= fun s => {[reason]} ∪ s |> <| d_status_dirty := true |>).

Definition recover (reason : str) : M unit :=
  d ← get_d;
  when (bool_decide (reason ∈ d_degraded d) && bool_decide (d_degraded d ∖ {[reason]} = ∅))
    (push_event (NewEvent_reason (NewEvent_change
      (NewEvent_new (lit "status_recovered") (lit "status ok (" ++ reason ++ lit " cleared)"))
      (Str (lit "degraded")) (Str (lit "ok"))) reason)) ;;
  modify (fun d => d <| d_degraded ::= fun s => s ∖ {[reason]} |> <| d_status_dirty := true |>).

Definition record_flowtables (listing : result Value str) : M unit :=
  match listing with
  | Ok r =>
      cfg ← gets d_cfg;
      match flowtables r cfg with
      | [] => recover (lit "flow_offload")
      | _ => degrade (lit "flow_offload")
      end
  | Err _ => mret tt
  end.

(** The [while] loop of [count_removal]. *)
Fixpoint expire_removals (now : Instant) (removals : list Instant) : list Instant :=
  match removals with
  | t :: rest => if from_secs 300 <? Z.max 0 (now - t) then expire_removals now rest else removals
  | [] => []
  end.

Definition removal_counted (now : Instant) (o : Ownership) : Ownership :=
  mkOwnership (expire_removals now (ow_removals o ++ [now])) (ow_conflict o) 0.

Definition count_removal (kind : str) : M unit :=
  t ← now;
  modify (fun d => d <| d_repairs ::= fun s => {[kind]} ∪ s |>) ;;
  d ← get_d;
  let o := removal_counted t (default Ownership_default (d_ownership d !! kind)) in
  let conflict := Nat.ltb 3 (length (ow_removals o)) && negb (ow_conflict o) in
  modify (fun d => d <| d_ownership ::=
    <[kind := mkOwnership (ow_removals o) (ow_conflict o || conflict) (ow_clean_reconciliations o)]> |>) ;;
  when conflict (degrade (lit "ownership_conflict")).

Definition immediate_repairs (d : Daemon) (kind : str) : bool :=
  negb (match d_ownership d !! kind with Some o => ow_conflict o | None => false end).

(** The comparisons of the listed table. *)
Definition check_nft (listing : result (option Value) str) : M unit :=
  d ← get_d;
  if bool_decide (fw_mode (cf_firewall (d_cfg d)) = External) then
    match listing with
    | Ok (Some _) => recover (lit "external_ruleset_missing")
    | Ok None =>
        when (negb (bool_decide (lit "external_ruleset_missing" ∈ d_degraded d))) (degrade (lit "external_ruleset_missing"))
    | Err _ => mret tt
    end
  else
    match listing with
    | Ok listing =>
        let same := match listing, d_nft_listing d with
                    | Some a, Some b => Value_eqb a b | None, None => true | _, _ => false end in
        let differs := negb (bool_decide (is_Some listing)) ||
                       (bool_decide (is_Some (d_nft_listing d)) && negb same) in
        when (differs && bool_decide (is_Some (d_nft_applied d))) (count_removal (lit "nftables")) ;;
        modify (fun d => d <| d_nft_missing := differs || negb (bool_decide (is_Some (d_nft_listing d))) |>)
    | Err _ => mret tt
    end.

(** ** Notifications *)

(** The uplink on an interface, also after the interface is gone. *)
Definition uplink_on (d : Daemon) (ifindex : u32) : option UplinkId :=
  let name := ol_name <$> sys_links (d_system d) !! ifindex in
  u_id <$> find_first (fun u => bool_decide (name = Some (u_interface u)) ||
    existsb (fun '(k, p) => bool_decide (pk_uplink k = u_id u) &&
      bool_decide (pr_discovered p ≫= dv_ifindex = Some ifindex)) (btree_iter (d_paths d))) (cf_uplinks (d_cfg d)).

Definition reread_insert (l : list (Family * u32)) : M unit :=
  modify (fun d => d <| d_reread ::= fun s => list_to_set l ∪ s |>).

(** The tables that depend on the addresses and routes of an uplink. *)
Definition uplink_tables_of (d : Daemon) (u : UplinkId) : list (Family * u32) :=
  concat ((fun f => [(f, balancing_table (d_layout d)); (f, path_table (d_layout d) u)] ++
    ((fun t => (f, t)) <$> rt_discovery_tables (cf_routing (d_cfg d)))) <$> Family_ALL).

Definition nexthop_notification (m : Message) : M unit :=
  match match m with
        | Message_NewNexthop n => Some (nh_id n, false)
        | Message_DelNexthop n => Some (nh_id n, true)
        | Message_Route _ | Message_GetNexthops => None
        end with
  | None => mret tt
  | Some (id, deleted) =>
      users ← gets (fun d => nexthop_users (d_system d) id);
      t ← now;
      modify (fun d => d <| d_system ::= fun sys => fst (apply_message sys (d_scope d) t m) |>) ;;
      when (negb (bool_decide (users = ∅)))
        (when deleted (modify (fun d => d <| d_reread ::= fun s => users ∪ s |>)) ;; set_dirty)
  end.

(** The changes of a route notification: the table to read again, the
    PolyWAN route removed, and the view's change. *)
Definition route_notification (r : ObservedRoute) (deleted : bool) (flags : u16)
    : M (option (Family * u32) * Change) :=
  d ← get_d;
  match stale_after (d_system d) (d_scope d) r deleted flags with
  | Some table => reread_insert [table]
  | None => mret tt
  end ;;
  t ← now;
  let '(sys, change) := apply_route (d_system d) (d_scope d) t r deleted in
  modify (fun d => d <| d_system := sys |>) ;;
  mret (if deleted && (ort_protocol r =? d_protocol d) && range_contains (tables (d_layout d)) (ort_table r)
        then Some (ort_family r, ort_table r) else None, change).

(** The change that the view makes of a message. *)
Definition apply_notification (m : RouteNetlinkMessage) (flags : u16) : M (option (Family * u32) * Change) :=
  let route r deleted :=
    t ← now;
    match ObservedRoute_parse t r with
    | Some r => route_notification r deleted flags
    | None => mret (None, Change_None)
    end in
  match m with
  | NewRoute r => route r false
  | DelRoute r => route r true
  | _ =>
      t ← now;
      d ← get_d;
      let '(sys, change) := System_apply (d_system d) (d_scope d) t m in
      modify (fun d => d <| d_system := sys |>) ;; mret (None, change)
  end.

(** The settings of an interface whose link changed are applied anew. *)
Definition link_changed (interface : str) : M unit :=
  modify (fun d => d <| d_sysctls_applied ::= delete (Interface interface) |>
    <| d_sysctls_flight ::= delete (Interface interface) |>
    <| d_sysctls_pending ::= fun s => {[Interface interface]} ∪ s |>
    <| d_sysctl_retries ::= delete interface |>).

Definition changed (change : Change) : M unit :=
  match change with
  | Change_Link i | Change_Address i =>
      d ← get_d;
      match uplink_on d i with
      | Some u =>
          reread_insert (uplink_tables_of d u) ;;
          match change, Config_uplink (d_cfg d) u with
          | Change_Link _, Some up => link_changed (u_interface up)
          | _, _ => mret tt
          end
      | None => mret tt
      end ;; set_dirty
  | Change_Route _ _ _ | Change_Rule _ _ | Change_Nexthop _ => set_dirty
  | Change_None => mret tt
  end.

(** [own_port] is the port of the netlink client. *)
Definition notification (own_port : u32) (message : Message) (port : u32) (flags : u16) : M unit :=
  match message with
  | Message_Route m =>
      d ← get_d;
      let removed_rule :=
        match m with
        | DelRule r =>
            o ← ObservedRule_parse r;
            if (or_protocol o =? d_protocol d) && range_contains (priorities (d_layout d)) (or_priority o)
            then Some o else None
        | _ => None
        end in
      '(removed_route, change) ← apply_notification m flags;
      let third_party := negb (port =? 0) && negb (port =? own_port) in
      match removed_rule with
      | Some r =>
          when third_party
            (count_removal (lit "rules") ;;
             d ← get_d;
             when (negb (immediate_repairs d (lit "rules")))
               (modify (fun d => d <| d_held_rules ::= fun l => l ++ [r] |>)))
      | None => mret tt
      end ;;
      match removed_route with
      | Some key =>
          when third_party
            (count_removal (lit "routes") ;;
             d ← get_d;
             when (negb (immediate_repairs d (lit "routes")))
               (modify (fun d => d <| d_held_routes ::= fun s => {[key]} ∪ s |>)))
      | None => mret tt
      end ;;
      changed change
  | other => nexthop_notification other
  end.

Definition discovery_defaults (d : Daemon) : list ObservedRoute :=
  List.filter (fun r => ObservedRoute_is_default r && negb (ort_protocol r =? d_protocol d) &&
    existsb (Z.eqb (ort_table r)) (rt_discovery_tables (cf_routing (d_cfg d)))) (btree_values (sys_routes (d_system d))).

(** [RouteProtocol::Ra]. *)
Definition RTPROT_RA : u8 := 9.

Definition router_advertisement (i : u32) : M unit :=
  d ← get_d;
  match uplink_on d i with
  | None => mret tt
  | Some _ =>
      let tables := (fun r => (ort_family r, ort_table r)) <$>
        List.filter (fun r => bool_decide (ort_family r = V6) &&
          (bool_decide (is_Some (ort_expires_at r)) || (ort_protocol r =? RTPROT_RA)) &&
          existsb (fun h => oh_ifindex h =? i) (ort_nexthops r)) (discovery_defaults d) in
      when (negb (bool_decide (tables = []))) (reread_insert tables ;; set_dirty)
  end.

Definition next_expiry (d : Daemon) : option Instant :=
  (fun t => t + from_millis 50) <$>
    list_min (List.filter (fun t => d_expiry_checked d <? t) (omap ort_expires_at (discovery_defaults d))).

Definition reread_expired : M unit :=
  t ← now;
  d ← get_d;
  let tables := (fun r => (ort_family r, ort_table r)) <$>
    List.filter (fun r => match ort_expires_at r with Some x => d_expiry_checked d <? x | None => false end &&
      ObservedRoute_expired r t) (discovery_defaults d) in
  when (negb (bool_decide (tables = []))) (reread_insert tables) ;;
  modify (fun d => d <| d_expiry_checked := t |>).

(** ** Checkpoints *)

Definition path_checkpoint (e : PathKey * PathRuntime) : PathCheckpoint :=
  let '(k, p) := e in
  let ready := d ← pr_discovered p; match dv_ready d with Ok r => Some r | Err _ => None end in
  let snap := Machine_snapshot (pr_machine p) in
  mkPathCheckpoint (UplinkId_get (pk_uplink k)) (Family_key (pk_family k)) (pr_discovered p ≫= dv_ifindex)
    (rp_source <$> ready) (ready ≫= rp_gateway) (Machine_is_up (pr_machine p)) (pr_since_ms p)
    (snap_passes snap) (snap_failures snap).

Definition active_ids (d : Daemon) (f : Family) : list u8 := UplinkId_get <$> default [] (bset_iter <$> d_active d !! f).

Definition checkpoint : M Checkpoint :=
  t ← now_ms;
  gets (fun d => mkCheckpoint 1 (d_boot_id d) t (cf_digest (d_cfg d))
    (RecordedStructure_from (Config_structural (d_cfg d))) (path_checkpoint <$> btree_iter (d_paths d))
    (active_ids d V4) (active_ids d V6)).

Definition write_checkpoint : M unit :=
  c ← checkpoint;
  r ← lanes_persist (Job_Checkpoint c);
  match r with Err Closed => lost | _ => mret tt end ;;
  t ← now;
  modify (fun d => d <| d_last_checkpoint := t |>).

(** The state of a path in the checkpoint, when its addressing is the same. *)
Definition warm_state (c : Checkpoint) (key : PathKey) (d : Discovered) : option Snapshot :=
  let ready := match dv_ready d with Ok r => Some r | Err _ => None end in
  p ← find_first (fun p => (pc_uplink p =? UplinkId_get (pk_uplink key)) &&
        bool_decide (pc_family p = Family_key (pk_family key))) (cp_paths c);
  if bool_decide (pc_ifindex p = dv_ifindex d) && bool_decide (pc_source p = rp_source <$> ready) &&
     bool_decide (pc_gateway p = ready ≫= rp_gateway)
  then Some (mkSnapshot (if pc_up p then Up else Down) (pc_passes p) (pc_failures p)) else None.

(** [warn_group_only]: the log line needs the uplink. *)
Definition expect_uplink (id : UplinkId) : M unit :=
  cfg ← gets d_cfg;
  match Config_uplink cfg id with Some _ => mret tt | None => panic end.

Definition not_ready_reason (d : Discovered) : Reason := match dv_ready d with Ok _ => R_Startup | Err e => e end.
Definition is_ready (d : Discovered) : bool := match dv_ready d with Ok _ => true | Err _ => false end.

(** [read]: what [StateDir::checkpoint] gave. *)
Definition load_checkpoint (read : result (option Checkpoint) StateError) : M unit :=
  d ← get_d;
  let structure := RecordedStructure_from (Config_structural (d_cfg d)) in
  t ← now_ms;
  let checkpoint := match read with
                    | Ok (Some c) => if Checkpoint_valid c (d_boot_id d) t structure then Some c else None
                    | _ => None
                    end in
  i ← now;
  for_each (btree_iter (discover (d_cfg d) (d_system d) (d_protocol d) i)) (fun '(key, dv) =>
    when (dv_group_only dv) (expect_uplink (pk_uplink key)) ;;
    let warm := c ← checkpoint; warm_state c key dv in
    ms ← now_ms;
    modify (fun d => d <| d_paths ::=
      <[key := PathRuntime_new (Some dv) (Machine_new (is_ready dv) (not_ready_reason dv) warm) ms]> |>)) ;;
  match checkpoint with
  | Some c =>
      let ids l : gset UplinkId := list_to_set (omap UplinkId_new l) in
      modify (fun d => d <| d_active ::= fun a => <[V6 := ids (cp_active_v6 c)]> (<[V4 := ids (cp_active_v4 c)]> a) |>)
  | None => mret tt
  end.

(** ** Probe reports *)

Inductive ProbeReport :=
  | Report_Failed (path : PathKey) (generation : u64)
  | Report_Round (r : RoundReport).

Definition transitioned (key : PathKey) (t : Transition) : M unit :=
  d ← get_d;
  match d_paths d !! key with
  | Some _ => ms ← now_ms; modify (fun d => d <| d_paths ::= alter (fun p => p <| pr_since_ms := ms |>) key |>)
  | None => mret tt
  end ;;
  modify (fun d => d <| d_totals ::= fun x => x <| to_transitions ::=
    Totals_count (pk_uplink key, pk_family key, state_name (tr_to t)) |> |>) ;;
  match Config_uplink (d_cfg d) (pk_uplink key) with
  | Some u => push_event (path_event (u_name u) (pk_family key) t)
  | None => mret tt
  end.

(** The samples of a round, counted. *)
Definition count_samples (path : PathKey) (samples : list QualityGates.Sample) : M unit :=
  for_each samples (fun s =>
    let result := if bool_decide (is_Some (QualityGates.sample_rtt s)) then lit "ok" else lit "lost" in
    modify (fun d => d <| d_totals ::= fun x => x <| to_probe_samples ::=
      Totals_count (pk_uplink path, pk_family path, QualityGates.sample_target s, result) |> |>)).

Definition round_of (passed violated : bool) : Round :=
  match passed, violated with false, _ => Failed | true, false => Passed | true, true => Degraded end.

(** The path after a round of its prober, and the transition it causes. *)
Definition path_round (p : PathRuntime) (h : HealthConf) (r : RoundReport) : PathRuntime * option Transition :=
  let window := Window_push (pr_window p) (rr_samples r) (hc_quality_window h) in
  let stats := Window_stats window in
  let violated := match violations stats (hc_quality h) (hc_quality_min_samples h) with [] => false | _ => true end in
  let '(machine, t) := Machine_round (pr_machine p) (round_of (rr_passed r) violated) (mkHysteresis (hc_fall h) (hc_rise h)) in
  (p <| pr_window := window |> <| pr_stats := stats |> <| pr_violating := violated |> <| pr_machine := machine |>, t).

Definition probe_report (r : ProbeReport) : M unit :=
  match r with
  | Report_Failed path generation =>
      d ← get_d;
      match d_paths d !! path with
      | Some p =>
          when (pr_generation p =? generation)
            (modify (fun d => d <| d_paths ::= alter (fun p => p <| pr_prober := None |>) path |>) ;; set_dirty)
      | None => mret tt
      end
  | Report_Round r =>
      d ← get_d;
      match d_paths d !! rr_path r with
      | None => mret tt
      | Some p =>
          if negb (pr_generation p =? rr_generation r) then mret tt else
          match Config_uplink (d_cfg d) (pk_uplink (rr_path r)) with
          | None => panic
          | Some u =>
              modify (fun d => d <| d_status_dirty := true |>) ;;
              count_samples (rr_path r) (rr_samples r) ;;
              let '(p', t) := path_round p (u_health u) r in
              modify (fun d => d <| d_paths ::= <[rr_path r := p']> |>) ;;
              match t with
              | Some t => transitioned (rr_path r) t ;; set_dirty ;; write_checkpoint
              | None => mret tt
              end
          end
      end
  end.

(** ** Wanted settings *)

Definition sysctl_scopes (cfg : Config) : list SysctlScope :=
  let interfaces : gset str := list_to_set (omap sg_interface (desired cfg)) in
  Global :: (Interface <$> bset_iter interfaces).

Definition wanted_sysctls (cfg : Config) : gmap SysctlScope SysctlJob :=
  let manage := rt_manage_sysctls (cf_routing cfg) in
  let m : gmap SysctlScope SysctlJob := foldl (fun m s => <[s := ([], manage)]> m) ∅ (sysctl_scopes cfg) in
  foldl (fun m s =>
    let '(l, b) := default ([], manage) (m !! sysctl_scope s) in <[sysctl_scope s := (l ++ [s], b)]> m) m (desired cfg).

Definition wanted_sysctls_of (cfg : Config) (scope : SysctlScope) : option SysctlJob :=
  let interface := match scope with Global => None | Interface i => Some i end in
  let settings := List.filter (fun s => bool_decide (sg_interface s = interface)) (desired cfg) in
  if bool_decide (scope = Global) || negb (bool_decide (settings = []))
  then Some (settings, rt_manage_sysctls (cf_routing cfg)) else None.

Definition sysctls_unapplied (d : Daemon) (scope : SysctlScope) (family : option Family) : bool :=
  if negb (rt_manage_sysctls (cf_routing (d_cfg d))) || negb (bool_decide (scope ∈ d_sysctls_pending d)) then false else
  match d_sysctls_applied d !! scope with
  | Some (applied, true) =>
      let wanted := match wanted_sysctls_of (d_cfg d) scope with Some j => fst j | None => [] end in
      negb (forallb (fun s => existsb (fun a => bool_decide (a = s)) applied)
        (List.filter (fun s => negb (bool_decide (is_Some family)) || negb (bool_decide (is_Some (sg_family s))) ||
           bool_decide (sg_family s = family)) wanted))
  | _ => true
  end.

(** ** Evaluation *)

Definition assignments (cfg : Config) : gset Assignment :=
  list_to_set (concat ((fun u => (fun family => (mkPathKey (u_id u) family, u_interface u)) <$> Uplink_families u) <$>
    cf_uplinks cfg)).

(** Stops the probers of the paths that go. *)
Definition prune_paths (keep : PathKey -> bool) : M unit :=
  d ← get_d;
  for_each (btree_iter (d_paths d)) (fun '(k, p) =>
    match pr_prober p with Some spec => when (negb (keep k)) (give (E_Abort spec)) | None => mret tt end) ;;
  modify (fun d => d <| d_paths ::= filter (fun e => keep e.1 = true) |>).

(** The readiness of a path with what its installation needs. *)
Definition effective (d : Daemon) (key : PathKey) (raw : Discovered) : Discovered :=
  let dv := if bool_decide (is_Some (d_route_failed d !! key)) && is_ready raw
            then set_ready_error raw R_RouteInstallFailed else raw in
  match Config_uplink (d_cfg d) (pk_uplink key) with
  | Some u =>
      if sysctls_unapplied d (Interface (u_interface u)) (Some (pk_family key)) && is_ready dv
      then set_ready_error dv R_RouteInstallFailed else dv
  | None => dv
  end.

(** The wait for an automatic IPv6 gateway, and its warning. *)
Definition gateway_delay : str :=
  if (GATEWAY_WARNING mod NANOS_PER_SEC) / NANOS_PER_MILLI =? 0
  then to_decimal (GATEWAY_WARNING / NANOS_PER_SEC) ++ lit " s"
  else to_decimal (as_millis GATEWAY_WARNING) ++ lit " ms".

Definition await_gateway (key : PathKey) : M unit :=
  t ← now;
  d ← get_d;
  let wait := default (t, false) (d_paths d !! key ≫= pr_gateway_wait) in
  modify (fun d => d <| d_paths ::= alter (fun p => p <| pr_gateway_wait := Some wait |>) key |>) ;;
  t' ← now;
  if negb (snd wait) && (GATEWAY_WARNING <=? Z.max 0 (t' - fst wait)) then
    modify (fun d => d <| d_paths ::= alter (fun p => p <| pr_gateway_wait := Some (fst wait, true) |>) key |>) ;;
    match Config_uplink (d_cfg d) (pk_uplink key) with
    | None => panic
    | Some u =>
        r ← lanes_persist (Job_GatewayWarning (u_name u) (u_interface u) gateway_delay);
        match r with Err Closed => lost | _ => mret tt end
    end
  else mret tt.

(** The address and gateway changes of an observed path. *)
Definition addressing_events (key : PathKey) (u : Uplink) (prev raw : Discovered) : M unit :=
  let was := match dv_ready prev with Ok r => Some r | Err _ => None end in
  let cur := match dv_ready raw with Ok r => Some r | Err _ => None end in
  when (negb (bool_decide (rp_source <$> was = rp_source <$> cur)))
    (push_event (change_event (lit "path_address_changed") (lit "source") (u_name u) (pk_family key)
      (rp_source <$> was) (rp_source <$> cur))) ;;
  when (negb (bool_decide (was ≫= rp_gateway = cur ≫= rp_gateway)))
    (push_event (change_event (lit "path_gateway_changed") (lit "gateway") (u_name u) (pk_family key)
      (was ≫= rp_gateway) (cur ≫= rp_gateway))).

(** One path of [evaluate]: its input to the planner. *)
Definition evaluate_path (key : PathKey) (raw : Discovered) : M PathInput :=
  d ← get_d;
  let previous := d_paths d !! key ≫= pr_discovered in
  let unchanged := bool_decide (previous = Some raw) in
  when (dv_group_only raw && negb (match previous with Some p => dv_group_only p | None => false end))
    (expect_uplink (pk_uplink key)) ;;
  when (negb unchanged) (modify (fun d => d <| d_route_failed ::= delete key |>)) ;;
  d ← get_d;
  let dv := effective d key raw in
  match d_paths d !! key with
  | Some _ => mret tt
  | None =>
      ms ← now_ms;
      modify (fun d => d <| d_paths ::= <[key := PathRuntime_new None (Machine_new false R_Startup None) ms]> |>)
  end ;;
  (if bool_decide (pk_family key = V6) && dv_gateway_missing raw then await_gateway key
   else modify (fun d => d <| d_paths ::= alter (fun p => p <| pr_gateway_wait := None |>) key |>)) ;;
  d ← get_d;
  when (negb unchanged)
    (match d_paths d !! key ≫= pr_discovered, Config_uplink (d_cfg d) (pk_uplink key) with
     | Some prev, Some u => addressing_events key u prev raw
     | _, _ => mret tt
     end) ;;
  d ← get_d;
  let '(machine, transition) :=
    match d_paths d !! key with
    | Some p => Machine_set_ready (pr_machine p) (is_ready dv) (not_ready_reason dv)
    | None => (Machine_new false R_Startup None, None)
    end in
  modify (fun d => d <| d_paths ::= alter (fun p => p <| pr_machine := machine |> <| pr_discovered := Some raw |>) key |>) ;;
  let input := mkPathInput (match dv_ready dv with Ok r => Some r | Err _ => None end) (dv_local_addresses dv)
                 (Machine_is_up machine) (bool_decide (pk_uplink key ∈ d_drained d)) in
  match transition with Some t => transitioned key t | None => mret tt end ;;
  mret input.

Fixpoint evaluate_paths (l : list (PathKey * Discovered)) (acc : gmap PathKey PathInput) : M (gmap PathKey PathInput) :=
  match l with
  | [] => mret acc
  | (key, raw) :: l => i ← evaluate_path key raw; evaluate_paths l (<[key := i]> acc)
  end.

(** ** Probers *)

(** The prober a path should have; its generation is left out. *)
Definition wanted_spec (cfg : Config) (u : Uplink) (key : PathKey) (p : PathRuntime) : option Spec :=
  dv ← pr_discovered p;
  match dv_ready dv with
  | Err _ => None
  | Ok r =>
      if negb (m_ready (pr_machine p)) then None else
      let h := u_health u in
      Some (mkSpec key 0 (u_interface u) (rp_ifindex r) (rp_source r)
        (FwMask_encode (rt_fwmark_mask (cf_routing cfg)) (FieldValue_probe (pk_uplink key)))
        (HealthConf_targets h (pk_family key)) (hc_interval h) (hc_timeout h) (Z.to_nat (hc_attempts h))
        (hc_required_reachable h) (Quality_enabled (hc_quality h)))
  end.

Definition with_generation (g : u64) (s : Spec) : Spec :=
  mkSpec (sp_path s) g (sp_interface s) (sp_ifindex s) (sp_source s) (sp_mark s) (sp_targets s) (sp_interval s)
    (sp_timeout s) (sp_attempts s) (sp_required_reachable s) (sp_run_to_completion s).

(** The prober of one path is started, replaced or stopped. *)
Definition manage_prober (key : PathKey) (p : PathRuntime) : M unit :=
  cfg ← gets d_cfg;
  match Config_uplink cfg (pk_uplink key) with
  | None => panic
  | Some u =>
      let wanted := wanted_spec cfg u key p in
      if bool_decide (wanted = with_generation 0 <$> pr_prober p) then mret tt else
      match pr_prober p with Some s => give (E_Abort s) | None => mret tt end ;;
      modify (fun d => d <| d_probe_generation ::= fun g => g + 1 |>) ;;
      g ← gets d_probe_generation;
      let prober := with_generation g <$> wanted in
      modify (fun d => d <| d_paths ::= <[key := p <| pr_generation := g |> <| pr_window := Window_clear (pr_window p) |>
        <| pr_stats := Stats_default |> <| pr_violating := false |> <| pr_prober := prober |>]> |>) ;;
      match prober with Some s => give (E_Spawn s) | None => mret tt end
  end.

Definition manage_probers : M unit :=
  paths ← gets (fun d => btree_iter (d_paths d));
  for_each paths (fun '(key, p) => manage_prober key p).

(** ** Active sets *)

Definition family_candidates (cfg : Config) (paths : gmap PathKey PathInput) (family : Family) : list Candidate :=
  omap (fun u =>
    p ← paths !! mkPathKey (u_id u) family;
    priority ← u_priority u;
    if bool_decide (is_Some (pi_ready p)) && negb (pi_drained p)
    then Some (mkCandidate (u_id u) priority (pi_healthy p)) else None) (cf_uplinks cfg).

Definition set_names (cfg : Config) (s : gset UplinkId) : list str :=
  omap (fun id => u_name <$> Config_uplink cfg id) (bset_iter s).

Definition active_event (family : Family) (old new : list str) : NewEvent Value :=
  let text l := lit "[" ++ str_join (lit ", ") l ++ lit "]" in
  NewEvent_change (NewEvent_family (NewEvent_new (lit "active_set_changed")
    (Family_key family ++ lit " active set: " ++ text old ++ lit " -> " ++ text new)) (Family_key family))
    (Array (Str <$> old)) (Array (Str <$> new)).

Definition evaluate_family (paths : gmap PathKey PathInput) (family : Family) : M (gset UplinkId) :=
  d ← get_d;
  let previous := default ∅ (d_active d !! family) in
  let set := active_set (family_candidates (d_cfg d) paths family) (rt_all_down_policy (cf_routing (d_cfg d))) previous in
  when (negb (bool_decide (set = previous)))
    (push_event (active_event family (set_names (d_cfg d) previous) (set_names (d_cfg d) set)) ;;
     modify (fun d => d <| d_active ::= <[family := set]> |>) ;;
     write_checkpoint) ;;
  mret set.

Fixpoint evaluate_families (paths : gmap PathKey PathInput) (l : list Family) (acc : gmap Family (gset UplinkId))
    : M (gmap Family (gset UplinkId)) :=
  match l with
  | [] => mret acc
  | f :: l =>
      cfg ← gets d_cfg;
      if negb (Config_manages cfg f) then evaluate_families paths l acc else
      set ← evaluate_family paths f;
      evaluate_families paths l (<[f := set]> acc)
  end.

Definition evaluate : M Input :=
  t ← now;
  d ← get_d;
  paths ← evaluate_paths (btree_iter (discover (d_cfg d) (d_system d) (d_protocol d) t)) ∅;
  prune_paths (fun k => bool_decide (is_Some (paths !! k))) ;;
  manage_probers ;;
  active ← evaluate_families paths Family_ALL ∅;
  mret (mkInput paths active).

(** ** The published status *)

(** The version of the workspace's Cargo.toml. *)
Definition PKG_VERSION : str := lit "2.0.0".

Definition path_status (cfg : Config) (since : u64 -> str) (k : PathKey) (p : PathRuntime) : option PathStatus :=
  u ← Config_uplink cfg (pk_uplink k);
  let ready := d ← pr_discovered p; match dv_ready d with Ok r => Some r | Err _ => None end in
  Some (mkPathStatus (u_name u) (Family_key (pk_family k)) (state_name (m_state (pr_machine p))) (m_ready (pr_machine p))
    (Reason_as_str (m_reason (pr_machine p))) (since (pr_since_ms p)) (rp_source <$> ready) (ready ≫= rp_gateway)
    (match pr_discovered p with Some d => bset_iter (dv_local_addresses d) | None => [] end)
    (Statistics_from (pr_stats p))).

(** [wall] and [boot_now] are the two clocks read. *)
Definition snapshot_at (d : Daemon) (wall : Z) (boot_now : u64) : Status :=
  let cfg := d_cfg d in
  let since ms := rfc3339 (wall - from_millis (Z.max 0 (boot_now - ms))) in
  mkStatus PKG_VERSION (bus_instance (d_bus d)) (rfc3339 (d_started d)) (cf_digest cfg)
    (mkGenerations (d_desired_generation d) (d_applied_generation d))
    (if bool_decide (d_degraded d = ∅) then lit "ok" else lit "degraded") (bset_iter (d_degraded d))
    ((fun u => mkUplinkStatus (u_name u) (UplinkId_get (u_id u)) (u_interface u) (bool_decide (u_id u ∈ d_drained d))) <$> cf_uplinks cfg)
    (omap (fun '(k, p) => path_status cfg since k p) (btree_iter (d_paths d)))
    ((fun family => (Family_key family, set_names cfg (default ∅ (d_active d !! family)))) <$>
      List.filter (Config_manages cfg) Family_ALL).

Definition snapshot : M Status :=
  wall ← wall_now; boot_now ← now_ms; gets (fun d => snapshot_at d wall boot_now).
End core.
