(* ===== verification/ProbeRun.v ===== *)
(** * The prober task: sockets, attempts and rounds in time

    Models [spawn], [run], [probe_socket], [tcp_attempt] and [Icmp::new] of
    crates/polywan/src/probe.rs; the rounds themselves, echo packets and the
    matching of replies are in [Probe].  A socket is what its options make
    of it; every system call can fail.  The ticker is tokio's interval that
    skips missed ticks.

    What is proved: whatever fails, every packet of a prober leaves from a
    socket with the path's mark, device and source; rounds neither overlap
    nor exceed one per interval; every round is reported once and in
    order. *)

From stdpp Require Import prelude gmap.
From Stdlib Require Import ZArith Lia.
From S2P Require Import Prelude Text Model Durations Config Msg QualityGates StateFiles Probe DaemonCore.

Local Open Scope Z_scope.
Local Open Scope polywan_scope.

(** ** Sockets *)

Inductive SockType := Type_Stream | Type_Raw.

(** The options of a socket. *)
Record Sock := mkSock {
  so_v6 : bool; so_type : SockType; so_nonblocking : bool; so_mark : option u32; so_device : option str;
  so_source : option IpAddr; so_filter : option (list SockFilter); so_linger : option Duration
}.

Inductive SockOption :=
  | Opt_Nonblocking
  | Opt_Mark (mark : u32)
  | Opt_Device (name : str)
  | Opt_Bind (source : IpAddr)
  | Opt_Filter (f : list SockFilter)
  | Opt_Linger (d : Duration).

Definition set_option (s : Sock) (o : SockOption) : Sock :=
  match o with
  | Opt_Nonblocking => mkSock (so_v6 s) (so_type s) true (so_mark s) (so_device s) (so_source s) (so_filter s) (so_linger s)
  | Opt_Mark m => mkSock (so_v6 s) (so_type s) (so_nonblocking s) (Some m) (so_device s) (so_source s) (so_filter s) (so_linger s)
  | Opt_Device d => mkSock (so_v6 s) (so_type s) (so_nonblocking s) (so_mark s) (Some d) (so_source s) (so_filter s) (so_linger s)
  | Opt_Bind a => mkSock (so_v6 s) (so_type s) (so_nonblocking s) (so_mark s) (so_device s) (Some a) (so_filter s) (so_linger s)
  | Opt_Filter f => mkSock (so_v6 s) (so_type s) (so_nonblocking s) (so_mark s) (so_device s) (so_source s) (Some f) (so_linger s)
  | Opt_Linger d => mkSock (so_v6 s) (so_type s) (so_nonblocking s) (so_mark s) (so_device s) (so_source s) (so_filter s) (Some d)
  end.

(** Options set in order up to the first failure; a fault per call. *)
Fixpoint set_options (s : Sock) (l : list SockOption) (faults : list (option ErrorKind)) : result Sock ErrorKind :=
  match l with
  | [] => Ok s
  | o :: l =>
      match head faults with
      | Some (Some e) => Err e
      | _ => set_options (set_option s o) l (tail faults)
      end
  end.

Definition is_v6 (a : IpAddr) : bool := match a with IpV6 _ => true | IpV4 _ => false end.

Definition probe_socket (spec : Spec) (ty : SockType) (faults : list (option ErrorKind)) : result Sock ErrorKind :=
  match head faults with
  | Some (Some e) => Err e
  | _ =>
      set_options (mkSock (is_v6 (sp_source spec)) ty false None None None None None)
        [Opt_Nonblocking; Opt_Mark (sp_mark spec); Opt_Device (sp_interface spec); Opt_Bind (sp_source spec)] (tail faults)
  end.

(** ** TCP attempts *)

Inductive Connecting := Connected | InProgress | ConnectFailed.

(** What the kernel does to an attempt: the faults of its calls, the result
    of [connect], whether the socket can be polled, when it becomes writable
    ([None]: never, or polling fails), when the task runs then, and the
    socket's error ([None]: it cannot be read) and peer. *)
Record TcpWorld := mkTcpWorld {
  tw_faults : list (option ErrorKind); tw_linger : bool; tw_connect : Connecting; tw_connected : Instant; tw_polled : bool;
  tw_writable : option Instant; tw_woken : Instant; tw_error : option (option ErrorKind); tw_peer : bool
}.

Definition ConnectionRefused : ErrorKind := OtherError 111.

(** A packet: the socket it leaves from and where it goes. *)
Record Sent := mkSent { se_sock : Sock; se_to : IpAddr }.

(** The packets of an attempt that started at [start], and its round-trip
    time. *)
Definition tcp_attempt (spec : Spec) (target : SocketAddr) (start deadline : Instant) (w : TcpWorld)
    : list Sent * option Duration :=
  match probe_socket spec Type_Stream (tw_faults w) with
  | Err _ => ([], None)
  | Ok s =>
      let s := if tw_linger w then set_option s (Opt_Linger 0) else s in
      ([mkSent s (sa_ip target)],
       match tw_connect w with
       | Connected => Some (saturating_sub (tw_connected w) start)
       | ConnectFailed => None
       | InProgress =>
           if negb (tw_polled w) then None else
           match tw_writable w with
           | None => None
           | Some t =>
               if deadline <? t then None else
               let rtt := saturating_sub (tw_woken w) start in
               match tw_error w with
               | Some None => if tw_peer w then Some rtt else None
               | Some (Some e) => if bool_decide (e = ConnectionRefused) then Some rtt else None
               | None => None
               end
           end
       end)
  end.

(** ** The ICMP socket *)

(** [Icmp::new]: [id] and [seq] are random. *)
Definition Icmp_new (spec : Spec) (faults : list (option ErrorKind)) (id seq : u16) : result (Sock * Icmp) ErrorKind :=
  let v6 := is_v6 (sp_source spec) in
  match probe_socket spec Type_Raw faults with
  | Err e => Err e
  | Ok s =>
      match set_options s [Opt_Filter (icmp_filter (negb v6) (if v6 then ECHO_REPLY_V6 else ECHO_REPLY_V4))] (drop 5 faults) with
      | Err e => Err e
      | Ok s => match drop 6 faults with
                | Some e :: _ => Err e
                | _ => Ok (s, mkIcmp v6 id seq ∅)
                end
      end
  end.

(** ** The task *)

(** An interval that skips missed ticks: a tick at [now], when one is due,
    and the next time on the grid of the period. *)
Definition next_tick (due now period : Instant) : Instant := now + period - (now - due) mod period.

(** [pr_due]: the next tick; [pr_round]: a round runs; [pr_over]: the task
    has ended. *)
Record Prober := mkProber {
  pr_icmp : option (Sock * Icmp); pr_due : Instant; pr_round : bool; pr_over : bool; pr_sent : list Sent;
  pr_starts : list Instant; pr_reports : list ProbeReport
}.

Definition has_icmp (spec : Spec) : bool := existsb (fun t => match t with Target_Icmp _ => true | _ => false end) (sp_targets spec).

(** [run] up to its loop: the first tick is due at once. *)
Definition prober_start (spec : Spec) (faults : list (option ErrorKind)) (id seq : u16) (now : Instant) : Prober :=
  match if has_icmp spec then match Icmp_new spec faults id seq with Ok i => Ok (Some i) | Err e => Err e end else Ok None with
  | Ok icmp => mkProber icmp now false false [] [] []
  | Err _ => mkProber None now false true [] [] [Report_Failed (sp_path spec) (sp_generation spec)]
  end.

(** The ticker ticks; a TCP attempt of the round; an echo request; the round
    ends and its report is sent, or the receiver is gone. *)
Inductive ProberInput :=
  | Pi_Tick (now : Instant)
  | Pi_Tcp (target : SocketAddr) (start deadline : Instant) (w : TcpWorld)
  | Pi_Echo (target : IpAddr) (token : list u8) (now : Instant)
  | Pi_Report (r : RoundReport) (received : bool).

Definition prober_ready (p : Prober) (i : ProberInput) : bool :=
  negb (pr_over p) &&
  match i with
  | Pi_Tick now => negb (pr_round p) && (pr_due p <=? now)
  | Pi_Tcp _ _ _ _ | Pi_Report _ _ => pr_round p
  | Pi_Echo _ _ _ => pr_round p && bool_decide (is_Some (pr_icmp p))
  end.

Definition prober_step (spec : Spec) (p : Prober) (i : ProberInput) : Prober :=
  match i with
  | Pi_Tick now =>
      mkProber (pr_icmp p) (next_tick (pr_due p) now (sp_interval spec)) true false (pr_sent p) (pr_starts p ++ [now]) (pr_reports p)
  | Pi_Tcp target start deadline w =>
      mkProber (pr_icmp p) (pr_due p) (pr_round p) (pr_over p) (pr_sent p ++ (tcp_attempt spec target start deadline w).1)
        (pr_starts p) (pr_reports p)
  | Pi_Echo target token now =>
      match pr_icmp p with
      | Some (s, icmp) =>
          let '(_, _, icmp) := Icmp_attempt icmp target token now in
          mkProber (Some (s, icmp)) (pr_due p) (pr_round p) (pr_over p) (pr_sent p ++ [mkSent s target]) (pr_starts p) (pr_reports p)
      | None => p
      end
  | Pi_Report r received =>
      mkProber (pr_icmp p) (pr_due p) false (negb received) (pr_sent p) (pr_starts p)
        (if received then pr_reports p ++ [Report_Round r] else pr_reports p)
  end.

(** The states of a prober that started at [t0]. *)
Inductive probed (spec : Spec) (t0 : Instant) : Prober -> Prop :=
  | probed_start faults id seq : probed spec t0 (prober_start spec faults id seq t0)
  | probed_step p i : probed spec t0 p -> prober_ready p i = true -> probed spec t0 (prober_step spec p i).

(** ** Theorems *)

(** A socket of the path. *)
Definition of_path (spec : Spec) (s : Sock) : Prop :=
  so_mark s = Some (sp_mark spec) /\ so_device s = Some (sp_interface spec) /\ so_source s = Some (sp_source spec) /\
  so_nonblocking s = true /\ so_v6 s = is_v6 (sp_source spec) /\
  (so_type s = Type_Raw -> so_filter s = Some (icmp_filter (negb (is_v6 (sp_source spec)))
    (if is_v6 (sp_source spec) then ECHO_REPLY_V6 else ECHO_REPLY_V4))).

Lemma set_options_ok s l faults s' : set_options s l faults = Ok s' -> s' = foldl set_option s l.
Proof.
  revert s faults. induction l as [|o l IH]; intros s faults; cbn; [by intros [= <-]|].
  destruct (head faults) as [[e|]|]; [done|apply IH..].
Qed.

Lemma probe_socket_ok spec ty faults s : probe_socket spec ty faults = Ok s ->
  s = mkSock (is_v6 (sp_source spec)) ty true (Some (sp_mark spec)) (Some (sp_interface spec)) (Some (sp_source spec)) None None.
Proof. unfold probe_socket. destruct (head faults) as [[e|]|]; [done|..]; by intros ->%set_options_ok. Qed.

Lemma Icmp_new_ok spec faults id seq s i : Icmp_new spec faults id seq = Ok (s, i) -> of_path spec s /\ i = mkIcmp (is_v6 (sp_source spec)) id seq ∅.
Proof.
  unfold Icmp_new. destruct (probe_socket _ _ _) as [s0|] eqn:Es; [|done]. apply probe_socket_ok in Es as ->.
  destruct (set_options _ _ _) as [s1|] eqn:E1; [|done]. apply set_options_ok in E1 as ->.
  destruct (drop 6 faults) as [|[e|] l]; intros [= <- <-]; split; done || by split_and!.
Qed.

Lemma tcp_attempt_sent spec target start deadline w : Forall (fun x => of_path spec (se_sock x)) (tcp_attempt spec target start deadline w).1.
Proof.
  unfold tcp_attempt. destruct (probe_socket _ _ _) as [s|] eqn:Es; [|done]. apply probe_socket_ok in Es as ->. cbn [fst].
  apply Forall_singleton. destruct (tw_linger w); by split_and!.
Qed.

(** The grid of the ticker that started at [t0]. *)
Definition on_grid (t0 period t : Instant) : Prop := exists m, t = t0 + m * period.

Record probed_inv (spec : Spec) (t0 : Instant) (p : Prober) : Prop := {
  pi_sent : Forall (fun x => of_path spec (se_sock x)) (pr_sent p);
  pi_icmp : forall s i, pr_icmp p = Some (s, i) -> of_path spec s;
  pi_due : on_grid t0 (sp_interval spec) (pr_due p);
  pi_rate : t0 + Z.of_nat (length (pr_starts p)) * sp_interval spec <= pr_due p;
  pi_past : Forall (fun t => t < pr_due p) (pr_starts p);
  pi_late : forall k t, pr_starts p !! k = Some t -> t0 + Z.of_nat k * sp_interval spec <= t;
  pi_apart : forall i j a b, (i < j)%nat -> pr_starts p !! i = Some a -> pr_starts p !! j = Some b ->
    exists g, on_grid t0 (sp_interval spec) g /\ a < g <= b;
  pi_reports : pr_over p = false ->
    length (pr_starts p) = (length (pr_reports p) + if pr_round p then 1 else 0)%nat /\ Forall (fun r => exists x, r = Report_Round x) (pr_reports p);
  pi_idle : pr_over p = true -> pr_starts p = [] -> pr_sent p = []
}.

Lemma next_tick_spec t0 due now period : 0 < period -> due <= now -> on_grid t0 period due ->
  on_grid t0 period (next_tick due now period) /\ due + period <= next_tick due now period /\ now < next_tick due now period.
Proof.
  intros Hp Hd [m ->]. unfold next_tick. pose proof (Z.mod_pos_bound (now - (t0 + m * period)) period Hp).
  pose proof (Z.mod_le (now - (t0 + m * period)) period ltac:(lia) Hp). split_and!; [|lia..].
  exists (m + 1 + (now - (t0 + m * period)) / period).
  pose proof (Z.div_mod (now - (t0 + m * period)) period ltac:(lia)). nia.
Qed.

Lemma probed_tick spec t0 p now : 0 < sp_interval spec -> probed_inv spec t0 p -> prober_ready p (Pi_Tick now) = true ->
  probed_inv spec t0 (prober_step spec p (Pi_Tick now)).
Proof.
  intros Hp [H1 H2 H3 H4 H5 H6 H7 H8 H9]. unfold prober_ready. rewrite !andb_true_iff, !negb_true_iff, Z.leb_le. intros (Ho & Hr & Hn).
  destruct (next_tick_spec t0 (pr_due p) now (sp_interval spec) Hp Hn H3) as (Hg & Hd & Hl).
  split; cbn [pr_sent pr_icmp pr_due pr_starts pr_over pr_reports pr_round prober_step]; [done|done|done| | | | | |done].
  - rewrite length_app. cbn [length]. nia.
  - apply Forall_app. split; [|by constructor]. eapply Forall_impl; [exact H5|]. cbn. lia.
  - intros k t [Hk|[Hk Ht]]%lookup_app_Some; [by apply H6|]. apply list_lookup_singleton_Some in Ht as [Hz <-].
    replace k with (length (pr_starts p)) by lia. lia.
  - intros i j a b Hij [Ha|[Hi Ha]]%lookup_app_Some [Hb|[Hj Hb]]%lookup_app_Some.
    + by eapply H7.
    + apply list_lookup_singleton_Some in Hb as [_ <-]. exists (pr_due p). split; [done|]. rewrite Forall_lookup in H5.
      specialize (H5 _ _ Ha). cbn in H5. lia.
    + apply lookup_lt_Some in Hb. lia.
    + apply list_lookup_singleton_Some in Ha as [? _], Hb as [? _]. lia.
  - intros _. destruct (H8 Ho) as [Hlen Hall]. rewrite Hr in Hlen. split; [|done]. rewrite length_app. cbn [length]. lia.
Qed.

Lemma probed_invariant spec t0 p : 0 < sp_interval spec -> probed spec t0 p -> probed_inv spec t0 p.
Proof.
  intros Hp. induction 1 as [faults id seq|p i _ IH Hr].
  - unfold prober_start. destruct (has_icmp spec).
    + destruct (Icmp_new spec faults id seq) as [[s icmp]|e] eqn:Ei.
      * apply Icmp_new_ok in Ei as [Hs _]. split; cbn; try done; [by intros ? ? [= <- <-]|exists 0; lia|lia].
      * split; cbn; try done; [exists 0; lia|lia].
    + split; cbn; try done; [exists 0; lia|lia].
  - destruct i as [now|target start deadline w|target token now|r received]; [by apply probed_tick| | |];
      destruct IH as [H1 H2 H3 H4 H5 H6 H7 H8 H9]; unfold prober_ready in Hr; apply andb_true_iff in Hr as [Ho%negb_true_iff Hr].
    + split; cbn; try done; [|by rewrite Ho]. apply Forall_app. split; [done|apply tcp_attempt_sent].
    + apply andb_true_iff in Hr as [Hr _]. cbn [prober_step]. destruct (pr_icmp p) as [[s icmp]|] eqn:Ei; [|by split; rewrite ?Ei].
      cbn. split; cbn; try done; [|by intros ? ? [= <- <-]; apply (H2 s icmp)|by rewrite Ho].
      apply Forall_app. split; [done|]. constructor; [|done]. by apply (H2 s icmp).
    + destruct (H8 Ho) as [Hlen Hall]. rewrite Hr in Hlen. split; cbn; try done.
      * destruct received; [intros _|done]. rewrite length_app. cbn. split; [lia|]. apply Forall_app. split; [done|]. constructor; [eauto|done].
      * intros _ E. rewrite E in Hlen. cbn in Hlen. lia.
Qed.

(** C37: A prober is confined to its path and to the ticks of its interval.
    In every run of a prober that starts at [t0], whichever calls fail, every
    packet leaves from a socket that carries the path's mark, is bound to its
    device and source, and (for echo requests) filters the replies; a prober
    whose socket cannot be set up sends nothing.  The [k]-th round starts no
    earlier than [k] intervals after [t0], so that at most one round per
    interval starts over any time since [t0]; between any two starts lies a
    tick [t0 + m * interval], so that a late round is not followed by a burst.
    Rounds do not overlap: while the task runs, every round that started
    was reported once, except the one that runs, and none starts meanwhile. *)
Theorem probes_confined (spec : Spec) (t0 : Instant) (p : Prober) : 0 < sp_interval spec -> probed spec t0 p ->
  Forall (fun x => of_path spec (se_sock x)) (pr_sent p) /\
  (pr_over p = true -> pr_starts p = [] -> pr_sent p = []) /\
  (forall k t, pr_starts p !! k = Some t -> t0 + Z.of_nat k * sp_interval spec <= t) /\
  (forall i j a b, (i < j)%nat -> pr_starts p !! i = Some a -> pr_starts p !! j = Some b ->
     exists m, a < t0 + m * sp_interval spec <= b) /\
  (pr_over p = false -> length (pr_starts p) = (length (pr_reports p) + if pr_round p then 1 else 0)%nat) /\
  (pr_round p = true -> forall now, prober_ready p (Pi_Tick now) = false).
Proof.
  intros Hp Hr. destruct (probed_invariant spec t0 p Hp Hr) as [H1 _ _ _ _ H6 H7 H8 H9]. split_and!; [done..| | |].
  - intros i j a b Hij Ha Hb. destruct (H7 i j a b Hij Ha Hb) as (g & [m ->] & Hg). by exists m.
  - intros Ho. by apply H8.
  - intros E now. unfold prober_ready. rewrite E. apply andb_false_r.
Qed.

(** A run of given inputs. *)
Fixpoint prober_run (spec : Spec) (p : Prober) (inputs : list ProberInput) : option Prober :=
  match inputs with
  | [] => Some p
  | i :: inputs => if prober_ready p i then prober_run spec (prober_step spec p i) inputs else None
  end.

Lemma prober_run_probed spec t0 inputs p p' : probed spec t0 p -> prober_run spec p inputs = Some p' -> probed spec t0 p'.
Proof.
  revert p. induction inputs as [|i inputs IH]; intros p Hp; cbn; [by intros [= <-]|].
  destruct (prober_ready p i) eqn:Er; [|done]. apply IH. by constructor.
Qed.

(** An echo target and a TCP target; the first round takes 25 seconds,
    so that a tick is skipped; a socket of the second round cannot be
    bound. *)
Module ProbeRunSample.
Definition target : SocketAddr := mkSocketAddr (IpV4 16843009) 443 0 0.
Definition spec : Spec :=
  mkSpec (mkPathKey (uid 1) V4) 1 (lit "wan") 5 (IpV4 3221225985) 256 [Target_Icmp (IpV4 134744072); Target_Tcp target]
    (from_secs 10) (from_secs 2) 2 1 false.
Definition tcp (faults : list (option ErrorKind)) : TcpWorld :=
  mkTcpWorld faults true InProgress 0 true (Some 5) 6 (Some (Some ConnectionRefused)) false.
Definition report : RoundReport := mkRoundReport (sp_path spec) 1 true 1 [] 0.
Definition inputs : list ProberInput :=
  [Pi_Tick 0; Pi_Echo (IpV4 134744072) (replicate 16 7) 1; Pi_Tcp target 1 (from_secs 2) (tcp []); Pi_Report report true;
   Pi_Tick (from_secs 25); Pi_Tcp target (from_secs 25) (from_secs 27) (tcp [None; None; None; None; Some NotFound]);
   Pi_Report report true; Pi_Tick (from_secs 30)].
Definition started : Prober := prober_start spec [] 7 65535 0.
End ProbeRunSample.

Lemma probes_confined_witness : exists p, prober_run ProbeRunSample.spec ProbeRunSample.started ProbeRunSample.inputs = Some p /\
  length (pr_sent p) = 2%nat /\ pr_starts p = [0; from_secs 25; from_secs 30] /\ pr_due p = from_secs 40 /\
  Forall (fun x => of_path ProbeRunSample.spec (se_sock x)) (pr_sent p).
Proof.
  destruct (prober_run ProbeRunSample.spec ProbeRunSample.started ProbeRunSample.inputs) as [p|] eqn:E; [|by vm_compute in E].
  exists p. split; [done|]. assert (E2 : (fun p => (length (pr_sent p), pr_starts p, pr_due p)) <$>
    prober_run ProbeRunSample.spec ProbeRunSample.started ProbeRunSample.inputs = Some (2%nat, [0; from_secs 25; from_secs 30], from_secs 40))
    by by vm_compute.
  rewrite E in E2. injection E2 as E2 E3 E4. split_and!; [done..|].
  refine (proj1 (probes_confined ProbeRunSample.spec 0 p _ _)); [vm_compute; reflexivity|].
  exact (prober_run_probed _ _ _ _ _ (probed_start _ _ [] 7 65535) E).
Defined.
