(* ===== verification/Metrics.v ===== *)
(** * Metrics: the Prometheus text

    Models crates/polywan/src/metrics.rs: the escaping of label values and
    the text of [GET /metrics] from the published status, the State task's
    totals and the notifiers' failure counts; and the [Display] of probe
    targets (crates/polywan/src/config/mod.rs).  The decimal text of a
    floating-point number is an argument. *)

From stdpp Require Import prelude gmap.
From Stdlib Require Import ZArith Lia.
From S2P Require Import Prelude Text Model Config QualityGates Reconcile Nft Status DaemonState DaemonCore.

Local Open Scope Z_scope.
Local Open Scope polywan_scope.

(** ** Targets *)

(** The derived order of [Target]. *)
#[export] Instance Target_Cmp : Cmp Target := cmp_by (fun t =>
  match t with
  | Target_Icmp a => (0, a, (0, 0, 0))
  | Target_Tcp s => (1, sa_ip s, (sa_port s, sa_flowinfo s, sa_scope_id s))
  end).

Definition SocketAddr_display (s : SocketAddr) : str :=
  match sa_ip s with
  | IpV4 a => Ipv4_display a ++ lit ":" ++ to_decimal (sa_port s)
  | IpV6 a =>
      lit "[" ++ Ipv6_display a ++ (if sa_scope_id s =? 0 then [] else lit "%" ++ to_decimal (sa_scope_id s)) ++
      lit "]:" ++ to_decimal (sa_port s)
  end.

Definition Target_display (t : Target) : str :=
  match t with
  | Target_Icmp a => lit "icmp:" ++ IpAddr_display a
  | Target_Tcp s => lit "tcp:" ++ SocketAddr_display s
  end.

(** ** The text *)

Definition BACKSLASH : Z := 92.

Definition label (v : str) : str :=
  concat ((fun c => if c =? BACKSLASH then [BACKSLASH; BACKSLASH] else if c =? QUOTE then [BACKSLASH; QUOTE]
                    else if c =? 10 then [BACKSLASH; 110] else [c]) <$> v).

(** A label in quotes. *)
Definition labelled (key value : str) : str := key ++ lit "=" ++ [QUOTE] ++ value ++ [QUOTE].

(** One family: its samples are pairs of labels and value. *)
Definition family (name kind help : str) (samples : list (str * str)) : str :=
  lit "# HELP " ++ name ++ lit " " ++ help ++ [10] ++ lit "# TYPE " ++ name ++ lit " " ++ kind ++ [10] ++
  concat ((fun '(labels, value) =>
    if bool_decide (labels = []) then name ++ lit " " ++ value ++ [10]
    else name ++ lit "{" ++ labels ++ lit "} " ++ value ++ [10]) <$> samples).

Definition flag (b : bool) : str := if b then lit "1" else lit "0".
Definition metric_path (uplink fam : str) : str := labelled (lit "uplink") (label uplink) ++ lit "," ++ labelled (lit "family") fam.

Record MetricFailures := mkMetricFailures { mf_email : u64; mf_hook : u64 }.

Section render.
Context (f64_text : f64 -> str).

Definition per_path (status : Status) (f : PathStatus -> option str) : list (str * str) :=
  omap (fun p => v ← f p; Some (metric_path (ps_uplink p) (ps_family p), v)) (ss_paths status).

(** [names]: the later of two uplinks with one id, as a map keeps it. *)
Definition names (status : Status) : list (UplinkId * str) :=
  omap (fun u => id ← UplinkId_new (us_id u); Some (id, us_name u)) (ss_uplinks status).
Definition name_of (status : Status) (id : UplinkId) : option str :=
  snd <$> last (List.filter (fun x => bool_decide (fst x = id)) (names status)).

Definition path_of (status : Status) (id : UplinkId) (f : Family) : option str :=
  n ← name_of status id; Some (metric_path n (Family_key f)).

Definition by_key (key : str) (l : list (str * u64)) : list (str * str) :=
  (fun '(k, n) => (labelled key k, to_decimal n)) <$> l.

Definition active_in (status : Status) (p : PathStatus) : bool :=
  match List.find (fun x => bool_decide (fst x = ps_family p)) (ss_active status) with
  | Some (_, set) => existsb (fun n => bool_decide (n = ps_uplink p)) set
  | None => false
  end.

Definition metric_families (status : Status) (c : Totals) (failures : MetricFailures) : list (str * str * str * list (str * str)) :=
  let gauge := lit "gauge" in
  let counter := lit "counter" in
  [(lit "polywan_build_info", gauge, lit "The running PolyWAN version.",
      [(labelled (lit "version") (label (ss_version status)), lit "1")]);
   (lit "polywan_status_degraded", gauge, lit "1 while the overall status is degraded.",
      [([], flag (bool_decide (ss_status status = lit "degraded")))]);
   (lit "polywan_path_up", gauge, lit "1 while the path's health is up.",
      per_path status (fun p => Some (flag (bool_decide (ps_state p = lit "up")))));
   (lit "polywan_path_ready", gauge, lit "1 while the path is ready (carrier, address, gateway).",
      per_path status (fun p => Some (flag (ps_ready p))));
   (lit "polywan_path_active", gauge, lit "1 while the path is in its family's active set.",
      per_path status (fun p => Some (flag (active_in status p))));
   (lit "polywan_uplink_drained", gauge, lit "1 while the uplink is drained.",
      (fun u => (labelled (lit "uplink") (label (us_name u)), flag (us_drained u))) <$> ss_uplinks status);
   (lit "polywan_path_rtt_seconds", gauge, lit "Median probe round-trip time over the quality window.",
      per_path status (fun p => f64_text <$> sc_rtt_seconds (ps_statistics p)));
   (lit "polywan_path_jitter_seconds", gauge,
      lit "Median absolute difference of consecutive round-trip times over the quality window.",
      per_path status (fun p => f64_text <$> sc_jitter_seconds (ps_statistics p)));
   (lit "polywan_path_loss_ratio", gauge, lit "Lost probe samples over the quality window.",
      per_path status (fun p => f64_text <$> sc_loss (ps_statistics p)));
   (lit "polywan_path_transitions_total", counter, lit "Health transitions of the path, by new state.",
      omap (fun '((u, f, to), n) => p ← path_of status u f;
        Some (p ++ lit "," ++ labelled (lit "to") to, to_decimal n)) (btree_iter (to_transitions c)));
   (lit "polywan_probe_samples_total", counter, lit "Probe samples of the path, by target and result.",
      omap (fun '((u, f, target, result), n) => p ← path_of status u f;
        Some (p ++ lit "," ++ labelled (lit "target") (label (Target_display target)) ++ lit "," ++
              labelled (lit "result") result, to_decimal n)) (btree_iter (to_probe_samples c)));
   (lit "polywan_artifact_repairs_total", counter,
      lit "Artifacts re-created after a removal by a third party, by kind.", by_key (lit "kind") (btree_iter (to_repairs c)));
   (lit "polywan_apply_failures_total", counter, lit "Failed operations of the reconciler, by kind.",
      by_key (lit "kind") ((fun k => (FailureKind_as_str k, default 0 (to_apply_failures c !! k))) <$>
        [FailRoute; FailRule; FailNftables; FailSysctl]));
   (lit "polywan_events_dropped_total", counter, lit "Events dropped because a notifier's queue was full.",
      by_key (lit "notifier") (to_events_dropped c));
   (lit "polywan_notifications_failed_total", counter,
      lit "Failed notifications: each failed sendmail submission, retries included, and each hook run that did not exit with 0; notification tests are not counted.",
      by_key (lit "channel") [(lit "email", mf_email failures); (lit "hook", mf_hook failures)])].

Definition metrics_render (status : Status) (c : Totals) (failures : MetricFailures) : str :=
  concat ((fun '(name, kind, help, samples) => family name kind help samples) <$> metric_families status c failures).
End render.

(** ** Reading the text back *)

(** The value of a label, up to its closing quote, and what follows. *)
Fixpoint read_value (s : str) : option (str * str) :=
  match s with
  | [] => None
  | c :: s =>
      if c =? QUOTE then Some ([], s)
      else if c =? BACKSLASH then
        match s with
        | d :: s =>
            let c := if d =? 110 then 10 else d in
            '(v, rest) ← read_value s; Some (c :: v, rest)
        | [] => None
        end
      else '(v, rest) ← read_value s; Some (c :: v, rest)
  end.

(** The label [key] in front of [s]. *)
Definition read_label (key s : str) : option (str * str) :=
  s ← strip_prefix (key ++ lit "=" ++ [QUOTE]) s; read_value s.

Definition oneline (s : str) : Prop := 10 ∉ s.

(** The lines of a family. *)
Definition family_lines (name kind help : str) (samples : list (str * str)) : list str :=
  [lit "# HELP " ++ name ++ lit " " ++ help; lit "# TYPE " ++ name ++ lit " " ++ kind] ++
  ((fun '(labels, value) => name ++ (if bool_decide (labels = []) then [] else lit "{" ++ labels ++ lit "}") ++ lit " " ++ value)
     <$> samples).

(** The strings that the source writes without escaping are constants of the
    program, and numbers: none has a line end. *)
Record plain_metrics (f64_text : f64 -> str) (status : Status) (c : Totals) : Prop := {
  pm_float : forall f, oneline (f64_text f);
  pm_family : forall p, p ∈ ss_paths status -> oneline (ps_family p);
  pm_to : forall u f to n, to_transitions c !! (u, f, to) = Some n -> oneline to;
  pm_result : forall u f t r n, to_probe_samples c !! (u, f, t, r) = Some n -> oneline r;
  pm_repairs : forall k n, to_repairs c !! k = Some n -> oneline k;
  pm_dropped : forall k n, (k, n) ∈ to_events_dropped c -> oneline k
}.

(** ** Lemmas *)

Lemma read_value_label v rest : read_value (label v ++ QUOTE :: rest) = Some (v, rest).
Proof.
  unfold label. induction v as [|c v IH]; [done|]. cbn [fmap list_fmap concat]. rewrite <- app_assoc.
  destruct (Z.eqb_spec c BACKSLASH) as [->|Hb]; [cbn; by rewrite IH|].
  destruct (Z.eqb_spec c QUOTE) as [->|Hq]; [cbn; by rewrite IH|].
  destruct (Z.eqb_spec c 10) as [->|Hn]; [cbn; by rewrite IH|].
  cbn [app read_value]. rewrite (proj2 (Z.eqb_neq _ _) Hq), (proj2 (Z.eqb_neq _ _) Hb), IH. done.
Qed.

Lemma read_label_labelled key v rest : read_label key (labelled key (label v) ++ rest) = Some (v, rest).
Proof.
  unfold read_label, labelled. replace ((key ++ lit "=" ++ [QUOTE] ++ label v ++ [QUOTE]) ++ rest)
    with ((key ++ lit "=" ++ [QUOTE]) ++ label v ++ QUOTE :: rest) by (by rewrite <- !app_assoc).
  rewrite strip_prefix_app. cbn [mbind option_bind]. apply read_value_label.
Qed.

Lemma oneline_app a b : oneline (a ++ b) <-> oneline a /\ oneline b.
Proof. unfold oneline. rewrite elem_of_app. tauto. Qed.

Lemma oneline_lit s : forallb (fun c => negb (c =? 10)) (lit s) = true -> oneline (lit s).
Proof. intros H Hin%list_elem_of_In. rewrite forallb_forall in H. by specialize (H 10 Hin). Qed.

Lemma oneline_label v : oneline (label v).
Proof.
  unfold oneline, label. induction v as [|c v IH]; [by apply not_elem_of_nil|]. cbn [fmap list_fmap concat].
  rewrite elem_of_app. intros [H|H]; [|done]. revert H. destruct (c =? BACKSLASH); [by vm_compute; set_solver|].
  destruct (c =? QUOTE); [by vm_compute; set_solver|]. destruct (Z.eqb_spec c 10); [by vm_compute; set_solver|].
  intros ?%list_elem_of_singleton. congruence.
Qed.

Lemma oneline_decimal n : oneline (to_decimal n).
Proof.
  unfold oneline, to_decimal. assert (H : forall fuel n acc, 10 ∉ acc -> 10 ∉ decimal_digits fuel n acc); [|by apply H, not_elem_of_nil].
  induction fuel as [|fuel IH]; intros k acc Ha; cbn [decimal_digits]; [done|].
  assert (10 ∉ (48 + k mod 10) :: acc).
  { apply not_elem_of_cons. split; [|done]. pose proof (Z.mod_pos_bound k 10). lia. }
  destruct (k / 10 =? 0); [done|]. by apply IH.
Qed.

Lemma oneline_labelled key v : oneline key -> oneline v -> oneline (labelled key v).
Proof.
  intros Hk Hv. unfold labelled. rewrite !oneline_app. split_and!; try done; [by apply oneline_lit|..];
    by intros ?%list_elem_of_singleton.
Qed.

Lemma oneline_flag b : oneline (flag b).
Proof. by destruct b; apply oneline_lit. Qed.

Lemma oneline_path u f : oneline f -> oneline (metric_path u f).
Proof.
  intros Hf. unfold metric_path. rewrite !oneline_app. split_and!; [|by apply oneline_lit|].
  - apply oneline_labelled; [by apply oneline_lit|apply oneline_label].
  - by apply oneline_labelled; [apply oneline_lit|].
Qed.

Create HintDb metrics.
#[export] Hint Resolve oneline_label oneline_decimal oneline_labelled oneline_flag oneline_path : metrics.
#[export] Hint Extern 1 (oneline (lit _)) => apply oneline_lit; reflexivity : metrics.
#[export] Hint Extern 1 (oneline (_ ++ _)) => apply oneline_app; split : metrics.
#[export] Hint Extern 1 (oneline (Family_key _)) => unfold Family_key : metrics.

Definition onelines (l : list (str * str)) : Prop := Forall (fun x => oneline (fst x) /\ oneline (snd x)) l.

Lemma per_path_onelines status f : (forall p, p ∈ ss_paths status -> oneline (ps_family p)) ->
  (forall p v, f p = Some v -> oneline v) -> onelines (per_path status f).
Proof.
  intros Hfam Hf. apply Forall_forall. intros x (p & Hp & E)%list_elem_of_omap.
  destruct (f p) as [v|] eqn:Ev; [|done]. injection E as <-. split; [|by eapply Hf]. by apply oneline_path, Hfam.
Qed.

Lemma by_key_onelines key l : oneline key -> (forall k n, (k, n) ∈ l -> oneline k) -> onelines (by_key key l).
Proof.
  intros Hkey Hl. apply Forall_forall. intros x ([k n] & -> & Hin)%list_elem_of_fmap. split; [|apply oneline_decimal].
  apply oneline_labelled; [done|]. by eapply Hl.
Qed.

Lemma path_of_oneline status u f p : path_of status u f = Some p -> oneline p.
Proof.
  unfold path_of. destruct (name_of status u); [|done]. intros [= <-]. apply oneline_path. by destruct f; apply oneline_lit.
Qed.

Lemma btree_iter_lookup {K V} `{Countable K, Cmp K} (m : gmap K V) k v : (k, v) ∈ btree_iter m -> m !! k = Some v.
Proof. unfold btree_iter. rewrite sort_by_key_Permutation. by rewrite elem_of_map_to_list. Qed.

(** Every family's name, kind, help and samples are single lines. *)
Lemma families_onelines f64_text status c failures : plain_metrics f64_text status c ->
  Forall (fun '(name, kind, help, samples) => oneline name /\ oneline kind /\ oneline help /\ onelines samples)
    (metric_families f64_text status c failures).
Proof.
  intros [Hfl Hfam Hto Hres Hrep Hdr].
  assert (Hpp : forall f, (forall p v, f p = Some v -> oneline v) -> onelines (per_path status f))
    by (intros; by apply per_path_onelines).
  assert (Hflag : forall g : PathStatus -> bool, onelines (per_path status (fun p => Some (flag (g p)))))
    by (intros g; apply Hpp; intros p v [= <-]; apply oneline_flag).
  assert (Hfloat : forall g : PathStatus -> option f64, onelines (per_path status (fun p => f64_text <$> g p)))
    by (intros g; apply Hpp; intros p v (x & _ & ->)%fmap_Some; apply Hfl).
  unfold metric_families. repeat (apply Forall_cons; split); [..|done].
  all: split_and!; try (by apply oneline_lit); try apply Hflag; try apply Hfloat.
  - apply Forall_singleton. split; [|by apply oneline_lit]. apply oneline_labelled; [by apply oneline_lit|apply oneline_label].
  - apply Forall_singleton. split; [apply not_elem_of_nil|apply oneline_flag].
  - apply Forall_fmap, Forall_true. intros u. split; [|apply oneline_flag].
    apply oneline_labelled; [by apply oneline_lit|apply oneline_label].
  - apply Forall_forall. intros x ([[[u f] to] n] & Hin%btree_iter_lookup & E)%list_elem_of_omap.
    destruct (path_of status u f) as [p|] eqn:Ep; [|done]. apply Some_inj in E as <-. split; [|apply oneline_decimal]. cbn [fst].
    rewrite !oneline_app. split_and!; [by eapply path_of_oneline|by apply oneline_lit|].
    apply oneline_labelled; [by apply oneline_lit|by eapply Hto].
  - apply Forall_forall. intros x ([[[[u f] t] r] n] & Hin%btree_iter_lookup & E)%list_elem_of_omap.
    destruct (path_of status u f) as [p|] eqn:Ep; [|done]. apply Some_inj in E as <-. split; [|apply oneline_decimal]. cbn [fst].
    rewrite !oneline_app. split_and!; [by eapply path_of_oneline|by apply oneline_lit| |by apply oneline_lit|];
      (apply oneline_labelled; [by apply oneline_lit|]); [apply oneline_label|by eapply Hres].
  - apply by_key_onelines; [by apply oneline_lit|]. intros k n Hin%btree_iter_lookup. by eapply Hrep.
  - apply by_key_onelines; [by apply oneline_lit|]. intros k n (x & [= -> ->] & _)%list_elem_of_fmap.
    by destruct x; apply oneline_lit.
  - apply by_key_onelines; [by apply oneline_lit|exact Hdr].
  - apply by_key_onelines; [by apply oneline_lit|]. intros k n Hin.
    apply elem_of_cons in Hin as [[= -> ->]|Hin]; [by apply oneline_lit|].
    apply list_elem_of_singleton in Hin as [= -> ->]. by apply oneline_lit.
Qed.

Lemma split_on_line l rest : oneline l -> split_on 10 (l ++ 10 :: rest) = l :: split_on 10 rest.
Proof.
  unfold oneline. induction l as [|c l IH]; intros Hl; [done|]. apply not_elem_of_cons in Hl as [Hc Hl]. cbn [app split_on].
  rewrite (proj2 (Z.eqb_neq c 10)) by congruence. by rewrite IH.
Qed.

(** Text made of complete lines. *)
Lemma split_complete_lines ls rest : Forall oneline ls ->
  split_on 10 (concat ((fun l => l ++ [10]) <$> ls) ++ rest) = ls ++ split_on 10 rest.
Proof.
  induction 1 as [|l ls Hl Hls IH]; [done|]. cbn [fmap list_fmap concat]. rewrite <- !app_assoc. cbn [app].
  rewrite split_on_line by done. by rewrite IH.
Qed.

Lemma family_lines_text name kind help samples :
  family name kind help samples = concat ((fun l => l ++ [10]) <$> family_lines name kind help samples).
Proof.
  unfold family, family_lines. change (lit "} ") with (lit "}" ++ lit " ").
  generalize (lit "# HELP ") (lit "# TYPE ") (lit "{") (lit "}") (lit " "). intros h t o cl sp.
  cbn [app fmap list_fmap concat]. rewrite <- !app_assoc. repeat f_equal.
  induction samples as [|[labels value] samples IH]; [done|]. cbn [fmap list_fmap concat]. rewrite IH.
  case_bool_decide; simpl; by rewrite <- !app_assoc.
Qed.

Lemma family_lines_oneline name kind help samples :
  oneline name -> oneline kind -> oneline help -> onelines samples -> Forall oneline (family_lines name kind help samples).
Proof.
  intros Hn Hk Hh Hs. unfold family_lines. repeat (apply Forall_cons; split);
    [rewrite !oneline_app; split_and!; try done; by apply oneline_lit..|].
  apply Forall_fmap. eapply Forall_impl; [exact Hs|]. intros [labels value] [Hl Hv]. cbn [fst snd] in Hl, Hv. cbv beta iota delta [compose].
  case_bool_decide; rewrite ?oneline_app; split_and!; first [done|by apply oneline_lit|apply not_elem_of_nil].
Qed.

(** The metrics say what the status says, whatever the names: the text
    splits into exactly the documented lines, one for each sample, and the
    name of an uplink, the version and every other escaped label read back
    as they were. *)
Theorem metrics_read_back (f64_text : f64 -> str) (status : Status) (c : Totals) (failures : MetricFailures) :
  plain_metrics f64_text status c ->
  split_on 10 (metrics_render f64_text status c failures) =
    concat ((fun '(name, kind, help, samples) => family_lines name kind help samples) <$>
      metric_families f64_text status c failures) ++ [[]] /\
  forall key value rest, read_label key (labelled key (label value) ++ rest) = Some (value, rest).
Proof.
  intros Hp%(families_onelines _ _ _ failures). split; [|apply read_label_labelled]. unfold metrics_render.
  induction Hp as [|[[[name kind] help] samples] l (Hn & Hk & Hh & Hs) Hl IH]; [done|]. cbn [fmap list_fmap concat].
  rewrite family_lines_text, split_complete_lines by (by apply family_lines_oneline). rewrite <- app_assoc. f_equal. exact IH.
Qed.

Module MetricsSample.
Definition status : Status :=
  mkStatus (lit "2.0.0") (lit "i") [] [] (mkGenerations 1 1) (lit "degraded") []
    [mkUplinkStatus (lit "b" ++ [QUOTE; 10] ++ lit "x 1") 2 (lit "wanb") true]
    [mkPathStatus (lit "b" ++ [QUOTE; 10] ++ lit "x 1") (lit "ipv4") (lit "up") true (lit "probe") [] None None []
       (mkStatistics 4 None None None)]
    [].
Definition text (_ : f64) : str := lit "0".

Lemma plain_sample : plain_metrics text status Totals_default.
Proof.
  split.
  - intros f. by apply oneline_lit.
  - intros p Hp. apply list_elem_of_singleton in Hp as ->. by apply oneline_lit.
  - intros u f to n H. cbn [Totals_default to_transitions to_probe_samples to_repairs] in H. by rewrite lookup_empty in H.
  - intros u f t r n H. cbn [Totals_default to_transitions to_probe_samples to_repairs] in H. by rewrite lookup_empty in H.
  - intros k n H. cbn [Totals_default to_transitions to_probe_samples to_repairs] in H. by rewrite lookup_empty in H.
  - intros k n H. by apply not_elem_of_nil in H.
Qed.
End MetricsSample.

Lemma metrics_read_back_witness :
  split_on 10 (metrics_render MetricsSample.text MetricsSample.status Totals_default (mkMetricFailures 0 0)) =
    concat ((fun '(name, kind, help, samples) => family_lines name kind help samples) <$>
      metric_families MetricsSample.text MetricsSample.status Totals_default (mkMetricFailures 0 0)) ++ [[]].
Proof.
  apply (metrics_read_back MetricsSample.text MetricsSample.status Totals_default (mkMetricFailures 0 0) MetricsSample.plain_sample).
Defined.
