(* ===== verification/DaemonControl.v ===== *)
(** * The State task: commands, reconciliation passes, reloads, the loop

    Models the handlers of crates/polywan/src/daemon.rs that serve the
    control socket's commands, apply the desired state, retry what failed,
    reload the configuration, and the event loop that runs them. *)

From stdpp Require Import prelude gmap sorting.
From Stdlib Require Import ZArith Lia.
From S2P Require Import Prelude Text Model Health QualityGates Probe Select Durations Config Plan Msg Netlink System.
From S2P Require Import Reconcile Discover Observer Events StateFiles Sysctl Nft Status Checks ApiServer Worker.
From S2P Require Import DaemonState DaemonCore.

Local Open Scope Z_scope.
Local Open Scope polywan_scope.

(** ** JSON bodies *)

(** [serde_json::json!] of an object, and [body[key] = v]. *)
Definition json (entries : list (str * Value)) : Value := Object (sort_by_key fst entries).
Definition json_set (key : str) (v : Value) (o : Value) : Value :=
  match o with
  | Object m => json (List.filter (fun e => negb (bool_decide (e.1 = key))) m ++ [(key, v)])
  | o => o
  end.
Definition json_u64 (n : u64) : Value := Num (PosInt n).
Definition json_i32 (n : i32) : Value := Num (if n <? 0 then NegInt n else PosInt n).
Definition json_option {A} (f : A -> Value) (o : option A) : Value := match o with Some a => f a | None => Null end.

Section control.
Context {W : Type} `{DaemonWorld W}.
(** The [Debug] forms of a string and of the operations of a pass, the text
    of an operation and of its failure. *)
Context (quoted : str -> str) (debug_ops : list Op -> str) (op_text : Op -> str) (failure_text : Failure -> str).
Abbreviation M := (M W).

(** ** Failures and retries *)

Definition BACKOFF_MAX : Duration := from_secs 60.
Definition next_backoff (previous : option Duration) : Duration :=
  match previous with Some b => Z.min (b * 2) BACKOFF_MAX | None => from_secs 1 end.

(** The path whose table a route failed in. *)
Definition failed_path (d : Daemon) (family : Family) (table : u32) : option PathKey :=
  find_first (fun k => bool_decide (pk_family k = family) && (path_table (d_layout d) (pk_uplink k) =? table))
    (btree_keys (d_paths d)).

Definition failed_answer (f : DFailure) : Answer :=
  mkAnswer 500 (json
    [(lit "error", Str (lit "not applied: a step failed; PolyWAN keeps retrying"));
     (lit "failed_steps", Array [json [(lit "operation", Str (df_op f)); (lit "kind", Str (FailureKind_as_str (df_kind f)));
                                       (lit "errno", json_option json_i32 (df_errno f))]])]).

Definition failed (f : DFailure) (attempt : str) : M unit :=
  modify (fun d => d <| d_attempted := true |> <| d_totals ::= fun x => x <| to_apply_failures ::= Totals_count (df_kind f) |> |>) ;;
  push_event (failure_event (df_op f) (df_kind f) (df_errno f) (df_extack f)) ;;
  degrade (lit "apply_failed") ;;
  d ← get_d;
  match d_command d with
  | Some (Applying _ _ _ _ reply) =>
      modify (fun d => d <| d_command := None |>) ;; reply_send reply (failed_answer f)
  | _ => mret tt
  end ;;
  match df_route f with
  | Some (family, table) =>
      reread_insert [(family, table)] ;;
      match failed_path d family table with
      | Some key => modify (fun d => d <| d_route_failed ::= <[key := df_error f]> |>)
      | None => mret tt
      end
  | None => mret tt
  end ;;
  let backoff := next_backoff (match d_retry d with
                               | Some r => if bool_decide (re_attempt r = attempt) then Some (re_backoff r) else None
                               | None => None
                               end) in
  t ← now;
  modify (fun d => d <| d_retry := Some (mkRetry (t + backoff) backoff attempt) |> <| d_dirty := true |>).

Definition applied : M unit :=
  d ← get_d;
  modify (fun d => d <| d_retry := None |>) ;;
  when (bool_decide (d_sysctls_failed d = ∅) &&
        (bool_decide (is_Some (d_retry d)) || bool_decide (lit "apply_failed" ∈ d_degraded d)))
    (recover (lit "apply_failed")).

(** ** Reloads *)

Definition start_reload : M unit :=
  d ← get_d;
  match d_reload d with
  | Some _ => modify (fun d => d <| d_reload_again := true |>)
  | None =>
      match d_command d with
      | Some (Persisting _ _ _ _) | Some (Forgetting _ _ _) => modify (fun d => d <| d_reload_deferred := true |>)
      | _ =>
          seq ← next_seq;
          give (E_ValidateReload seq (mkReloadContext (Config_structural (d_cfg d)) (cf_state_dir (d_cfg d))
            (fw_nft_path (cf_firewall (d_cfg d))) (local_addresses (d_system d)))) ;;
          modify (fun d => d <| d_reload := Some (Validating seq) |>)
      end
  end.

Definition end_reload : M unit :=
  again ← gets d_reload_again;
  modify (fun d => d <| d_reload := None |> <| d_reload_again := false |>) ;;
  when again start_reload.

Definition reload_failed_answer (errors : list str) : Answer :=
  mkAnswer 422 (json
    [(lit "error", Str (lit "the configuration was not reloaded; the running configuration is kept"));
     (lit "errors", Array (Str <$> errors))]).

Definition reload_failed (errors : list str) : M unit :=
  d ← get_d;
  match d_command d with
  | Some (Reloading reply) =>
      when (negb (d_reload_again d))
        (modify (fun d => d <| d_command := None |>) ;; reply_send reply (reload_failed_answer errors))
  | _ => mret tt
  end ;;
  push_event (NewEvent_new (lit "reload_failed")
    (lit "the configuration was not reloaded; the running configuration is kept")) ;;
  end_reload.

Definition reload_validated (outcome : ReloadOutcome) : M unit :=
  d ← get_d;
  match d_reload d with
  | Some (Validating seq) =>
      if negb (seq =? ro_seq outcome) then mret tt else
      match ro_running_flowtables outcome with Some listing => record_flowtables listing | None => mret tt end ;;
      match ro_result outcome with
      | Err errors => reload_failed errors
      | Ok (new, endpoints) =>
          if negb (d_api d) then reload_failed [lit "the API is not running"] else
          seq ← next_seq;
          give (E_PrepareApi seq endpoints) ;;
          modify (fun d => d <| d_reload := Some (Preparing seq new) |>)
      end
  | _ => mret tt
  end.

Definition api_command (c : ApiCommand) : M unit :=
  api ← gets d_api; when api (give (E_Api c)).

(** The names of drained uplinks, in id order. *)
Definition drain_names (cfg : Config) (drained : gset UplinkId) : list str :=
  omap (fun id => u_name <$> Config_uplink cfg id) (bset_iter drained).

Definition api_prepared (seq : u64) (result : result unit str) : M unit :=
  d ← get_d;
  match d_reload d with
  | Some (Preparing s new) =>
      if negb (s =? seq) then mret tt else
      modify (fun d => d <| d_reload := None |>) ;;
      match result with
      | Err e => reload_failed [e]
      | Ok _ =>
          let drained : gset UplinkId := filter (fun id => is_Some (Config_uplink new id)) (d_drained d) in
          let drain := if bool_decide (drained = d_drained d) then None
                       else Some (DrainState_of (drain_names new drained)) in
          seq ← next_seq;
          r ← lanes_persist (Job_Bind seq new drain);
          match r with
          | Ok _ => modify (fun d => d <| d_reload := Some (Binding seq new drained) |>)
          | Err Full => api_command Cmd_Rollback ;; reload_failed [lit "the persistence queue is full"]
          | Err Closed => lost
          end
      end
  | _ => mret tt
  end.

(** The settings that a reload wants, and what is forgotten of the others. *)
Definition reload_sysctls : M unit :=
  modify (fun d =>
    let wanted := wanted_sysctls (d_cfg d) in
    let pending : gset SysctlScope := dom wanted in
    let kept (i : str) : bool := bool_decide (Interface i ∈ pending) in
    let d := d <| d_sysctls_applied ::= filter (fun e => is_Some (wanted !! e.1)) |>
               <| d_sysctls_pending := pending |>
               <| d_sysctl_retries ::= filter (fun e => kept e.1 = true) |>
               <| d_sysctls_failed ::= filter (fun e => kept e.1 = true) |> in
    if rt_manage_sysctls (cf_routing (d_cfg d)) then d else
    let d := d <| d_sysctl_retries := ∅ |> <| d_sysctls_failed := ∅ |> in
    match d_retry d with
    | Some r => if bool_decide (re_attempt r = SYSCTL_ATTEMPT) then d <| d_retry := None |> else d
    | None => d
    end) ;;
  modify (fun d => d <| d_sysctls_flight := ∅ |>).

Definition email_selection (cfg : Config) : list str :=
  match nt_email (cf_notify cfg) with Some e => em_events e | None => [] end.

Definition reload_commit (config : Config) (drained : gset UplinkId) : M unit :=
  modify (fun d => d <| d_drained := drained |> <| d_cfg := config |> <| d_nft_transaction := Nft.transaction config |>) ;;
  let configured : gset UplinkId := list_to_set (u_id <$> cf_uplinks config) in
  modify (fun d => d <| d_totals ::= Totals_retain_uplinks (fun id => bool_decide (id ∈ configured)) |>) ;;
  prune_paths (fun k => bool_decide (pk_uplink k ∈ configured)) ;;
  modify (fun d => d <| d_scope ::= fun s => mkScope (sco_polywan_tables s) (rt_discovery_tables (cf_routing config)) |>) ;;
  reload_sysctls ;;
  modify (fun d => d <| d_bus ::= fun b => Bus_select b (lit "email") (Some (email_selection config)) |>) ;;
  give (E_Notify (cf_notify config)) ;;
  push_event (NewEvent_new (lit "config_reloaded") (lit "the configuration was reloaded")).

Definition reload_bound (seq : u64) (result : result unit (list str)) : M unit :=
  d ← get_d;
  match d_reload d with
  | Some (Binding s config drained) =>
      if negb (s =? seq) then mret tt else
      modify (fun d => d <| d_reload := None |>) ;;
      match result with
      | Err errors => api_command Cmd_Rollback ;; reload_failed errors
      | Ok _ =>
          api_command Cmd_Commit ;;
          reload_commit config drained ;;
          d ← get_d;
          match d_command d with
          | Some (Reloading reply) =>
              when (negb (d_reload_again d))
                (t ← now;
                 modify (fun d => d <| d_command :=
                   Some (Applying None t (lit "respond reload") (json [(lit "reloaded", Bool true)]) reply) |>))
          | _ => mret tt
          end ;;
          set_dirty ;;
          end_reload
      end
  | _ => mret tt
  end.

(** ** Commands of the control socket *)

Definition intent_written : M unit :=
  d ← get_d;
  match d_reload d with
  | None =>
      modify (fun d => d <| d_reload_deferred := false |>) ;; when (d_reload_deferred d) start_reload
  | Some _ => mret tt
  end.

Definition candidates (d : Daemon) (family : Family) : list UplinkId :=
  u_id <$> List.filter (fun u => bool_decide (is_Some (u_priority u)) && negb (bool_decide (u_id u ∈ d_drained d)) &&
    match d_paths d !! mkPathKey (u_id u) family with Some p => m_ready (pr_machine p) | None => false end)
    (cf_uplinks (d_cfg d)).

(** The first family whose last candidate the uplink is. *)
Definition last_candidate (d : Daemon) (id : UplinkId) : option Family :=
  find_first (fun f => bool_decide (candidates d f = [id])) Family_ALL.

(** The answer of a lane that did not take a job. *)
Definition not_queued (e : Lost) (reply : Reply) : M unit :=
  match e with
  | Full => reply_send reply (Answer_error 503 (lit "the state directory is busy"))
  | Closed => lost
  end.

Definition start_drain (name : str) (drain force : bool) (reply : Reply) : M unit :=
  d ← get_d;
  match find_first (fun u => bool_decide (u_name u = name)) (cf_uplinks (d_cfg d)) with
  | None => reply_send reply (Answer_error 404 (lit "no uplink is named " ++ quoted name))
  | Some u =>
      let id := u_id u in
      match (if drain && negb force then last_candidate d id else None) with
      | Some family =>
          reply_send reply (Answer_error 409
            (name ++ lit " is the last " ++ Family_key family ++ lit " candidate; draining it needs force (FR-SEL-4)"))
      | None =>
          let drained := if drain then {[id]} ∪ d_drained d else d_drained d ∖ {[id]} in
          seq ← next_seq;
          r ← lanes_persist (Job_Drain seq (DrainState_of (drain_names (d_cfg d) drained)));
          match r with
          | Ok _ => modify (fun d => d <| d_command := Some (Persisting seq id drain reply) |>)
          | Err e => not_queued e reply
          end
      end
  end.

Definition start_forget (uplink : str) (reply : Reply) : M unit :=
  d ← get_d;
  if existsb (fun u => bool_decide (u_name u = uplink)) (cf_uplinks (d_cfg d)) then
    reply_send reply (Answer_error 409
      (lit "uplink " ++ quoted uplink ++ lit " is still in the configuration; remove it and reload first"))
  else
    seq ← next_seq;
    r ← lanes_persist (Job_Forget seq uplink);
    match r with
    | Ok _ => modify (fun d => d <| d_command := Some (Forgetting seq uplink reply) |>)
    | Err e => not_queued e reply
    end.

Definition start_order (action : ApiAction) (reply : Reply) : M unit :=
  closed ← is_closed reply;
  if (closed : bool) then mret tt else
  match action with
  | Action_Drain uplink force => start_drain uplink true force reply
  | Action_Undrain uplink => start_drain uplink false false reply
  | Action_Reload => modify (fun d => d <| d_command := Some (Reloading reply) |>) ;; start_reload
  | Action_Forget uplink => start_forget uplink reply
  end.

Definition forgotten (seq : u64) (result : result u8 str) : M unit :=
  d ← get_d;
  match d_command d with
  | Some (Forgetting s uplink reply) =>
      if negb (s =? seq) then mret tt else
      modify (fun d => d <| d_command := None |>) ;;
      reply_send reply (match result with
                        | Ok id => mkAnswer 200 (json [(lit "uplink", Str uplink); (lit "id", json_u64 id)])
                        | Err e => Answer_error 409 e
                        end) ;;
      intent_written
  | _ => mret tt
  end.

(** The completion of a written drain intent. *)
Definition drained (seq : u64) (result : result unit str) : M unit :=
  d ← get_d;
  match d_command d with
  | Some (Persisting s uplink drain reply) =>
      if negb (s =? seq) then mret tt else
      modify (fun d => d <| d_command := None |>) ;;
      let name := match Config_uplink (d_cfg d) uplink with Some u => u_name u | None => [] end in
      match result with
      | Err _ =>
          reply_send reply (Answer_error 500 (lit "the drain state could not be written; nothing changed")) ;;
          intent_written
      | Ok _ =>
          modify (fun d => d <| d_drained ::= fun s => if drain then {[uplink]} ∪ s else s ∖ {[uplink]} |>) ;;
          push_event (NewEvent_uplink
            (NewEvent_new (if drain then lit "uplink_drained" else lit "uplink_undrained")
              (lit "uplink " ++ name ++ lit " " ++ if drain then lit "drained" else lit "undrained")) name) ;;
          set_dirty ;;
          t ← now;
          modify (fun d => d <| d_command := Some (Applying None t
            (if drain then lit "respond drain" else lit "respond undrain")
            (json [(lit "uplink", Str name); (lit "drained", Bool drain)]) reply) |>) ;;
          intent_written
      end
  | _ => mret tt
  end.

Definition check_command : M unit :=
  d ← get_d;
  match d_command d with
  | Some (Applying target since step answer reply) =>
      let applied := match target with Some t => t <=? d_applied_generation d | None => false end in
      t ← now;
      if negb applied && (Z.max 0 (t - since) <? COMMAND_WAIT) then mret tt else
      modify (fun d => d <| d_command := None |>) ;;
      reply_send reply
        (if applied then mkAnswer 200 (json_set (lit "generation") (json_u64 (default 0 target)) answer)
         else mkAnswer 202 (json [(lit "error", Str (lit "not yet applied; PolyWAN keeps applying it"));
                                  (lit "generation", json_option json_u64 target)]))
  | _ => mret tt
  end.

(** ** Settings *)

Definition dispatch_scope (global : bool) (scope : SysctlScope) : M unit :=
  d ← get_d;
  if bool_decide (is_Some (d_sysctls_flight d !! scope)) then mret tt else
  t ← now;
  let skip := match scope with
              | Interface i => match d_sysctl_retries d !! i with Some r => t <? re_at r | None => false end
              | Global => negb global
              end in
  if skip then mret tt else
  let wanted := default ([], false) (wanted_sysctls_of (d_cfg d) scope) in
  seq ← next_seq;
  r ← lanes_persist (Job_Sysctls seq scope (fst wanted) (snd wanted));
  match r with
  | Ok _ => modify (fun d => d <| d_sysctls_flight ::= <[scope := (seq, wanted)]> |>)
  | Err Full => set_dirty
  | Err Closed => lost
  end.

(** The interfaces' settings first. *)
Definition dispatch_sysctls (global : bool) : M unit :=
  d ← get_d;
  for_each (sort_by_key (fun s => bool_decide (s = Global)) (bset_iter (d_sysctls_pending d))) (dispatch_scope global).

Definition sysctls_done (seq : u64) (scope : SysctlScope) (result : result unit str) : M unit :=
  d ← get_d;
  match d_sysctls_flight d !! scope with
  | Some (s, job) =>
      if negb (s =? seq) then mret tt else
      modify (fun d => d <| d_sysctls_flight ::= delete scope |> <| d_dirty := true |>) ;;
      match result, scope with
      | Ok _, _ =>
          modify (fun d => d <| d_sysctls_pending ::= fun s => s ∖ {[scope]} |> <| d_sysctls_applied ::= <[scope := job]> |>) ;;
          match scope with
          | Interface i =>
              modify (fun d => d <| d_sysctl_retries ::= delete i |> <| d_sysctls_failed ::= delete i |>)
          | Global => mret tt
          end
      | Err e, Interface i =>
          modify (fun d => d <| d_sysctls_applied ::= delete scope |>
            <| d_totals ::= fun x => x <| to_apply_failures ::= Totals_count FailSysctl |> |>) ;;
          push_event (failure_event (lit "set sysctls of " ++ i) FailSysctl None None) ;;
          modify (fun d => d <| d_sysctls_failed ::= <[i := e]> |>) ;;
          degrade (lit "apply_failed") ;;
          d ← get_d;
          let backoff := next_backoff (re_backoff <$> d_sysctl_retries d !! i) in
          t ← now;
          modify (fun d => d <| d_sysctl_retries ::= <[i := mkRetry (t + backoff) backoff SYSCTL_ATTEMPT]> |>)
      | Err e, Global =>
          modify (fun d => d <| d_sysctls_applied ::= delete scope |>) ;;
          failed (Failure_new (lit "set sysctls") FailSysctl e) SYSCTL_ATTEMPT
      end
  | None => mret tt
  end.

(** ** A reconciliation pass *)

Section pass.
Context {D : Type} `{Clock W, Dumper D W} (dumper : D).
Context (mutate : W -> RouteNetlinkMessage -> Mutation -> W * option KernelError).

(** [observer::reread] of the tables marked, in the daemon's view. *)
Definition reread_marked : M unit := fun s =>
  let d := st_d s in
  let tables := bset_iter (d_reread d) in
  let '(sys, _, w) := reread dumper (d_scope d) (d_system d) tables (st_w s) in
  (tt, mkSt (d <| d_reread := ∅ |> <| d_system := sys |>) w).

(** The assignments the table holds, once the transaction in flight ended. *)
Definition surviving (d : Daemon) : option (gset Assignment) :=
  let installed := match d_nft_applied d with Some (_, a) => Some a | None => d_nft_adopted d end in
  match installed, d_nft_flight d with
  | Some i, Some f => Some (i ∩ fl_configured f)
  | i, _ => i
  end.

Definition is_managed (d : Daemon) : bool := bool_decide (fw_mode (cf_firewall (d_cfg d)) = Managed).

Definition nft_pending (d : Daemon) : bool :=
  is_managed d && (d_nft_missing d || bool_decide (is_Some (d_nft_flight d)) ||
    negb (bool_decide (fst <$> d_nft_applied d = Some (d_nft_transaction d)))).

(** What the pass plans: the desired state, and the operations that lead to
    it from the view. *)
Definition planned_ops (d : Daemon) (input : Input) (want : Desired) : list Op :=
  let new_paths := if is_managed d then unassigned (assignments (d_cfg d)) (surviving d) else ∅ in
  let before := if bool_decide (new_paths = ∅) then want else plan (d_cfg d) (Plan.without input new_paths) in
  diff (d_system d) (mkDiffInput (d_layout d) (d_protocol d) (List.filter (Config_manages (d_cfg d)) Family_ALL)
    before want (nft_pending d)).

(** Repairs held until a full reconciliation. *)
Definition not_held (d : Daemon) (op : Op) : bool :=
  match op with
  | AddRule r => negb (existsb (fun h => ObservedRule_is h r (d_protocol d)) (d_held_rules d))
  | ReplaceRoute r => negb (bool_decide ((route_family r, route_table r) ∈ d_held_routes d))
  | _ => true
  end.

Definition is_nft (op : Op) : bool := match op with ApplyNft => true | _ => false end.

(** A new desired state is a new generation. *)
Definition record_desired (want : Desired) : M unit :=
  modify (fun d =>
    let now := (want, d_nft_transaction d, cf_digest (d_cfg d)) in
    let d := if bool_decide (d_last_desired d = Some now) then d
             else d <| d_desired_generation ::= fun g => g + 1 |> <| d_last_desired := Some now |> in
    d <| d_planned := true |>).

(** The end of a pass that found nothing to do. *)
Definition report_repairs : M unit :=
  kinds ← gets (fun d => bset_iter (d_repairs d));
  modify (fun d => d <| d_repairs := ∅ |>) ;;
  for_each kinds (fun kind =>
    modify (fun d => d <| d_totals ::= fun x => x <| to_repairs ::= Totals_count kind |> |>) ;;
    push_event (NewEvent_reason (NewEvent_new (lit "artifact_repaired")
      (lit "PolyWAN's " ++ kind ++ lit " removed by a third party are restored")) kind)).

Definition nothing_to_do (attempt : str) : M unit :=
  d ← get_d;
  if bool_decide (is_Some (d_nft_flight d)) || bool_decide (is_Some (d_hand_back d)) then mret tt else
  let gone := departed (d_manifest d) (d_cfg d) in
  if negb (bool_decide (gone = [])) && rt_manage_sysctls (cf_routing (d_cfg d)) then
    seq ← next_seq;
    r ← lanes_persist (Job_HandBack seq gone);
    match r with
    | Ok _ => modify (fun d => d <| d_hand_back := Some (seq, attempt) |>)
    | Err Full => set_dirty
    | Err Closed => lost
    end
  else
    when (bool_decide (d_sysctls_pending d = ∅))
      (modify (fun d => d <| d_applied_generation := d_desired_generation d |>)) ;;
    report_repairs ;;
    modify (fun d => d <| d_applied_ops := 0 |> <| d_attempted := true |>) ;;
    applied.

(** [reconcile::execute] on the daemon's view; [Ok true] when the nftables
    step is due. *)
Definition execute_ops (ops : list Op) : M (result bool Failure) := fun s =>
  let d := st_d s in
  let '(t, w) := instant_now (st_w s) in
  let '(w, sys, r) := execute mutate (d_scope d) (d_protocol d) t w (d_system d) ops in
  (r, mkSt (d <| d_system := sys |>) w).

Definition DFailure_of (f : Failure) : DFailure :=
  mkDFailure (op_text (fail_op f)) (fail_kind f) (fail_errno f) (fail_extack f) (failure_text f) (fail_route f).

Definition apply_ops (ops : list Op) (attempt : str) : M unit :=
  d ← get_d;
  let count := Z.of_nat (length ops) in
  r ← execute_ops ops;
  match r with
  | Ok true =>
      modify (fun d => d <| d_applied_ops ::= fun n => n + (count - 1) |>) ;;
      seq ← next_seq;
      r ← lanes_nft (NftJob_Apply seq (fw_nft_path (cf_firewall (d_cfg d))) (d_nft_transaction d));
      match r with
      | Ok _ => modify (fun x => x <| d_nft_flight :=
          Some (mkNftFlight seq (d_nft_transaction d) (assignments (d_cfg d)) attempt) |>)
      | Err Full => set_dirty
      | Err Closed => lost
      end
  | Ok false => modify (fun d => d <| d_applied_ops ::= fun n => n + count |> <| d_dirty := true |>)
  | Err f => failed (DFailure_of f) attempt
  end.

(** The pass after evaluation. *)
Definition reconcile (waiting : option str) (input : Input) : M unit :=
  d ← get_d;
  let want := plan (d_cfg d) input in
  record_desired want ;;
  let ops := planned_ops d input want in
  full ← gets d_full_pass;
  modify (fun d => d <| d_full_pass := false |>) ;;
  when full (modify (fun d => d <| d_held_rules := [] |> <| d_held_routes := ∅ |>)) ;;
  d ← get_d;
  let ops := List.filter (not_held d) ops in
  let attempt := debug_ops ops in
  if bool_decide (waiting = Some attempt) then modify (fun d => d <| d_full_pass ::= fun b => b || full |>) else
  let ops := if bool_decide (is_Some (d_nft_flight d)) then take_while (fun o => negb (is_nft o)) ops else ops in
  match ops with
  | [] => nothing_to_do attempt
  | _ => apply_ops ops attempt
  end.

Definition step : M unit :=
  modify (fun d => d <| d_planned := false |>) ;;
  t ← now;
  d ← get_d;
  let waiting := match d_retry d with Some r => if t <? re_at r then Some (re_attempt r) else None | None => None end in
  when (negb (bool_decide (d_sysctls_pending d = ∅)))
    (dispatch_sysctls (negb (bool_decide (waiting = Some SYSCTL_ATTEMPT)))) ;;
  d ← get_d;
  if d_installing d && negb (bool_decide (d_sysctls_flight d = ∅)) then mret tt else
  modify (fun d => d <| d_installing := false |>) ;;
  d ← get_d;
  if negb (bool_decide (d_sysctls_pending d = ∅)) && sysctls_unapplied d Global None then evaluate ;; mret tt else
  reread_expired ;;
  d ← get_d;
  when (negb (bool_decide (d_reread d = ∅))) reread_marked ;;
  input ← evaluate;
  reconcile waiting input.

(** ** Completions *)

Definition nft_applied (seq : u64) (result : result (option Value) str) : M unit :=
  d ← get_d;
  match d_nft_flight d with
  | Some flight =>
      if negb (fl_seq flight =? seq) then mret tt else
      modify (fun d => d <| d_nft_flight := None |> <| d_dirty := true |>) ;;
      match result with
      | Ok listing =>
          modify (fun d => d <| d_nft_applied := Some (fl_transaction flight, fl_configured flight) |>
            <| d_nft_missing := false |> <| d_nft_listing := listing |> <| d_applied_ops ::= fun n => n + 1 |>)
      | Err e => failed (Failure_new (op_text ApplyNft) FailNftables e) (fl_attempt flight)
      end
  | None => mret tt
  end.

Definition handed_back (seq : u64) (result : result unit str) : M unit :=
  d ← get_d;
  match d_hand_back d with
  | Some (s, attempt) =>
      if negb (s =? seq) then mret tt else
      modify (fun d => d <| d_hand_back := None |> <| d_dirty := true |>) ;;
      match result with
      | Err e => failed (Failure_new (lit "restore sysctls of a handed-back family") FailSysctl e) attempt
      | Ok _ => mret tt
      end
  | None => mret tt
  end.

(** One more reconciliation without a removal. *)
Definition reconciled (o : Ownership) : Ownership :=
  if ow_conflict o then
    let clean := ow_clean_reconciliations o + 1 in
    mkOwnership (ow_removals o) (negb (2 <=? clean)) clean
  else o.

Definition full_reconciliation : M unit :=
  (fun s =>
    let d := st_d s in
    match resync dumper (d_scope d) (d_system d) (st_w s) with
    | (Ok v, w) => (tt, mkSt (d <| d_system := vw_system v |> <| d_resync_due ::= fun b => b || vw_interrupted v |>) w)
    | (Err _, w) => (tt, mkSt d w)
    end) ;;
  d ← get_d;
  match d_inspection d with
  | Some _ => mret tt
  | None =>
      seq ← next_seq;
      r ← lanes_nft (NftJob_Inspect seq (fw_nft_path (cf_firewall (d_cfg d))));
      match r with
      | Ok _ => modify (fun d => d <| d_inspection := Some seq |>)
      | Err Full => mret tt
      | Err Closed => lost
      end
  end ;;
  modify (fun d => d <| d_ownership ::= fmap reconciled |>) ;;
  d ← get_d;
  when (forallb (fun o => negb (ow_conflict o)) (btree_values (d_ownership d))) (recover (lit "ownership_conflict")) ;;
  modify (fun d => d <| d_route_failed := ∅ |> <| d_full_pass := true |> <| d_dirty := true |>).

Definition set_manifest (m : Manifest) : M unit := modify (fun d => d <| d_manifest := m |>).

Definition completion (done : Done) : M unit :=
  match done with
  | Done_NftApplied seq result => nft_applied seq result
  | Done_NftInspected seq table flowtables =>
      d ← get_d;
      when (bool_decide (d_inspection d = Some seq))
        (modify (fun d => d <| d_inspection := None |>) ;;
         check_nft table ;; record_flowtables flowtables ;; set_dirty)
  | Done_Sysctls seq scope result manifest => set_manifest manifest ;; sysctls_done seq scope result
  | Done_Bound seq result manifest => set_manifest manifest ;; reload_bound seq result
  | Done_HandedBack seq result manifest => set_manifest manifest ;; handed_back seq result
  | Done_Reload outcome => reload_validated outcome
  | Done_ApiPrepared seq result => api_prepared seq result
  | Done_Drained seq result => drained seq result
  | Done_Forgotten seq result manifest => set_manifest manifest ;; forgotten seq result
  end.

(** ** The event loop *)

Inductive Notification := Notified (message : Message) (port : u32) (flags : u16) | Overrun.

(** What the loop waits for; notifications come as the batch taken. *)
Inductive Input_ :=
  | In_Notifications (l : list Notification)
  | In_Probe (r : ProbeReport)
  | In_Order (action : ApiAction) (reply : Reply)
  | In_Done (d : Done)
  | In_Advertisement (i : u32)
  | In_FullDue
  | In_Wake
  | In_CheckpointDue
  | In_Hangup.

Context (to_json : Event Value -> str) (own_port : u32).

Definition flush_events : M unit :=
  events ← gets d_pending_events;
  when (negb (bool_decide (length events = 0%nat)))
    (modify (fun d => d <| d_pending_events := [] |>) ;;
     for_each events (fun e =>
       t ← wall_now;
       modify (fun d => d <| d_bus ::= fun b => fst (Bus_emit to_json b t e) |>) ;; give (E_Emit e)) ;;
     modify (fun d => d <| d_totals ::= fun x => x <| to_events_dropped := Bus_dropped (d_bus d) |> |>
       <| d_status_dirty := true |>)) ;;
  dirty ← gets d_status_dirty;
  when dirty
    (modify (fun d => d <| d_status_dirty := false |>) ;;
     s ← snapshot;
     modify (fun d => (if bool_decide (is_Some (d_notifier d)) then d <| d_status_line := Status_summary s |> else d)
       <| d_status := s |>)).

(** The message to systemd, sent again after [NOTIFY_RETRY] while its queue is
    full. *)
Definition initial_attempt_done (d : Daemon) : bool :=
  d_attempted d && negb (d_installing d) && negb (bool_decide (is_Some (d_nft_flight d))) &&
  negb (bool_decide (is_Some (d_hand_back d))) && bool_decide (d_sysctls_flight d = ∅).

Definition notify_systemd : M unit := fun s =>
  let d := st_d s in
  match d_notifier d with
  | None => (tt, s)
  | Some n =>
      let '(n, pending, w) := Notifications_update notify_send n (initial_attempt_done d) (d_status_line d) (st_w s) in
      let '(retry, w) := if (pending : bool) then let '(t, w) := instant_now w in (Some (t + NOTIFY_RETRY), w) else (None, w) in
      (tt, mkSt (d <| d_notifier := Some n |> <| d_notify_retry := retry |>) w)
  end.

(** The head of the loop: a pass when one is due, the command's answer, the
    events.  The loop ends with the error given when [fatal] is set. *)
Definition loop_head : M (option str) :=
  d ← get_d;
  when (d_dirty d)
    (modify (fun d => d <| d_dirty := false |>) ;;
     step ;;
     modify (fun d =>
       let d := d <| d_status_dirty := true |> in
       match d_command d with
       | Some (Applying None since name answer reply) =>
           if d_planned d
           then d <| d_command := Some (Applying (Some (d_desired_generation d)) since name answer reply) |> else d
       | _ => d
       end)) ;;
  check_command ;;
  fatal ← gets d_fatal;
  match fatal with
  | Some e => modify (fun d => d <| d_fatal := None |>) ;; mret (Some e)
  | None => flush_events ;; notify_systemd ;; modify (fun d => d <| d_resync_due := false |>) ;; mret None
  end.

(** The instant until which the loop sleeps without an input; [next_full] is
    the next full reconciliation. *)
Definition deadlines (d : Daemon) : list Instant :=
  match d_retry d with Some r => [re_at r] | None => [] end ++
  (re_at <$> btree_values (d_sysctl_retries d)) ++
  match d_notify_retry d with Some t => [t] | None => [] end ++
  match next_expiry d with Some t => [t] | None => [] end ++
  omap (fun p => match pr_gateway_wait p with Some (since, false) => Some (since + GATEWAY_WARNING) | _ => None end)
    (btree_values (d_paths d)) ++
  match d_command d with Some (Applying _ since _ _ _) => [since + COMMAND_WAIT] | _ => [] end.

Definition wake (d : Daemon) (next_full : Instant) : Instant := foldl Z.min next_full (deadlines d).

Definition handle_input (i : Input_) : M unit :=
  match i with
  | In_Notifications l => for_each l (fun n =>
      match n with
      | Notified m port flags => notification own_port m port flags
      | Overrun => full_reconciliation
      end)
  | In_Probe r => probe_report r
  | In_Order action reply => start_order action reply
  | In_Done d => completion d
  | In_Advertisement i => router_advertisement i
  | In_FullDue => full_reconciliation
  | In_Wake => set_dirty
  | In_CheckpointDue => write_checkpoint
  | In_Hangup => start_reload
  end.

(** An order is taken only while no command and no reload is in progress. *)
Definition admits (d : Daemon) (i : Input_) : bool :=
  match i with
  | In_Order _ _ => negb (bool_decide (is_Some (d_command d))) && negb (bool_decide (is_Some (d_reload d)))
  | _ => true
  end.
End pass.
End control.
