(* ===== verification/DaemonStart.v ===== *)
(** * The State task: start-up, dry run and the system checks

    Models [run] of crates/polywan/src/daemon.rs from the state directory to
    the event loop, [dry_run], [check_system] and [system_findings].  What
    start-up reads (the files, the kernel, nftables, the environment) is
    given by arguments. *)

From stdpp Require Import prelude gmap sorting.
From Stdlib Require Import ZArith Lia.
From S2P Require Import Prelude Text Model Health QualityGates Probe Select Durations Config Plan Msg Netlink System.
From S2P Require Import Reconcile Discover Observer Events StateFiles Sysctl Nft Status Checks ApiServer Worker.
From S2P Require Import DaemonState DaemonCore DaemonControl.

Local Open Scope Z_scope.
Local Open Scope polywan_scope.

(** ** The state directory at start-up *)

Inductive StartError := Start_Refused (conflicts : list ManifestConflict) | Start_State (e : StateError).

(** The manifest and whether there was none; a reset discards a corrupt one. *)
Definition startup_manifest (reset_state dry_run : bool) (cfg : Config) (read : result (option Manifest) StateError)
    : result (Manifest * bool) StartError :=
  let manifest := match read with
                  | Err (StateError_Corrupt p m) =>
                      if reset_state && negb dry_run then Ok None else Err (Start_State (StateError_Corrupt p m))
                  | Err e => Err (Start_State e)
                  | Ok m => Ok m
                  end in
  match manifest with
  | Err e => Err e
  | Ok (Some m) =>
      match Manifest_check m cfg with
      | [] => Ok (m, false)
      | conflicts => Err (Start_Refused conflicts)
      end
  | Ok None => Ok (Manifest_new cfg, true)
  end.

(** The drain intent of the uplinks configured, whether it must be written,
    and the uplinks drained. *)
Definition startup_drain (cfg : Config) (d : DrainState) : DrainState * bool * gset UplinkId :=
  let kept := List.filter (fun n => existsb (fun u => bool_decide (u_name u = n)) (cf_uplinks cfg)) (dr_drained d) in
  let d' := mkDrainState (dr_version d) kept in
  (d', negb (Nat.eqb (length kept) (length (dr_drained d))),
   list_to_set (u_id <$> List.filter (fun u => existsb (fun n => bool_decide (n = u_name u)) kept) (cf_uplinks cfg))).

Definition daemon_scope (cfg : Config) : Scope :=
  mkScope [tables (Layout_of cfg)] (rt_discovery_tables (cf_routing cfg)).

(** ** The initial state *)

Definition Daemon_new (cfg : Config) (lanes : Lanes) (view : View) (manifest : Manifest) (drained : gset UplinkId)
    (instance boot_id : str) (started : Z) (expiry_checked last_checkpoint : Instant) : Daemon := {|
  d_cfg := cfg; d_lanes := lanes; d_seq := 0; d_nft_flight := None; d_inspection := None;
  d_sysctls_flight := ∅; d_sysctls_applied := ∅; d_installing := true; d_attempted := false; d_hand_back := None;
  d_reload := None; d_reload_again := false; d_reload_deferred := false; d_applied_ops := 0; d_fatal := None;
  d_desired_generation := 0; d_applied_generation := 0; d_planned := false; d_last_desired := None;
  d_bus := Bus_new instance; d_pending_events := []; d_status_dirty := true; d_repairs := ∅; d_totals := Totals_default;
  d_api := false; d_command := None; d_layout := Layout_of cfg; d_scope := daemon_scope cfg;
  d_protocol := rt_route_protocol (cf_routing cfg); d_system := vw_system view; d_manifest := manifest; d_paths := ∅;
  d_active := ∅; d_drained := drained; d_route_failed := ∅; d_nft_transaction := Nft.transaction cfg;
  d_nft_applied := None; d_nft_listing := None; d_nft_missing := false; d_nft_adopted := None; d_retry := None;
  d_degraded := ∅; d_ownership := ∅; d_held_rules := []; d_held_routes := ∅; d_full_pass := false;
  d_resync_due := vw_interrupted view; d_sysctls_pending := ∅; d_sysctls_failed := ∅; d_sysctl_retries := ∅;
  d_probe_generation := 0; d_boot_id := boot_id; d_dirty := true; d_reread := ∅; d_expiry_checked := expiry_checked;
  d_last_checkpoint := last_checkpoint; d_started := started; d_status := Status_default; d_status_line := [];
  d_notifier := None; d_notify_retry := None; d_out := []; d_panicked := false
|}.

Definition HOOK_QUEUE : usize := 256.
Definition MAIL_QUEUE : usize := 256.
Definition MAIL_QUEUE_BYTES : usize := 2 ^ 20.

(** The assignments that an existing table holds. *)
Definition adopted (cfg : Config) (listing : Value) : gset Assignment :=
  filter (fun a => assigns listing (Family_key (pk_family a.1)) a.2
    (FwMask_encode (rt_fwmark_mask (cf_routing cfg)) (FieldValue_path (pk_uplink a.1))) = true) (assignments cfg).

Section start.
Context {W : Type} `{DaemonWorld W}.
Abbreviation M := (M W).

(** From the construction of the daemon to the event loop: [notifier] is
    whether the environment names systemd's socket, [table] and [again] are the two
    readings of PolyWAN's table. *)
Definition startup (notifier : bool) (checkpoint : result (option Checkpoint) StateError)
    (table again : result (option Value) str) : M unit :=
  modify (fun d => d <| d_notifier := if notifier then Some Notifications_new else None |>) ;;
  modify (fun d =>
    let b := add_notifier (d_bus d) (lit "hooks") HOOK_QUEUE (2 ^ 64 - 1) in
    let b := add_notifier b (lit "email") MAIL_QUEUE MAIL_QUEUE_BYTES in
    let b := Bus_select b (lit "email") (Some (email_selection (d_cfg d))) in
    d <| d_bus := b |> <| d_totals ::= fun t => t <| to_events_dropped := Bus_dropped b |> |>) ;;
  modify (fun d => d <| d_api := true |>) ;;
  modify (fun d => d <| d_sysctls_pending ::= fun s => list_to_set (sysctl_scopes (d_cfg d)) ∪ s |>) ;;
  load_checkpoint checkpoint ;;
  modify (fun d =>
    match table with
    | Ok (Some listing) => if is_managed d then d <| d_nft_adopted := Some (adopted (d_cfg d) listing) |> else d
    | _ => d
    end) ;;
  check_nft again ;;
  push_event (NewEvent_new (lit "daemon_started") (lit "polywan " ++ PKG_VERSION ++ lit " started")).
End start.

(** ** Dry run *)

(** Every ready path counts as up. *)
Definition dry_run_paths (d : Daemon) (now : Instant) : gmap PathKey PathInput :=
  map_imap (fun key dv => Some (mkPathInput (match dv_ready dv with Ok r => Some r | Err _ => None end)
    (dv_local_addresses dv) (Machine_is_up (Machine_new (is_ready dv) (not_ready_reason dv) None))
    (bool_decide (pk_uplink key ∈ d_drained d))))
    (discover (d_cfg d) (d_system d) (d_protocol d) now).

Definition dry_run_input (d : Daemon) (now : Instant) : Input :=
  let paths := dry_run_paths d now in
  mkInput paths (list_to_map ((fun family => (family, active_set (family_candidates (d_cfg d) paths family)
    (rt_all_down_policy (cf_routing (d_cfg d))) ∅)) <$> List.filter (Config_manages (d_cfg d)) Family_ALL)).

(** The operations and the settings that the daemon would apply. *)
Definition dry_run (d : Daemon) (now : Instant) (read : str -> result str ErrorKind)
    : list Op * result (list Difference) SettingError :=
  let want := plan (d_cfg d) (dry_run_input d now) in
  (diff (d_system d) (mkDiffInput (d_layout d) (d_protocol d) (List.filter (Config_manages (d_cfg d)) Family_ALL)
     want want (is_managed d)),
   differences (desired (d_cfg d)) read).

(** ** The system checks *)

Section checks.
Context (h : Host) (read : str -> result str ErrorKind) (networkd_running : bool) (conf : gmap str str).

(** [conf] is what systemd-networkd's configuration sets. *)
Definition system_findings (system : System) (cfg : Config) (r : result Value str) : Findings :=
  let families := List.filter (Config_manages cfg) Family_ALL in
  let f := routing system (Layout_of cfg) (rt_route_protocol (cf_routing cfg)) families in
  let f := Findings_extend f (downlinks system cfg) in
  let f := mkFindings (errors f ++ targets (local_addresses system) cfg) (warnings f) in
  let f := Findings_extend f (accept_ra cfg read) in
  let f := if networkd_running then Findings_extend f (networkd conf) else f in
  match r with
  | Ok r => Findings_extend f (ruleset_findings r cfg)
  | Err e => mkFindings (errors f) (warnings f ++ [F_RulesetUnread e])
  end.

(** [osrelease] and [version] are the texts of the kernel and of nft; the
    checks end with the errors of untrusted files. *)
Definition check_system (path : PathBuf) (cfg : Config) (osrelease version : str) (system : System)
    (r : result Value str) : result Findings SettingError :=
  let f := trusted h path cfg in
  match errors f with
  | _ :: _ => Ok f
  | [] =>
      let f := Findings_extend f (identities h cfg) in
      let f := Findings_extend f (kernel osrelease) in
      let f := if bool_decide (fw_mode (cf_firewall cfg) = Managed) then Findings_extend f (nftables version) else f in
      let f := Findings_extend f (system_findings system cfg r) in
      match differences (desired cfg) read with
      | Err e => Err e
      | Ok ds => Ok (mkFindings (errors f) (warnings f ++ ((fun d => F_Setting (Setting_display (df_setting d)) (df_current d)
          (sg_value (df_setting d)) (rt_manage_sysctls (cf_routing cfg))) <$> ds)))
      end
  end.
End checks.
