(* ===== verification/DaemonInv.v ===== *)
(** * The State task: the invariant of the event loop

    A predicate on the daemon that every handler of crates/polywan/src/daemon.rs
    keeps, whatever the kernel, the clients, the probers and the I/O lanes
    answer: [inv].  It is proved with a small program logic of preservation
    ([keeps]) on the handlers' monad; [runs] is the event loop over any sequence of
    inputs, and the invariant holds in every state it reaches. *)

From stdpp Require Import prelude gmap sorting.
From Stdlib Require Import ZArith Lia.
From S2P Require Import Prelude Text Model Health QualityGates Probe Select Durations Config Plan Msg Netlink System.
From S2P Require Import Reconcile Discover Observer Events StateFiles Sysctl Nft Status Checks ApiServer Worker.
From S2P Require Import DaemonState DaemonCore DaemonControl.

Local Open Scope Z_scope.
Local Open Scope polywan_scope.

(** ** Preservation *)

(** [triple P m Q]: from a daemon in [P], [m] ends with a value and a daemon
    in [Q]. *)
Definition triple {W A} (P : Daemon -> Prop) (m : M W A) (Q : A -> Daemon -> Prop) : Prop :=
  forall s, P (st_d s) -> Q (m s).1 (st_d (m s).2).
Definition keeps {W A} (I : Daemon -> Prop) (m : M W A) : Prop := triple I m (fun _ => I).

Section rules.
Context {W : Type}.
Implicit Types (I P : Daemon -> Prop).

Lemma triple_bind {A B} P (R : A -> Daemon -> Prop) (Q : B -> Daemon -> Prop) (m : M W A) (k : A -> M W B) :
  triple P m R -> (forall a, triple (R a) (k a) Q) -> triple P (m ≫= k) Q.
Proof.
  intros Hm Hk s Hs. unfold mbind, M_bind. specialize (Hm s Hs). destruct (m s) as [a s'].
  by apply (Hk a).
Qed.

Lemma triple_weaken {A} P P' (Q Q' : A -> Daemon -> Prop) (m : M W A) :
  triple P' m Q' -> (forall d, P d -> P' d) -> (forall a d, Q' a d -> Q a d) -> triple P m Q.
Proof. intros Hm Hp Hq s Hs. by apply Hq, Hm, Hp. Qed.

Lemma keeps_bind {A B} I (m : M W A) (k : A -> M W B) :
  keeps I m -> (forall a, keeps I (k a)) -> keeps I (m ≫= k).
Proof. apply triple_bind. Qed.

Lemma keeps_ret {A} I (a : A) : keeps I (mret a : M W A).
Proof. by intros s Hs. Qed.

(** What is read of the state satisfies the invariant. *)
Lemma keeps_get {B} I (k : Daemon -> M W B) : (forall d, I d -> keeps I (k d)) -> keeps I (get_d ≫= k).
Proof. intros Hk s Hs. by apply (Hk (st_d s)). Qed.

(** As [keeps_get], for a continuation that needs the state it read. *)
Lemma triple_get {B} P (Q : B -> Daemon -> Prop) (k : Daemon -> M W B) :
  (forall d, P d -> triple (fun x => x = d) (k d) Q) -> triple P (get_d ≫= k) Q.
Proof. intros Hk s Hs. by apply (Hk (st_d s)). Qed.

Lemma triple_gets {A B} P (Q : B -> Daemon -> Prop) (f : Daemon -> A) (k : A -> M W B) :
  (forall a, triple (fun d => P d /\ f d = a) (k a) Q) -> triple P (gets f ≫= k) Q.
Proof. intros Hk s Hs. by apply (Hk (f (st_d s))). Qed.

Lemma keeps_gets {A} I (f : Daemon -> A) : keeps I (gets f : M W A).
Proof. by intros s Hs. Qed.

Lemma keeps_modify I (f : Daemon -> Daemon) : (forall d, I d -> I (f d)) -> keeps I (modify f : M W unit).
Proof. intros Hf s Hs. by apply Hf. Qed.

Lemma keeps_when I (b : bool) (m : M W unit) : (b = true -> keeps I m) -> keeps I (when b m).
Proof. destruct b; intros Hm; [by apply Hm|apply keeps_ret]. Qed.

Lemma keeps_for_each {A} I (l : list A) (f : A -> M W unit) :
  (forall x, x ∈ l -> keeps I (f x)) -> keeps I (for_each l f).
Proof.
  induction l as [|x l IH]; intros Hf; simpl; [apply keeps_ret|].
  apply keeps_bind; [apply Hf; set_solver|]. intros _. apply IH. intros y Hy. apply Hf. set_solver.
Qed.

Lemma for_each_app {A} (l k : list A) (f : A -> M W unit) s :
  (for_each (l ++ k) f s).2 = (for_each k f (for_each l f s).2).2.
Proof.
  revert s. induction l as [|x l IH]; intros s; simpl; [done|]. unfold mbind, M_bind. destruct (f x s) as [[] s']. apply IH.
Qed.

(** A loop that consumes its list. *)
Lemma triple_for_each {A} (P : list A -> Daemon -> Prop) (l : list A) (f : A -> M W unit) :
  (forall x l, triple (P (x :: l)) (f x) (fun _ => P l)) -> triple (P l) (for_each l f) (fun _ => P []).
Proof.
  intros Hf. induction l as [|x l IH]; simpl; [by intros s Hs|].
  apply (triple_bind _ (fun _ => P l)); [apply Hf|by intros _].
Qed.

Lemma keeps_now `{DaemonWorld W} I : keeps I (now : M W Instant).
Proof. intros s Hs. unfold now. by destruct (instant_now (st_w s)). Qed.
Lemma keeps_now_ms `{DaemonWorld W} I : keeps I (now_ms : M W u64).
Proof. intros s Hs. unfold now_ms. by destruct (boottime_ms (st_w s)). Qed.
Lemma keeps_wall_now `{DaemonWorld W} I : keeps I (wall_now : M W Z).
Proof. intros s Hs. unfold wall_now. by destruct (system_time (st_w s)). Qed.
Lemma keeps_is_closed `{DaemonWorld W} I r : keeps I (is_closed r : M W bool).
Proof. by intros s Hs. Qed.

Lemma keeps_lanes_persist I job : (forall d l, I d -> I (d <| d_lanes := l |>)) -> keeps I (lanes_persist job : M W _).
Proof. intros HI s Hs. unfold lanes_persist. destruct (Lanes_persist _ _). by apply HI. Qed.
Lemma keeps_lanes_nft I job : (forall d l, I d -> I (d <| d_lanes := l |>)) -> keeps I (lanes_nft job : M W _).
Proof. intros HI s Hs. unfold lanes_nft. destruct (Lanes_nft _ _). by apply HI. Qed.
End rules.

(** [keeps_step] takes one step of a preservation proof from the shape of the handler;
    lemmas of handlers come from the hint database, and what changes no
    field of the invariant is closed by conversion. *)
Create HintDb keeps.
#[export] Hint Resolve keeps_ret keeps_gets keeps_now keeps_now_ms keeps_wall_now keeps_is_closed : keeps.
Ltac keeps_step :=
  lazymatch goal with
  | |- forall _, _ => intro
  | |- keeps _ (get_d ≫= _) => apply keeps_get
  | |- keeps _ (_ ≫= _) => apply keeps_bind
  | |- keeps _ (when _ _) => apply keeps_when
  | |- keeps _ (for_each _ _) => apply keeps_for_each
  | |- keeps _ (lanes_persist _) => apply keeps_lanes_persist; by intros
  | |- keeps _ (lanes_nft _) => apply keeps_lanes_nft; by intros
  | |- keeps _ (let '_ := ?x in _) => destruct x eqn:?
  | |- keeps _ (match ?x with _ => _ end) => destruct x eqn:?
  end.
Ltac to_keeps := lazymatch goal with |- triple ?I ?m (fun _ => ?I) => change (keeps I m) end.
Ltac keeps_auto :=
  repeat first [solve [eauto 3 with keeps] | keeps_step | solve [apply keeps_modify; intros ? HI; exact HI]].

(** ** The invariant *)

(** What a daemon gave away, by kind. *)
Definition emitted (out : list Effect) : list (NewEvent Value) :=
  omap (fun e => match e with E_Emit ev => Some ev | _ => None end) out.
Definition answered (out : list Effect) : list Reply :=
  omap (fun e => match e with E_Reply r _ => Some r | _ => None end) out.
Definition validations (out : list Effect) : list u64 :=
  omap (fun e => match e with E_ValidateReload seq _ => Some seq | _ => None end) out.
Definition spawned (out : list Effect) : list Spec :=
  omap (fun e => match e with E_Spawn s => Some s | _ => None end) out.
Definition aborted (out : list Effect) : list Spec :=
  omap (fun e => match e with E_Abort s => Some s | _ => None end) out.

(** The status that an event announces: [true] is degraded. *)
Definition status_of (e : NewEvent Value) : option bool :=
  if bool_decide (ne_kind e = lit "status_degraded") then Some true
  else if bool_decide (ne_kind e = lit "status_recovered") then Some false else None.

(** The status after a series of announcements, each of which must change it. *)
Fixpoint status_after (current : bool) (l : list bool) : option bool :=
  match l with
  | [] => Some current
  | b :: l => if Bool.eqb b current then None else status_after b l
  end.

(** Every event in order, also those not yet emitted. *)
Definition all_events (d : Daemon) : list (NewEvent Value) := emitted (d_out d) ++ d_pending_events d.
Definition announced (d : Daemon) : option bool := status_after false (omap status_of (all_events d)).
Definition is_degraded (d : Daemon) : bool := negb (bool_decide (d_degraded d = ∅)).

Definition configured (cfg : Config) (k : PathKey) : Prop := is_Some (Config_uplink cfg (pk_uplink k)).

(** A path at runtime: configured, with a prober of its own generation. *)
Record path_ok (cfg : Config) (generation : u64) (k : PathKey) (p : PathRuntime) : Prop := {
  ok_configured : configured cfg k;
  ok_generation : pr_generation p <= generation;
  ok_prober : forall s, pr_prober p = Some s -> sp_path s = k /\ sp_generation s = pr_generation p /\ 0 < sp_generation s
}.

(** The probers: generations are not used twice, and no path has the
    generation of a prober that was stopped. *)
Record probers_ok (generation : u64) (paths : gmap PathKey PathRuntime) (out : list Effect) : Prop := {
  ok_nonneg : 0 <= generation;
  ok_spawned : NoDup (sp_generation <$> spawned out);
  ok_spawned_le : Forall (fun s => sp_generation s <= generation) (spawned out);
  ok_aborted : forall s, s ∈ aborted out -> 0 < sp_generation s <= generation;
  ok_stale : forall s p, s ∈ aborted out -> paths !! sp_path s = Some p -> pr_generation p <> sp_generation s
}.

Record base_of (panicked : bool) (announced : option bool) (degraded : bool) (applied desired : u64) (cfg : Config)
    (generation : u64) (paths : gmap PathKey PathRuntime) (out : list Effect) : Prop := {
  inv_panicked : panicked = false;
  inv_status : announced = Some degraded;
  inv_generation : 0 <= applied <= desired;
  inv_paths : map_Forall (path_ok cfg generation) paths;
  inv_probers : probers_ok generation paths out
}.
Definition base (d : Daemon) : Prop :=
  base_of (d_panicked d) (announced d) (is_degraded d) (d_applied_generation d) (d_desired_generation d) (d_cfg d)
    (d_probe_generation d) (d_paths d) (d_out d).

(** The part of the state that only commands and reloads change. *)
Record View := mkView {
  v_cfg : Config; v_drained : gset UplinkId; v_command : option Active; v_reload : option ReloadPhase;
  v_again : bool; v_deferred : bool; v_answered : list Reply; v_validations : list u64
}.
#[export] Instance View_expansion : Expansion View := fun v =>
  mkView (v_cfg v) (v_drained v) (v_command v) (v_reload v) (v_again v) (v_deferred v) (v_answered v) (v_validations v).
Definition view (d : Daemon) : View :=
  mkView (d_cfg d) (d_drained d) (d_command d) (d_reload d) (d_reload_again d) (d_reload_deferred d) (answered (d_out d))
    (validations (d_out d)).

(** [base] holds, and the view is [v]; a lane may have been lost. *)
Definition good (v : View) (fatal : option str) (d : Daemon) : Prop :=
  base d /\ view d = v /\ (d_fatal d = None -> fatal = None).

(** Writes of the state directory, in flight for a command. *)
Definition writing (a : option Active) : bool :=
  match a with Some (Persisting _ _ _ _) | Some (Forgetting _ _ _) => true | _ => false end.
Definition reloading (a : option Active) : bool := match a with Some (Reloading _) => true | _ => false end.
Definition waiting_reply (a : option Active) : list Reply := match a with Some a => [Active_reply a] | None => [] end.

(** The validations of configurations started so far. *)
Definition started_validations (v : View) : Z := Z.of_nat (length (v_validations v)).
(** A reload asked for after [mark] validations: one more has started, or
    one is noted to follow what is in progress. *)
Definition due (mark : Z) (v : View) : Prop :=
  mark <= started_validations v /\ (mark < started_validations v \/ v_again v = true \/ v_deferred v = true).

(** The orders taken are those answered and the one in progress, and the
    reload asked for at [mark] is not lost. *)
Record control (mark : Z) (orders : list Reply) (v : View) : Prop := {
  ctl_orders : v_answered v ++ waiting_reply (v_command v) ≡ₚ orders;
  ctl_reloading : reloading (v_command v) = true -> is_Some (v_reload v);
  ctl_writing : writing (v_command v) = true -> v_reload v = None;
  ctl_again : v_again v = true -> is_Some (v_reload v);
  ctl_deferred : v_deferred v = true -> writing (v_command v) = true;
  ctl_due : due mark v
}.

(** [base] and a predicate on the view and the lost lane. *)
Definition over (J : View -> option str -> Prop) (d : Daemon) : Prop := base d /\ J (view d) (d_fatal d).

(** At most the orders taken are answered or in progress, and exactly these
    while no lane is lost. *)
Definition controlled (mark : Z) (orders : list Reply) (v : View) (fatal : option str) : Prop :=
  v_answered v ++ waiting_reply (v_command v) ⊆+ orders /\ (fatal = None -> control mark orders v).

Definition inv (mark : Z) (orders : list Reply) : Daemon -> Prop := over (controlled mark orders).

(** ** Lemmas on the parts *)

Lemma emitted_app a b : emitted (a ++ b) = emitted a ++ emitted b.
Proof. apply omap_app. Qed.
Lemma answered_app a b : answered (a ++ b) = answered a ++ answered b.
Proof. apply omap_app. Qed.
Lemma validations_app a b : validations (a ++ b) = validations a ++ validations b.
Proof. apply omap_app. Qed.
Lemma spawned_app a b : spawned (a ++ b) = spawned a ++ spawned b.
Proof. apply omap_app. Qed.
Lemma aborted_app a b : aborted (a ++ b) = aborted a ++ aborted b.
Proof. apply omap_app. Qed.

Lemma status_after_app c l k : status_after c (l ++ k) = status_after c l ≫= fun b => status_after b k.
Proof.
  revert c. induction l as [|b l IH]; intros c; simpl; [done|]. destruct (Bool.eqb b c); [done|apply IH].
Qed.

(** An event pushed announces its status last. *)
Lemma announced_push d e :
  announced (d <| d_pending_events ::= fun l => l ++ [e] |>) =
    announced d ≫= fun b => match status_of e with Some c => if Bool.eqb c b then None else Some c | None => Some b end.
Proof.
  unfold announced, all_events. cbn. rewrite (assoc (++)), omap_app, status_after_app. simpl.
  destruct (status_after _ _) as [b|]; simpl; [|done]. destruct (status_of e) as [c|]; simpl; [|done].
  by destruct (Bool.eqb c b).
Qed.

(** An effect that is no answer, validation, event or prober. *)
Definition plain (e : Effect) : Prop :=
  match e with E_Reply _ _ | E_ValidateReload _ _ | E_Spawn _ | E_Abort _ | E_Emit _ => False | _ => True end.

Lemma probers_ok_plain g paths out e : plain e \/ (exists r a, e = E_Reply r a) \/ (exists seq c, e = E_ValidateReload seq c) \/ (exists ev, e = E_Emit ev) ->
  probers_ok g paths out -> probers_ok g paths (out ++ [e]).
Proof.
  intros He [H1 H2 H3 H4 H5].
  assert (Ha : aborted (out ++ [e]) = aborted out) by
    (rewrite aborted_app; destruct e; naive_solver (rewrite ?app_nil_r; done)).
  assert (Hs : spawned (out ++ [e]) = spawned out) by
    (rewrite spawned_app; destruct e; naive_solver (rewrite ?app_nil_r; done)).
  by split; rewrite ?Ha, ?Hs.
Qed.

Section keeping.
Context {W : Type} `{DaemonWorld W} (v : View) (fatal : option str).
Abbreviation M := (M W).
Abbreviation good := (good v fatal).

Lemma keeps_push e : status_of e = None -> keeps good (push_event e : M unit).
Proof.
  intros He. apply keeps_modify. intros d (Hb & Hv & Hf). split_and!; [|done..]. destruct Hb as [? Hs ? ? ?].
  split; try done. by rewrite announced_push, Hs, He.
Qed.

Lemma keeps_give e : plain e -> keeps good (give e : M unit).
Proof.
  intros He. apply keeps_modify. intros d (Hb & Hv & Hf).
  assert (Ha : answered (d_out d ++ [e]) = answered (d_out d)) by
    (rewrite answered_app; destruct e; try done; by rewrite app_nil_r).
  assert (Hl : validations (d_out d ++ [e]) = validations (d_out d)) by
    (rewrite validations_app; destruct e; try done; by rewrite app_nil_r).
  assert (Hm : emitted (d_out d ++ [e]) = emitted (d_out d)) by
    (rewrite emitted_app; destruct e; try done; by rewrite app_nil_r).
  split_and!; [|rewrite <- Hv; unfold view; f_equal; [exact Ha|exact Hl]|done].
  destruct Hb as [? Hs ? ? ?]. split; try done; [|apply probers_ok_plain; auto].
  etransitivity; [|exact Hs]. unfold announced, all_events. do 3 f_equal. exact Hm.
Qed.

Lemma keeps_lost : keeps good (lost : M unit).
Proof. apply keeps_modify. intros d (Hb & Hv & Hf). split_and!; done. Qed.

Lemma keeps_next_seq : keeps good (next_seq : M u64).
Proof. unfold next_seq. keeps_auto. Qed.
End keeping.
#[export] Hint Resolve keeps_push keeps_give keeps_lost keeps_next_seq : keeps.
#[export] Hint Extern 1 (plain _) => exact I : keeps.
#[export] Hint Extern 1 (status_of _ = None) => reflexivity : keeps.

Section observing.
Context {W : Type} `{DaemonWorld W} (v : View) (fatal : option str).
Abbreviation M := (M W).
Abbreviation good := (good v fatal).

(** The step from [degraded] empty announces the status, once. *)
Lemma keeps_degrade reason : keeps good (degrade reason : M unit).
Proof.
  intros s (Hb & Hv & Hf). unfold degrade, when, get_d, mbind, M_bind. destruct Hb as [? Hs ? ? ?].
  assert (Hne : forall m : gset str, negb (bool_decide ({[reason]} ∪ m = ∅)) = true) by
    (intros m; rewrite bool_decide_eq_false_2 by set_solver; done).
  destruct (bool_decide (d_degraded (st_d s) = ∅)) eqn:E; simpl.
  - assert (d_degraded (st_d s) = ∅) as E' by (by bool_simpl).
    rewrite (bool_decide_eq_false_2 (reason ∈ _)) by (rewrite E'; set_solver). simpl.
    split_and!; [|done..]. split; try done.
    etransitivity; [apply announced_push|]. rewrite Hs. unfold is_degraded at 1. rewrite E. simpl.
    unfold is_degraded. cbn. by rewrite Hne.
  - split_and!; [|done..]. split; try done. etransitivity; [exact Hs|].
    unfold is_degraded. cbn. by rewrite Hne, E.
Qed.

Lemma keeps_recover reason : keeps good (recover reason : M unit).
Proof.
  intros s (Hb & Hv & Hf). unfold recover, when, get_d, mbind, M_bind. destruct Hb as [? Hs ? ? ?].
  destruct (bool_decide (reason ∈ d_degraded (st_d s))) eqn:E1;
    destruct (bool_decide (d_degraded (st_d s) ∖ {[reason]} = ∅)) eqn:E2; simpl;
    (split_and!; [|done..]); split; try done.
  - etransitivity; [apply announced_push|]. rewrite Hs. unfold is_degraded at 1.
    rewrite (bool_decide_eq_false_2 (d_degraded (st_d s) = ∅)) by (bool_simpl; set_solver). simpl.
    unfold is_degraded. cbn. by rewrite E2.
  - etransitivity; [exact Hs|]. unfold is_degraded. cbn. rewrite E2.
    by rewrite bool_decide_eq_false_2 by (bool_simpl; set_solver).
  - etransitivity; [exact Hs|]. unfold is_degraded. cbn. rewrite E2.
    by rewrite bool_decide_eq_true_2 by (bool_simpl; set_solver).
  - etransitivity; [exact Hs|]. unfold is_degraded. cbn. rewrite E2.
    by rewrite bool_decide_eq_false_2 by (bool_simpl; set_solver).
Qed.
#[local] Hint Resolve keeps_degrade keeps_recover : keeps.

Lemma keeps_record_flowtables l : keeps good (record_flowtables l : M unit).
Proof. unfold record_flowtables. keeps_auto. Qed.

Lemma keeps_count_removal kind : keeps good (count_removal kind : M unit).
Proof. unfold count_removal. keeps_auto. Qed.
#[local] Hint Resolve keeps_count_removal : keeps.

Lemma keeps_check_nft l : keeps good (check_nft l : M unit).
Proof. unfold check_nft. keeps_auto. Qed.

Lemma keeps_reread_insert l : keeps good (reread_insert l : M unit).
Proof. unfold reread_insert. keeps_auto. Qed.
Lemma keeps_set_dirty : keeps good (set_dirty : M unit).
Proof. unfold set_dirty. keeps_auto. Qed.
#[local] Hint Resolve keeps_reread_insert keeps_set_dirty : keeps.

Lemma keeps_nexthop_notification m : keeps good (nexthop_notification m : M unit).
Proof. unfold nexthop_notification. keeps_auto. Qed.

Lemma keeps_apply_notification m flags : keeps good (apply_notification m flags : M _).
Proof. unfold apply_notification, route_notification. keeps_auto. Qed.

Lemma keeps_changed c : keeps good (changed c : M unit).
Proof. unfold changed, link_changed. keeps_auto. Qed.
#[local] Hint Resolve keeps_nexthop_notification keeps_apply_notification keeps_changed : keeps.

Lemma keeps_notification port0 m port flags : keeps good (notification port0 m port flags : M unit).
Proof. unfold notification. keeps_auto. Qed.

Lemma keeps_router_advertisement i : keeps good (router_advertisement i : M unit).
Proof. unfold router_advertisement. keeps_auto. Qed.

Lemma keeps_reread_expired : keeps good (reread_expired : M unit).
Proof. unfold reread_expired. keeps_auto. Qed.

Lemma keeps_write_checkpoint : keeps good (write_checkpoint : M unit).
Proof. unfold write_checkpoint, checkpoint. keeps_auto. Qed.
End observing.
#[export] Hint Resolve keeps_degrade keeps_recover keeps_record_flowtables keeps_check_nft keeps_reread_insert keeps_set_dirty
  keeps_notification keeps_router_advertisement keeps_reread_expired keeps_write_checkpoint : keeps.

(** ** Paths and probers *)

Section paths.
Context {W : Type} `{DaemonWorld W} (v : View) (fatal : option str).
Abbreviation M := (M W).
Abbreviation good := (good v fatal).

(** New paths: well formed, and each of the generation it had or of none. *)
Lemma base_set_paths d paths :
  base d -> map_Forall (path_ok (d_cfg d) (d_probe_generation d)) paths ->
  (forall k p, paths !! k = Some p -> pr_generation p = 0 \/
     exists q, d_paths d !! k = Some q /\ pr_generation p = pr_generation q) ->
  base (d <| d_paths := paths |>).
Proof.
  intros [? ? ? ? [Hn Hs Hl Ha Ht]] Hok Hg. split; try done. split; try done.
  intros s p Hin Hp. destruct (Hg _ _ Hp) as [->|(q & Hq & ->)]; [|by apply Ht].
  specialize (Ha s Hin). lia.
Qed.

Lemma good_set_paths d paths :
  good d -> map_Forall (path_ok (d_cfg d) (d_probe_generation d)) paths ->
  (forall k p, paths !! k = Some p -> pr_generation p = 0 \/
     exists q, d_paths d !! k = Some q /\ pr_generation p = pr_generation q) ->
  good (d <| d_paths := paths |>).
Proof. intros (Hb & Hv & Hf) Hok Hg. split_and!; [by apply base_set_paths|done..]. Qed.

(** [f] changes neither the generation nor the prober, unless it drops it. *)
Definition same_prober (f : PathRuntime -> PathRuntime) : Prop :=
  forall p, pr_generation (f p) = pr_generation p /\ (pr_prober (f p) = pr_prober p \/ pr_prober (f p) = None).

Lemma path_ok_same cfg g k f p : same_prober f -> path_ok cfg g k p -> path_ok cfg g k (f p).
Proof.
  intros Hf [Hc Hg Hp]. destruct (Hf p) as [Eg [Ep|Ep]]; split; rewrite ?Eg, ?Ep; done.
Qed.

Lemma keeps_alter f key : same_prober f ->
  keeps good (modify (fun d => d <| d_paths ::= alter f key |>) : M unit).
Proof.
  intros Hf. apply keeps_modify. intros d Hd. pose proof Hd as ([] & _).
  apply (good_set_paths d (alter f key (d_paths d))); [done|..].
  - intros k p. rewrite lookup_alter_Some. intros [(-> & q & Hq & ->)|[_ Hp]]; [|by apply inv_paths0].
    apply path_ok_same; [done|]. by apply inv_paths0.
  - intros k p. rewrite lookup_alter_Some. intros [(-> & q & Hq & ->)|[_ Hp]]; right; [|by eauto].
    exists q. split; [done|]. apply Hf.
Qed.

(** A new path of a configured uplink. *)
Lemma good_insert_new d key dv m t : good d -> configured (v_cfg v) key ->
  good (d <| d_paths ::= <[key := PathRuntime_new dv m t]> |>).
Proof.
  intros Hd Hk. pose proof Hd as (Hb & Hv & _). destruct Hb as [? ? ? Hp [Hn ? ? ? ?]].
  assert (d_cfg d = v_cfg v) as Hc by (by rewrite <- Hv).
  apply (good_set_paths d (<[key := PathRuntime_new dv m t]> (d_paths d))); [done|..].
  - apply map_Forall_insert_2; [|done]. split; rewrite ?Hc; done.
  - intros k p. rewrite lookup_insert_Some. intros [[_ <-]|[_ Hk']]; [by left|right; eauto].
Qed.

(** Paths dropped, their probers stopped. *)
Lemma probers_ok_abort cfg g paths out k p s : probers_ok g paths out -> pr_prober p = Some s ->
  path_ok cfg g k p -> paths !! k = None -> probers_ok g paths (out ++ [E_Abort s]).
Proof.
  intros [Hn Hs Hl Ha Ht] Hp [_ Hg Hpr] Hk. destruct (Hpr s Hp) as (Ek & Eg & Hpos).
  assert (Ep : spawned (out ++ [E_Abort s]) = spawned out) by (rewrite spawned_app; by rewrite app_nil_r).
  split; rewrite ?Ep; try done.
  - intros s'. rewrite aborted_app, elem_of_app. intros [?|Hin]; [by apply Ha|].
    apply list_elem_of_singleton in Hin as ->. lia.
  - intros s' p'. rewrite aborted_app, elem_of_app. intros [?|Hin]; [by apply Ht|].
    apply list_elem_of_singleton in Hin as ->. by rewrite Ek, Hk.
Qed.

(** The probers that [prune_paths] stops. *)
Definition pruned (keep : PathKey -> bool) (l : list (PathKey * PathRuntime)) : list Effect :=
  omap (fun e => if keep e.1 then None else E_Abort <$> pr_prober e.2) l.

Lemma prune_paths_run keep (s : St W) : (prune_paths keep s).2 =
  mkSt ((st_d s) <| d_out ::= fun o => o ++ pruned keep (btree_iter (d_paths (st_d s))) |>
        <| d_paths ::= filter (fun e => keep e.1 = true) |>) (st_w s).
Proof.
  unfold prune_paths, mbind, M_bind, get_d. destruct s as [d w]. cbn [st_d st_w].
  assert (Hl : forall l d, for_each l (fun '(k, p) =>
      match pr_prober p with Some spec => when (negb (keep k)) (give (E_Abort spec)) | None => mret tt end) (mkSt d w) =
    (tt, mkSt (d <| d_out ::= fun o => o ++ pruned keep l |>) w)).
  { induction l as [|[k p] l IH]; intros d'; simpl.
    - do 2 f_equal. destruct d'. unfold update. cbn. by rewrite app_nil_r.
    - unfold mbind, M_bind. destruct (pr_prober p) as [sp|], (keep k); simpl; rewrite IH; try done.
      do 2 f_equal. destruct d'. unfold update. cbn. by rewrite <- (assoc (++)). }
  rewrite Hl. done.
Qed.

Lemma pruned_plain keep l : answered (pruned keep l) = [] /\ validations (pruned keep l) = [] /\ emitted (pruned keep l) = [].
Proof.
  unfold pruned. split_and!; induction l as [|[k p] l IH]; simpl; try done;
    destruct (keep k); simpl; try done; destruct (pr_prober p); done.
Qed.

Lemma probers_ok_pruned cfg g keep paths out l : probers_ok g paths out ->
  (forall k p, (k, p) ∈ l -> path_ok cfg g k p /\ (keep k = false -> paths !! k = None)) ->
  probers_ok g paths (out ++ pruned keep l).
Proof.
  revert out. induction l as [|[k p] l IH]; intros out Hok Hl; simpl; [by rewrite app_nil_r|].
  assert (Hl' : forall k p, (k, p) ∈ l -> path_ok cfg g k p /\ (keep k = false -> paths !! k = None)) by
    (intros; apply Hl; by right).
  destruct (Hl k p ltac:(by left)) as [Hp Hk].
  destruct (keep k); simpl; [by apply IH|]. destruct (pr_prober p) as [s|] eqn:E; simpl; [|by apply IH].
  rewrite (cons_middle _ _ _), (assoc (++)). apply IH; [|done].
  apply (probers_ok_abort cfg) with k p; auto.
Qed.

(** Also when the configuration has just become [d_cfg d] and the paths
    kept are those it has. *)
Lemma base_prune keep cfg d : base (d <| d_cfg := cfg |>) ->
  (forall k, is_Some (d_paths d !! k) -> keep k = true -> configured (d_cfg d) k) ->
  base (d <| d_out ::= fun o => o ++ pruned keep (btree_iter (d_paths d)) |>
          <| d_paths ::= filter (fun e => keep e.1 = true) |>).
Proof.
  intros [? Hs ? Hp Hr] Hk. destruct (pruned_plain keep (btree_iter (d_paths d))) as (_ & _ & He). split; try done.
  - etransitivity; [|exact Hs]. unfold announced, all_events. do 3 f_equal.
    etransitivity; [apply emitted_app|]. by rewrite He, app_nil_r.
  - cbn. intros k p [Hl Hkeep]%map_lookup_filter_Some.
    destruct (Hp k p Hl) as [_ ? ?]. split; try done. apply Hk; [by exists p|done].
  - cbn. apply (probers_ok_pruned cfg).
    + destruct Hr as [? ? ? ? Ht]. split; try done. intros s p Hin [Hl _]%map_lookup_filter_Some. by apply (Ht s).
    + intros k p Hin%btree_iter_elem_of. split; [by apply Hp|]. intros Hkeep. apply map_lookup_filter_None_2.
      right. intros ? _. cbn. by rewrite Hkeep.
Qed.

Lemma view_pruned keep l d :
  view (d <| d_out ::= fun o => o ++ pruned keep l |>) = view d.
Proof.
  destruct (pruned_plain keep l) as (Ha & Hn & _). unfold view. cbn. by rewrite answered_app, validations_app, Ha, Hn, !app_nil_r.
Qed.

Lemma keeps_prune keep : keeps good (prune_paths keep : M unit).
Proof.
  intros s (Hb & Hv & Hf). rewrite prune_paths_run. cbn [st_d]. split_and!; [|rewrite <- Hv|done].
  - apply (base_prune keep (d_cfg (st_d s))); [by destruct (st_d s)|]. intros k [p Hp] _.
    destruct Hb as [? ? ? Hp' ?]. by destruct (Hp' k p Hp).
  - apply view_pruned.
Qed.

(** A path's prober is replaced by one of a new generation. *)
Definition stops (o : option Spec) : list Effect := match o with Some s => [E_Abort s] | None => [] end.
Definition starts (o : option Spec) : list Effect := match o with Some s => [E_Spawn s] | None => [] end.

Lemma probers_ok_restart cfg g paths out key p p' o : probers_ok g paths out -> path_ok cfg g key p ->
  pr_generation p' = g + 1 -> (forall s, o = Some s -> sp_generation s = g + 1) ->
  probers_ok (g + 1) (<[key := p']> paths) ((out ++ stops (pr_prober p)) ++ starts o).
Proof.
  intros [Hn Hs Hl Ha Ht] [_ Hg Hp] Eg Ho.
  assert (Esp : spawned ((out ++ stops (pr_prober p)) ++ starts o) = spawned out ++ from_option (fun s => [s]) [] o).
  { rewrite !spawned_app. destruct (pr_prober p), o; simpl; by rewrite ?app_nil_r. }
  assert (Eab : aborted ((out ++ stops (pr_prober p)) ++ starts o) =
    aborted out ++ from_option (fun s => [s]) [] (pr_prober p)).
  { rewrite !aborted_app. destruct (pr_prober p), o; simpl; by rewrite ?app_nil_r. }
  assert (Hab : forall s, s ∈ aborted out ++ from_option (fun s => [s]) [] (pr_prober p) -> 0 < sp_generation s <= g).
  { intros s [Hin|Hin]%elem_of_app; [by apply Ha|]. destruct (pr_prober p) as [s'|] eqn:E; [|by apply not_elem_of_nil in Hin].
    apply list_elem_of_singleton in Hin as ->. destruct (Hp s' eq_refl) as (_ & -> & ?). lia. }
  split; rewrite ?Esp, ?Eab.
  - lia.
  - destruct o as [s|]; simpl; [|by rewrite app_nil_r]. rewrite fmap_app. apply NoDup_app. split_and!; [done| |apply NoDup_singleton].
    intros x (s' & -> & Hin)%list_elem_of_fmap Hx%list_elem_of_singleton. rewrite Forall_forall in Hl.
    specialize (Hl s' Hin). rewrite (Ho s eq_refl) in Hx. lia.
  - apply Forall_app. split; [eapply Forall_impl; [exact Hl|]; simpl; lia|].
    destruct o as [s|]; simpl; [|done]. apply Forall_singleton. rewrite (Ho s eq_refl). lia.
  - intros s Hin. specialize (Hab s Hin). lia.
  - intros s q Hin. specialize (Hab s Hin). rewrite lookup_insert_Some. intros [[_ <-]|[Hne Hq]]; [lia|].
    apply elem_of_app in Hin as [Hin|Hin]; [by apply (Ht s)|].
    destruct (pr_prober p) as [s'|] eqn:E; [|by apply not_elem_of_nil in Hin].
    apply list_elem_of_singleton in Hin as ->. destruct (Hp s' eq_refl) as (? & _). done.
Qed.

Lemma path_ok_mono cfg g g' k p : g <= g' -> path_ok cfg g k p -> path_ok cfg g' k p.
Proof. intros Hg [Hc Hl Hp]. split; [done|lia|done]. Qed.

(** [good], and the paths of a list taken earlier are still well formed. *)
Definition good_at (l : list (PathKey * PathRuntime)) (d : Daemon) : Prop :=
  good d /\ forall k p, (k, p) ∈ l -> path_ok (d_cfg d) (d_probe_generation d) k p.

Lemma wanted_spec_path cfg u key p s : wanted_spec cfg u key p = Some s -> sp_path s = key.
Proof.
  unfold wanted_spec. destruct (pr_discovered p) as [dv|]; simpl; [|done]. destruct (dv_ready dv); [|done].
  destruct (m_ready (pr_machine p)); simpl; [|done]. by intros [= <-].
Qed.

(** The state after a prober was replaced. *)
Lemma manage_prober_run key p u (s : St W) : Config_uplink (d_cfg (st_d s)) (pk_uplink key) = Some u ->
  let d := st_d s in
  let wanted := wanted_spec (d_cfg d) u key p in
  let g := d_probe_generation d + 1 in
  manage_prober key p s =
    if bool_decide (wanted = with_generation 0 <$> pr_prober p) then (tt, s) else
    (tt, mkSt (d <| d_out ::= fun o => (o ++ stops (pr_prober p)) ++ starts (with_generation g <$> wanted) |>
      <| d_probe_generation := g |>
      <| d_paths ::= <[key := p <| pr_generation := g |> <| pr_window := Window_clear (pr_window p) |>
        <| pr_stats := Stats_default |> <| pr_violating := false |> <| pr_prober := with_generation g <$> wanted |>]> |>) (st_w s)).
Proof.
  intros Hu d wanted g. unfold manage_prober, mbind, M_bind, gets. rewrite Hu. subst wanted d g.
  destruct (bool_decide _); [done|]. generalize (wanted_spec (d_cfg (st_d s)) u key p). intros wanted. clear Hu.
  destruct s as [[] w]. unfold update. cbn.
  destruct (pr_prober p) as [sp|], wanted as [sp'|]; cbn; rewrite ?app_nil_r; done.
Qed.

Lemma keeps_manage_prober l key p : (key, p) ∈ l -> keeps (good_at l) (manage_prober key p : M unit).
Proof.
  intros Hin s [(Hb & Hv & Hf) Hl]. pose proof (Hl key p Hin) as Hok. destruct (ok_configured _ _ _ _ Hok) as [u Hu].
  rewrite (manage_prober_run key p u s Hu). destruct (bool_decide _); [done|]. cbn [snd st_d].
  set (d := st_d s) in *. pose proof (wanted_spec_path (d_cfg d) u key p) as Hpath.
  generalize dependent (wanted_spec (d_cfg d) u key p). intros wanted Hpath.
  assert (Hw : forall sp, with_generation (d_probe_generation d + 1) <$> wanted = Some sp ->
    sp_path sp = key /\ sp_generation sp = d_probe_generation d + 1).
  { intros sp. destruct wanted as [sp'|]; [|done]. intros [= <-]. split; [|done]. by apply (Hpath sp'). }
  destruct Hb as [? Hs ? Hp Hr]. pose proof (ok_nonneg _ _ _ Hr) as Hn.
  assert (Hmono : forall k q, path_ok (d_cfg d) (d_probe_generation d) k q ->
    path_ok (d_cfg d) (d_probe_generation d + 1) k q) by (intros k q; apply path_ok_mono; lia).
  split; [split_and!|intros k q Hk; apply Hmono; by apply Hl].
  - split; try done.
    + etransitivity; [|exact Hs]. unfold announced, all_events. do 3 f_equal. cbn. rewrite !emitted_app.
      destruct (pr_prober p), wanted; simpl; by rewrite !app_nil_r.
    + cbn. apply map_Forall_insert_2; [|intros k q Hk; by apply Hmono, Hp].
      split; [apply Hok|cbn; lia|]. cbn. intros sp Hsp. destruct (Hw sp Hsp) as [? ?]. split_and!; [done..|lia].
    + eapply probers_ok_restart; [exact Hr|exact Hok|done|]. intros sp Hsp. by apply Hw.
  - rewrite <- Hv. unfold view. f_equal; cbn; rewrite ?answered_app, ?validations_app;
      destruct (pr_prober p), wanted; simpl; by rewrite !app_nil_r.
  - done.
Qed.

Lemma keeps_manage_probers : keeps good (manage_probers : M unit).
Proof.
  intros s Hs. unfold manage_probers, mbind, M_bind, gets.
  assert (Hl : good_at (btree_iter (d_paths (st_d s))) (st_d s)).
  { split; [done|]. intros k p Hin%btree_iter_elem_of. destruct Hs as ([? ? ? Hp ?] & _). by apply Hp. }
  refine (proj1 (keeps_for_each (good_at (btree_iter (d_paths (st_d s)))) _ _ _ s Hl)).
  intros [k p] Hin. by apply keeps_manage_prober.
Qed.

(** ** Reports and evaluation *)

Lemma keeps_count_samples I path samples : (forall d t, I d -> I (d <| d_totals := t |>)) ->
  keeps I (count_samples path samples : M unit).
Proof.
  intros HI. unfold count_samples. keeps_auto. apply keeps_modify. intros d Hd.
  by apply (HI d _).
Qed.

Lemma keeps_transitioned key t : keeps good (transitioned key t : M unit).
Proof.
  unfold transitioned. keeps_auto. apply keeps_alter. intros ?. cbn. auto.
Qed.
#[local] Hint Resolve keeps_transitioned keeps_alter : keeps.
#[local] Hint Extern 1 (same_prober _) => intros ?; cbn; auto : keeps.

Lemma good_configured d key : good d -> configured (v_cfg v) key -> Config_uplink (d_cfg d) (pk_uplink key) <> None.
Proof. intros (_ & <- & _) [u Hu]. cbn in Hu. congruence. Qed.

Lemma keeps_expect key : configured (v_cfg v) key -> keeps good (expect_uplink (pk_uplink key) : M unit).
Proof.
  intros Hk s Hs. unfold expect_uplink, mbind, M_bind, gets. pose proof (good_configured _ _ Hs Hk).
  by destruct (Config_uplink _ _).
Qed.

Lemma keeps_await_gateway key : configured (v_cfg v) key -> keeps good (await_gateway key : M unit).
Proof.
  intros Hk. unfold await_gateway. keeps_auto. exfalso. by eapply good_configured.
Qed.

Lemma keeps_addressing_events key u prev raw : keeps good (addressing_events key u prev raw : M unit).
Proof. unfold addressing_events. keeps_auto. Qed.
#[local] Hint Resolve keeps_expect keeps_await_gateway keeps_addressing_events : keeps.

Lemma keeps_insert_new key m t : configured (v_cfg v) key ->
  keeps good (modify (fun d => d <| d_paths ::= <[key := PathRuntime_new None m t]> |>) : M unit).
Proof. intros Hk. apply keeps_modify. intros d Hd. by apply good_insert_new. Qed.
#[local] Hint Resolve keeps_insert_new : keeps.

Lemma keeps_evaluate_path key raw : configured (v_cfg v) key -> keeps good (evaluate_path key raw : M _).
Proof. intros Hk. unfold evaluate_path. keeps_auto. Qed.

Lemma keeps_evaluate_paths l acc : (forall k raw, (k, raw) ∈ l -> configured (v_cfg v) k) ->
  keeps good (evaluate_paths l acc : M _).
Proof.
  revert acc. induction l as [|[k raw] l IH]; intros acc Hl; simpl; [apply keeps_ret|].
  apply keeps_bind; [apply keeps_evaluate_path; apply (Hl k raw); by left|].
  intros i. apply IH. intros k' raw' Hin. apply (Hl k' raw'). by right.
Qed.

Lemma keeps_evaluate_family paths f : keeps good (evaluate_family paths f : M _).
Proof. unfold evaluate_family. keeps_auto. Qed.

Lemma keeps_evaluate_families paths l acc : keeps good (evaluate_families paths l acc : M _).
Proof.
  revert acc. induction l as [|f l IH]; intros acc; simpl; [apply keeps_ret|].
  apply keeps_bind; [apply keeps_gets|]. intros cfg. destruct (negb _); [apply IH|].
  apply keeps_bind; [apply keeps_evaluate_family|]. intros set. apply IH.
Qed.

(** Discovery yields configured paths only. *)
Lemma Config_uplink_is_Some cfg u id : u_id u = id \/ id = u_id u -> u ∈ cf_uplinks cfg -> is_Some (Config_uplink cfg id).
Proof.
  intros Hid Hu. destruct (Config_uplink cfg id) eqn:E; [done|].
  pose proof (proj1 (find_first_None _ _) E u Hu) as Hn. cbv beta in Hn. rewrite bool_decide_eq_true_2 in Hn; naive_solver.
Qed.

Lemma discover_configured cfg system own t k dv :
  (k, dv) ∈ btree_iter (discover cfg system own t) -> configured cfg k.
Proof.
  rewrite btree_iter_elem_of, discover_lookup. intros (d0 & Hd & _).
  apply discovered_paths_Some in Hd as (u & p & Hu & Hid & _). apply (Config_uplink_is_Some cfg u); auto.
Qed.

Lemma keeps_evaluate : keeps good (evaluate : M _).
Proof.
  unfold evaluate. apply keeps_bind; [apply keeps_now|]. intros t. apply keeps_get. intros d Hd.
  apply keeps_bind.
  { apply keeps_evaluate_paths. intros k raw Hin%discover_configured. destruct Hd as (_ & <- & _). done. }
  intros paths. apply keeps_bind; [apply keeps_prune|]. intros _. apply keeps_bind; [apply keeps_manage_probers|]. intros _.
  apply keeps_bind; [apply keeps_evaluate_families|]. intros active. apply keeps_ret.
Qed.

Lemma keeps_load_checkpoint read : keeps good (load_checkpoint read : M unit).
Proof.
  unfold load_checkpoint. apply keeps_get. intros d Hd. apply keeps_bind; [apply keeps_now_ms|]. intros t.
  apply keeps_bind; [apply keeps_now|]. intros i. apply keeps_bind.
  - apply keeps_for_each. intros [key dv] Hin. apply discover_configured in Hin.
    destruct Hd as (_ & Hv & _). assert (Hk : configured (v_cfg v) key) by (by rewrite <- Hv).
    keeps_auto. apply keeps_modify. intros d' Hd'. by apply good_insert_new.
  - intros _. keeps_auto.
Qed.

Lemma keeps_probe_report r : keeps good (probe_report r : M unit).
Proof.
  destruct r as [path g|r]; unfold probe_report; [keeps_auto|].
  apply triple_get. intros d Hd. destruct (d_paths d !! rr_path r) as [p|] eqn:Ep; [|intros s <-; exact Hd].
  destruct (negb (pr_generation p =? rr_generation r)); [intros s <-; exact Hd|].
  pose proof Hd as ([? ? ? Hp ?] & _). pose proof (Hp _ _ Ep) as Hok.
  destruct (ok_configured _ _ _ _ Hok) as [u Hu]. rewrite Hu.
  set (I d := good d /\ d_paths d !! rr_path r = Some p).
  apply (triple_weaken _ I _ (fun _ => good)); [|intros ? ->; done|done].
  apply (triple_bind _ (fun _ => I)).
  { apply keeps_modify. intros d' Hd'. exact Hd'. }
  intros _. apply (triple_bind _ (fun _ => I)); [by apply keeps_count_samples|]. intros _.
  destruct (path_round p (u_health u) r) as [p' t] eqn:Er.
  assert (Hsame : pr_generation p' = pr_generation p /\ pr_prober p' = pr_prober p).
  { unfold path_round in Er. destruct (Machine_round _ _ _). by simplify_eq. }
  apply (triple_bind _ (fun _ => good)).
  - intros s [Hs Hk]. pose proof Hs as ([? ? ? Hp' ?] & _).
    apply (good_set_paths (st_d s) (<[rr_path r := p']> (d_paths (st_d s)))); [done|..].
    + apply map_Forall_insert_2; [|done]. destruct (Hp' _ _ Hk) as [? ? ?]. destruct Hsame as [Eg Eq].
      split; rewrite ?Eg, ?Eq; done.
    + intros k q. rewrite lookup_insert_Some. intros [[<- <-]|[_ Hq]]; right; [exists p|by eauto].
      by destruct Hsame.
  - intros _. to_keeps. keeps_auto.
Qed.
End paths.
#[export] Hint Resolve keeps_prune keeps_evaluate keeps_probe_report keeps_load_checkpoint : keeps.
