(* ===== verification/DaemonLoop.v ===== *)
(** * The State task: the event loop keeps its invariant

    The handlers that serve commands, apply the desired state and reload the
    configuration keep the invariant of DaemonInv; [runs] is the event loop
    of crates/polywan/src/daemon.rs over any sequence of inputs, with the
    theorems on what every run guarantees. *)

From stdpp Require Import prelude gmap sorting.
From Stdlib Require Import ZArith Lia.
From S2P Require Import Prelude Text Model Health QualityGates Probe Select Durations Config Plan Msg Netlink System.
From S2P Require Import Reconcile Discover Observer Events StateFiles Sysctl Nft Status Checks ApiServer Worker.
From S2P Require Import DaemonState DaemonCore DaemonControl DaemonStart DaemonInv.

Local Open Scope Z_scope.
Local Open Scope polywan_scope.

(** ** Commands and reloads *)

(** [inv], with the configuration and the drained uplinks fixed. *)
Definition fixed (mark : Z) (orders : list Reply) (cfg : Config) (drained : gset UplinkId) (v : View) (fatal : option str) : Prop :=
  controlled mark orders v fatal /\ v_cfg v = cfg /\ v_drained v = drained.

(** A lost lane weakens what the invariant says. *)
Class Losing (J : View -> option str -> Prop) : Prop :=
  losing : forall v f f', (f' = None -> f = None) -> J v f -> J v f'.

#[export] Instance controlled_losing mark orders : Losing (controlled mark orders).
Proof. intros v f f' Hf [Ho Hc]. split; [done|]. intros E. by apply Hc, Hf. Qed.
#[export] Instance fixed_losing mark orders cfg drained : Losing (fixed mark orders cfg drained).
Proof. intros v f f' Hf (Hc & ? & ?). split_and!; [|done..]. by eapply losing. Qed.

(** A handler that changes no command and no reload. *)
Lemma keeps_lift {W A} J (m : M W A) : Losing J -> (forall v fatal, keeps (good v fatal) m) -> keeps (over J) m.
Proof.
  intros HJ Hm s [Hb Hv].
  destruct (Hm (view (st_d s)) (d_fatal (st_d s)) s) as (Hb' & Ev & Hf); [done|].
  split; [done|]. rewrite Ev. by apply (losing _ _ _ Hf).
Qed.
#[export] Hint Extern 2 (keeps (over _) _) =>
  apply keeps_lift; [apply _|intros ? ?; solve [eauto 3 with keeps]] : keeps.
#[export] Hint Extern 2 (keeps (inv _) _) => unfold inv : keeps.

Section commands.
Context {W : Type} `{DaemonWorld W}.
Context (quoted : str -> str) (debug_ops : list Op -> str) (op_text : Op -> str) (failure_text : Failure -> str).
Context (mark : Z) (orders : list Reply) (cfg : Config) (drained : gset UplinkId).
Abbreviation M := (M W).
Abbreviation held := (over (fixed mark orders cfg drained)).

Lemma base_given d e : (exists r a, e = E_Reply r a) \/ (exists seq c, e = E_ValidateReload seq c) ->
  base d -> base (d <| d_out ::= fun o => o ++ [e] |>).
Proof.
  intros He [? Hs ? ? Hr]. split; try done; [|apply probers_ok_plain; tauto].
  etransitivity; [|exact Hs]. unfold announced, all_events. do 3 f_equal. etransitivity; [apply emitted_app|].
  destruct He as [(? & ? & ->)|(? & ? & ->)]; apply app_nil_r.
Qed.

(** An answer is one more in the view. *)
Lemma triple_reply (J J' : View -> option str -> Prop) r a :
  (forall v f, J v f -> J' (v <| v_answered ::= fun l => l ++ [r] |>) f) ->
  triple (over J) (reply_send r a : M unit) (fun _ => over J').
Proof.
  intros HJ s [Hb Hv]. split; [apply base_given; eauto|].
  replace (view (st_d (reply_send r a s).2)) with ((view (st_d s)) <| v_answered ::= fun l => l ++ [r] |>); [by apply HJ|].
  unfold view, update. cbn [View_expansion expansion v_cfg v_drained v_command v_reload v_again v_deferred v_answered v_validations].
  f_equal; symmetry; [apply answered_app|]. etransitivity; [apply validations_app|]. apply app_nil_r.
Qed.

(** The command in progress is answered; no write was in flight for it. *)
Lemma triple_answer d a ans : held d -> d_command d = Some a -> writing (Some a) = false ->
  triple (fun x => x = d) (modify (fun d => d <| d_command := None |>) ;; reply_send (Active_reply a) ans : M unit)
    (fun _ => held).
Proof.
  intros Hd Ha Hw.
  apply (triple_bind _ (fun _ => over (fun v f => fixed mark orders cfg drained (v <| v_command := Some a |>) f /\ v_command v = None))).
  - intros s <-. destruct Hd as [Hb Hv]. split; [exact Hb|]. split; [|done]. rewrite <- Ha. exact Hv.
  - intros _. apply triple_reply. intros v f [((Ho & Hc) & ? & ?) Hn].
    assert (Eo : (v_answered v ++ [Active_reply a]) ++ waiting_reply (v_command v) =
      v_answered v ++ waiting_reply (Some a)) by (rewrite Hn; apply app_nil_r).
    split_and!; [split|..]; [|intros Hf; destruct (Hc Hf) as [C1 C2 C3 C4 C5 C6]|done..].
    + unfold update. cbn. by rewrite Eo.
    + split; unfold update in *; cbn in *; rewrite ?Hn; try done; [by rewrite <- Hn, Eo|].
      intros Hdef. specialize (C5 Hdef). congruence.
Qed.

Lemma keeps_failed f attempt : keeps held (failed f attempt : M unit).
Proof.
  unfold failed. do 3 (apply keeps_bind; [solve [keeps_auto]|intros _]).
  apply triple_get. intros d Hd. apply (triple_bind _ (fun _ => held)).
  - destruct (d_command d) as [[]|] eqn:Ec; cycle 3; [exact (triple_answer d _ _ Hd Ec eq_refl)|intros s <-; exact Hd..].
  - intros _. to_keeps. keeps_auto.
Qed.
Hint Resolve keeps_failed : keeps.

Lemma keeps_applied : keeps held (applied : M unit).
Proof. unfold applied. keeps_auto. Qed.

Lemma keeps_record_desired want : keeps held (record_desired want : M unit).
Proof.
  apply keeps_modify. intros d Hd. cbv zeta. destruct (bool_decide _); [exact Hd|].
  destruct Hd as [[] Hv]. split; [|exact Hv]. split; try done. cbn. lia.
Qed.

Lemma keeps_caught_up :
  keeps held (modify (fun d => d <| d_applied_generation := d_desired_generation d |>) : M unit).
Proof.
  apply keeps_modify. intros d [[] Hv]. split; [|exact Hv]. split; try done. cbn. lia.
Qed.

Lemma keeps_report_repairs : keeps held (report_repairs : M unit).
Proof. unfold report_repairs. keeps_auto. Qed.
Hint Resolve keeps_applied keeps_record_desired keeps_caught_up keeps_report_repairs : keeps.

Lemma keeps_nothing_to_do attempt : keeps held (nothing_to_do attempt : M unit).
Proof. unfold nothing_to_do. keeps_auto. Qed.

Lemma keeps_check_command : keeps held (check_command : M unit).
Proof.
  unfold check_command. apply triple_get. intros d Hd.
  destruct (d_command d) as [[]|] eqn:Ec; cycle 3; [|intros s <-; exact Hd..].
  intros s <-. unfold mbind at 1, M_bind, now. destruct (instant_now (st_w s)) as [t w].
  cbv zeta. destruct (negb _ && _); [exact Hd|].
  exact (triple_answer (st_d s) _ _ Hd Ec eq_refl (mkSt (st_d s) w) eq_refl).
Qed.

Lemma keeps_dispatch global : keeps held (dispatch_sysctls global : M unit).
Proof. unfold dispatch_sysctls, dispatch_scope. keeps_auto. Qed.

Lemma keeps_sysctls_done seq scope r : keeps held (sysctls_done seq scope r : M unit).
Proof. unfold sysctls_done. keeps_auto. Qed.

(** ** Passes *)

Section passes.
Context {D : Type} `{Clock W, Dumper D W} (dumper : D).
Context (mutate : W -> RouteNetlinkMessage -> Mutation -> W * option KernelError).
Hint Resolve keeps_nothing_to_do keeps_check_command keeps_dispatch keeps_sysctls_done : keeps.

Lemma keeps_reread_marked : keeps held (reread_marked dumper : M unit).
Proof. intros s Hs. unfold reread_marked. by destruct (reread _ _ _ _ _) as [[sys r] w]. Qed.

Lemma keeps_execute_ops ops : keeps held (execute_ops mutate ops : M _).
Proof.
  intros s Hs. unfold execute_ops. destruct (instant_now (st_w s)) as [t w].
  by destruct (execute _ _ _ _ _ _ _) as [[w' sys] r].
Qed.
Hint Resolve keeps_reread_marked keeps_execute_ops : keeps.

Lemma keeps_apply_ops ops attempt : keeps held (apply_ops op_text failure_text mutate ops attempt : M unit).
Proof. unfold apply_ops. keeps_auto. Qed.
Hint Resolve keeps_apply_ops : keeps.

Lemma keeps_reconcile waiting input : keeps held (reconcile debug_ops op_text failure_text mutate waiting input : M unit).
Proof. unfold reconcile. keeps_auto. Qed.
Hint Resolve keeps_reconcile : keeps.

Lemma keeps_step_pass : keeps held (step debug_ops op_text failure_text dumper mutate : M unit).
Proof. unfold step. keeps_auto. Qed.

Lemma keeps_nft_applied seq r : keeps held (nft_applied op_text seq r : M unit).
Proof. unfold nft_applied. keeps_auto. Qed.

Lemma keeps_handed_back seq r : keeps held (handed_back seq r : M unit).
Proof. unfold handed_back. keeps_auto. Qed.

Lemma keeps_full_reconciliation : keeps held (full_reconciliation dumper : M unit).
Proof.
  unfold full_reconciliation. apply keeps_bind.
  - intros s Hs. destruct (resync _ _ _ _) as [[view|e] w]; exact Hs.
  - keeps_auto.
Qed.

(** Flushing moves the pending events to those emitted, in order. *)
Lemma held_emit d e rest : held (d <| d_pending_events := e :: rest |>) ->
  held (d <| d_out ::= fun o => o ++ [E_Emit e] |> <| d_pending_events := rest |>).
Proof.
  intros [[? Hs ? ? ?] Hv]. split.
  - split; try done; [|apply probers_ok_plain; eauto]. etransitivity; [|exact Hs]. unfold announced, all_events. do 2 f_equal.
    cbn. rewrite emitted_app, <- (assoc (++)). done.
  - replace (view _) with (view (d <| d_pending_events := e :: rest |>)); [exact Hv|].
    unfold view. f_equal; symmetry; (etransitivity; [first [apply answered_app|apply validations_app]|]; apply app_nil_r).
Qed.

(** [rest] is what the loop has still to emit. *)
Definition flushing (rest : list (NewEvent Value)) (d : Daemon) : Prop :=
  held (d <| d_pending_events := rest |>) /\ d_pending_events d = [].

Lemma flushing_done d : flushing [] d -> held d.
Proof. intros [Hd Hp]. destruct d. cbn in Hp. subst. exact Hd. Qed.

Lemma keeps_snapshot : keeps held (snapshot : M _).
Proof. unfold snapshot. keeps_auto. Qed.
Hint Resolve keeps_snapshot : keeps.

Lemma keeps_flush_events to_json : keeps held (flush_events to_json : M unit).
Proof.
  unfold flush_events. apply (triple_gets held (fun _ => held) d_pending_events). intros events.
  apply (triple_bind _ (fun _ => held)).
  2: { intros _. to_keeps. keeps_auto. apply keeps_modify. intros d Hd. by destruct (bool_decide _). }
  destruct (negb _); [|by intros s [Hs _]]. cbn [when].
  apply (triple_bind _ (fun _ => flushing events)); [intros s [Hs <-]; split; [exact Hs|done]|].
  intros _. apply (triple_bind _ (fun _ => held)); [|intros _; to_keeps; keeps_auto].
  apply (triple_weaken _ (flushing events) _ (fun _ => flushing [])); [|done|intros _; apply flushing_done].
  apply triple_for_each. intros e l s' [Hd Hp]. unfold mbind, M_bind, wall_now. destruct (system_time (st_w s')) as [t w].
  split; [|exact Hp]. exact (held_emit _ e l Hd).
Qed.

Lemma keeps_notify_systemd I : (forall d n t, I d -> I (d <| d_notifier := n |> <| d_notify_retry := t |>)) ->
  keeps I (notify_systemd : M unit).
Proof.
  intros HI s Hs. unfold notify_systemd. destruct (d_notifier (st_d s)); [|done].
  destruct (Notifications_update _ _ _ _ _) as [[n' pending] w].
  destruct (if pending then _ else _) as [retry w']. by apply HI.
Qed.
End passes.

(** ** Reloads *)

(** A handler that changes no command, before a continuation. *)
Lemma triple_lift {A B} J (m : M A) (k : A -> M B) Q : Losing J -> (forall v fatal, keeps (good v fatal) m) ->
  (forall a, triple (over J) (k a) Q) -> triple (over J) (m ≫= k) Q.
Proof. intros HJ Hm. apply triple_bind. by apply keeps_lift. Qed.

(** A modification of the view. *)
Lemma triple_view (J J' : View -> option str -> Prop) (f : Daemon -> Daemon) (g : View -> View) :
  (forall d, base d -> base (f d)) -> (forall d, view (f d) = g (view d)) -> (forall d, d_fatal (f d) = d_fatal d) ->
  (forall v fatal, J v fatal -> J' (g v) fatal) -> triple (over J) (modify f : M unit) (fun _ => over J').
Proof. intros Hb Hg Hf HJ s [HB HV]. split; [by apply Hb|]. cbn. rewrite Hg, Hf. by apply HJ. Qed.

(** The three outcomes of a request to reload. *)
Lemma triple_start_reload (J J' : View -> option str -> Prop) : Losing J' ->
  (forall v f, J v f ->
    match v_reload v with
    | Some _ => J' (v <| v_again := true |>) f
    | None => if writing (v_command v) then J' (v <| v_deferred := true |>) f
              else forall seq, J' (v <| v_reload := Some (Validating seq) |> <| v_validations ::= fun l => l ++ [seq] |>) f
    end) ->
  triple (over J) (start_reload : M unit) (fun _ => over J').
Proof.
  intros HL HJ. unfold start_reload. apply triple_get. intros d [Hb Hv]. specialize (HJ _ _ Hv). cbn in HJ.
  destruct (d_reload d) as [r|] eqn:Er; [intros s <-; split; [exact Hb|exact HJ]|].
  assert (Hlaunch : forall ctx, writing (d_command d) = false -> triple (fun x => x = d)
    (seq ← next_seq; give (E_ValidateReload seq ctx) ;; modify (fun d => d <| d_reload := Some (Validating seq) |>) : M unit)
    (fun _ => over J')).
  { intros ctx Hw. rewrite Hw in HJ.
    assert (HL' : Losing (fun v f => v = view d /\ (f = None -> d_fatal d = None))) by (intros v f f' Hf [-> ?]; split; auto).
    apply (triple_weaken _ (over (fun v f => v = view d /\ (f = None -> d_fatal d = None))) _ (fun _ => over J'));
      [|by intros ? ->|done].
    apply triple_lift; [done|intros; apply keeps_next_seq|]. intros seq.
    intros s [Hb' [Hv' Hf']]. split; [apply (base_given (st_d s)); eauto|].
    apply (losing _ _ _ Hf'). rewrite <- Hv' in HJ. specialize (HJ seq). unfold update in HJ. cbn in HJ.
    replace (view _) with ((view (st_d s)) <| v_reload := Some (Validating seq) |> <| v_validations ::= fun l => l ++ [seq] |>); [exact HJ|].
    unfold view, update. cbn. f_equal; symmetry; [etransitivity; [apply answered_app|apply app_nil_r]|apply validations_app]. }
  destruct (d_command d) as [[]|]; cbn [writing] in *;
    [intros s <-; split; [exact Hb|exact HJ]|by apply Hlaunch|intros s <-; split; [exact Hb|exact HJ]|by apply Hlaunch..].
Qed.

(** A validation that starts serves the request. *)
Lemma due_launched n v v' seq : n <= started_validations v -> v_validations v' = v_validations v ++ [seq] -> due n v'.
Proof. unfold due, started_validations. intros Hn ->. rewrite length_app. simpl. lia. Qed.

(** A request to reload is due from the validations started before it. *)
Lemma triple_request mark' : triple
  (over (fun v f => fixed mark orders cfg drained v f /\ (f = None -> mark' <= started_validations v)))
  (start_reload : M unit) (fun _ => over (fixed mark' orders cfg drained)).
Proof.
  apply triple_start_reload; [apply _|]. intros v f [((Ho & Hc) & Hcfg & Hdr) Hm].
  destruct (v_reload v) eqn:Er; [|destruct (writing (v_command v)) eqn:Ew; [|intros seq]].
  all: split_and!; [|done..]; split; [done|]; intros Hf; destruct (Hc Hf) as [C1 C2 C3 C4 C5 C6]; specialize (Hm Hf).
  1: assert (due mark' (v <| v_again := true |>)) by (split; [exact Hm|by right; left]).
  2: assert (due mark' (v <| v_deferred := true |>)) by (split; [exact Hm|by right; right]).
  3: assert (due mark' (v <| v_reload := Some (Validating seq) |> <| v_validations ::= fun l => l ++ [seq] |>))
       by (by eapply due_launched).
  all: split; cbn; try done; congruence.
Qed.

Lemma keeps_start_reload : keeps held (start_reload : M unit).
Proof.
  apply (triple_weaken _ _ _ _ _ (triple_request mark)); [|done]. intros d [Hb Hv]. split; [done|]. split; [done|].
  intros Hf. destruct Hv as ((_ & Hc) & _). by destruct (Hc Hf) as [_ _ _ _ _ [? _]].
Qed.

(** The end of a reload: its phase is left, and no write is in flight. *)
Definition ending (again : bool) (v : View) (f : option str) : Prop :=
  (v_answered v ++ waiting_reply (v_command v) ⊆+ orders) /\ v_cfg v = cfg /\ v_drained v = drained /\
  (f = None -> v_answered v ++ waiting_reply (v_command v) ≡ₚ orders /\ writing (v_command v) = false /\ v_deferred v = false /\ due mark v /\
    (again = true -> reloading (v_command v) = true -> v_again v = true)).

#[local] Instance ending_losing again : Losing (ending again).
Proof. intros v f f' Hf (? & ? & ? & Hc). split_and!; [done..|]. intros E. by apply Hc, Hf. Qed.

(** The reload has ended, and another follows when [again]. *)
Definition ended (again : bool) (v : View) (f : option str) : Prop :=
  (v_answered v ++ waiting_reply (v_command v) ⊆+ orders) /\ v_cfg v = cfg /\ v_drained v = drained /\
  v_reload v = None /\ v_again v = false /\
  (f = None -> v_answered v ++ waiting_reply (v_command v) ≡ₚ orders /\ writing (v_command v) = false /\ v_deferred v = false /\
    (reloading (v_command v) = true -> again = true) /\
    mark <= started_validations v /\ (mark < started_validations v \/ again = true)).

Lemma triple_end_reload : triple (over (ending true)) (end_reload : M unit) (fun _ => held).
Proof.
  unfold end_reload. apply triple_gets. intros again. apply (triple_bind _ (fun _ => over (ended again))).
  - intros s' [[Hb (Ho & Hcfg & Hdr & Hc)] Ha]. split; [exact Hb|]. split_and!; [exact Ho|exact Hcfg|exact Hdr|done|done|].
    intros Hf. destruct (Hc Hf) as (? & ? & Hd & [Hn Hs] & Hr). split_and!; [done..| |exact Hn|].
    + rewrite <- Ha. by apply Hr.
    + rewrite <- Ha. destruct Hs as [?|[?|?]]; [by left|by right|]. cbn in *. congruence.
  - intros _. destruct again; cbn [when].
    + apply triple_start_reload; [apply _|]. intros v f (Ho & Hcfg & Hdr & Hr & Ha & Hc). rewrite Hr.
      destruct (writing (v_command v)) eqn:Ew; [|intros seq]; (split_and!; [|done..]); (split; [done|]); intros Hf;
        destruct (Hc Hf) as (? & ? & Hd & _ & Hn & _); [congruence|].
      assert (due mark (v <| v_reload := Some (Validating seq) |> <| v_validations ::= fun l => l ++ [seq] |>)) by (by eapply due_launched).
      split; cbn; try done; congruence.
    + intros s' [Hb (Ho & Hcfg & Hdr & Hr & Ha & Hc)]. split; [exact Hb|]. split_and!; [|exact Hcfg|exact Hdr].
      split; [exact Ho|]. intros Hf. destruct (Hc Hf) as (? & Hw & Hd & Hre & Hn & Hs).
      split; try done; cbn in *; try congruence; [intros Hx; by specialize (Hre Hx)|].
      split; [exact Hn|]. destruct Hs; [by left|done].
Qed.

(** The command is answered. *)
Lemma triple_answered (J : View -> option str -> Prop) d r ans : base d ->
  J ((view d) <| v_command := None |> <| v_answered ::= fun l => l ++ [r] |>) (d_fatal d) ->
  triple (fun x => x = d) (modify (fun d => d <| d_command := None |>) ;; reply_send r ans : M unit) (fun _ => over J).
Proof.
  intros Hb HJ.
  apply (triple_bind _ (fun _ => over (fun v f => v = (view d) <| v_command := None |> /\ f = d_fatal d))).
  - intros s <-. by split.
  - intros _. apply triple_reply. intros v f [-> ->]. exact HJ.
Qed.

Lemma triple_reload_failed errors : triple (over (ending false)) (reload_failed errors : M unit) (fun _ => held).
Proof.
  unfold reload_failed. apply triple_get. intros d Hd.
  apply (triple_bind _ (fun _ => over (ending true))).
  - destruct Hd as [Hb (Ho & Hcfg & Hdr & Hc)]. destruct (d_command d) as [a|] eqn:Ea.
    2: { intros s <-. split; [exact Hb|]. split_and!; [exact Ho|exact Hcfg|exact Hdr|]. cbn in *. rewrite Ea in *.
         intros Hf. by destruct (Hc Hf) as (? & ? & ? & ? & _). }
    assert (Hother : reloading (Some a) = false \/ d_reload_again d = true -> over (ending true) d).
    { intros Hr. split; [exact Hb|]. split_and!; [exact Ho|exact Hcfg|exact Hdr|]. intros Hf.
      destruct (Hc Hf) as (? & ? & ? & ? & _). split_and!; try done. cbn. rewrite Ea. intros _ Hx. destruct Hr; congruence. }
    destruct a as [| reply | |]; [intros s <-; by apply Hother; left| |intros s <-; by apply Hother; left..].
    destruct (d_reload_again d) eqn:Eg; cbn [negb when]; [intros s <-; by apply Hother; right|].
    apply triple_answered; [done|]. cbn in Ho, Hc. rewrite Ea in Ho, Hc.
    unfold ending, update. cbn. rewrite app_nil_r. split_and!; [done..|]. intros Hf.
    destruct (Hc Hf) as (? & ? & ? & ? & _). done.
  - intros _. apply triple_lift; [apply _|intros; by apply keeps_push|]. intros _. apply triple_end_reload.
Qed.

Lemma triple_lost again : triple (over (ending again)) (lost : M unit) (fun _ => held).
Proof. intros s [Hb (Ho & Hcfg & Hdr & _)]. split; [exact Hb|]. by split_and!. Qed.
End commands.
#[export] Existing Instance ending_losing.

#[export] Instance Losing_and J J' : Losing J -> Losing J' -> Losing (fun v f => J v f /\ J' v f).
Proof. intros HJ HJ' v f f' Hf [? ?]. split; by eapply losing. Qed.
#[export] Instance Losing_const (P : View -> Prop) : Losing (fun v _ => P v).
Proof. by intros v f f' _ Hv. Qed.

(** In a phase of a reload no write is in flight. *)
Lemma fixed_ending mark orders cfg drained v f phase : fixed mark orders cfg drained v f -> v_reload v = Some phase ->
  ending mark orders cfg drained false v f.
Proof.
  intros ((Ho & Hc) & Hcfg & Hdr) Hr. split_and!; [done..|]. intros Hf. destruct (Hc Hf) as [C1 C2 C3 C4 C5 C6].
  destruct (writing (v_command v)) eqn:Ew; [by rewrite Hr in C3; discriminate C3|].
  split_and!; try done. destruct (v_deferred v); [|done]. by discriminate C5.
Qed.

Section reloads.
Context {W : Type} `{DaemonWorld W}.
Abbreviation M := (M W).

Lemma keeps_reload_validated mark orders cfg drained outcome :
  keeps (over (fixed mark orders cfg drained)) (reload_validated outcome : M unit).
Proof.
  unfold reload_validated. apply triple_get. intros d Hd.
  destruct (d_reload d) as [[seq| |]|] eqn:Er; [|intros s <-; exact Hd..].
  destruct (negb (seq =? ro_seq outcome)); [intros s <-; exact Hd|].
  apply (triple_weaken _ (over (fun v f => fixed mark orders cfg drained v f /\ v_reload v = Some (Validating seq)))
    _ (fun _ => over (fixed mark orders cfg drained))); [|intros ? ->; split; [apply Hd|split; [apply Hd|done]]|done].
  apply triple_lift; [apply _|intros; destruct (ro_running_flowtables outcome); keeps_auto|]. intros _.
  assert (Hfail : forall errors, triple (over (fun v f => fixed mark orders cfg drained v f /\ v_reload v = Some (Validating seq)))
    (reload_failed errors : M unit) (fun _ => over (fixed mark orders cfg drained))).
  { intros errors. apply (triple_weaken _ (over (ending mark orders cfg drained false)) _ (fun _ => over (fixed mark orders cfg drained)));
      [apply triple_reload_failed| |done].
    intros x [Hb [Hv Hr]]. split; [done|]. by eapply fixed_ending. }
  destruct (ro_result outcome) as [[new endpoints]|errors]; [|apply Hfail]. destruct (negb (d_api d)); [apply Hfail|].
  apply triple_lift; [apply _|intros; apply keeps_next_seq|]. intros seq'.
  apply triple_lift; [apply _|intros; by apply keeps_give|]. intros _ s [Hb [Hv Hr]].
  split; [exact Hb|]. destruct (fixed_ending _ _ _ _ _ _ _ Hv Hr) as (Ho & Hcfg & Hdr & Hc).
  split_and!; [split; [exact Ho|]|exact Hcfg|exact Hdr]. intros Hf. destruct (Hc Hf) as (? & Hw & Hdef & ? & _).
  split; try done; cbn in *; congruence.
Qed.

Lemma keeps_api_command v fatal c : keeps (good v fatal) (api_command c : M unit).
Proof. unfold api_command. destruct c; keeps_auto. Qed.

(** Leaving the phase. *)
Lemma triple_leave mark orders cfg drained d phase : over (fixed mark orders cfg drained) d -> d_reload d = Some phase ->
  triple (fun x => x = d) (modify (fun d => d <| d_reload := None |>) : M unit) (fun _ => over (ending mark orders cfg drained false)).
Proof.
  intros [Hb Hv] Hr s <-. split; [exact Hb|]. destruct (fixed_ending _ _ _ _ _ _ _ Hv Hr) as (Ho & Hcfg & Hdr & Hc).
  by split_and!.
Qed.

(** Entering a phase. *)
Lemma triple_enter mark orders cfg drained phase : triple (over (ending mark orders cfg drained false))
  (modify (fun d => d <| d_reload := Some phase |>) : M unit) (fun _ => over (fixed mark orders cfg drained)).
Proof.
  intros s [Hb (Ho & Hcfg & Hdr & Hc)]. split; [exact Hb|]. split_and!; [split; [exact Ho|]|exact Hcfg|exact Hdr].
  intros Hf. destruct (Hc Hf) as (? & Hw & Hdef & ? & _). split; try done; cbn in *; congruence.
Qed.

Lemma keeps_api_prepared mark orders cfg drained seq r :
  keeps (over (fixed mark orders cfg drained)) (api_prepared seq r : M unit).
Proof.
  unfold api_prepared. apply triple_get. intros d Hd.
  destruct (d_reload d) as [[|s0 new|]|] eqn:Er; [intros s <-; exact Hd| |intros s <-; exact Hd..].
  destruct (negb (s0 =? seq)); [intros s <-; exact Hd|].
  apply (triple_bind _ (fun _ => over (ending mark orders cfg drained false))); [by eapply triple_leave|]. intros _.
  destruct r as [[]|e]; [|apply triple_reload_failed].
  apply triple_lift; [apply _|intros; apply keeps_next_seq|]. intros seq'.
  apply triple_lift; [apply _|intros; keeps_auto|]. intros [[]|[]]; [apply triple_enter| |apply triple_lost].
  apply triple_lift; [apply _|intros; apply keeps_api_command|]. intros _. apply triple_reload_failed.
Qed.

(** The paths that a new configuration does not have go. *)
Lemma triple_prune J cfg config keep : (forall k, keep k = true -> configured config k) ->
  triple (fun d => base (d <| d_cfg := cfg |>) /\ d_cfg d = config /\ J (view d) (d_fatal d)) (prune_paths keep : M unit)
    (fun _ => over J).
Proof.
  intros Hkeep s (Hb & Hcfg & Hv). rewrite prune_paths_run. cbn [st_d snd]. split.
  - apply (base_prune keep cfg (st_d s)); [exact Hb|]. intros k _ Hk. rewrite Hcfg. by apply Hkeep.
  - replace (view _) with (view (st_d s)); [exact Hv|]. symmetry. apply view_pruned.
Qed.

(** The configuration bound is committed; the paths it does not have go. *)
Lemma triple_reload_commit mark orders cfg drained config drained' :
  triple (over (ending mark orders cfg drained false)) (reload_commit config drained' : M unit)
    (fun _ => over (ending mark orders config drained' false)).
Proof.
  unfold reload_commit.
  set (P d := base (d <| d_cfg := cfg |>) /\ d_cfg d = config /\ ending mark orders config drained' false (view d) (d_fatal d)).
  apply (triple_bind _ (fun _ => P)).
  { intros s [Hb (Ho & Hcfg & Hdr & Hc)]. split_and!; [|done|by split_and!]. rewrite <- Hcfg. exact Hb. }
  intros _. apply (triple_bind _ (fun _ => P)); [by intros s Hs|]. intros _.
  apply (triple_bind _ (fun _ => over (ending mark orders config drained' false))).
  { apply triple_prune. intros k (u & Hid & Hu)%bool_decide_eq_true_1%elem_of_list_to_set%list_elem_of_fmap.
    apply (Config_uplink_is_Some config u); auto. }
  intros _. to_keeps. unfold reload_sysctls. keeps_auto; apply keeps_modify; intros d Hd; cbv zeta;
    repeat case_match; exact Hd.
Qed.

(** The command that asked for the reload now waits for the pass; the
    command of a reload still to follow stays. *)
Lemma triple_commanded mark orders cfg drained d step answer : over (ending mark orders cfg drained false) d ->
  triple (fun x => x = d)
    (match d_command d with
     | Some (Reloading reply) =>
         when (negb (d_reload_again d))
           (t ← now; modify (fun d => d <| d_command := Some (Applying None t step answer reply) |>))
     | _ => mret tt
     end : M unit) (fun _ => over (ending mark orders cfg drained true)).
Proof.
  intros [Hb (Ho & Hcfg & Hdr & Hc)].
  assert (Hother : reloading (d_command d) = false \/ d_reload_again d = true -> over (ending mark orders cfg drained true) d).
  { intros Hr. split; [exact Hb|]. split_and!; [exact Ho|exact Hcfg|exact Hdr|]. intros Hf.
    destruct (Hc Hf) as (? & ? & ? & ? & _). split_and!; try done. cbn. intros _ Hx. destruct Hr; congruence. }
  destruct (d_command d) as [[| reply | |]|] eqn:Ea;
    [intros s <-; by apply Hother; left| |intros s <-; by apply Hother; left..].
  destruct (d_reload_again d) eqn:Eg; cbn [negb when]; [intros s <-; by apply Hother; right|].
  intros s <-. unfold mbind, M_bind, now. destruct (instant_now (st_w s)) as [t w].
  split; [exact Hb|]. cbn in Ho, Hc. rewrite Ea in Ho, Hc. split_and!; [exact Ho|exact Hcfg|exact Hdr|].
  intros Hf. by destruct (Hc Hf) as (? & ? & ? & ? & _).
Qed.

(** The configuration is the one bound, or the old one stays. *)
Lemma triple_reload_bound mark orders cfg drained d seq r : over (fixed mark orders cfg drained) d ->
  triple (fun x => x = d) (reload_bound seq r : M unit) (fun _ d' => over (fixed mark orders cfg drained) d' \/
    exists config dr, d_reload d = Some (Binding seq config dr) /\ r = Ok tt /\ over (fixed mark orders config dr) d').
Proof.
  intros Hd. unfold reload_bound. apply triple_get. intros ? ->.
  destruct (d_reload d) as [[| |s0 config dr]|] eqn:Er; [intros s <-; by left|intros s <-; by left| |intros s <-; by left].
  destruct (s0 =? seq) eqn:Es; [|intros s <-; by left]. apply Z.eqb_eq in Es as ->.
  apply (triple_bind _ (fun _ => over (ending mark orders cfg drained false))); [by eapply triple_leave|]. intros _.
  destruct r as [[]|errors].
  2: { apply triple_lift; [apply _|intros; apply keeps_api_command|]. intros _.
       apply (triple_weaken _ _ _ _ _ (triple_reload_failed mark orders cfg drained errors)); [done|]. intros _ d'. by left. }
  apply triple_lift; [apply _|intros; apply keeps_api_command|]. intros _.
  apply (triple_bind _ (fun _ => over (ending mark orders config dr false))); [apply triple_reload_commit|]. intros _.
  apply triple_get. intros d' Hd'. apply (triple_bind _ (fun _ => over (ending mark orders config dr true))).
  - by apply triple_commanded.
  - intros _. apply triple_lift; [apply _|intros; apply keeps_set_dirty|]. intros _.
    apply (triple_weaken _ _ _ _ _ (triple_end_reload mark orders config dr)); [done|]. intros _ d'' Hd''. right. eauto.
Qed.

(** ** Commands *)

(** A write for a command has ended: a reload deferred to it may follow. *)
Definition written (mark : Z) (orders : list Reply) (cfg : Config) (drained : gset UplinkId) (v : View) (f : option str) : Prop :=
  (v_answered v ++ waiting_reply (v_command v) ⊆+ orders) /\ v_cfg v = cfg /\ v_drained v = drained /\
  (f = None -> v_answered v ++ waiting_reply (v_command v) ≡ₚ orders /\ writing (v_command v) = false /\
    reloading (v_command v) = false /\ v_reload v = None /\ v_again v = false /\ due mark v).
(** The deferred reload follows when [deferred]. *)
Definition resumed (mark : Z) (orders : list Reply) (cfg : Config) (drained : gset UplinkId) (deferred : bool) (v : View)
    (f : option str) : Prop :=
  (v_answered v ++ waiting_reply (v_command v) ⊆+ orders) /\ v_cfg v = cfg /\ v_drained v = drained /\ v_deferred v = false /\
  (f = None -> v_answered v ++ waiting_reply (v_command v) ≡ₚ orders /\ writing (v_command v) = false /\
    reloading (v_command v) = false /\ v_reload v = None /\ v_again v = false /\
    mark <= started_validations v /\ (mark < started_validations v \/ deferred = true)).
#[local] Instance written_losing mark orders cfg drained : Losing (written mark orders cfg drained).
Proof. intros v f f' Hf (? & ? & ? & Hc). split_and!; [done..|]. intros E. by apply Hc, Hf. Qed.

Lemma triple_intent_written mark orders cfg drained :
  triple (over (written mark orders cfg drained)) (intent_written : M unit) (fun _ => over (fixed mark orders cfg drained)).
Proof.
  unfold intent_written. apply triple_get. intros d [Hb (Ho & Hcfg & Hdr & Hc)].
  destruct (d_reload d) as [phase|] eqn:Er.
  { intros s <-. split; [exact Hb|]. split_and!; [split; [exact Ho|]|exact Hcfg|exact Hdr]. intros Hf.
    destruct (Hc Hf) as (_ & _ & _ & Hr & _). cbn in Hr. congruence. }
  apply (triple_bind _ (fun _ => over (fun v f => resumed mark orders cfg drained (d_reload_deferred d) v f))).
  { intros s <-. split; [exact Hb|]. split_and!; [exact Ho|exact Hcfg|exact Hdr|done|]. intros Hf.
    destruct (Hc Hf) as (? & ? & ? & ? & Ha & [Hn Hs]). split_and!; [done..|exact Hn|].
    destruct Hs as [?|[?|?]]; [by left| |by right]. cbn in *. congruence. }
  intros _. destruct (d_reload_deferred d); cbn [when].
  - apply triple_start_reload; [apply _|]. intros v f (Ho' & Hcfg' & Hdr' & Hdef & Hc').
    destruct (v_reload v) eqn:Er'; [|destruct (writing (v_command v)) eqn:Ew; [|intros seq]];
      (split_and!; [|done..]); (split; [done|]); intros Hf; destruct (Hc' Hf) as (? & ? & ? & ? & ? & Hn & _); try congruence.
    assert (due mark (v <| v_reload := Some (Validating seq) |> <| v_validations ::= fun l => l ++ [seq] |>)) by (by eapply due_launched).
    split; cbn; try done; congruence.
  - intros s [Hb' (Ho' & Hcfg' & Hdr' & Hdef & Hc')]. split; [exact Hb'|].
    split_and!; [split; [exact Ho'|]|exact Hcfg'|exact Hdr']. intros Hf. destruct (Hc' Hf) as (? & ? & ? & ? & ? & Hn & Hs).
    split; try done; cbn in *; try congruence. split; [exact Hn|]. destruct Hs; [by left|done].
Qed.

(** A write has ended, and its command waits for the answer [r]. *)
Definition unanswered (mark : Z) (orders : list Reply) (cfg : Config) (drained : gset UplinkId) (r : Reply) (v : View) (f : option str)
    : Prop :=
  (v_answered v ++ [r] ⊆+ orders) /\ v_command v = None /\ v_cfg v = cfg /\ v_drained v = drained /\
  (f = None -> v_answered v ++ [r] ≡ₚ orders /\ v_reload v = None /\ v_again v = false /\ due mark v).
#[local] Instance unanswered_losing mark orders cfg drained r : Losing (unanswered mark orders cfg drained r).
Proof. intros v f f' Hf (? & ? & ? & ? & Hc). split_and!; [done..|]. intros E. by apply Hc, Hf. Qed.

Lemma triple_ended mark orders cfg drained d a : over (fixed mark orders cfg drained) d -> d_command d = Some a ->
  writing (Some a) = true ->
  triple (fun x => x = d) (modify (fun d => d <| d_command := None |>) : M unit)
    (fun _ => over (unanswered mark orders cfg drained (Active_reply a))).
Proof.
  intros [Hb ((Ho & Hc) & Hcfg & Hdr)] Ha Hw s <-. split; [exact Hb|]. cbn in Ho. rewrite Ha in Ho.
  split_and!; [exact Ho|done|exact Hcfg|exact Hdr|]. intros Hf. destruct (Hc Hf) as [C1 C2 C3 C4 C5 C6].
  cbn in C1, C3, C4. rewrite Ha in C1, C3. specialize (C3 Hw). split_and!; [exact C1|exact C3| |exact C6].
  cbn. destruct (d_reload_again (st_d s)); [|done]. rewrite C3 in C4. by destruct (C4 eq_refl).
Qed.

Lemma triple_answer_written mark orders cfg drained r ans :
  triple (over (unanswered mark orders cfg drained r)) (reply_send r ans : M unit) (fun _ => over (written mark orders cfg drained)).
Proof.
  apply triple_reply. intros v f (Ho & Hn & Hcfg & Hdr & Hc). unfold written, update. cbn. rewrite Hn, app_nil_r.
  split_and!; [done..|]. intros Hf. by destruct (Hc Hf) as (? & ? & ? & ?).
Qed.

Lemma keeps_forgotten mark orders cfg drained seq r : keeps (over (fixed mark orders cfg drained)) (forgotten seq r : M unit).
Proof.
  unfold forgotten. apply triple_get. intros d Hd. destruct (d_command d) as [[| |s0 uplink reply|]|] eqn:Ea;
    [intros s <-; exact Hd|intros s <-; exact Hd| |intros s <-; exact Hd|intros s <-; exact Hd].
  destruct (negb (s0 =? seq)); [intros s <-; exact Hd|].
  apply (triple_bind _ (fun _ => over (unanswered mark orders cfg drained reply)));
    [exact (triple_ended _ _ _ _ d _ Hd Ea eq_refl)|]. intros _.
  apply (triple_bind _ (fun _ => over (written mark orders cfg drained))); [apply triple_answer_written|]. intros _.
  apply triple_intent_written.
Qed.

(** The drained uplinks after the intent to drain or undrain [id]. *)
Definition drained_with (drain : bool) (id : UplinkId) (drained : gset UplinkId) : gset UplinkId :=
  if drain then {[id]} ∪ drained else drained ∖ {[id]}.

(** The drained uplinks change with an intent that was written. *)
Lemma triple_drained mark orders cfg dr d seq r : over (fixed mark orders cfg dr) d ->
  triple (fun x => x = d) (drained seq r : M unit) (fun _ d' => over (fixed mark orders cfg dr) d' \/
    exists id drain reply, d_command d = Some (Persisting seq id drain reply) /\ r = Ok tt /\
      over (fixed mark orders cfg (drained_with drain id dr)) d').
Proof.
  intros Hd. unfold drained. apply triple_get. intros ? ->.
  destruct (d_command d) as [[s0 uplink drain reply| | |]|] eqn:Ea; [|intros s <-; by left..].
  destruct (s0 =? seq) eqn:Es; [|intros s <-; by left]. apply Z.eqb_eq in Es as ->.
  apply (triple_bind _ (fun _ => over (unanswered mark orders cfg dr reply)));
    [exact (triple_ended _ _ _ _ d _ Hd Ea eq_refl)|]. intros _.
  destruct r as [[]|e].
  - apply (triple_bind _ (fun _ => over (unanswered mark orders cfg (drained_with drain uplink dr) reply))).
    { intros s [Hb (Ho & Hn & Hcfg & Hdr & Hc)]. split; [exact Hb|]. rewrite <- Hdr. by split_and!. }
    intros _. apply triple_lift; [apply _|intros; apply keeps_push; by destruct drain|]. intros _.
    apply triple_lift; [apply _|intros; apply keeps_set_dirty|]. intros _.
    apply triple_lift; [apply _|intros; apply keeps_now|]. intros t.
    apply (triple_bind _ (fun _ => over (written mark orders cfg (drained_with drain uplink dr)))).
    + intros s [Hb (Ho & Hn & Hcfg & Hdr & Hc)]. split; [exact Hb|]. split_and!; [exact Ho|exact Hcfg|exact Hdr|].
      intros Hf. by destruct (Hc Hf) as (? & ? & ? & ?).
    + intros _. apply (triple_weaken _ _ _ _ _ (triple_intent_written mark orders cfg (drained_with drain uplink dr))); [done|].
      intros _ d' Hd'. right. by exists uplink, drain, reply.
  - apply (triple_bind _ (fun _ => over (written mark orders cfg dr))); [apply triple_answer_written|]. intros _.
    apply (triple_weaken _ _ _ _ _ (triple_intent_written mark orders cfg dr)); [done|]. intros _ d'. by left.
Qed.

(** No command and no reload: an order is taken. *)
Definition idle (mark : Z) (orders : list Reply) (cfg : Config) (drained : gset UplinkId) (v : View) (f : option str) : Prop :=
  fixed mark orders cfg drained v f /\ v_command v = None /\ v_reload v = None.
#[local] Instance idle_losing mark orders cfg drained : Losing (idle mark orders cfg drained).
Proof. intros v f f' Hf (? & ? & ?). split_and!; [|done..]. by eapply losing. Qed.

Section orders.
Context (quoted : str -> str) (mark : Z) (orders : list Reply) (cfg : Config) (dr : gset UplinkId) (reply : Reply).
Abbreviation idle := (idle mark orders cfg dr).
Abbreviation taken := (fixed mark (orders ++ [reply]) cfg dr).

Lemma idle_facts v f : idle v f -> v_answered v ⊆+ orders /\
  (f = None -> v_answered v ≡ₚ orders /\ v_again v = false /\ v_deferred v = false /\ due mark v).
Proof.
  intros (((Ho & Hc) & _ & _) & Hn & Hr). rewrite Hn, app_nil_r in Ho. split; [done|]. intros Hf.
  destruct (Hc Hf) as [C1 C2 C3 C4 C5 C6]. rewrite Hn, ?app_nil_r in *. rewrite Hr in C4. split_and!; [done| | |done].
  - destruct (v_again v); [|done]. by destruct (C4 eq_refl).
  - destruct (v_deferred v); [|done]. by discriminate (C5 eq_refl).
Qed.

(** The order is answered at once. *)
Lemma triple_refuse ans : triple (over idle) (reply_send reply ans : M unit) (fun _ => over taken).
Proof.
  apply triple_reply. intros v f Hi. destruct (idle_facts v f Hi) as [Ho Hf]. destruct Hi as ((_ & Hcfg & Hdr) & Hn & Hr).
  split_and!; [split|done|done]; unfold update; cbn; rewrite ?Hn, ?app_nil_r; [by apply submseteq_skips_r|].
  intros E. destruct (Hf E) as (Hp & Ha & Hd & Hdue). split; [..|exact Hdue]; cbn; rewrite ?Hn, ?Hr, ?app_nil_r, ?Hp, ?Ha, ?Hd; done.
Qed.

(** The order becomes the command in progress. *)
Lemma triple_accept a : Active_reply a = reply -> reloading (Some a) = false ->
  triple (over idle) (modify (fun d => d <| d_command := Some a |>) : M unit) (fun _ => over taken).
Proof.
  intros Ha Hre s [Hb Hi]. split; [exact Hb|]. destruct (idle_facts _ _ Hi) as [Ho Hf].
  destruct Hi as ((_ & Hcfg & Hdr) & Hn & Hr).
  split_and!; [split|exact Hcfg|exact Hdr]; [rewrite <- Ha; exact (submseteq_skips_r [Active_reply a] _ _ Ho)|].
  intros E. destruct (Hf E) as (Hp & Hag & Hd & Hdue). split; [..|exact Hdue].
  - cbn. rewrite Ha. by apply Permutation_app_tail.
  - intros Hx. change (reloading (Some a) = true) in Hx. congruence.
  - intros _. exact Hr.
  - intros Hx. cbn in *. congruence.
  - intros Hx. cbn in *. congruence.
Qed.

Lemma triple_order_lost : triple (over idle) (lost : M unit) (fun _ => over taken).
Proof.
  intros s [Hb Hi]. split; [exact Hb|]. destruct (idle_facts _ _ Hi) as [Ho _]. destruct Hi as ((_ & Hcfg & Hdr) & Hn & _).
  split_and!; [split; [|done]|exact Hcfg|exact Hdr]. cbn in *. rewrite Hn, app_nil_r. by apply submseteq_inserts_r.
Qed.

Lemma triple_not_queued e : triple (over idle) (not_queued e reply : M unit) (fun _ => over taken).
Proof. destruct e; [apply triple_refuse|apply triple_order_lost]. Qed.

(** The order is queued for the state directory, or answered. *)
Lemma triple_queue job (a : u64 -> Active) : (forall seq, Active_reply (a seq) = reply /\ reloading (Some (a seq)) = false) ->
  triple (over idle) (seq ← next_seq; r ← lanes_persist (job seq);
    match r with Ok _ => modify (fun d => d <| d_command := Some (a seq) |>) | Err e => not_queued e reply end : M unit)
    (fun _ => over taken).
Proof.
  intros Ha. apply triple_lift; [apply _|intros; apply keeps_next_seq|]. intros seq.
  apply triple_lift; [apply _|intros; keeps_auto|]. intros [u|e]; [|apply triple_not_queued].
  by apply triple_accept; apply Ha.
Qed.

Lemma triple_start_drain name drain force :
  triple (over idle) (start_drain quoted name drain force reply : M unit) (fun _ => over taken).
Proof.
  unfold start_drain. apply triple_get. intros d Hd.
  apply (triple_weaken _ (over idle) _ (fun _ => over taken)); [|by intros ? ->|done].
  destruct (find_first _ _) as [u|]; [|apply triple_refuse]. cbv zeta.
  destruct (if drain && negb force then _ else _); [apply triple_refuse|]. by apply triple_queue.
Qed.

Lemma triple_start_forget uplink :
  triple (over idle) (start_forget quoted uplink reply : M unit) (fun _ => over taken).
Proof.
  unfold start_forget. apply triple_get. intros d Hd.
  apply (triple_weaken _ (over idle) _ (fun _ => over taken)); [|by intros ? ->|done].
  destruct (existsb _ _); [apply triple_refuse|]. by apply triple_queue.
Qed.

Lemma triple_order_reload mark' :
  triple (over (fun v f => idle v f /\ (f = None -> mark' <= started_validations v)))
    (modify (fun d => d <| d_command := Some (Reloading reply) |>) ;; start_reload : M unit)
    (fun _ => over (fixed mark' (orders ++ [reply]) cfg dr)).
Proof.
  apply (triple_bind _ (fun _ => over (fun v f => idle (v <| v_command := None |>) f /\ v_command v = Some (Reloading reply) /\
    (f = None -> mark' <= started_validations v)))).
  { intros s [Hb [Hi Hm]]. split; [exact Hb|]. split_and!; [|done|exact Hm]. destruct Hi as (Hfx & Hn & Hr). cbn in Hn.
    split_and!; [|done|done]. rewrite <- Hn. exact Hfx. }
  intros _. apply triple_start_reload; [apply _|]. intros v f (Hi & Hn & Hm). destruct (idle_facts _ _ Hi) as [Ho Hf].
  destruct Hi as ((_ & Hcfg & Hdr) & _ & Hr). cbn in Hr, Ho, Hf, Hcfg, Hdr. rewrite Hr, Hn. intros seq.
  split_and!; [split|done|done]; cbn; rewrite ?Hn; [by apply submseteq_skips_r|].
  intros E. destruct (Hf E) as (Hp & Ha & Hd & _).
  split; [..|eapply due_launched; [by apply Hm|done]]; cbn; rewrite ?Hn, ?Ha, ?Hd; try done. by apply Permutation_app_tail.
Qed.
End orders.
End reloads.

(** ** The event loop *)

Section loop.
Context {W : Type} `{DaemonWorld W}.
Context (quoted : str -> str) (debug_ops : list Op -> str) (op_text : Op -> str) (failure_text : Failure -> str).
Context {D : Type} `{Clock W, Dumper D W} (dumper : D).
Context (mutate : W -> RouteNetlinkMessage -> Mutation -> W * option KernelError).
Context (to_json : Event Value -> str) (own_port : u32).
Abbreviation M := (M W).
Abbreviation loop_head := (loop_head debug_ops op_text failure_text dumper mutate to_json : M _).
Abbreviation handle_input := (handle_input quoted op_text dumper own_port : Input_ -> M unit).

Lemma inv_fixed mark orders d : inv mark orders d -> over (fixed mark orders (d_cfg d) (d_drained d)) d.
Proof. intros [Hb Hv]. split; [done|]. by split_and!. Qed.
Lemma fixed_inv mark orders cfg dr d : over (fixed mark orders cfg dr) d -> inv mark orders d.
Proof. intros [Hb (Hv & _)]. by split. Qed.

(** What keeps [fixed] keeps the invariant. *)
Lemma keeps_inv {A} mark orders (m : M A) : (forall cfg dr, keeps (over (fixed mark orders cfg dr)) m) -> keeps (inv mark orders) m.
Proof. intros Hm s Hs. eapply fixed_inv, Hm, inv_fixed, Hs. Qed.

Lemma keeps_loop_head mark orders cfg dr : triple (over (fixed mark orders cfg dr)) loop_head
  (fun r d => r = None -> over (fixed mark orders cfg dr) d).
Proof.
  unfold DaemonControl.loop_head. apply triple_get. intros d Hd.
  apply (triple_weaken _ (over (fixed mark orders cfg dr)) _ (fun r d => r = None -> over (fixed mark orders cfg dr) d));
    [|by intros ? ->|done].
  apply (triple_bind _ (fun _ => over (fixed mark orders cfg dr))).
  - to_keeps. apply keeps_when. intros _. keeps_auto; [apply keeps_step_pass|].
    apply keeps_modify. intros d' Hd'. cbv zeta.
    match goal with |- context [match ?x with _ => _ end] => destruct x as [[| | |[t|] since step answer reply]|] eqn:Ec end;
      try exact Hd'.
    match goal with |- context [if ?x then _ else _] => destruct x; [|exact Hd'] end.
    destruct Hd' as [Hb ((Ho & Hc) & Hcfg & Hdr)]. split; [exact Hb|]. cbn in Ec, Ho, Hc. rewrite Ec in Ho.
    split_and!; [split; [exact Ho|]|exact Hcfg|exact Hdr]. intros Hf. destruct (Hc Hf) as [C1 C2 C3 C4 C5 C6].
    cbn in C1, C5. rewrite Ec in C1, C5. by split.
  - intros _. apply (triple_bind _ (fun _ => over (fixed mark orders cfg dr))); [apply keeps_check_command|]. intros _.
    apply (triple_bind _ (fun _ => over (fixed mark orders cfg dr))); [apply keeps_gets|]. intros [e|].
    { by intros s _. }
    apply (triple_weaken _ (over (fixed mark orders cfg dr)) _ (fun _ => over (fixed mark orders cfg dr))); [|done|by intros].
    to_keeps. apply keeps_bind; [apply keeps_flush_events|]. intros _.
    apply keeps_bind; [by apply keeps_notify_systemd|]. intros _. keeps_auto.
Qed.

(** What an input may change of the configuration and of the drained
    uplinks: a binding that succeeded, or an intent that was written. *)
Definition permitted (d : Daemon) (i : Input_) (cfg : Config) (drained : gset UplinkId) : Prop :=
  (cfg = d_cfg d /\ drained = d_drained d) \/
  (exists seq m, i = In_Done (Done_Bound seq (Ok tt) m) /\ d_reload d = Some (Binding seq cfg drained)) \/
  (exists seq id drain reply, i = In_Done (Done_Drained seq (Ok tt)) /\
     d_command d = Some (Persisting seq id drain reply) /\ cfg = d_cfg d /\ drained = drained_with drain id (d_drained d)).

(** The invariant, with the configuration and the drained uplinks permitted. *)
Definition moved (mark : Z) (orders : list Reply) (d : Daemon) (i : Input_) (d' : Daemon) : Prop :=
  exists cfg drained, permitted d i cfg drained /\ over (fixed mark orders cfg drained) d'.

Lemma moved_kept mark orders i d d' : over (fixed mark orders (d_cfg d) (d_drained d)) d' -> moved mark orders d i d'.
Proof. intros Hd. exists (d_cfg d), (d_drained d). split; [by left|done]. Qed.

Lemma completion_moved mark orders done (s : St W) : inv mark orders (st_d s) ->
  moved mark orders (st_d s) (In_Done done) (st_d (completion op_text done s).2).
Proof.
  intros Hs%inv_fixed.
  assert (Hset : forall m, over (fixed mark orders (d_cfg (st_d s)) (d_drained (st_d s))) ((st_d s) <| d_manifest := m |>)) by (intros m; exact Hs).
  destruct done; unfold completion; [apply moved_kept|apply moved_kept|apply moved_kept| |apply moved_kept| |apply moved_kept..].
  - by apply keeps_nft_applied.
  - assert (Hk : keeps (over (fixed mark orders (d_cfg (st_d s)) (d_drained (st_d s))))
      (completion op_text (Done_NftInspected seq table flowtables) : M unit)) by (unfold completion; keeps_auto). by apply Hk.
  - by apply (keeps_sysctls_done _ _ _ _ seq scope result (mkSt ((st_d s) <| d_manifest := manifest |>) (st_w s))).
  - destruct (triple_reload_bound _ _ _ _ _ seq result (Hset manifest) (mkSt ((st_d s) <| d_manifest := manifest |>) (st_w s)) eq_refl)
      as [Hd|(config & dr & Hr & -> & Hd)]; [by apply moved_kept|].
    exists config, dr. split; [|exact Hd]. right. left. by exists seq, manifest.
  - by apply (keeps_handed_back _ _ _ _ seq result (mkSt ((st_d s) <| d_manifest := manifest |>) (st_w s))).
  - destruct (triple_drained _ _ _ _ _ seq result Hs s eq_refl) as [Hd|(id & drain & reply & Hc & -> & Hd)]; [by apply moved_kept|].
    exists (d_cfg (st_d s)), (drained_with drain id (d_drained (st_d s))). split; [|exact Hd]. right. right.
    by exists seq, id, drain, reply.
  - by apply (keeps_forgotten _ _ _ _ seq result (mkSt ((st_d s) <| d_manifest := manifest |>) (st_w s))).
  - by apply keeps_reload_validated.
  - by apply keeps_api_prepared.
Qed.

(** The order of an input, if its client still waits. *)
Definition order_of (w : W) (i : Input_) : list Reply :=
  match i with In_Order _ reply => if reply_closed reply w then [] else [reply] | _ => [] end.

(** An idle daemon started no fewer validations than its mark. *)
Lemma idle_marked mark orders cfg dr d : over (idle mark orders cfg dr) d ->
  over (fun v f => idle mark orders cfg dr v f /\ (f = None -> mark <= started_validations v)) d.
Proof.
  intros [Hb Hi]. split; [done|]. split; [done|]. intros Hf. destruct (idle_facts _ _ _ _ _ _ Hi) as [_ Hc].
  by destruct (Hc Hf) as (_ & _ & _ & ? & _).
Qed.

Lemma keeps_start_order mark orders cfg dr action reply (s : St W) : over (idle mark orders cfg dr) (st_d s) ->
  over (fixed mark (orders ++ order_of (st_w s) (In_Order action reply)) cfg dr) (st_d (start_order quoted action reply s).2).
Proof.
  intros Hs. unfold order_of, start_order, mbind, M_bind, is_closed.
  destruct (reply_closed reply (st_w s)); [rewrite app_nil_r; split; apply Hs|].
  destruct action.
  all: first [by apply triple_start_drain|by apply triple_start_forget|exact (triple_order_reload mark orders cfg dr reply mark s (idle_marked _ _ _ _ _ Hs))].
Qed.

Lemma handle_input_moved mark orders i (s : St W) : inv mark orders (st_d s) -> admits (st_d s) i = true ->
  moved mark (orders ++ order_of (st_w s) i) (st_d s) i (st_d (handle_input i s).2).
Proof.
  intros Hs Hi. pose proof (inv_fixed _ _ _ Hs) as Hfx.
  assert (Hkeep : forall m : M unit, keeps (over (fixed mark orders (d_cfg (st_d s)) (d_drained (st_d s)))) m ->
    moved mark (orders ++ []) (st_d s) i (st_d (m s).2)) by (intros m Hm; rewrite app_nil_r; by apply moved_kept, Hm).
  destruct i; cbn [order_of DaemonControl.handle_input]; [apply Hkeep|apply Hkeep| | |apply Hkeep..].
  - apply keeps_for_each. intros [m port flags|] _; [keeps_auto|apply keeps_full_reconciliation].
  - keeps_auto.
  - apply moved_kept. apply andb_true_iff in Hi as [Hc Hr]. apply keeps_start_order.
    destruct Hfx as [Hb Hv]. split; [done|]. split; [done|].
    destruct (d_command (st_d s)) eqn:Ec; [done|]. destruct (d_reload (st_d s)) eqn:Er; [done|]. by split.
  - rewrite app_nil_r. by apply completion_moved.
  - keeps_auto.
  - apply keeps_full_reconciliation.
  - keeps_auto.
  - keeps_auto.
  - apply keeps_start_reload.
Qed.

(** ** Runs *)

(** The daemon as [run] builds it and takes it to the loop. *)
Inductive started : Daemon -> Prop :=
  | started_intro cfg lanes view manifest drained instance boot_id t t1 t2 notifier checkpoint table again w :
      started (st_d (startup (W := W) notifier checkpoint table again
        (mkSt (Daemon_new cfg lanes view manifest drained instance boot_id t t1 t2) w)).2).

(** A run: each turn of the loop ends its head without an error and handles
    one input that it admits, in any world. *)
Inductive runs : list Reply -> list Input_ -> Daemon -> Prop :=
  | runs_start d : started d -> runs [] [] d
  | runs_turn orders inputs d w0 d' w1 w i :
      runs orders inputs d -> loop_head (mkSt d w0) = (None, mkSt d' w1) -> admits d' i = true ->
      runs (orders ++ order_of w i) (inputs ++ [i]) (st_d (handle_input i (mkSt d' w)).2).

Lemma Daemon_new_inv cfg lanes view manifest drained instance boot_id t t1 t2 :
  inv (-1) [] (Daemon_new cfg lanes view manifest drained instance boot_id t t1 t2).
Proof.
  split; [|split; [done|intros _; split; try done; split; [|left]; done]]. split; cbn; try done. split; cbn; try done; [constructor|..].
  intros s. by intros ?%not_elem_of_nil.
Qed.

Lemma started_inv d : started d -> inv (-1) [] d.
Proof.
  intros []. apply (keeps_inv (-1) []); [|apply Daemon_new_inv]. intros cfg' dr. unfold startup.
  keeps_auto; apply keeps_modify; intros x Hd; repeat case_match; exact Hd.
Qed.

(** A turn keeps the mark. *)
Lemma turn_inv mark orders d w0 d' w1 w i :
  inv mark orders d -> loop_head (mkSt d w0) = (None, mkSt d' w1) -> admits d' i = true ->
  inv mark (orders ++ order_of w i) (st_d (handle_input i (mkSt d' w)).2).
Proof.
  intros IH Hhead Hadm.
  pose proof (keeps_loop_head mark orders (d_cfg d) (d_drained d) (mkSt d w0) (inv_fixed _ _ _ IH)) as Hl.
  rewrite Hhead in Hl. specialize (Hl eq_refl).
  destruct (handle_input_moved mark orders i (mkSt d' w) (fixed_inv _ _ _ _ _ Hl) Hadm) as (cfg & dr & _ & Hd). by eapply fixed_inv.
Qed.

Lemma runs_inv orders inputs d : runs orders inputs d -> inv (-1) orders d.
Proof.
  induction 1 as [d Hd|orders inputs d w0 d' w1 w i Hruns IH Hhead Hadm]; [by apply started_inv|by eapply turn_inv].
Qed.

(** ** Requests to reload *)

(** The inputs that ask for a reload: SIGHUP, and the order of a client that
    still waits. *)
Definition requests_reload (w : W) (i : Input_) : bool :=
  match i with In_Hangup => true | In_Order Action_Reload reply => negb (reply_closed reply w) | _ => false end.

(** Further turns of the loop, in any world. *)
Inductive continues (d0 : Daemon) : Daemon -> Prop :=
  | continues_refl : continues d0 d0
  | continues_turn d w0 d' w1 w i :
      continues d0 d -> loop_head (mkSt d w0) = (None, mkSt d' w1) -> admits d' i = true ->
      continues d0 (st_d (handle_input i (mkSt d' w)).2).

Lemma continues_inv mark orders d0 d : inv mark orders d0 -> continues d0 d -> exists orders', inv mark orders' d.
Proof.
  intros Hd0. induction 1 as [|d w0 d' w1 w i _ [orders' IH] Hhead Hadm]; [by exists orders|].
  eexists. by eapply turn_inv.
Qed.

(** A request is due from the validations started when it is handled. *)
Lemma request_inv orders d w0 d' w1 w i :
  inv (-1) orders d -> loop_head (mkSt d w0) = (None, mkSt d' w1) -> admits d' i = true -> requests_reload w i = true ->
  inv (started_validations (view d')) (orders ++ order_of w i) (st_d (handle_input i (mkSt d' w)).2).
Proof.
  intros Hd Hhead Hadm Hreq.
  pose proof (keeps_loop_head (-1) orders (d_cfg d) (d_drained d) (mkSt d w0) (inv_fixed _ _ _ Hd)) as Hl.
  rewrite Hhead in Hl. destruct (Hl eq_refl) as [Hb Hv].
  destruct i as [| |action reply| | | | | |]; try discriminate Hreq; cbn [DaemonControl.handle_input order_of].
  - destruct action; try discriminate Hreq. cbn in Hreq. apply negb_true_iff in Hreq. unfold start_order, mbind at 1, M_bind at 1, is_closed.
    cbn [st_w]. rewrite Hreq. apply andb_true_iff in Hadm as [Hc Hr].
    eapply fixed_inv, (triple_order_reload (-1) orders (d_cfg d) (d_drained d) reply). split; [exact Hb|]. split; [|by intros _].
    split; [exact Hv|]. cbn. destruct (d_command d'); [done|]. by destruct (d_reload d').
  - rewrite app_nil_r. eapply fixed_inv, (triple_request (-1) orders (d_cfg d) (d_drained d)). split; [exact Hb|]. by split.
Qed.
End loop.
