(* ===== verification/DaemonLife.v ===== *)
(** * The State task: from the command line to the loop, and out of it

    Models [run] of crates/polywan/src/daemon.rs up to the construction of
    the daemon (the checks, the state directory, the first dump and the
    write-ahead of the manifest), and the end of [event_loop]: the last
    events and submissions, the probers, the API, the lanes, the last
    checkpoint and cleanup.  [Start] is a state and error monad that also
    lists the calls that change something durable.  What the process reads
    of its environment is the class [StartWorld], what it does at the end
    the class [StopWorld]. *)

From stdpp Require Import prelude gmap sorting.
From Stdlib Require Import ZArith Lia.
From S2P Require Import Prelude Text Model Health QualityGates Probe Select Durations Config Plan Msg Netlink System.
From S2P Require Import Reconcile Discover Observer Events StateFiles Sysctl Nft Status Checks ApiServer Worker Cleanup.
From S2P Require Import DaemonState DaemonCore DaemonControl DaemonStart DaemonInv.

Local Open Scope Z_scope.
Local Open Scope polywan_scope.

(** ** Start-up *)

Record Options := mkOptions { op_config : PathBuf; op_dry_run : bool; op_reset_state : bool; op_lock : PathBuf }.

(** Why [run] returns an error; the first three are those of the
    configuration ([ConfigRefused] and the failed checks). *)
Inductive RunError :=
  | Run_Config (e : str)
  | Run_Refused (l : list Finding)
  | Run_Failed (l : list Finding)
  | Run_Start (e : StartError)
  | Run_Reset (e : CleanupError)
  | Run_Drain (e : StateError)
  | Run_Io (context : str) (e : ErrorKind)
  | Run_Socket (e : str)
  | Run_Dump (e : KernelError).

(** The calls that change something that outlives the process. *)
Inductive StartCall :=
  | Call_Lock (path : PathBuf)
  | Call_Open (path : PathBuf)
  | Call_Reset
  | Call_WriteDrain (d : DrainState)
  | Call_WriteManifest (m : Manifest).

(** What start-up uses of the world besides dumps, /proc/sys and the files
    that cleanup uses. *)
Class StartWorld (D W : Type) := {
  load_config : PathBuf -> W -> result Config str;
  open_descriptors : W -> list i32;
  start_host : W -> Host;
  os_release : W -> str;
  nft_version : PathBuf -> W -> result str str * W;
  acquire_lock : PathBuf -> W -> result unit ErrorKind * W;
  open_state_dir : PathBuf -> W -> result unit ErrorKind * W;
  read_drain : W -> result DrainState StateError;
  write_drain : DrainState -> W -> result unit ErrorKind * W;
  write_manifest : Manifest -> W -> result unit ErrorKind * W;
  subscribe : W -> result unit str * W;
  new_client : W -> result D str * W;
  networkd_running : W -> bool;
  networkd_conf : W -> gmap str str;
  nft_ruleset : PathBuf -> W -> result Value str * W;
  start_io : W -> result unit ErrorKind * W
}.
#[global] Hint Mode StartWorld - ! : typeclass_instances.

(** A step of start-up: its result, the calls it made and the world. *)
Definition Start (W A : Type) : Type := W -> result A RunError * list StartCall * W.

#[export] Instance Start_ret W : MRet (Start W) := fun A a w => (Ok a, [], w).
#[export] Instance Start_bind W : MBind (Start W) := fun A B k m w =>
  match m w with
  | (Ok a, calls, w) => let '(r, more, w) := k a w in (r, calls ++ more, w)
  | (Err e, calls, w) => (Err e, calls, w)
  end.

Section monad.
Context {W : Type}.

Definition asks {A} (f : W -> A) : Start W A := fun w => (Ok (f w), [], w).
Definition answers {A} (f : W -> A * W) : Start W A := fun w => let '(a, w) := f w in (Ok a, [], w).
Definition refuse {A} (e : RunError) : Start W A := fun w => (Err e, [], w).

(** [r.map_err(e)?] *)
Definition check {A E} (e : E -> RunError) (r : result A E) : Start W A := fun w =>
  match r with Ok a => (Ok a, [], w) | Err x => (Err (e x), [], w) end.

Definition call {E} (c : StartCall) (e : E -> RunError) (f : W -> result unit E * W) : Start W unit := fun w =>
  let '(r, w) := f w in (match r with Ok _ => Ok tt | Err x => Err (e x) end, [c], w).

Definition unless (b : bool) (m : Start W unit) : Start W unit := if b then mret tt else m.

(** [report]; the warnings are logged. *)
Definition report (f : Findings) : Start W unit :=
  match errors f with [] => mret tt | e => refuse (Run_Failed e) end.
End monad.

Record Prepared (D : Type) := mkPrepared {
  pp_cfg : Config;
  pp_manifest : Manifest;
  pp_drained : gset UplinkId;
  pp_view : Observer.View;
  pp_client : D;
  pp_dumper : D
}.
Arguments mkPrepared {D}.
Arguments pp_cfg {D}.
Arguments pp_manifest {D}.
Arguments pp_drained {D}.
Arguments pp_view {D}.
Arguments pp_client {D}.
Arguments pp_dumper {D}.

Section prepare.
Context {W D : Type} `{Clock W, Dumper D W, ProcSys W, CleanupWorld W, !StartWorld D W}.

(** The checks that need nothing of PolyWAN's own. *)
Definition start_checks (opts : Options) : Start W Config :=
  loaded ← asks (load_config (op_config opts));
  cfg ← check Run_Config loaded;
  inherited ← asks open_descriptors;
  host ← asks start_host;
  let r := runnable host (op_config opts) cfg inherited in
  match refused r, Checks.failed r with
  | [], [] =>
      release ← asks os_release;
      let findings := kernel release in
      findings ←
        (if bool_decide (fw_mode (cf_firewall cfg) = Managed) then
           v ← answers (nft_version (fw_nft_path (cf_firewall cfg)));
           mret (Findings_extend findings (nftables (match v with Ok t => t | Err _ => [] end)))
         else mret findings);
      report findings ;; mret cfg
  | [], e => refuse (Run_Failed e)
  | e, _ => refuse (Run_Refused e)
  end.

(** The lock, the state directory, the manifest with whether there was none,
    and the drained uplinks. *)
Definition start_state (opts : Options) (cfg : Config) : Start W (Manifest * bool * gset UplinkId) :=
  unless (op_dry_run opts)
    (call (Call_Lock (op_lock opts)) (Run_Io (lit "instance lock")) (acquire_lock (op_lock opts))) ;;
  unless (op_dry_run opts)
    (call (Call_Open (cf_state_dir cfg)) (Run_Io (lit "state directory")) (open_state_dir (cf_state_dir cfg))) ;;
  unless (negb (op_reset_state opts) || op_dry_run opts) (call Call_Reset Run_Reset StateDir_reset) ;;
  read ← asks read_manifest;
  found ← check Run_Start (startup_manifest (op_reset_state opts) (op_dry_run opts) cfg read);
  recorded ← asks read_drain;
  recorded ← check Run_Drain recorded;
  let '(drain, changed, drained) := startup_drain cfg recorded in
  unless (negb changed || op_dry_run opts)
    (call (Call_WriteDrain drain) (Run_Io (lit "writing the drain state")) (write_drain drain)) ;;
  mret (found.1, found.2, drained).

(** The subscription comes before the first dump. *)
Definition start_observe (cfg : Config) (without_manifest : bool) : Start W (Observer.View * D * D) :=
  subscribed ← answers subscribe;
  check Run_Socket subscribed ;;
  client ← answers new_client;
  client ← check Run_Socket client;
  dumper ← answers new_client;
  dumper ← check Run_Socket dumper;
  dumped ← answers (full dumper (daemon_scope cfg));
  view ← check Run_Dump dumped;
  running ← asks networkd_running;
  conf ← asks networkd_conf;
  settings ← asks (fun w k => sysctl_read k w);
  ruleset ← answers (nft_ruleset (fw_nft_path (cf_firewall cfg)));
  let findings := system_findings settings running conf (vw_system view) cfg ruleset in
  report (if without_manifest
          then Findings_extend findings
                 (adoptable (vw_system view) (Layout_of cfg) (rt_route_protocol (cf_routing cfg)))
          else findings) ;;
  mret (view, client, dumper).

(** [run] up to the construction of the daemon: the manifest is bound and
    written when nothing was found against it. *)
Definition prepare (opts : Options) : Start W (Prepared D) :=
  cfg ← start_checks opts;
  '(manifest, without_manifest, drained) ← start_state opts cfg;
  '(view, client, dumper) ← start_observe cfg without_manifest;
  let manifest := if op_dry_run opts then manifest else Manifest_bind manifest cfg in
  unless (op_dry_run opts)
    (call (Call_WriteManifest manifest) (Run_Io (lit "writing the manifest")) (write_manifest manifest)) ;;
  started ← answers start_io;
  check (Run_Io (lit "starting the I/O thread")) started ;;
  mret (mkPrepared cfg manifest drained view client dumper).

(** [Lanes::start]: two empty queues. *)
Definition Lanes_start : Lanes := mkLanes (mkChannel [] true) (mkChannel [] true).

Definition Prepared_daemon (p : Prepared D) (instance boot_id : str) (started : Z) (expiry_checked last_checkpoint : Instant)
    : Daemon :=
  Daemon_new (pp_cfg p) Lanes_start (pp_view p) (pp_manifest p) (pp_drained p) instance boot_id started
    expiry_checked last_checkpoint.
End prepare.

(** *** What start-up changes *)

Definition quiet {W A} (m : Start W A) : Prop := forall w, (m w).1.2 = [].

Section start_rules.
Context {W : Type}.

Lemma Start_bind_inv {A B} (m : Start W A) (k : A -> Start W B) w r calls w' : (m ≫= k) w = (r, calls, w') ->
  (exists e, m w = (Err e, calls, w') /\ r = Err e) \/
  (exists a c1 w1 c2, m w = (Ok a, c1, w1) /\ k a w1 = (r, c2, w') /\ calls = c1 ++ c2).
Proof.
  unfold mbind, Start_bind. destruct (m w) as [[[a|e] c1] w1]; [right|left; naive_solver].
  destruct (k a w1) as [[r2 c2] w2] eqn:E. simplify_eq. eauto 10.
Qed.

Lemma quiet_bind {A B} (m : Start W A) (k : A -> Start W B) : quiet m -> (forall a, quiet (k a)) -> quiet (m ≫= k).
Proof.
  intros Hm Hk w. unfold mbind, Start_bind. specialize (Hm w). destruct (m w) as [[[a|e] c1] w1]; [|exact Hm].
  specialize (Hk a w1). destruct (k a w1) as [[r c2] w2]. cbn in *. by rewrite Hm, Hk.
Qed.
Lemma quiet_ret {A} (a : A) : quiet (mret a : Start W A).
Proof. done. Qed.
Lemma quiet_asks {A} (f : W -> A) : quiet (asks f).
Proof. done. Qed.
Lemma quiet_answers {A} (f : W -> A * W) : quiet (answers f).
Proof. intros w. unfold answers. by destruct (f w). Qed.
Lemma quiet_refuse {A} e : quiet (refuse e : Start W A).
Proof. done. Qed.
Lemma quiet_check {A E} (e : E -> RunError) (r : result A E) : quiet (check e r : Start W A).
Proof. intros w. by destruct r. Qed.
Lemma quiet_report f : quiet (report f : Start W unit).
Proof. intros w. unfold report. by destruct (errors f). Qed.

(** The calls of a step that may be left out are none or the one. *)
Lemma unless_call {E} b c (e : E -> RunError) f (w w' : W) r calls : unless b (call c e f) w = (r, calls, w') ->
  calls = if b then [] else [c].
Proof. unfold unless, call. destruct b; [by intros [= <- <- <-]|]. destruct (f w). by intros [= _ <- _]. Qed.
Lemma unless_true (m : Start W unit) (w w' : W) calls r : unless true m w = (r, calls, w') -> r = Ok tt.
Proof. by intros [= <- _ _]. Qed.
End start_rules.

Create HintDb start.
#[export] Hint Resolve quiet_ret quiet_asks quiet_answers quiet_refuse quiet_check quiet_report : start.
Ltac quiet_auto :=
  repeat first [solve [eauto 2 with start]
    | lazymatch goal with
      | |- forall _, _ => intro
      | |- quiet (_ ≫= _) => apply quiet_bind
      | |- quiet (if ?b then _ else _) => destruct b
      | |- quiet (match ?x with _ => _ end) => destruct x
      end].

Section start_equations.
Context {W : Type}.

Lemma bind_ret {A B} (a : A) (k : A -> Start W B) w : (mret a ≫= k) w = k a w.
Proof. unfold mbind, Start_bind, mret, Start_ret. by destruct (k a w) as [[r c] w']. Qed.
Lemma bind_asks {A B} (f : W -> A) (k : A -> Start W B) w : (asks f ≫= k) w = k (f w) w.
Proof. unfold mbind, Start_bind, asks. by destruct (k (f w) w) as [[r c] w']. Qed.
Lemma bind_answers {A B} (f : W -> A * W) (k : A -> Start W B) w : (answers f ≫= k) w = k (f w).1 (f w).2.
Proof.
  unfold mbind, Start_bind, answers. destruct (f w) as [a w1]. cbn [fst snd]. by destruct (k a w1) as [[r c] w'].
Qed.
Lemma bind_check {A B E} (e : E -> RunError) (x : result A E) (k : A -> Start W B) w :
  (check e x ≫= k) w = match x with Ok a => k a w | Err y => (Err (e y), [], w) end.
Proof. unfold mbind, Start_bind, check. destruct x as [a|y]; [|done]. by destruct (k a w) as [[r c] w']. Qed.
Lemma bind_report {B} f (k : unit -> Start W B) w :
  (report f ≫= k) w = match errors f with [] => k tt w | l => (Err (Run_Failed l), [], w) end.
Proof. unfold mbind, Start_bind, report. destruct (errors f); [|done]. cbn. by destruct (k tt w) as [[r c] w']. Qed.
End start_equations.

(** Reads the next steps of a sequence, which ended as [H] says. *)
Ltac start_reads H := cbv beta zeta in H; rewrite ?bind_ret, ?bind_asks, ?bind_answers, ?bind_check, ?bind_report in H.

Section start_theorems.
Context {W D : Type} `{Clock W, Dumper D W, ProcSys W, CleanupWorld W, !StartWorld D W}.

(** What the first checks found, in the world they read. *)
Definition environment_checked (opts : Options) (cfg : Config) (w : W) : Prop :=
  load_config (op_config opts) w = Ok cfg /\
  runnable (start_host w) (op_config opts) cfg (open_descriptors w) = mkRunnable [] [] /\
  errors (kernel (os_release w)) = [] /\
  (fw_mode (cf_firewall cfg) = Managed ->
     errors (nftables (match (nft_version (fw_nft_path (cf_firewall cfg)) w).1 with Ok t => t | Err _ => [] end)) = []).

Lemma start_checks_quiet opts : quiet (start_checks opts : Start W Config).
Proof. unfold start_checks. quiet_auto. Qed.

Lemma start_observe_quiet cfg without : quiet (start_observe cfg without : Start W _).
Proof. unfold start_observe. quiet_auto. Qed.

Lemma start_checks_ok opts cfg (w w' : W) calls : start_checks opts w = (Ok cfg, calls, w') -> environment_checked opts cfg w.
Proof.
  unfold start_checks. intros E. start_reads E. destruct (load_config (op_config opts) w) as [c|e] eqn:El; [|done].
  start_reads E. destruct (runnable _ _ _ _) as [re fa] eqn:Er. cbn [refused Checks.failed] in E.
  destruct re; [|by destruct fa]. destruct fa; [|done]. start_reads E.
  destruct (bool_decide (fw_mode (cf_firewall c) = Managed)) eqn:Em.
  - apply Start_bind_inv in E as [(? & ? & [=])|(f & c1 & w1 & c2 & Ef & E & ->)]. start_reads Ef. injection Ef as <- _ <-.
    start_reads E. destruct (errors _) eqn:Ee; [|done]. injection E as <- _ _. apply app_eq_nil in Ee as [Ek En].
    by split_and!.
  - start_reads E. destruct (errors _) eqn:Ee; [|done]. injection E as <- _ _. split_and!; try done.
    intros Hm. by rewrite bool_decide_eq_true_2 in Em.
Qed.

(** The calls up to the manifest, of a run that gets there. *)
Definition state_calls (opts : Options) (cfg : Config) (recorded : DrainState) : list StartCall :=
  if op_dry_run opts then [] else
  [Call_Lock (op_lock opts); Call_Open (cf_state_dir cfg)] ++
  (if op_reset_state opts then [Call_Reset] else []) ++
  (let '(drain, changed, _) := startup_drain cfg recorded in if changed : bool then [Call_WriteDrain drain] else []).

Lemma unless_bind {E B} b c (e : E -> RunError) f (k : unit -> Start W B) w r calls w' :
  (unless b (call c e f) ≫= k) w = (r, calls, w') ->
  (exists x, r = Err x /\ calls = if b then [] else [c]) \/
  (exists w1 rest, k tt w1 = (r, rest, w') /\ calls = (if b then [] else [c]) ++ rest).
Proof.
  intros [(x & E1 & ->)|([] & c1 & w1 & c2 & E1 & E2 & ->)]%Start_bind_inv; apply unless_call in E1 as ->; eauto 10.
Qed.

Ltac prefixed opts recorded :=
  exists recorded; destruct (op_dry_run opts), (op_reset_state opts); cbn;
  (split; [first [apply prefix_nil | by eexists]|done]).

Lemma start_state_calls opts cfg (w w' : W) r calls : start_state opts cfg w = (r, calls, w') ->
  exists recorded, calls `prefix_of` state_calls opts cfg recorded /\
  (forall x, r = Ok x -> calls = state_calls opts cfg recorded /\
     exists wm : W, startup_manifest (op_reset_state opts) (op_dry_run opts) cfg (read_manifest wm) = Ok x.1).
Proof.
  unfold start_state, state_calls. intros E.
  apply unless_bind in E as [(e & -> & ->)|(w1 & k1 & E & ->)]; [prefixed opts DrainState_default|].
  apply unless_bind in E as [(e & -> & ->)|(w2 & k2 & E & ->)]; [prefixed opts DrainState_default|].
  apply unless_bind in E as [(e & -> & ->)|(w3 & k3 & E & ->)];
    [prefixed opts DrainState_default|].
  start_reads E. destruct (startup_manifest _ _ cfg (read_manifest w3)) as [found|e] eqn:Em;
    [|injection E as <- <- <-; prefixed opts DrainState_default].
  start_reads E. destruct (read_drain w3) as [recorded|e];
    [|injection E as <- <- <-; prefixed opts DrainState_default].
  destruct (startup_drain cfg recorded) as [[drain changed] drained] eqn:Ed.
  apply unless_bind in E as [(e & -> & ->)|(w4 & k4 & E & ->)]; exists recorded; rewrite Ed.
  - destruct (op_dry_run opts), (op_reset_state opts), changed; (split; [first [apply prefix_nil | by eexists]|done]).
  - injection E as <- <- <-. destruct found as [m without].
    destruct (op_dry_run opts), (op_reset_state opts), changed; cbn; (split; [done|]);
      intros x [= <-]; (split; [done|]); by exists w3.
Qed.

(** What the checks of the system found, in the view of the first dump and
    in the world that they read. *)
Definition system_checked (cfg : Config) (without_manifest : bool) (view : Observer.View) (w : W) : Prop :=
  errors (system_findings (fun k => sysctl_read k w) (networkd_running w) (networkd_conf w) (vw_system view) cfg
    (nft_ruleset (fw_nft_path (cf_firewall cfg)) w).1) = [] /\
  (without_manifest = true ->
     errors (adoptable (vw_system view) (Layout_of cfg) (rt_route_protocol (cf_routing cfg))) = []).

Lemma start_observe_ok cfg without (w w' : W) view (client dumper : D) calls :
  start_observe cfg without w = (Ok (view, client, dumper), calls, w') ->
  exists w1 w2, full dumper (daemon_scope cfg) w1 = (Ok view, w2) /\ system_checked cfg without view w2.
Proof.
  unfold start_observe. intros E. start_reads E. destruct (subscribe w).1; [|done].
  start_reads E. destruct (new_client (subscribe w).2).1; [|done].
  start_reads E. set (wc := (new_client _).2) in E. destruct (new_client wc).1 as [dmp|]; [|done].
  start_reads E. set (wd := (new_client wc).2) in E. destruct (full dmp (daemon_scope cfg) wd) as [[v|e] wf] eqn:Ef; [|done].
  cbn [fst snd] in E. start_reads E. destruct (errors _) eqn:Ee; [|done]. injection E as <- _ <- _ _.
  exists wd, wf. split; [done|]. unfold system_checked. destruct without; [|by split].
  by apply app_eq_nil in Ee as [? ?].
Qed.

Lemma state_calls_manifest opts cfg recorded m : Call_WriteManifest m ∉ state_calls opts cfg recorded.
Proof.
  unfold state_calls. destruct (startup_drain cfg recorded) as [[drain changed] drained].
  destruct (op_dry_run opts), (op_reset_state opts), changed; cbn; set_solver.
Qed.

Lemma state_calls_dry opts cfg recorded : op_dry_run opts = true -> state_calls opts cfg recorded = [].
Proof. unfold state_calls. by intros ->. Qed.

Lemma quiet_calls {A} (m : Start W A) w r calls w' : quiet m -> m w = (r, calls, w') -> calls = [].
Proof. intros Hq E. specialize (Hq w). by rewrite E in Hq. Qed.

(** What is promised of a start-up that ended with [r] after [calls]. *)
Record start_spec (opts : Options) (w : W) (r : result (Prepared D) RunError) (calls : list StartCall) : Prop := {
  ss_dry_run : op_dry_run opts = true -> calls = [];
  ss_order : calls <> [] -> exists cfg recorded m, calls `prefix_of` state_calls opts cfg recorded ++ [Call_WriteManifest m];
  ss_checked : forall m, Call_WriteManifest m ∈ calls -> exists cfg found without view (w1 w2 : W),
    environment_checked opts cfg w /\
    startup_manifest (op_reset_state opts) false cfg (read_manifest w1) = Ok (found, without) /\
    system_checked cfg without view w2 /\ m = Manifest_bind found cfg;
  ss_written : forall p, r = Ok p -> op_dry_run opts = false ->
    last calls = Some (Call_WriteManifest (pp_manifest p)) /\ environment_checked opts (pp_cfg p) w
}.

Lemma start_spec_early opts cfg recorded w e calls : calls `prefix_of` state_calls opts cfg recorded ->
  start_spec opts w (Err e) calls.
Proof.
  intros Hp. split; [|intros _; exists cfg, recorded, (Manifest_new cfg); by apply prefix_app_r| |done].
  - intros Hd. rewrite state_calls_dry in Hp by done. by apply prefix_nil_inv in Hp.
  - intros m Hm. destruct Hp as [k Hk]. destruct (state_calls_manifest opts cfg recorded m). rewrite Hk. set_solver.
Qed.

Lemma start_spec_late opts cfg recorded (w w1 w2 : W) found without view r :
  environment_checked opts cfg w ->
  startup_manifest (op_reset_state opts) (op_dry_run opts) cfg (read_manifest w1) = Ok (found, without) ->
  system_checked cfg without view w2 ->
  (forall p, r = Ok p -> pp_cfg p = cfg /\ pp_manifest p = if op_dry_run opts then found else Manifest_bind found cfg) ->
  start_spec opts w r (state_calls opts cfg recorded ++
    (if op_dry_run opts then [] else [Call_WriteManifest (if op_dry_run opts then found else Manifest_bind found cfg)])).
Proof.
  intros He Hm Hs Hr. split.
  - intros Hd. by rewrite Hd, state_calls_dry.
  - intros _. exists cfg, recorded, (Manifest_bind found cfg). destruct (op_dry_run opts); [|done]. rewrite app_nil_r. by eexists.
  - intros m. destruct (op_dry_run opts) eqn:Hd; rewrite elem_of_app; [by intros [?%state_calls_manifest|?%not_elem_of_nil]|].
    intros [?%state_calls_manifest|[= ->]%list_elem_of_singleton]; [done|]. exists cfg, found, without, view, w1, w2. done.
  - intros p Hp Hd. destruct (Hr p Hp) as [-> ->]. rewrite Hd, last_snoc. done.
Qed.

(** C16: Start-up changes nothing durable before it is sure, and announces its
    artifacts before it makes any: its calls are those of [state_calls] in
    their order, cut anywhere by an error, and then the manifest, bound to
    the configuration; the manifest is written only when the environment,
    the recorded manifest and the observed system passed every check, and a
    daemon that starts has written the manifest that it works with.  A dry
    run changes nothing. *)
Theorem start_checks_before_writes (opts : Options) (w w' : W) (r : result (Prepared D) RunError) (calls : list StartCall) :
  prepare opts w = (r, calls, w') -> start_spec opts w r calls.
Proof.
  unfold prepare. intros [(e & E & ->)|(cfg & c1 & w1 & k1 & E1 & E & ->)]%Start_bind_inv.
  { apply quiet_calls in E as ->; [|apply start_checks_quiet]. split; [done|done| |done]. by intros m ?%not_elem_of_nil. }
  pose proof (quiet_calls _ _ _ _ _ (start_checks_quiet opts) E1) as ->. apply start_checks_ok in E1.
  apply Start_bind_inv in E as [(e & E & ->)|([[found without] drained] & c2 & w2 & k2 & E2 & E & ->)].
  { destruct (start_state_calls _ _ _ _ _ _ E) as (recorded & Hp & _). by apply (start_spec_early _ cfg recorded). }
  destruct (start_state_calls _ _ _ _ _ _ E2) as (recorded & _ & Hok).
  destruct (Hok _ eq_refl) as [-> [wm Hm]]. cbn [fst] in Hm. clear Hok E2.
  apply Start_bind_inv in E as [(e & E & ->)|([[view client] dumper] & c3 & w3 & k3 & E3 & E & ->)].
  { apply quiet_calls in E as ->; [|apply start_observe_quiet]. rewrite app_nil_r. by apply (start_spec_early _ cfg recorded). }
  pose proof (quiet_calls _ _ _ _ _ (start_observe_quiet cfg without) E3) as ->.
  apply start_observe_ok in E3 as (? & wo & _ & Hs). cbn [app].
  apply unless_bind in E as [(e & -> & ->)|(w4 & k4 & E & ->)]; [by eapply start_spec_late|].
  start_reads E. destruct (start_io w4).1 as [[]|e].
  - injection E as <- <- <-. rewrite app_nil_r. eapply start_spec_late; [done..|]. by intros p [= <-].
  - injection E as <- <- <-. rewrite app_nil_r. by eapply start_spec_late.
Qed.
End start_theorems.

Module StartSample.
Import CleanupSample.
Definition host : Host :=
  mkHost (fun p => Ok p) (fun _ => Ok None) (fun _ => true) (fun _ => Ok (mkMetadata 0 493 true true))
    (fun _ => Ok (Some 0)) (fun _ => Ok None).
(** Sockets over which the kernel shows its rules for local addresses. *)
Inductive Socket := AnySocket.
Definition local_rule (f : Family) : Message :=
  Message_Route (NewRule (mkRuleMessage (address_family f) 0 0 0 255 RuleAction_ToTable 0 [RuleAttr_Table 255])).
#[global] Instance World_Socket : Dumper Socket World := {|
  dumper_dump := fun _ f w =>
    (Some (Ok (mkDump (match f with RuleDump f => [local_rule f] | _ => [] end) false)), w);
  dumper_fresh := fun _ w => (Ok AnySocket, w)
|}.
#[global] Instance World_Start : StartWorld Socket World := {|
  load_config := fun _ _ => Ok Sample.config;
  open_descriptors := fun _ => [];
  start_host := fun _ => host;
  os_release := fun _ => lit "6.12.4";
  nft_version := fun _ w => (Ok (lit "nftables v1.1.1"), w);
  acquire_lock := fun _ w => (Ok tt, w);
  open_state_dir := fun _ w => (Ok tt, w);
  read_drain := fun _ => Ok (DrainState_of [lit "gone"]);
  write_drain := fun _ w => (Ok tt, w);
  write_manifest := fun m w => (Ok tt, mkWorld (files w) (Some m));
  subscribe := fun w => (Ok tt, w);
  new_client := fun w => (Ok AnySocket, w);
  networkd_running := fun _ => false;
  networkd_conf := fun _ => ∅;
  nft_ruleset := fun _ w => (Err [], w);
  start_io := fun w => (Ok tt, w)
|}.
Definition opts : Options := mkOptions (lit "/etc/polywan.toml") false true (lit "/run/polywan/lock").
Definition outcome : result (Prepared Socket) RunError * list StartCall * World := prepare opts before.
Definition ends_well : bool := match outcome.1.1 with Ok _ => true | Err _ => false end.
End StartSample.

Lemma start_checks_before_writes_witness :
  exists p, StartSample.outcome.1.1 = Ok p /\ last StartSample.outcome.1.2 = Some (Call_WriteManifest (pp_manifest p)).
Proof.
  assert (H : StartSample.ends_well = true) by (by vm_compute). unfold StartSample.ends_well in H.
  destruct StartSample.outcome as [[r calls] w] eqn:E. cbn [fst snd] in *. destruct r as [p|e]; [|discriminate].
  exists p. split; [reflexivity|].
  apply (start_checks_before_writes StartSample.opts CleanupSample.before w (Ok p) calls E); reflexivity.
Defined.

(** ** The end of the event loop *)

(** What the end of the loop uses of the world: the last submissions of the
    email notifier and the end of the API's listeners (both awaited), the
    end of the lanes (a write that runs completes) and the checkpoint file. *)
Class StopWorld (W : Type) := {
  stop_mail : W -> W;
  stop_api : W -> W;
  stop_io : W -> W;
  write_checkpoint_file : Checkpoint -> W -> result unit StateError * W;
  read_checkpoint : W -> result (option Checkpoint) StateError
}.
#[global] Hint Mode StopWorld ! : typeclass_instances.

Section shutdown.
Context {W D : Type} `{DaemonWorld W, Clock W, Dumper D W, ProcSys W, CleanupWorld W, StopWorld W}.
Context (to_json : Event Value -> str).
Abbreviation M := (M W).

Definition in_world (f : W -> W) : M unit := fun s => (tt, mkSt (st_d s) (f (st_w s))).

(** [Notifications::stopping]. *)
Definition stopping : M unit :=
  notifier ← gets d_notifier;
  match notifier with
  | Some _ => in_world (fun w => (notify_send (lit "STOPPING=1" ++ [10]) w).2)
  | None => mret tt
  end.

Definition abort_prober (x : PathKey * PathRuntime) : M unit :=
  let '(key, p) := x in
  match pr_prober p with
  | Some spec => modify (fun d => d <| d_paths ::= alter (fun p => p <| pr_prober := None |>) key |>) ;; give (E_Abort spec)
  | None => mret tt
  end.

Definition abort_probers : M unit :=
  paths ← gets d_paths;
  for_each (btree_iter paths) abort_prober.

(** A checkpoint that cannot be written is logged. *)
Definition write_checkpoint_now : M unit :=
  c ← checkpoint;
  in_world (fun w => (write_checkpoint_file c w).2).

(** Everything before the last checkpoint. *)
Definition wind_down : M unit :=
  push_event (NewEvent_new (lit "daemon_stopping") (lit "polywan is stopping")) ;;
  stopping ;;
  flush_events to_json ;;
  in_world stop_mail ;;
  abort_probers ;;
  api ← gets d_api;
  when api (modify (fun d => d <| d_api := false |>) ;; give (E_Api Cmd_Shutdown) ;; in_world stop_api) ;;
  in_world stop_io.

Definition run_cleanup (cfg : Config) (client : result D str) : M (result unit CleanupError) := fun s =>
  let '(r, w) := cleanup_run cfg client (st_w s) in (r, mkSt (st_d s) w).

(** From the signal to the end of [event_loop]; [client] is the socket that
    cleanup opens. *)
Definition shutdown (client : result D str) : M (result unit CleanupError) :=
  wind_down ;;
  write_checkpoint_now ;;
  cfg ← gets d_cfg;
  match rt_on_shutdown (cf_routing cfg) with
  | OnShutdown_Cleanup => run_cleanup cfg client
  | OnShutdown_Keep => mret (Ok tt)
  end.

(** *** What survives a restart *)

(** The checkpoint file holds what was written. *)
Class StopLaws := {
  checkpoint_written : forall c (w : W), (write_checkpoint_file c w).1 = Ok tt ->
    read_checkpoint (write_checkpoint_file c w).2 = Ok (Some c)
}.

(** What a checkpoint takes of a path. *)
Definition path_health (p : PathRuntime) : option Discovered * Machine * u64 :=
  (pr_discovered p, pr_machine p, pr_since_ms p).

(** [d] differs from [d0] in nothing that a checkpoint holds. *)
Definition same_health (d0 d : Daemon) : Prop :=
  d_cfg d = d_cfg d0 /\ d_active d = d_active d0 /\ d_boot_id d = d_boot_id d0 /\
  path_health <$> d_paths d = path_health <$> d_paths d0.

Lemma keeps_in_world I f : keeps I (in_world f).
Proof. by intros s Hs. Qed.
#[local] Hint Resolve keeps_in_world : keeps.

Lemma keeps_stopping I : keeps I stopping.
Proof. unfold stopping. keeps_auto. Qed.

Lemma keeps_flush d0 : keeps (same_health d0) (flush_events to_json : M unit).
Proof.
  unfold flush_events, snapshot, give. keeps_auto. apply keeps_modify. intros d Hd. by destruct (bool_decide _).
Qed.

Lemma same_health_abort d0 key d : same_health d0 d ->
  same_health d0 (d <| d_paths ::= alter (fun p => p <| pr_prober := None |>) key |>).
Proof.
  intros (H1' & H2' & H3' & H4'). split_and!; [exact H1'|exact H2'|exact H3'|]. rewrite <- H4'. cbn.
  apply map_eq. intros k. rewrite !lookup_fmap, lookup_alter. case_decide; [subst|done]. by destruct (d_paths d !! _).
Qed.

Lemma keeps_abort_probers d0 : keeps (same_health d0) abort_probers.
Proof.
  unfold abort_probers, abort_prober, give. keeps_auto. apply keeps_modify. intros d. apply same_health_abort.
Qed.

(** The addressing of a path that is ready is as it was. *)
Definition same_addressing (old new : Discovered) : Prop :=
  dv_ifindex new = dv_ifindex old /\
  exists r r', dv_ready old = Ok r /\ dv_ready new = Ok r' /\ rp_source r' = rp_source r /\ rp_gateway r' = rp_gateway r.

Lemma find_checkpoint (paths : gmap PathKey PathRuntime) key p : paths !! key = Some p ->
  find_first (fun c => (pc_uplink c =? UplinkId_get (pk_uplink key)) && bool_decide (pc_family c = Family_key (pk_family key)))
    (path_checkpoint <$> btree_iter paths) = Some (path_checkpoint (key, p)).
Proof.
  intros Hp. assert (Hin : (key, p) ∈ btree_iter paths) by by apply btree_iter_elem_of.
  destruct (find_first _ _) as [c|] eqn:E.
  - apply find_first_Some in E as [([k q] & -> & Hk)%list_elem_of_fmap E]. apply btree_iter_elem_of in Hk.
    cbn in E. apply andb_true_iff in E as [Eu%Z.eqb_eq Ef%bool_decide_eq_true]. apply UplinkId_get_inj in Eu.
    assert (k = key) as ->; [|congruence]. destruct k as [ku kf], key as [u f]. cbn in *. subst ku. f_equal.
    destruct kf, f; done.
  - pose proof (proj1 (find_first_None _ _) E _ (list_elem_of_fmap_2 path_checkpoint _ _ Hin)) as Hf. cbn in Hf.
    by rewrite Z.eqb_refl, bool_decide_eq_true_2 in Hf.
Qed.

Lemma warm_state_checkpoint (paths : gmap PathKey PathRuntime) c key p old new :
  cp_paths c = path_checkpoint <$> btree_iter paths -> paths !! key = Some p -> pr_discovered p = Some old ->
  same_addressing old new -> warm_state c key new = Some (Machine_snapshot (pr_machine p)).
Proof.
  intros Hc Hp Ho (Hi & r & r' & Er & Er' & Hs & Hg). unfold warm_state. rewrite Hc, (find_checkpoint paths key p Hp).
  cbn. rewrite Ho. cbn. rewrite Er, Er'. cbn. rewrite Hi, Hs, Hg, !bool_decide_eq_true_2 by done. cbn. unfold Machine_snapshot.
  do 2 f_equal. unfold Machine_is_up. case_bool_decide; [done|]. by destruct (m_state (pr_machine p)).
Qed.

(** The checkpoint that [load_checkpoint] uses. *)
Definition usable_checkpoint (read : result (option Checkpoint) StateError) (d : Daemon) (now_ms : u64) : option Checkpoint :=
  match read with
  | Ok (Some c) =>
      if Checkpoint_valid c (d_boot_id d) now_ms (RecordedStructure_from (Config_structural (d_cfg d))) then Some c else None
  | _ => None
  end.

(** One path of [load_checkpoint]. *)
Definition load_path (c : option Checkpoint) (x : PathKey * Discovered) : M unit :=
  let '(key, dv) := x in
  when (dv_group_only dv) (expect_uplink (pk_uplink key)) ;;
  let warm := c ← c; warm_state c key dv in
  ms ← now_ms;
  modify (fun d => d <| d_paths ::=
    <[key := PathRuntime_new (Some dv) (Machine_new (is_ready dv) (not_ready_reason dv) warm) ms]> |>).

Definition loaded (c : option Checkpoint) (key : PathKey) (dv : Discovered) (d : Daemon) : Prop :=
  exists p, d_paths d !! key = Some p /\
    pr_machine p = Machine_new (is_ready dv) (not_ready_reason dv) (c ← c; warm_state c key dv).

Lemma load_path_loads c key dv s : loaded c key dv (st_d (load_path c (key, dv) s).2).
Proof.
  unfold load_path. apply (triple_bind (fun _ => True) (fun _ _ => True) (fun _ => loaded c key dv)); [done| |done].
  intros _. apply (triple_bind _ (fun _ _ => True)); [done|]. intros ms s' _. unfold loaded. cbn.
  rewrite lookup_insert_eq. by eexists.
Qed.

Lemma load_path_keeps c key dv x : x.1 <> key -> keeps (loaded c key dv) (load_path c x).
Proof.
  destruct x as [k dv']. cbn [fst]. intros Hne. unfold load_path, expect_uplink, panic. keeps_auto.
  apply keeps_modify. intros d (p & Hp & Hm). exists p. cbn. by rewrite lookup_insert_ne.
Qed.

Lemma load_paths_loads c (l : list (PathKey * Discovered)) key dv s : NoDup (fst <$> l) -> (key, dv) ∈ l ->
  loaded c key dv (st_d (for_each l (load_path c) s).2).
Proof.
  intros Hnd (l1 & l2 & ->)%list_elem_of_split. rewrite for_each_app. set (s1 := (for_each l1 _ s).2).
  cbn [for_each]. unfold mbind at 1, M_bind at 1. pose proof (load_path_loads c key dv s1) as Hl.
  destruct (load_path c (key, dv) s1) as [[] s2]. cbn [snd] in Hl.
  apply (keeps_for_each (loaded c key dv) l2 (load_path c)); [|exact Hl]. intros x Hx. apply load_path_keeps.
  rewrite fmap_app, NoDup_app in Hnd. destruct Hnd as (_ & _ & Hnd). cbn in Hnd. apply NoDup_cons in Hnd as [Hk _].
  intros <-. by apply Hk, list_elem_of_fmap_2.
Qed.

Definition active_of (c : Checkpoint) (f : Family) : gset UplinkId :=
  list_to_set (omap UplinkId_new (match f with V4 => cp_active_v4 c | V6 => cp_active_v6 c end)).

Lemma load_checkpoint_eq read (s : St W) c :
  let d := st_d s in
  let w := (boottime_ms (st_w s)).2 in
  usable_checkpoint read d (boottime_ms (st_w s)).1 = Some c ->
  let s' := (for_each (btree_iter (discover (d_cfg d) (d_system d) (d_protocol d) (instant_now w).1)) (load_path (Some c))
    (mkSt d (instant_now w).2)).2 in
  st_d (load_checkpoint read s).2 =
    (st_d s') <| d_active ::= fun a => <[V6 := active_of c V6]> (<[V4 := active_of c V4]> a) |>.
Proof.
  cbn zeta. unfold load_checkpoint, mbind at 1 2 3 4, M_bind at 1 2 3 4, get_d, now_ms at 1, now. cbn [st_d st_w].
  destruct (boottime_ms (st_w s)) as [t w1]. cbn [fst snd st_d st_w]. destruct (instant_now w1) as [i w2].
  cbn [fst snd st_d]. intros Hc. unfold usable_checkpoint in Hc. rewrite Hc.
  change (fun '(key, dv) => _) with (load_path (Some c)). by destruct (for_each _ (load_path (Some c)) _) as [[] s'].
Qed.

Lemma load_checkpoint_spec read (s : St W) c :
  let d := st_d s in
  let d' := st_d (load_checkpoint read s).2 in
  usable_checkpoint read d (boottime_ms (st_w s)).1 = Some c ->
  (forall key dv, discover (d_cfg d) (d_system d) (d_protocol d) (instant_now (boottime_ms (st_w s)).2).1 !! key = Some dv ->
     loaded (Some c) key dv d') /\
  (forall f, d_active d' !! f = Some (active_of c f)).
Proof.
  cbn zeta. intros Hc. rewrite (load_checkpoint_eq read s c Hc). split.
  - intros key dv Hd. apply load_paths_loads; [apply btree_iter_NoDup|]. by apply btree_iter_elem_of.
  - intros f. set (s' := for_each _ _ _).
    transitivity ((<[V6 := active_of c V6]> (<[V4 := active_of c V4]> (d_active (st_d s'.2)))) !! f); [done|].
    destruct f; [by rewrite lookup_insert_ne, lookup_insert_eq|by rewrite lookup_insert_eq].
Qed.

(** No prober of the path is left. *)
Definition unprobed (key : PathKey) (d : Daemon) : Prop := forall p, d_paths d !! key = Some p -> pr_prober p = None.

Lemma unprobed_alter key k d : unprobed key d ->
  unprobed key (d <| d_paths ::= alter (fun p => p <| pr_prober := None |>) k |>).
Proof.
  intros Hd p. cbn. rewrite lookup_alter. case_decide; [|apply Hd]. subst. destruct (d_paths d !! _); [|done]. by intros [= <-].
Qed.

Lemma abort_prober_keeps key x : keeps (unprobed key) (abort_prober x).
Proof. destruct x as [k p]. unfold abort_prober, give. keeps_auto. apply keeps_modify. intros d. apply unprobed_alter. Qed.

(** Until its turn a path is as the loop found it. *)
Lemma abort_probers_all (s : St W) key : unprobed key (st_d (abort_probers s).2).
Proof.
  unfold abort_probers, mbind at 1, M_bind at 1, gets. cbn [snd].
  destruct (d_paths (st_d s) !! key) as [p|] eqn:Ep.
  - pose proof Ep as Hl. apply btree_iter_elem_of, list_elem_of_split in Hl as (l1 & l2 & El). rewrite El, for_each_app.
    assert (H1' : d_paths (st_d (for_each l1 abort_prober s).2) !! key = Some p).
    { apply (keeps_for_each (fun d => d_paths d !! key = Some p)); [|exact Ep]. intros [k q] Hk. unfold abort_prober, give.
      keeps_auto. apply keeps_modify. intros d Hd. cbn. rewrite lookup_alter_ne; [done|]. intros ->.
      pose proof (btree_iter_NoDup (d_paths (st_d s))) as Hnd. rewrite El, fmap_app, NoDup_app in Hnd.
      destruct Hnd as (_ & Hnd & _). apply (Hnd key); [by apply (list_elem_of_fmap_2 fst) in Hk|]. cbn. by left. }
    set (s1 := (for_each l1 abort_prober s).2) in *. cbn [for_each]. unfold mbind at 1, M_bind at 1.
    assert (H2' : unprobed key (st_d (abort_prober (key, p) s1).2)).
    { unfold abort_prober. destruct (pr_prober p) as [spec|] eqn:Epr; 
        [|intros q; unfold mret, M_ret; cbn [snd]; rewrite H1'; by intros [= <-]].
      intros q Hq. change ((alter (fun p => p <| pr_prober := None |>) key (d_paths (st_d s1))) !! key = Some q) in Hq.
      rewrite lookup_alter_eq, H1' in Hq. by injection Hq as <-. }
    destruct (abort_prober (key, p) s1) as [[] s2]. apply (keeps_for_each (unprobed key)); [|exact H2'].
    intros x _. apply abort_prober_keeps.
  - apply (keeps_for_each (unprobed key)); [intros x _; apply abort_prober_keeps|]. intros q. by rewrite Ep.
Qed.

(** What the end of the loop leaves as it was, and what it ends. *)
Definition wound_down (d0 d : Daemon) : Prop := same_health d0 d /\ forall key, unprobed key d.

Lemma keeps_wound_down d0 f : (forall d, d_cfg (f d) = d_cfg d /\ d_active (f d) = d_active d /\
    d_boot_id (f d) = d_boot_id d /\ d_paths (f d) = d_paths d) ->
  keeps (wound_down d0) (modify f : M unit).
Proof.
  intros Hf. apply keeps_modify. intros d [(E1 & E2 & E3 & E4) Hu]. destruct (Hf d) as (F1 & F2 & F3 & F4).
  unfold wound_down, same_health, unprobed. rewrite F1, F2, F3, F4. done.
Qed.

Lemma wind_down_spec d0 : triple (fun d => d = d0) wind_down (fun _ => wound_down d0).
Proof.
  unfold wind_down. apply (triple_bind _ (fun _ => same_health d0)); [by intros s <-|]. intros _.
  apply (triple_bind _ (fun _ => same_health d0)); [apply keeps_stopping|]. intros _.
  apply (triple_bind _ (fun _ => same_health d0)); [apply keeps_flush|]. intros _.
  apply (triple_bind _ (fun _ => same_health d0)); [by intros s Hs|]. intros _.
  apply (triple_bind _ (fun _ => wound_down d0)).
  { intros s Hs. split; [by apply keeps_abort_probers|]. apply abort_probers_all. }
  intros _. to_keeps. unfold give. keeps_auto; by apply keeps_wound_down.
Qed.

Lemma shutdown_keep (client : result D str) (s : St W) :
  rt_on_shutdown (cf_routing (d_cfg (st_d s))) = OnShutdown_Keep ->
  (shutdown client s).2 = (write_checkpoint_now (wind_down s).2).2.
Proof.
  intros Hk. pose proof (wind_down_spec (st_d s) s eq_refl) as [(Hcfg & _) _].
  assert (E : shutdown client s = (write_checkpoint_now ;; cfg ← gets d_cfg;
    match rt_on_shutdown (cf_routing cfg) with
    | OnShutdown_Cleanup => run_cleanup cfg client
    | OnShutdown_Keep => mret (Ok tt)
    end) (wind_down s).2).
  { unfold shutdown, mbind, M_bind. by destruct (wind_down s) as [[] s']. }
  rewrite E. set (s1 := (wind_down s).2) in *. unfold mbind at 1, M_bind at 1.
  assert (Hd : st_d (write_checkpoint_now s1).2 = st_d s1).
  { unfold write_checkpoint_now, checkpoint, in_world, now_ms, gets, mbind, M_bind. by destruct (boottime_ms (st_w s1)). }
  destruct (write_checkpoint_now s1) as [[] s2]. unfold mbind, M_bind, gets. cbn [snd] in Hd. rewrite Hd, Hcfg, Hk. done.
Qed.


Lemma active_of_checkpoint d c f : cp_active_v4 c = active_ids d V4 -> cp_active_v6 c = active_ids d V6 ->
  active_of c f = default ∅ (d_active d !! f).
Proof.
  intros E4 E6. assert (H' : active_of c f = list_to_set (omap UplinkId_new (active_ids d f))).
  { unfold active_of. destruct f; by rewrite ?E4, ?E6. }
  rewrite H'. unfold active_ids. destruct (d_active d !! f) as [ids|]; [|done]. cbn.
  apply set_eq. intros id. rewrite elem_of_list_to_set, list_elem_of_omap. split.
  - intros (n & (i & -> & Hi)%list_elem_of_fmap & E). rewrite UplinkId_new_get in E. injection E as <-. by apply bset_iter_elem_of.
  - intros Hi. exists (UplinkId_get id). split; [|apply UplinkId_new_get]. by apply list_elem_of_fmap_2, bset_iter_elem_of.
Qed.

(** What the last checkpoint says of the daemon [d]. *)
Record checkpoint_of (d : Daemon) (c : Checkpoint) : Prop := {
  co_boot_id : cp_boot_id c = d_boot_id d;
  co_structure : cp_structure c = RecordedStructure_from (Config_structural (d_cfg d));
  co_active : forall f, active_of c f = default ∅ (d_active d !! f);
  co_warm : forall key p old new, d_paths d !! key = Some p -> pr_discovered p = Some old -> same_addressing old new ->
    warm_state c key new = Some (Machine_snapshot (pr_machine p))
}.

Lemma checkpoint_wound_down d0 (s : St W) : wound_down d0 (st_d s) -> checkpoint_of d0 (checkpoint s).1.
Proof.
  intros [(E1 & E2 & E3 & E4) _]. unfold checkpoint, mbind, M_bind, now_ms, gets. destruct (boottime_ms (st_w s)) as [t w].
  cbn [fst st_d]. split; cbn [cp_boot_id cp_structure].
  - done.
  - by rewrite E1.
  - intros f. rewrite <- E2. by apply active_of_checkpoint.
  - intros key p old new Hp Ho Ha. assert (E : (path_health <$> d_paths (st_d s)) !! key = Some (path_health p)).
    { by rewrite E4, lookup_fmap, Hp. }
    rewrite lookup_fmap in E. apply fmap_Some in E as (q & Hq & [= Hd Hm _]). rewrite Hm.
    eapply (warm_state_checkpoint (d_paths (st_d s))); [done|exact Hq| |exact Ha]. by rewrite <- Hd.
Qed.

Lemma restored_machine m r es : m_ready m = true -> m_optimistic m = false ->
  let m' := Machine_new true r (Some (Machine_snapshot m)) in
  (Machine_run m' es).2 = (Machine_run m es).2 /\ m_state (Machine_run m' es).1 = m_state (Machine_run m es).1.
Proof.
  intros Hr Ho m'. destruct (same_but_reason_run m' m es) as [(E & _) Hout]; [|done]. unfold same_but_reason. cbn. done.
Qed.

(** C17: A restart keeps what is known of the paths.  A stop with
    [on_shutdown = keep] ends every prober and leaves the health of every path
    and the active uplinks in the checkpoint file.  Any daemon that starts from
    that file in the same boot, less than ten minutes later, with the same
    structural settings, has the same active uplinks; and for a path that
    was ready, had left its optimistic start ([m_optimistic] is false: no
    longer held up without a round since a cold start) and is ready with
    the same addressing, its machine emits from then on, whatever happens,
    the transitions that the machine of the stopped daemon would have.  (A
    machine in its optimistic start goes down at its first bad round; the
    checkpoint does not record this, so that the restored one needs [fall] of
    them.) *)
Theorem restart_keeps_health (client : result D str) (d : Daemon) (w : W) :
  StopLaws -> rt_on_shutdown (cf_routing (d_cfg d)) = OnShutdown_Keep ->
  let s := (shutdown client (mkSt d w)).2 in
  (forall key p, d_paths (st_d s) !! key = Some p -> pr_prober p = None) /\
  exists c wb, st_w s = (write_checkpoint_file c wb).2 /\ ((write_checkpoint_file c wb).1 = Ok tt ->
    forall (d2 : Daemon) (w2 : W), read_checkpoint w2 = read_checkpoint (st_w s) -> d_boot_id d2 = d_boot_id d ->
      RecordedStructure_from (Config_structural (d_cfg d2)) = RecordedStructure_from (Config_structural (d_cfg d)) ->
      cp_boottime_ms c <= (boottime_ms w2).1 < cp_boottime_ms c + CHECKPOINT_MAX_AGE_MS ->
      let d3 := st_d (load_checkpoint (read_checkpoint w2) (mkSt d2 w2)).2 in
      (forall f, d_active d3 !! f = Some (default ∅ (d_active d !! f))) /\
      (forall key p old new, d_paths d !! key = Some p -> pr_discovered p = Some old ->
         m_ready (pr_machine p) = true -> m_optimistic (pr_machine p) = false ->
         discover (d_cfg d2) (d_system d2) (d_protocol d2) (instant_now (boottime_ms w2).2).1 !! key = Some new ->
         same_addressing old new ->
         exists p3, d_paths d3 !! key = Some p3 /\ forall es,
           (Machine_run (pr_machine p3) es).2 = (Machine_run (pr_machine p) es).2 /\
           m_state (Machine_run (pr_machine p3) es).1 = m_state (Machine_run (pr_machine p) es).1)).
Proof.
  intros Hlaws Hk. cbv zeta. rewrite shutdown_keep by done. set (s1 := (wind_down (mkSt d w)).2).
  assert (Hw : wound_down d (st_d s1)) by (by apply wind_down_spec).
  assert (E : (write_checkpoint_now s1).2 =
    mkSt (st_d s1) (write_checkpoint_file (checkpoint s1).1 (boottime_ms (st_w s1)).2).2).
  { unfold write_checkpoint_now, checkpoint, mbind, M_bind, now_ms, gets, in_world. by destruct (boottime_ms (st_w s1)). }
  rewrite E. cbn [st_d st_w]. split; [intros key; apply Hw|].
  pose proof (checkpoint_wound_down d s1 Hw) as [Hb Hst Hact Hwarm]. set (c := (checkpoint s1).1) in *.
  exists c, (boottime_ms (st_w s1)).2. split; [done|]. intros Hok d2 w2 Hread Hboot Hstruct Hage.
  apply checkpoint_written in Hok. rewrite Hok in Hread.
  assert (Hu : usable_checkpoint (read_checkpoint w2) d2 (boottime_ms w2).1 = Some c).
  { unfold usable_checkpoint, Checkpoint_valid. rewrite Hread, Hb, Hst, Hboot, Hstruct, !bool_decide_eq_true_2 by done.
    rewrite (proj2 (Z.leb_le _ _)), (proj2 (Z.ltb_lt _ _)) by lia. done. }
  destruct (load_checkpoint_spec (read_checkpoint w2) (mkSt d2 w2) c Hu) as [Hpaths Hactive]. split.
  - intros f. by rewrite Hactive, Hact.
  - intros key p old new Hp Ho Hr Hopt Hd Ha. destruct (Hpaths key new Hd) as (p3 & Hp3 & Hm). exists p3. split; [done|].
    intros es. rewrite Hm. cbn [mbind option_bind]. rewrite (Hwarm key p old new Hp Ho Ha).
    destruct Ha as (_ & r & r' & _ & Er' & _). unfold is_ready. rewrite Er'. by apply restored_machine.
Qed.
End shutdown.

(** A daemon whose path is down with two passed rounds of the three it
    needs, stopped and started again. *)
Module StopSample.
Record World := mkWorld { w_clock : Z; w_file : option Checkpoint }.
#[global] Instance World_Daemon : DaemonWorld World := {|
  instant_now := fun w => (w_clock w, w); boottime_ms := fun w => (w_clock w, mkWorld (w_clock w + 1) (w_file w));
  system_time := fun w => (0, w); reply_closed := fun _ _ => false; notify_send := fun _ w => (Sent_Done, w) |}.
#[global] Instance World_Clock : Clock World := {| clock_now := fun w => (w_clock w, w) |}.
#[global] Instance World_Dumper : Dumper unit World := {|
  dumper_dump := fun _ _ w => (Some (Ok (mkDump [] false)), w); dumper_fresh := fun c w => (Ok c, w) |}.
#[global] Instance World_ProcSys : ProcSys World := {|
  proc_read := fun _ _ => Err NotFound; proc_write := fun _ _ w => (Err NotFound, w) |}.
#[global] Instance World_Cleanup : CleanupWorld World := {|
  read_manifest := fun _ => Ok None; nft_apply := fun _ _ w => (Ok tt, w);
  kernel_mutate := fun w _ _ => (w, None); remove_file := fun _ w => (Ok tt, w) |}.
#[global] Instance World_Stop : StopWorld World := {|
  stop_mail := id; stop_api := id; stop_io := id;
  write_checkpoint_file := fun c w => (Ok tt, mkWorld (w_clock w) (Some c));
  read_checkpoint := fun w => Ok (w_file w) |}.
#[global] Instance World_Laws : StopLaws (W := World).
Proof. by split. Qed.

Definition key : PathKey := mkPathKey (uid 1) V4.
Definition found : Discovered := mkDiscovered (Some 5) (Ok DiscoverSample.ready) {[IpV4 3221225986]} false false.
Definition machine : Machine := mkMachine Down R_ProbeFailed 2 0 false true.
Definition fresh : Daemon :=
  Daemon_new DiscoverSample.config Lanes_start (Observer.mkView DiscoverSample.system false)
    (Manifest_new DiscoverSample.config) ∅ (lit "i") (lit "b") 0 0 0.
Definition old : Daemon :=
  fresh <| d_paths := {[ key := PathRuntime_new (Some found) machine 0 ]} |> <| d_active := {[ V4 := {[ uid 1 ]} ]} |>.
Definition stopped : St World := (shutdown (D := unit) (fun _ => []) (Err []) (mkSt old (mkWorld 1000 None))).2.
Definition restarted : Daemon :=
  st_d (load_checkpoint (read_checkpoint (st_w stopped)) (mkSt fresh (st_w stopped))).2.
End StopSample.

Lemma restart_keeps_health_witness :
  d_active StopSample.restarted !! V4 = Some {[ uid 1 ]} /\
  exists p, d_paths StopSample.restarted !! StopSample.key = Some p /\
    (Machine_run (pr_machine p) [ProbeRound Passed (mkHysteresis 2 3)]).2 =
      [Some (mkTransition Down Up R_ProbesRecovered)].
Proof.
  pose proof (restart_keeps_health (fun _ => []) (Err [] : result unit str) StopSample.old (StopSample.mkWorld 1000 None)
    StopSample.World_Laws eq_refl) as H. cbv zeta in H. set (st := (shutdown _ _ _).2) in H.
  assert (Est : st = StopSample.stopped) by (unfold StopSample.stopped; reflexivity). clearbody st. subst st.
  destruct H as [_ (c & wb & E & H)].
  assert (Hc : cp_boottime_ms <$> StopSample.w_file (st_w StopSample.stopped) = Some 1001) by (by vm_compute).
  rewrite E in Hc. injection Hc as Hc.
  assert (Ht : (boottime_ms (st_w StopSample.stopped)).1 = 1002) by (by vm_compute).
  assert (Hcfg : d_cfg StopSample.fresh = d_cfg StopSample.old) by reflexivity.
  destruct (H eq_refl StopSample.fresh (st_w StopSample.stopped) eq_refl eq_refl
    (f_equal (fun c => RecordedStructure_from (Config_structural c)) Hcfg)) as [Ha Hp].
  { rewrite Hc, Ht. split; [lia|]. by vm_compute. }
  unfold StopSample.restarted. split; [rewrite (Ha V4); reflexivity|].
  destruct (Hp StopSample.key (PathRuntime_new (Some StopSample.found) StopSample.machine 0) StopSample.found StopSample.found)
    as (p & Ep & Hr); [reflexivity|reflexivity|reflexivity|reflexivity|by vm_compute| |].
  - split; [reflexivity|]. exists DiscoverSample.ready, DiscoverSample.ready. split_and!; reflexivity.
  - exists p. split; [exact Ep|]. destruct (Hr [ProbeRound Passed (mkHysteresis 2 3)]) as [Hrun _]. rewrite Hrun. by vm_compute.
Defined.
