(* ===== verification/ApiServe.v ===== *)
(** * The API: connections and the answers to requests

    Models the serving side of crates/polywan/src/api/mod.rs: the accept loop
    of a listener with its limit and its diagnostics, the life of a
    connection (its deadline, the end of its listener, a change of the access
    policy), and the answers of the handlers.  The HTTP exchange itself
    (hyper) is an input: that a connection came, that its exchange ended. *)

From stdpp Require Import prelude gmap sorting.
From Stdlib Require Import ZArith Lia.
From S2P Require Import Prelude Text Durations Config Msg Events Nft Subprocess Mail Hooks ApiServer.

Local Open Scope Z_scope.
Local Open Scope polywan_scope.

Definition CONNECTIONS : usize := 16.
Definition REQUEST_DEADLINE : Duration := from_secs 10.

(** ** Diagnostics *)

(** [note]: the diagnostics, and what the log line counts when one is
    written. *)
Record Diagnostics := mkDiagnostics { dg_last : option Instant; dg_suppressed : u64 }.
Definition Diagnostics_default : Diagnostics := mkDiagnostics None 0.

Definition Diagnostics_note (d : Diagnostics) (now : Instant) : Diagnostics * option u64 :=
  if match dg_last d with Some t => duration_since now t <? from_secs 60 | None => false end
  then (mkDiagnostics (dg_last d) (dg_suppressed d + 1), None)
  else (mkDiagnostics (Some now) 0, Some (dg_suppressed d)).

(** ** A listener and its connections *)

(** A connection's task: once it runs, the access generation it found and
    the deadline that its handler may move. *)
Record ConnectionTask := mkConnectionTask { ct_generation : u64; ct_deadline : Instant }.
Record Connection := mkConnection { cn_id : nat; cn_task : option ConnectionTask }.

(** [sv_cut], [sv_stopped]: what the manager sends to the listener;
    [sv_accepting]: the accept loop runs. *)
Record Serving := mkServing {
  sv_open : list Connection; sv_next : nat; sv_cut : u64; sv_stopped : bool; sv_accepting : bool; sv_refused : Diagnostics
}.
Definition Serving_new : Serving := mkServing [] 0 0 false true Diagnostics_default.

(** What happens to a listener: a stream is accepted, the accept loop sees
    the listener's end, a connection's task begins, its handler moves the
    deadline, its exchange ends, it looks at the clock, at the listener's end
    or at the generation; and the manager's two messages. *)
Inductive ServeInput :=
  | Sv_Accept (now : Instant)
  | Sv_LoopEnds
  | Sv_Begin (id : nat) (now : Instant)
  | Sv_Deadline (id : nat) (until : Instant)
  | Sv_Exchanged (id : nat)
  | Sv_Elapsed (id : nat) (now : Instant)
  | Sv_SeesStop (id : nat)
  | Sv_SeesCut (id : nat)
  | Sv_Stop
  | Sv_Cut.

Definition is_connection (id : nat) (c : Connection) : bool := Nat.eqb (cn_id c) id.

(** The branches of the loops that are ready. *)
Definition serve_ready (s : Serving) (i : ServeInput) : bool :=
  let has id (p : Connection -> bool) := existsb (fun c => is_connection id c && p c) (sv_open s) in
  let runs id (p : ConnectionTask -> bool) := has id (fun c => match cn_task c with Some t => p t | None => false end) in
  match i with
  | Sv_Accept _ => sv_accepting s
  | Sv_LoopEnds => sv_accepting s && sv_stopped s
  | Sv_Begin id _ => has id (fun c => match cn_task c with Some _ => false | None => true end)
  | Sv_Deadline id _ | Sv_Exchanged id => runs id (fun _ => true)
  | Sv_Elapsed id now => runs id (fun t => ct_deadline t <=? now)
  | Sv_SeesStop id => sv_stopped s && runs id (fun _ => true)
  | Sv_SeesCut id => runs id (fun t => negb (ct_generation t =? sv_cut s))
  | Sv_Stop => negb (sv_stopped s)
  | Sv_Cut => negb (sv_stopped s)
  end.

Definition with_open (l : list Connection) (s : Serving) : Serving :=
  mkServing l (sv_next s) (sv_cut s) (sv_stopped s) (sv_accepting s) (sv_refused s).

Definition close_connection (s : Serving) (id : nat) : Serving :=
  with_open (List.filter (fun c => negb (is_connection id c)) (sv_open s)) s.

Definition set_task (s : Serving) (id : nat) (f : option ConnectionTask -> option ConnectionTask) : Serving :=
  with_open ((fun c => if is_connection id c then mkConnection (cn_id c) (f (cn_task c)) else c) <$> sv_open s) s.

(** The accept loop's branch: a permit for the connection, or a note. *)
Definition accept (s : Serving) (now : Instant) : Serving * option u64 :=
  if Z.of_nat (length (sv_open s)) <? CONNECTIONS
  then (mkServing (sv_open s ++ [mkConnection (sv_next s) None]) (S (sv_next s)) (sv_cut s) (sv_stopped s) (sv_accepting s)
          (sv_refused s), None)
  else
    let '(d, note) := Diagnostics_note (sv_refused s) now in
    (mkServing (sv_open s) (sv_next s) (sv_cut s) (sv_stopped s) (sv_accepting s) d, note).

(** A step, and what it logs. *)
Definition serve_step (s : Serving) (i : ServeInput) : Serving * option u64 :=
  match i with
  | Sv_Accept now => accept s now
  | Sv_LoopEnds => (mkServing (sv_open s) (sv_next s) (sv_cut s) (sv_stopped s) false (sv_refused s), None)
  | Sv_Begin id now => (set_task s id (fun _ => Some (mkConnectionTask (sv_cut s) (now + REQUEST_DEADLINE))), None)
  | Sv_Deadline id until => (set_task s id (fmap (fun t => mkConnectionTask (ct_generation t) until)), None)
  | Sv_Exchanged id | Sv_Elapsed id _ | Sv_SeesStop id | Sv_SeesCut id => (close_connection s id, None)
  | Sv_Stop => (mkServing (sv_open s) (sv_next s) (sv_cut s) true (sv_accepting s) (sv_refused s), None)
  | Sv_Cut => (mkServing (sv_open s) (sv_next s) (sv_cut s + 1) (sv_stopped s) (sv_accepting s) (sv_refused s), None)
  end.

(** ** Answers *)

(** How a command ends for its client: whether the queue of [queued] orders
    took it ([closed]: the State task ended), and what came back within the
    deadline less one second. *)
Inductive Awaited := Aw_Answered (a : Answer) | Aw_Dropped | Aw_TimedOut.
Definition COMMAND_ANSWER : Duration := REQUEST_DEADLINE - from_secs 1.

Definition command (closed : bool) (queued : usize) (answer : Awaited) : Answer :=
  if closed || (ORDER_QUEUE <=? queued) then Answer_error 503 (lit "too many commands in progress") else
  match answer with
  | Aw_Answered a => a
  | Aw_Dropped => Answer_error 503 (lit "the daemon is stopping")
  | Aw_TimedOut => Answer_error 504 (lit "no answer in time; the command may still complete")
  end.

(** [notify_test]: whether a test runs, and how this one ends ([None]: its
    task failed); the answer, and the deadline set before the test. *)
Definition notify_test_deadline (now : Instant) (notify : Notify) (times : Times) : Instant :=
  now + budget notify times + REQUEST_DEADLINE.

Definition notify_test (busy : bool) (run : option (result (list TestReport) Refusal)) (reports : list TestReport -> Value)
    : bool * Answer :=
  match Tester_begin busy with
  | (busy, Err _) => (busy, Answer_error 429 (lit "a notification test is running"))
  | (_, Ok _) =>
      (false, match run with
              | Some (Ok r) => mkAnswer 200 (Object [(lit "channels", reports r)])
              | Some (Err Refusal_Busy) => Answer_error 429 (lit "a notification test is running")
              | Some (Err Refusal_Unavailable) => Answer_error 503 (lit "the email notifier cannot take a test now")
              | None => Answer_error 500 (lit "the test did not complete")
              end)
  end.

(** [events]: the deadline of a long poll. *)
Definition events_deadline (now : Instant) (q : EventsQuery) : Instant := now + eq_wait q + REQUEST_DEADLINE.

(** ** Theorems *)

(** A run of a listener: its state, the times of the connections that were
    refused, and the log lines with their counts. *)
Definition refusal (s : Serving) (i : ServeInput) : list Instant :=
  match i with Sv_Accept now => if Z.of_nat (length (sv_open s)) <? CONNECTIONS then [] else [now] | _ => [] end.
Definition logged (i : ServeInput) (note : option u64) : list (Instant * u64) :=
  match i, note with Sv_Accept now, Some n => [(now, n)] | _, _ => [] end.

Inductive served : Serving -> list Instant -> list (Instant * u64) -> Prop :=
  | served_start : served Serving_new [] []
  | served_step s refused log i :
      served s refused log -> serve_ready s i = true ->
      served (serve_step s i).1 (refused ++ refusal s i) (log ++ logged i (serve_step s i).2).

(** Log lines are a minute apart. *)
Definition apart (a b : Instant * u64) : Prop := fst a + from_secs 60 <= fst b.

Definition counted (log : list (Instant * u64)) : Z := foldr (fun x n => snd x + 1 + n) 0 log.

Lemma counted_app l k : counted (l ++ k) = counted l + counted k.
Proof. unfold counted. induction l as [|x l IH]; [done|]. cbn. rewrite IH. lia. Qed.

Record served_inv (s : Serving) (refused : list Instant) (log : list (Instant * u64)) : Prop := {
  sv_limit : Z.of_nat (length (sv_open s)) <= CONNECTIONS;
  sv_ids : forall c, c ∈ sv_open s -> (cn_id c < sv_next s)%nat;
  sv_distinct : NoDup (cn_id <$> sv_open s);
  sv_count : counted log + dg_suppressed (sv_refused s) = Z.of_nat (length refused);
  sv_apart : StronglySorted apart log;
  sv_last : fst <$> last log = dg_last (sv_refused s)
}.

(** The steps that only end or move connections. *)
Lemma served_inv_close s refused log id : served_inv s refused log -> served_inv (close_connection s id) refused log.
Proof.
  intros [H1 H2 H3 H4 H5 H6]. split; cbn; try done.
  - pose proof (List.filter_length_le (fun c => negb (is_connection id c)) (sv_open s)). lia.
  - intros c [Hc _]%elem_of_list_filter_bool. by apply H2.
  - revert H3. clear. induction (sv_open s) as [|c l IH]; [done|]. cbn. intros [Hc Hl]%NoDup_cons.
    destruct (negb (is_connection id c)); [|by apply IH]. cbn. apply NoDup_cons. split; [|by apply IH].
    intros (x & Ex & Hx)%list_elem_of_fmap. apply elem_of_list_filter_bool in Hx as [Hx _]. apply Hc. rewrite Ex.
    by apply list_elem_of_fmap_2.
Qed.

Lemma served_inv_task s refused log id f : served_inv s refused log -> served_inv (set_task s id f) refused log.
Proof.
  intros [H1 H2 H3 H4 H5 H6].
  assert (E : cn_id <$> ((fun c => if is_connection id c then mkConnection (cn_id c) (f (cn_task c)) else c) <$> sv_open s) =
    cn_id <$> sv_open s).
  { rewrite <- list_fmap_compose. apply list_fmap_ext. intros i c _. cbn. by destruct (is_connection id c). }
  split; cbn; try done.
  - by rewrite length_fmap.
  - intros c (x & -> & Hx)%list_elem_of_fmap. destruct (is_connection id x); cbn; by apply (H2 x).
  - by rewrite E.
Qed.

Lemma served_inv_accept s refused log now : served_inv s refused log ->
  served_inv (accept s now).1 (refused ++ refusal s (Sv_Accept now)) (log ++ logged (Sv_Accept now) (accept s now).2).
Proof.
  intros [H1 H2 H3 H4 H5 H6]. unfold accept, refusal. destruct (Z.ltb_spec (Z.of_nat (length (sv_open s))) CONNECTIONS).
  - cbn. rewrite !app_nil_r. split; cbn; try done.
    + rewrite length_app. cbn. lia.
    + intros c [Hc| ->%list_elem_of_singleton]%elem_of_app; [|cbn; lia]. specialize (H2 c Hc). lia.
    + rewrite fmap_app, NoDup_app. split_and!; [done| |apply NoDup_singleton].
      intros x (c & -> & Hc)%list_elem_of_fmap Hx. apply list_elem_of_singleton in Hx. cbn in Hx. specialize (H2 c Hc). lia.
  - unfold Diagnostics_note. destruct (match dg_last (sv_refused s) with Some t => _ | None => _ end) eqn:Ed; cbn.
    + rewrite app_nil_r. split; cbn; try done. rewrite length_app. cbn. lia.
    + split; cbn; try done.
      * rewrite counted_app, length_app. cbn. lia.
      * apply StronglySorted_snoc; [done|]. intros x Hx. unfold apart. cbn [fst].
        destruct (last log) as [[t n]|] eqn:El; [|apply last_None in El as ->; by apply not_elem_of_nil in Hx].
        cbn in H6. rewrite <- H6 in Ed. apply Z.ltb_ge in Ed. unfold duration_since in Ed.
        assert (Hmin : 0 < from_secs 60) by by vm_compute. assert (t + from_secs 60 <= now) by lia.
        apply last_Some in El as (l & ->). apply elem_of_app in Hx as [Hx| ->%list_elem_of_singleton]; [|done].
        apply StronglySorted_app in H5 as (Hl & _). specialize (Hl x (t, n) Hx ltac:(by left)). unfold apart in Hl. cbn in Hl. lia.
      * by rewrite last_snoc.
Qed.

Lemma served_invariant s refused log : served s refused log -> served_inv s refused log.
Proof.
  induction 1 as [|s refused log i _ IH _].
  - split; cbn; first [done|by intros c ?%not_elem_of_nil|apply NoDup_nil_2|constructor].
  - assert (Hq : forall s', served_inv s' refused log -> served_inv s' (refused ++ []) (log ++ [])) by (intros s'; by rewrite !app_nil_r).
    destruct i as [now| |id now|id until|id|id now|id|id| |]; cbn [serve_step fst snd refusal logged];
      [by apply served_inv_accept|..]; apply Hq; (by apply served_inv_close) || (by apply served_inv_task) || (by destruct IH).
Qed.

(** A connection that a branch waits for: its branch is ready. *)
Lemma runs_ready (s : Serving) c t (p : ConnectionTask -> bool) : c ∈ sv_open s -> cn_task c = Some t -> p t = true ->
  existsb (fun x => is_connection (cn_id c) x && match cn_task x with Some t => p t | None => false end) (sv_open s) = true.
Proof. intros Hc Ht Hp. apply existsb_elem_of. exists c. split; [done|]. unfold is_connection. by rewrite Nat.eqb_refl, Ht. Qed.

(** A listener is bounded, and so is what it says of it: in every run at
    most 16 connections are open; a connection is refused only when 16 are,
    and every refusal is counted, in log lines that are at least a minute
    apart or in the count of the next one.  And no connection outlives what
    ends it: its task can begin, and from then on, at its deadline, when its
    listener stops, and when the access policy has changed since it began,
    the branch that closes it is ready. *)
Theorem connections_limited (s : Serving) (refused : list Instant) (log : list (Instant * u64)) : served s refused log ->
  Z.of_nat (length (sv_open s)) <= CONNECTIONS /\
  (forall now, refusal s (Sv_Accept now) <> [] -> Z.of_nat (length (sv_open s)) = CONNECTIONS) /\
  counted log + dg_suppressed (sv_refused s) = Z.of_nat (length refused) /\
  StronglySorted apart log /\
  (forall c, c ∈ sv_open s ->
     match cn_task c with
     | None => forall now, serve_ready s (Sv_Begin (cn_id c) now) = true
     | Some t =>
         (forall now, ct_deadline t <= now -> serve_ready s (Sv_Elapsed (cn_id c) now) = true) /\
         (sv_stopped s = true -> serve_ready s (Sv_SeesStop (cn_id c)) = true) /\
         (ct_generation t <> sv_cut s -> serve_ready s (Sv_SeesCut (cn_id c)) = true)
     end).
Proof.
  intros [H1 _ _ H4 H5 _]%served_invariant. split_and!; [done| |done|done|].
  - intros now. cbn. destruct (Z.ltb_spec (Z.of_nat (length (sv_open s))) CONNECTIONS); [done|lia].
  - intros c Hc. destruct (cn_task c) as [t|] eqn:Et; cbn.
    + split_and!.
      * intros now Hn. apply (runs_ready s c t (fun t => ct_deadline t <=? now)); [done|done|by apply Z.leb_le].
      * intros ->. by apply (runs_ready s c t (fun _ => true)).
      * intros Hg. apply (runs_ready s c t (fun t => negb (ct_generation t =? sv_cut s))); [done|done|].
        by apply negb_true_iff, Z.eqb_neq.
    + intros _. apply existsb_elem_of. exists c. split; [done|]. unfold is_connection. by rewrite Nat.eqb_refl, Et.
Qed.

(** A run of given steps. *)
Fixpoint serve_run (s : Serving) (refused : list Instant) (log : list (Instant * u64)) (steps : list ServeInput)
    : option (Serving * list Instant * list (Instant * u64)) :=
  match steps with
  | [] => Some (s, refused, log)
  | i :: steps =>
      if serve_ready s i
      then serve_run (serve_step s i).1 (refused ++ refusal s i) (log ++ logged i (serve_step s i).2) steps
      else None
  end.

Lemma serve_run_served steps s refused log s' refused' log' : served s refused log ->
  serve_run s refused log steps = Some (s', refused', log') -> served s' refused' log'.
Proof.
  revert s refused log. induction steps as [|i steps IH]; intros s refused log Hs; cbn; [by intros [= <- <- <-]|].
  destruct (serve_ready s i) eqn:Er; [|done]. intros E. exact (IH _ _ _ (served_step s refused log i Hs Er) E).
Qed.

(** Sixteen connections of which one runs and is cut; then three are
    accepted, of which the first is served and the others refused. *)
Definition serve_sample : list ServeInput :=
  (Sv_Accept <$> seqZ 0 16) ++
  [Sv_Begin 3 20; Sv_Cut; Sv_SeesCut 3; Sv_Accept 30; Sv_Accept 40; Sv_Accept (40 + from_secs 1); Sv_Accept (40 + from_secs 60)].

Lemma connections_limited_witness : exists s refused log,
  serve_run Serving_new [] [] serve_sample = Some (s, refused, log) /\
  log = [(40, 0); (40 + from_secs 60, 1)] /\ Z.of_nat (length (sv_open s)) <= CONNECTIONS.
Proof.
  destruct (serve_run Serving_new [] [] serve_sample) as [[[s refused] log]|] eqn:E; [|by vm_compute in E].
  exists s, refused, log. split; [done|]. split; [|exact (proj1 (connections_limited s refused log (serve_run_served _ _ _ _ _ _ _ served_start E)))].
  assert (E2 : (fun x => snd x) <$> serve_run Serving_new [] [] serve_sample = Some [(40, 0); (40 + from_secs 60, 1)]) by by vm_compute.
  rewrite E in E2. by injection E2.
Defined.
