(* ===== verification/Cli.v ===== *)
(** * The command line: commands that use the API

    Models crates/polywan/src/cli.rs (the answers of the daemon read, the
    follower of events, the commands on uplinks, reloads and tests, and the
    offline removal of a binding) and the events handler of
    crates/polywan/src/api/mod.rs that the follower talks to.  The exchange
    over the socket (hyper) and serde_json's parser are arguments: a response
    is its status and the JSON value read from its body.  What a command
    prints is the data of its lines. *)

From stdpp Require Import prelude gmap sorting.
From Stdlib Require Import ZArith Lia.
From S2P Require Import Prelude Text Model Durations Config Validate Validated Events StateFiles Nft Checks ApiServer Subprocess Hooks.
From S2P Require Import Cleanup DaemonLife.

Local Open Scope Z_scope.
Local Open Scope polywan_scope.

(** ** Loading a file *)

(** [ConfigError] and its text. *)
Record ConfigError := mkConfigError { ce_file : PathBuf; ce_diagnostics : list Diagnostic }.

Definition diagnostic_text (file : PathBuf) (d : Diagnostic) : str :=
  file ++ match dg_line d with Some l => lit ":" ++ to_decimal l | None => [] end ++
  match dg_key d with [] => lit ": " ++ dg_message d | key => lit ": " ++ key ++ lit ": " ++ dg_message d end.
Definition ConfigError_display (e : ConfigError) : str := str_join [10] (diagnostic_text (ce_file e) <$> ce_diagnostics e).

(** [config::load]; [contents] is what [read_to_string] gave, or the text of
    its error. *)
Definition config_load (toml_from_str : list u8 -> result RawConfig (option usize * str)) (digest : list u8 -> str)
    (render : Validate.Message -> str) (parse_ip_net : str -> option IpNet) (path : PathBuf) (contents : result (list u8) str)
    : option (result Config ConfigError) :=
  match contents with
  | Err e => Some (Err (mkConfigError path [mkDiagnostic None [] (lit "cannot read: " ++ e)]))
  | Ok text =>
      r ← Validate.parse toml_from_str digest render parse_ip_net text;
      Some (match r with Ok c => Ok c | Err diagnostics => Err (mkConfigError path diagnostics) end)
  end.

(** A file that is refused is refused with a reason, which names the file. *)
Lemma config_load_says_why toml_from_str digest render parse_ip_net path contents e :
  config_load toml_from_str digest render parse_ip_net path contents = Some (Err e) ->
  ce_file e = path /\ ce_diagnostics e <> [] /\ exists rest, ConfigError_display e = path ++ rest.
Proof.
  intros H. assert (He : ce_file e = path /\ ce_diagnostics e <> []).
  { unfold config_load in H. destruct contents as [text|x]; [|by injection H as <-].
    unfold Validate.parse in H. destruct (toml_from_str text) as [raw|[span message]]; [|by injection H as <-].
    unfold Validate.validate in H. destruct (Validate.validate_config render parse_ip_net text raw []) as [[c [|d l]]|]; [done| |done].
    cbn [mbind option_bind] in H. set (ds := Validate.dedup (sort_by_key (fun d => (dg_line d, dg_key d)) (d :: l))) in H.
    assert (Hd : d ∈ ds) by (unfold ds; rewrite dedup_elem_of, sort_by_key_elem_of; left). clearbody ds.
    injection H as <-. split; [done|]. cbn [ce_diagnostics]. intros ->. by apply not_elem_of_nil in Hd. }
  destruct He as [<- Hd]. split_and!; [done..|]. destruct e as [file [|d l]]; [done|]. unfold ConfigError_display.
  assert (Ht : exists rest, diagnostic_text file d = file ++ rest) by (unfold diagnostic_text; eauto).
  destruct Ht as [rest Ht]. cbn [ce_file ce_diagnostics fmap list_fmap]. rewrite Ht.
  destruct l as [|d0 l]; [by exists rest|]. eexists. exact (eq_sym (assoc_L (++) _ _ _)).
Qed.

(** [cli::load]: the text of the error. *)
Definition cli_load (toml_from_str : list u8 -> result RawConfig (option usize * str)) (digest : list u8 -> str)
    (render : Validate.Message -> str) (parse_ip_net : str -> option IpNet) (path : PathBuf) (contents : result (list u8) str)
    : option (result Config str) :=
  r ← config_load toml_from_str digest render parse_ip_net path contents;
  Some (match r with Ok c => Ok c | Err e => Err (ConfigError_display e) end).

(** ** Answers *)

Inductive ClientError := Client_Connect (e : ErrorKind) | Client_Exchange (text : str).

(** [NotFound] is of the model's kinds; the errno of a refused connection. *)
Definition ConnectionRefused : ErrorKind := OtherError 111.

Inductive CliError :=
  | Cli_Client (e : ClientError)
  | Cli_NotJson
  | Cli_Answer (code : StatusCode) (v : Value)
  | Cli_NotUplink (name : str).

(** A response: its status, and the JSON of its body if it is JSON. *)
Definition Response : Type := result (StatusCode * option Value) ClientError.

Definition error_text (v : Value) : str := default (lit "request failed") (get v (lit "error") ≫= as_str).

(** [StatusCode::is_success] *)
Definition is_success (code : StatusCode) : bool := in_range 200 299 code.

Definition cli_get (response : Response) : result Value CliError :=
  match response with
  | Err e => Err (Cli_Client e)
  | Ok (_, None) => Err Cli_NotJson
  | Ok (code, Some v) => if is_success code then Ok v else Err (Cli_Answer code v)
  end.

(** A body that is not JSON is [null]. *)
Definition cli_post (response : Response) : result (StatusCode * Value) ClientError :=
  match response with
  | Err e => Err e
  | Ok (code, v) => Ok (code, default Null v)
  end.

Definition as_bool (v : Value) : option bool := match v with Bool b => Some b | _ => None end.

(** Nobody listens on the socket: the daemon does not run. *)
Definition not_listening (e : ErrorKind) : bool := bool_decide (e = NotFound) || bool_decide (e = ConnectionRefused).

Definition unavailable (e : CliError) : bool :=
  match e with
  | Cli_Client (Client_Connect e) => not_listening e
  | Cli_Client (Client_Exchange _) => true
  | _ => false
  end.

(** ** Following the events *)

(** The variables of the loop of [events]. *)
Record Follower := mkFollower { fo_instance : option str; fo_after : option u64; fo_waiting : bool }.
Definition Follower_new : Follower := mkFollower None None false.

Definition follow_wait (follow : bool) (f : Follower) : Duration :=
  if follow && bool_decide (is_Some (fo_instance f)) then MAX_WAIT else 0.

(** The query of a request. *)
Definition events_query (follow : bool) (f : Follower) : str :=
  str_join (lit "&") (
    match fo_instance f with Some i => [lit "instance=" ++ i] | None => [] end ++
    match fo_after f with Some a => [lit "after=" ++ to_decimal a] | None => [] end ++
    if follow_wait follow f =? 0 then [] else [lit "wait=" ++ to_decimal (follow_wait follow f / NANOS_PER_SEC)]).

Inductive Said := Said_Waiting | Said_Notice (kind : str) | Said_Event (e : Value).

Definition page_seq (e : Value) : option u64 := get e (lit "seq") ≫= as_u64.

(** What a page says, and the loop's variables behind it. *)
Definition read_page (f : Follower) (page : Value) : list Said * Follower :=
  let flag key := bool_decide (get page key ≫= as_bool = Some true) in
  let events := default [] (get page (lit "events") ≫= as_array) in
  ((if bool_decide (is_Some (fo_instance f)) && flag (lit "reset") then [Said_Notice (lit "reset")] else []) ++
   (if flag (lit "truncated") then [Said_Notice (lit "truncated")] else []) ++ (Said_Event <$> events),
   mkFollower (get page (lit "instance") ≫= as_str)
     (foldl (fun after e => match page_seq e with Some s => Some s | None => after end) (fo_after f) events) false).

(** One turn of the loop: what it prints, and its variables or the result. *)
Definition follow_step (follow : bool) (f : Follower) (response : Response) : list Said * (Follower + result unit CliError) :=
  match cli_get response with
  | Err e =>
      if follow && unavailable e
      then ((if fo_waiting f then [] else [Said_Waiting]), inl (mkFollower (fo_instance f) (fo_after f) true))
      else ([], inr (Err e))
  | Ok page =>
      let '(said, f') := read_page f page in
      let events := default [] (get page (lit "events") ≫= as_array) in
      (said, if negb follow && (Z.of_nat (length events) <? RING_EVENTS) then inr (Ok tt) else inl f')
  end.

(** [events] of the API: [now] is the history at the request, [later] the
    history when the wait for a newer event is over. *)
Definition waits (q : EventsQuery) (p : Page) : bool :=
  bool_decide (pg_events p = []) && negb (pg_reset p) && negb (eq_wait q =? 0).
Definition answering (q : EventsQuery) (now later : Ring) : Ring :=
  if waits q (Ring_page now (eq_instance q) (eq_after q) (eq_limit q) RING_BYTES) then later else now.
Definition events_page (q : EventsQuery) (now later : Ring) : Page :=
  Ring_page (answering q now later) (eq_instance q) (eq_after q) (eq_limit q) RING_BYTES.

(** The body of the response, as a client reads it; [event_value] is the
    value of an event's JSON text. *)
Definition page_value (event_value : str -> Value) (p : Page) : Value :=
  Object [(lit "events", Array (event_value <$> pg_events p)); (lit "instance", Str (pg_instance p));
    (lit "reset", Bool (pg_reset p)); (lit "truncated", Bool (pg_truncated p))].

(** ** Commands *)

(** [post] and the check of its status; [path] and [body] of the request are
    what the caller passes. *)
Definition posted (response : Response) : result Value CliError :=
  match cli_post response with
  | Err e => Err (Cli_Client e)
  | Ok (code, v) => if code =? 200 then Ok v else Err (Cli_Answer code v)
  end.

(** A request of a command: its path and its body. *)
Definition drain_request (name : str) (drain force : bool) : str * option str :=
  (lit "/v1/uplinks/" ++ name ++ lit "/" ++ (if drain then lit "drain" else lit "undrain"),
   if drain && force then Some (lit "{" ++ [QUOTE] ++ lit "force" ++ [QUOTE] ++ lit ": true}") else None).

(** [drain] and [undrain]: the generation in which it is applied; [send] is
    the exchange. *)
Definition cli_drain (send : str * option str -> Response) (name : str) (drain force : bool) : result Value CliError :=
  if negb (valid_uplink_name name) then Err (Cli_NotUplink name) else
  match posted (send (drain_request name drain force)) with
  | Err e => Err e
  | Ok v => Ok (index v (lit "generation"))
  end.

Inductive ReloadError := Reload_Unknown (text : str) | Reload_Error (e : CliError).

(** A reload whose connection closes has an unknown outcome. *)
Definition cli_reload (send : str * option str -> Response) : result Value ReloadError :=
  match posted (send (lit "/v1/reload", None)) with
  | Err (Cli_Client (Client_Exchange e)) => Err (Reload_Unknown e)
  | Err e => Err (Reload_Error e)
  | Ok v => Ok (index v (lit "generation"))
  end.

(** *** Notification tests *)

Definition report_succeeded (r : TestReport) : bool := match tr_outcome r with Test_Succeeded => true | _ => false end.

Definition outcome_text (o : TestOutcome) : str :=
  match o with
  | Test_Succeeded => lit "succeeded"
  | Test_Failed => lit "failed"
  | Test_TimedOut => lit "timed out"
  | Test_NotStarted => lit "not started"
  end.

(** The lines of a report; [lossy] is [String::from_utf8_lossy]. *)
Definition report_lines (lossy : list u8 -> str) (r : TestReport) : list str :=
  let name := match tr_program r with Some p => tr_channel r ++ lit " " ++ p | None => tr_channel r end in
  let status := match tr_exit_status r with Some c => if c =? 0 then [] else lit ", exit status " ++ i32_display c | None => [] end in
  let signal := match tr_signal r with Some n => lit ", killed by signal " ++ i32_display n | None => [] end in
  let error := match tr_error r with Some e => lit ": " ++ e | None => [] end in
  (name ++ lit ": " ++ outcome_text (tr_outcome r) ++ status ++ signal ++ error) ::
  ((fun l => lit "  stderr: " ++ l) <$> str_lines (lossy (tr_stderr r))) ++
  (if tr_stderr_truncated r then [lit "  stderr: [truncated]"] else []).

(** What is printed, and how the command ends. *)
Inductive ReportsError := Reports_None | Reports_Failed (failed total : nat).
Definition print_reports (lossy : list u8 -> str) (reports : list TestReport) : list str * result unit ReportsError :=
  match reports with
  | [] => ([], Err Reports_None)
  | _ =>
      (reports ≫= report_lines lossy,
       match length (List.filter (fun r => negb (report_succeeded r)) reports) with
       | O => Ok tt
       | failed => Err (Reports_Failed failed (length reports))
       end)
  end.

Inductive TestError :=
  | TE_Request (e : CliError)
  | TE_NoReports
  | TE_Reports (e : ReportsError)
  | TE_NotRoot
  | TE_Config (e : str)
  | TE_Check (f : Finding)
  | TE_Lock (e : ErrorKind)
  | TE_Refused (r : Refusal).

Definition reported (x : list str * result unit ReportsError) : list str * result unit TestError :=
  (x.1, match x.2 with Ok _ => Ok tt | Err e => Err (TE_Reports e) end).

(** [notify_test]; [reports_of] is serde_json's reading of the reports. *)
Definition cli_notify_test (lossy : list u8 -> str) (reports_of : Value -> option (list TestReport))
    (send : str * option str -> Response) : list str * result unit TestError :=
  match posted (send (lit "/v1/notify-test", None)) with
  | Err e => ([], Err (TE_Request e))
  | Ok v =>
      match reports_of (index v (lit "channels")) with
      | None => ([], Err TE_NoReports)
      | Some reports => reported (print_reports lossy reports)
      end
  end.

Section offline_test.
Context {W D : Type} `{!StartWorld D W}.

(** [notify_test_offline]: [run_channels] runs the channels of a
    configuration in a world, which is what [notifytest::run] does there. *)
Definition notify_test_offline (lossy : list u8 -> str) (is_root : bool)
    (run_channels : Config -> W -> result (list TestReport) Refusal * W) (path lock : PathBuf) (w : W)
    : list str * result unit TestError * W :=
  if negb is_root then ([], Err TE_NotRoot, w) else
  match load_config (D := D) path w with
  | Err e => ([], Err (TE_Config e), w)
  | Ok cfg =>
      match Runnable_errors (runnable (start_host (D := D) w) path cfg (open_descriptors (D := D) w)) with
      | f :: _ => ([], Err (TE_Check f), w)
      | [] =>
          match acquire_lock (D := D) lock w with
          | (Err e, w) => ([], Err (TE_Lock e), w)
          | (Ok _, w) =>
              match run_channels cfg w with
              | (Err r, w) => ([], Err (TE_Refused r), w)
              | (Ok reports, w) => (reported (print_reports lossy reports), w)
              end
          end
      end
  end.

(** The command succeeds exactly when there is a channel and the run of
    every channel succeeded, as root, with nothing found by the checks and
    with the instance lock. *)
Lemma notify_test_offline_ok lossy is_root run_channels path lock w out w' :
  notify_test_offline lossy is_root run_channels path lock w = (out, Ok tt, w') <->
  is_root = true /\ exists cfg w1 reports, load_config (D := D) path w = Ok cfg /\
    runnable (start_host (D := D) w) path cfg (open_descriptors (D := D) w) = mkRunnable [] [] /\
    acquire_lock (D := D) lock w = (Ok tt, w1) /\ run_channels cfg w1 = (Ok reports, w') /\
    reports <> [] /\ Forall (fun r => tr_outcome r = Test_Succeeded) reports /\ out = reports ≫= report_lines lossy.
Proof.
  assert (Hok : forall reports, (print_reports lossy reports).2 = Ok tt <->
    reports <> [] /\ Forall (fun r => tr_outcome r = Test_Succeeded) reports).
  { intros reports. transitivity (reports <> [] /\ length (List.filter (fun r => negb (report_succeeded r)) reports) = O).
    - unfold print_reports. destruct reports as [|r l]; [split; [done|by intros [? _]]|]. cbn [snd].
      destruct (length _); split; [done|done|done|by intros []].
    - apply and_iff_compat_l. induction reports as [|r l IH]; [done|]. cbn [List.filter]. rewrite Forall_cons, <- IH. clear IH.
      unfold report_succeeded at 1. destruct (tr_outcome r); cbn; split; (done || by intros []). }
  assert (Hout : forall reports, reports <> [] -> (print_reports lossy reports).1 = reports ≫= report_lines lossy) by by intros [].
  unfold notify_test_offline. split.
  - destruct is_root; [|done]. cbn [negb]. destruct (load_config path w) as [cfg|] eqn:Ec; [|done].
    destruct (runnable _ _ _ _) as [[|] [|]] eqn:Er; try done. cbn [Runnable_errors refused Checks.failed app].
    destruct (acquire_lock lock w) as [[[]|] w1] eqn:El; [|done]. destruct (run_channels cfg w1) as [[reports|] w2] eqn:Erun; [|done].
    unfold reported. destruct (print_reports lossy reports).2 as [[]|] eqn:Ep; [|done]. intros [= <- <-].
    apply Hok in Ep as [Hne Hall]. split; [done|]. exists cfg, w1, reports. split_and!; try done. by apply Hout.
  - intros (-> & cfg & w1 & reports & -> & -> & -> & -> & Hne & Hall & ->). cbn [negb Runnable_errors refused Checks.failed app].
    unfold reported. rewrite (proj2 (Hok reports)) by done. by rewrite Hout.
Qed.
End offline_test.

(** *** Removal of a binding *)

Inductive ForgetFailure :=
  | FF_Request (e : CliError)
  | FF_Config (e : str)
  | FF_Untrusted (f : Finding)
  | FF_Lock (e : ErrorKind)
  | FF_Manifest (e : StateError)
  | FF_NoManifest
  | FF_Configured
  | FF_Forget (e : ForgetError)
  | FF_Write (e : ErrorKind).

Section forget.
Context {W D : Type} `{CleanupWorld W, !StartWorld D W}.

(** [load_trusted] *)
Definition load_trusted (path : PathBuf) (w : W) : result Config ForgetFailure :=
  match load_config (D := D) path w with
  | Err e => Err (FF_Config e)
  | Ok cfg =>
      match errors (trusted (start_host (D := D) w) path cfg) with
      | f :: _ => Err (FF_Untrusted f)
      | [] => Ok cfg
      end
  end.

Definition forget_offline (path : PathBuf) (name : str) (lock : PathBuf) (w : W) : result UplinkId ForgetFailure * W :=
  match load_trusted path w with
  | Err e => (Err e, w)
  | Ok cfg =>
      match acquire_lock (D := D) lock w with
      | (Err e, w) => (Err (FF_Lock e), w)
      | (Ok _, w) =>
          match read_manifest w with
          | Err e => (Err (FF_Manifest e), w)
          | Ok None => (Err FF_NoManifest, w)
          | Ok (Some m) =>
              if existsb (fun u => bool_decide (u_name u = name)) (cf_uplinks cfg) then (Err FF_Configured, w) else
              match Manifest_forget m name with
              | (_, Err e) => (Err (FF_Forget e), w)
              | (m, Ok id) =>
                  match write_manifest (D := D) m w with
                  | (Err e, w) => (Err (FF_Write e), w)
                  | (Ok _, w) => (Ok id, w)
                  end
              end
          end
      end
  end.

(** [forget]: through the daemon, offline only when nobody listens; what
    the daemon answers is an argument. *)
Definition forget (send : str * option str -> Response) (name : str) (config lock : PathBuf) (w : W) :
    result (Value + UplinkId) ForgetFailure * W :=
  if negb (valid_uplink_name name) then (Err (FF_Request (Cli_NotUplink name)), w) else
  match cli_post (send (lit "/v1/uplinks/" ++ name ++ lit "/forget", None)) with
  | Ok (code, v) => (if code =? 200 then Ok (inl (index v (lit "id"))) else Err (FF_Request (Cli_Answer code v)), w)
  | Err (Client_Connect e) =>
      if not_listening e
      then let '(r, w) := forget_offline config name lock w in (match r with Ok id => Ok (inr id) | Err e => Err e end, w)
      else (Err (FF_Request (Cli_Client (Client_Connect e))), w)
  | Err e => (Err (FF_Request (Cli_Client e)), w)
  end.

(** A binding is removed behind the daemon's back only when nobody listens
    on its socket; then with the instance lock held, of an uplink that the
    trusted configuration does not have and that was recorded as removed,
    and nothing else of the manifest changes.  Whatever else happens, no
    manifest is written. *)
Theorem forget_offline_safe (send : str * option str -> Response) (name : str) (config lock : PathBuf) (w w' : W) r :
  forget send name config lock w = (r, w') ->
  (forall id, r = Ok (inr id) -> exists e cfg w1 m m',
     send (lit "/v1/uplinks/" ++ name ++ lit "/forget", None) = Err (Client_Connect e) /\ not_listening e = true /\
     load_trusted config w = Ok cfg /\ acquire_lock (D := D) lock w = (Ok tt, w1) /\
     (forall u, u ∈ cf_uplinks cfg -> u_name u <> name) /\
     read_manifest w1 = Ok (Some m) /\ Manifest_forget m name = (m', Ok id) /\
     write_manifest (D := D) m' w1 = (Ok tt, w')) /\
  ((forall id, r <> Ok (inr id)) -> (forall e, r <> Err (FF_Write e)) -> w' = w \/ w' = (acquire_lock (D := D) lock w).2).
Proof.
  unfold forget. destruct (valid_uplink_name name); cbn [negb]; [|intros [= <- <-]; split; [done|by left]].
  unfold cli_post. destruct (send _) as [[code v]|[e|e]] eqn:Es; cycle 2; [intros [= <- <-]; split; [done|by left]| |].
  { intros [= <- <-]. split; [|by left]. intros id. by destruct (code =? 200). }
  destruct (not_listening e) eqn:En; [|intros [= <- <-]; split; [done|by left]]. unfold forget_offline.
  destruct (load_trusted config w) as [cfg|f] eqn:Ec; [|intros [= <- <-]; split; [done|by left]].
  destruct (acquire_lock lock w) as [[[]|x] w1] eqn:El; [|intros [= <- <-]; split; [done|by right]].
  destruct (read_manifest w1) as [[m|]|x] eqn:Em; [|intros [= <- <-]; split; [done|by right]..].
  destruct (existsb _ _) eqn:Ex; [intros [= <- <-]; split; [done|by right]|].
  destruct (Manifest_forget m name) as [m' [id|x]] eqn:Ef; [|intros [= <- <-]; split; [done|by right]].
  destruct (write_manifest m' w1) as [[[]|x] w2] eqn:Ew; intros [= <- <-];
    [|split; [done|]; intros _ Hw; by destruct (Hw x)].
  split; [|intros Hn; by destruct (Hn id)]. intros id' [= <-]. exists e, cfg, w1, m, m'. split_and!; try done.
  intros u Hu E. apply not_true_iff_false in Ex. apply Ex, existsb_elem_of. exists u. split; [done|].
  by apply bool_decide_eq_true_2.
Qed.
End forget.

(** *** What the server reads of a query *)

(** A piece of a query: no separator in it. *)
Definition piece (s : str) : Prop := 38 ∉ s.

Lemma split_pieces (l : list str) : Forall piece l -> l <> [] -> split_on 38 (str_join (lit "&") l) = l.
Proof.
  induction 1 as [|x l Hx Hl IH]; [done|]. intros _. destruct l as [|y l]; [by apply split_on_word|].
  change (str_join (lit "&") (x :: y :: l)) with (x ++ 38 :: str_join (lit "&") (y :: l)).
  rewrite split_on_app by done. f_equal. by apply IH.
Qed.

Lemma piece_decimal n : 0 <= n -> piece (to_decimal n).
Proof.
  intros Hn. unfold piece, to_decimal. pose proof (decimal_digits_digits (S (Z.to_nat (Z.log2 n))) n [] Hn eq_refl) as Hd.
  intros Hin. apply forallb_elem_of with (x := 38) in Hd; [|exact Hin]. by vm_compute in Hd.
Qed.

Lemma piece_instance i : forallb is_ascii_hexdigit i = true -> piece i.
Proof. intros Hd Hin. apply forallb_elem_of with (x := 38) in Hd; [|exact Hin]. by vm_compute in Hd. Qed.

(** The pieces of a query and the fields that they set. *)
Definition query_pieces (fields : list (str * str)) : list str := (fun kv => fst kv ++ 61 :: snd kv) <$> fields.

Lemma split_once_piece k v : 61 ∉ k -> split_once 61 (k ++ 61 :: v) = Some (k, v).
Proof.
  intros Hk. unfold split_once. assert (E : drop_while (fun d => negb (d =? 61)) (k ++ 61 :: v) = 61 :: v /\
    take_while (fun d => negb (d =? 61)) (k ++ 61 :: v) = k).
  { induction k as [|c k IH]; [done|]. apply not_elem_of_cons in Hk as [Hc Hk]. cbn. rewrite (proj2 (Z.eqb_neq c 61)) by congruence.
    cbn. destruct (IH Hk) as [-> ->]. done. }
  destruct E as [-> ->]. done.
Qed.

Lemma fields_of_pieces (fields : list (str * str)) : Forall (fun kv => piece (fst kv) /\ (61 ∉ fst kv) /\ piece (snd kv)) fields ->
  parse_events_query (str_join (lit "&") (query_pieces fields)) =
    query_fields (mkEventsQuery None None RING_EVENTS 0) (btree_iter (foldl (fun (m : gmap str str) '(k, v) => <[k := v]> m) ∅ fields)).
Proof.
  intros Hf. unfold parse_events_query. destruct fields as [|kv fields]; [reflexivity|].
  rewrite split_pieces; [|unfold query_pieces; apply Forall_fmap; eapply Forall_impl; [exact Hf|]|done].
  2: { intros [k v] (H1 & _ & H3). unfold piece, compose in *. cbn in *. rewrite elem_of_app, elem_of_cons. intros [?|[?|?]]; done. }
  rewrite filter_all.
  2: { intros x Hx. apply list_elem_of_fmap in Hx as ([k v] & -> & _). rewrite bool_decide_eq_false_2; [done|]. by destruct k. }
  do 2 f_equal. generalize (∅ : gmap str str). set (l := kv :: fields) in *. clearbody l. clear kv fields.
  induction Hf as [|[k v] l (_ & Hk & _) _ IH]; intros m; [done|]. cbn [query_pieces fmap list_fmap foldl fst snd].
  rewrite split_once_piece by done. cbn [default from_option id]. apply IH.
Qed.

Definition optional {A} (k : str) (v : option A) (text : A -> str) : list (str * str) :=
  match v with Some x => [(k, text x)] | None => [] end.

(** The fields of a follower's query, as the server iterates over them. *)
Lemma fields_in_order (i a w : option str) :
  btree_iter (foldl (fun (m : gmap str str) '(k, v) => <[k := v]> m) ∅
    (optional (lit "instance") i id ++ optional (lit "after") a id ++ optional (lit "wait") w id)) =
  optional (lit "after") a id ++ optional (lit "instance") i id ++ optional (lit "wait") w id.
Proof. destruct i, a, w; vm_compute; reflexivity. Qed.

Lemma field_instance q v : forallb is_ascii_hexdigit v = true -> str_len v <= 64 ->
  query_field q (lit "instance", v) = Ok (mkEventsQuery (Some v) (eq_after q) (eq_limit q) (eq_wait q)).
Proof. intros Hv Hl. unfold query_field. rewrite Hv, (proj2 (Z.leb_le _ _) Hl). reflexivity. Qed.

Lemma field_after q a : fits 64 a ->
  query_field q (lit "after", to_decimal a) = Ok (mkEventsQuery (eq_instance q) (Some a) (eq_limit q) (eq_wait q)).
Proof. intros Ha. unfold query_field. rewrite parse_unsigned_to_decimal by done. reflexivity. Qed.

(** The server reads from a follower's query exactly the follower's
    variables: its instance, the number of the last event shown, and a wait
    of the longest kind once it knows an instance. *)
Theorem follower_query_read (follow : bool) (f : Follower) :
  (forall i, fo_instance f = Some i -> forallb is_ascii_hexdigit i = true /\ str_len i <= 64) ->
  (forall a, fo_after f = Some a -> fits 64 a) ->
  parse_events_query (events_query follow f) =
    Ok (mkEventsQuery (fo_instance f) (fo_after f) RING_EVENTS (follow_wait follow f)).
Proof.
  intros Hi Ha. destruct f as [instance after w]. cbn [fo_instance fo_after] in *.
  set (wait := follow_wait follow (mkFollower instance after w)).
  assert (Hw : wait = 0 \/ wait = MAX_WAIT) by (unfold wait, follow_wait; destruct (follow && _); auto).
  set (fields := optional (lit "instance") instance id ++ optional (lit "after") (to_decimal <$> after) id ++
    optional (lit "wait") (if wait =? 0 then None else Some (lit "60")) id).
  assert (E : events_query follow (mkFollower instance after w) = str_join (lit "&") (query_pieces fields)).
  { unfold events_query, fields. fold wait. cbn [fo_instance fo_after]. destruct Hw as [->| ->], instance, after; reflexivity. }
  rewrite E, fields_of_pieces; unfold fields.
  - rewrite fields_in_order. clear E fields.
    destruct instance as [i|], after as [a|], Hw as [-> | ->]; cbn [optional fmap option_fmap option_map app Z.eqb id];
      cbn [query_fields]; rewrite ?field_after by (by apply Ha); cbn [query_fields];
      try (destruct (Hi i eq_refl); rewrite field_instance by done); reflexivity.
  - rewrite !Forall_app. split_and!.
    + destruct instance as [i|]; [|constructor]. apply Forall_singleton. split_and!; [by apply (bool_decide_unpack _); vm_compute..|].
      by apply piece_instance, Hi.
    + destruct after as [a|]; [|constructor]. apply Forall_singleton. split_and!; [by apply (bool_decide_unpack _); vm_compute..|].
      apply piece_decimal. by apply (Ha a).
    + destruct (wait =? 0); [constructor|]. apply Forall_singleton. split_and!; by apply (bool_decide_unpack _); vm_compute.
Qed.

(** *** A follower and the lives of the daemon *)

(** What a follower shows: a notice, or an event with its instance, its
    number, and the number of the oldest event kept when it was answered. *)
Inductive Shown := Sh_Notice (kind : str) | Sh_Event (instance : str) (seq oldest : u64).

Definition shown (instance : str) (oldest : u64) (s : Said) : list Shown :=
  match s with
  | Said_Waiting => []
  | Said_Notice kind => [Sh_Notice kind]
  | Said_Event e => match page_seq e with Some s => [Sh_Event instance s oldest] | None => [] end
  end.

(** No event is passed over in silence: an event is the successor of the
    one shown before it, in the same instance; or it is the oldest event
    kept, and the first one shown or announced by a notice. *)
Fixpoint gapless (prev : option (str * u64)) (told : bool) (l : list Shown) : Prop :=
  match l with
  | [] => True
  | Sh_Notice _ :: l => gapless prev true l
  | Sh_Event i s oldest :: l =>
      (if told then s = oldest
       else match prev with Some (i', s') => i = i' /\ s = s' + 1 | None => s = oldest end) /\
      gapless (Some (i, s)) false l
  end.

Definition oldest (r : Ring) : u64 := default 1 (fst <$> head (rg_events r)).

Section follower.
Context (event_value : str -> Value).

(** The JSON of an event names its number. *)
Definition named (h : list (u64 * str)) : Prop :=
  numbered h /\ forall s json, (s, json) ∈ h -> page_seq (event_value json) = Some s.

(** A follower ([events --follow]) while daemons come and go: [instance] and
    [h] are the running daemon's and its events so far; [used] the instances
    until now.  [empty_resets]: whether a request may meet a new daemon
    before its first event. *)
Inductive followed (empty_resets : bool) :
    str -> list (u64 * str) -> list str -> Follower -> list Shown -> Prop :=
  | followed_start instance : followed empty_resets instance [] [instance] Follower_new []
  | followed_emit instance h used f out json :
      followed empty_resets instance h used f out -> named (h ++ [(Z.of_nat (length h) + 1, json)]) ->
      followed empty_resets instance (h ++ [(Z.of_nat (length h) + 1, json)]) used f out
  | followed_restart instance h used f out instance' :
      followed empty_resets instance h used f out -> instance' ∉ used ->
      followed empty_resets instance' [] (instance' :: used) f out
  | followed_failure instance h used f out e said f' :
      followed empty_resets instance h used f out -> follow_step true f (Err e) = (said, inl f') ->
      followed empty_resets instance h used f' (out ++ (said ≫= shown instance 0))
  | followed_answer instance h more used f out said f' :
      followed empty_resets instance h used f out -> named (h ++ more) ->
      let q := mkEventsQuery (fo_instance f) (fo_after f) RING_EVENTS (follow_wait true f) in
      let now := history instance h in let later := history instance (h ++ more) in
      let p := events_page q now later in
      (empty_resets = false -> pg_reset p = true -> pg_events p <> []) ->
      follow_step true f (Ok (200, Some (page_value event_value p))) = (said, inl f') ->
      followed empty_resets instance (h ++ more) used f' (out ++ (said ≫= shown instance (oldest (answering q now later)))).

(** *** Proof *)

Definition gap_state (st : option (str * u64) * bool) (x : Shown) : option (str * u64) * bool :=
  match x with Sh_Notice _ => (fst st, true) | Sh_Event i s _ => (Some (i, s), false) end.

Lemma gapless_app prev told l k : gapless prev told (l ++ k) <->
  gapless prev told l /\
  gapless (fst (foldl gap_state (prev, told) l)) (snd (foldl gap_state (prev, told) l)) k.
Proof.
  revert prev told. induction l as [|[kind|i s o] l IH]; intros prev told; cbn [app gapless foldl gap_state fst];
    [naive_solver|apply IH|]. rewrite IH. naive_solver.
Qed.

(** The events of a ring are numbered from its oldest one. *)
Lemma ring_seq instance h : numbered h -> let r := history instance h in
  fst <$> rg_events r = seqZ (oldest r) (Z.of_nat (length (rg_events r))) /\
  (rg_events r <> [] -> Ring_latest r = Z.of_nat (length h) /\ oldest r + Z.of_nat (length (rg_events r)) = Ring_latest r + 1).
Proof.
  intros Hn. cbn zeta. destruct (decide (rg_events (history instance h) = [])) as [E|Hne].
  { rewrite E. split; [done|]. by intros []. }
  destruct (ring_numbers instance h Hn Hne) as (ev & Hev & Hlat & Hhd). set (r := history instance h) in *.
  assert (Ho : oldest r = Z.of_nat (length ev) + 1) by (unfold oldest; by rewrite Hhd).
  assert (Hlen : length h = (length ev + length (rg_events r))%nat) by (rewrite Hev at 1; by rewrite length_app).
  split; [|intros _; lia]. apply list_eq. intros j. rewrite list_lookup_fmap.
  destruct (rg_events r !! j) as [e|] eqn:Ej; cbn.
  - rewrite lookup_seqZ_lt by (apply lookup_lt_Some in Ej; lia). f_equal.
    specialize (Hn (length ev + j)%nat e). rewrite Hev, lookup_app_r in Hn by lia.
    replace (length ev + j - length ev)%nat with j in Hn by lia. apply Hn in Ej. lia.
  - rewrite lookup_seqZ_ge; [done|]. apply lookup_ge_None in Ej. lia.
Qed.

(** The events after a number, of a numbered list. *)
Lemma filter_after (l : list (u64 * str)) b a : fst <$> l = seqZ b (Z.of_nat (length l)) ->
  exists m, List.filter (is_after (Some a)) l = drop m l /\
    fst <$> drop m l = seqZ (Z.max b (a + 1)) (Z.of_nat (length (drop m l))).
Proof.
  revert b. induction l as [|[s j] l IH]; intros b Hl.
  { exists 0%nat. done. }
  cbn [length fmap list_fmap] in Hl. rewrite Nat2Z.inj_succ, seqZ_cons in Hl by lia. cbn [fst] in Hl.
  injection Hl as Hs Hl. rewrite Z.pred_succ in Hl. cbn [List.filter is_after fst]. subst s.
  destruct (Z.leb_spec b a); cbn [negb].
  - destruct (IH (Z.succ b) Hl) as (m & Em & Hm). exists (S m). cbn [drop]. split; [done|].
    rewrite Hm. f_equal. lia.
  - exists 0%nat. cbn [drop]. rewrite Z.max_l by lia. split.
    + f_equal. apply filter_all. intros [s' j'] Hin. apply (list_elem_of_fmap_2 fst) in Hin. fold (fst <$> l) in Hl.
      rewrite Hl in Hin. apply elem_of_seqZ in Hin. cbn [fst] in Hin |- *. apply negb_true_iff, Z.leb_gt. cbn [fst]. lia.
    + cbn [fmap list_fmap fst length]. rewrite Nat2Z.inj_succ, (seqZ_cons b) by lia. f_equal. by rewrite Z.pred_succ.
Qed.
Lemma seqZ_take m n k : (k <= n)%nat -> take k (seqZ m (Z.of_nat n)) = seqZ m (Z.of_nat k).
Proof.
  intros Hk. apply list_eq. intros j. destruct (decide (j < k)%nat).
  - rewrite lookup_take_lt, !lookup_seqZ_lt by lia. done.
  - rewrite lookup_take_ge, lookup_seqZ_ge by lia. done.
Qed.

Lemma named_values (l h : list (u64 * str)) : named h -> (forall e, e ∈ l -> e ∈ h) ->
  page_seq <$> (event_value <$> (snd <$> l)) = Some <$> (fst <$> l).
Proof.
  intros [_ Hn] Hl. induction l as [|[s json] l IH]; [done|]. cbn. f_equal.
  - apply Hn, Hl. by left.
  - apply IH. intros e He. apply Hl. by right.
Qed.

(** The numbers of a page, its first one, and when it has none. *)
Lemma page_seqs instance h client after : named h -> let r := history instance h in
  let p := Ring_page r client after RING_EVENTS RING_BYTES in
  let after := if pg_reset p then None else after in
  let start := match after with Some a => Z.max (oldest r) (a + 1) | None => oldest r end in
  pg_truncated p = match after with Some a => a + 1 <? oldest r | None => false end /\
  exists n, page_seq <$> (event_value <$> pg_events p) = Some <$> seqZ start (Z.of_nat n) /\
    (rg_events r <> [] -> match after with Some a => a < Ring_latest r | None => True end -> (1 <= n)%nat) /\
    (n <> O -> rg_events r <> [] /\ start + Z.of_nat n <= Ring_latest r + 1).
Proof.
  intros Hh. cbn zeta. set (r := history instance h). set (p := Ring_page r client after RING_EVENTS RING_BYTES).
  set (after' := if pg_reset p then None else after). destruct (ring_seq instance h (proj1 Hh)) as [Hseq Hlat]. fold r in Hseq, Hlat.
  assert (Hold : match head (rg_events r) with Some (s, _) => s | None => Ring_latest r + 1 end = oldest r).
  { unfold oldest, Ring_latest. by destruct (rg_events r) as [|[s j] l]. }
  assert (Hp : pg_truncated p = match after' with Some a => a + 1 <? oldest r | None => false end /\
    pg_events p = page_loop (rg_events r) after' RING_EVENTS RING_BYTES [] 0).
  { split; [|done]. rewrite <- Hold. done. }
  destruct Hp as [Ht Hev]. split; [exact Ht|]. rewrite Hev.
  destruct (page_loop_spec (rg_events r) after' RING_EVENTS RING_BYTES [] 0) as (n & -> & Hle & _ & _ & Hone).
  set (rest := List.filter (is_after after') (rg_events r)) in *.
  set (start := match after' with Some a => Z.max (oldest r) (a + 1) | None => oldest r end).
  assert (Hrest : (exists m, rest = drop m (rg_events r)) /\ fst <$> rest = seqZ start (Z.of_nat (length rest))).
  { subst rest start. destruct after' as [a|].
    - destruct (filter_after (rg_events r) (oldest r) a Hseq) as (m & -> & Hm). split; [by exists m|exact Hm].
    - rewrite filter_all by done. split; [by exists 0%nat|exact Hseq]. }
  destruct Hrest as [(m & Em) Hfst]. exists n. cbn [app]. split_and!.
  - rewrite (named_values (take n rest) h Hh).
    + rewrite fmap_take, Hfst. by rewrite seqZ_take.
    + intros e (j & Hj & _)%elem_of_take. apply list_elem_of_lookup_2 in Hj. rewrite Em in Hj.
      destruct (Ring_history_spec instance h) as (_ & _ & (ev & Hev') & _). fold r in Hev'. rewrite Hev'.
      apply elem_of_app. right. rewrite <- (take_drop m (rg_events r)). apply elem_of_app. by right.
  - intros Hne Ha. apply Hone; [|done|by vm_compute]. intros E. destruct (Hlat Hne) as [_ Hl].
    assert (Hin : Ring_latest r ∈ fst <$> rest); [|by rewrite E in Hin; apply not_elem_of_nil in Hin].
    destruct (last (rg_events r)) as [[s j]|] eqn:El; [|by apply last_None in El].
    assert (Es : Ring_latest r = s) by (unfold Ring_latest; by rewrite El). rewrite Es.
    apply (list_elem_of_fmap_2 fst rest (s, j)), elem_of_list_filter_bool. split; [by apply last_Some_elem_of|].
    rewrite <- Es. destruct after' as [a|]; [|done]. cbn [is_after fst]. apply negb_true_iff, Z.leb_gt. exact Ha.
  - intros Hn. assert (Hne : rg_events r <> []).
    { intros E. rewrite Em, E, drop_nil in Hle. simpl in Hle. lia. }
    split; [done|]. destruct (Hlat Hne) as [_ Hl].
    assert (Hin : start + Z.of_nat n - 1 ∈ fst <$> rg_events r).
    { rewrite <- (take_drop m (rg_events r)), fmap_app, <- Em, Hfst. apply elem_of_app. right. apply elem_of_seqZ. lia. }
    rewrite Hseq in Hin. apply elem_of_seqZ in Hin. lia.
Qed.
Definition events_shown (i : str) (o start : u64) (n : nat) : list Shown := (fun s => Sh_Event i s o) <$> seqZ start (Z.of_nat n).

Lemma events_shown_S i o start n : events_shown i o start (S n) = events_shown i o start n ++ [Sh_Event i (start + Z.of_nat n) o].
Proof.
  unfold events_shown. replace (Z.of_nat (S n)) with (Z.of_nat n + 1) by lia. rewrite seqZ_app by lia.
  by rewrite fmap_app.
Qed.

(** What precedes the first event of a page. *)
Definition continues (prev : option (str * u64)) (told : bool) (i : str) (s o : u64) : Prop :=
  if told then s = o else match prev with Some (i', s') => i = i' /\ s = s' + 1 | None => s = o end.

Lemma events_gapless prev told i o start n : (n <> O -> continues prev told i start o) ->
  gapless prev told (events_shown i o start n) /\
  foldl gap_state (prev, told) (events_shown i o start n) =
    match n with O => (prev, told) | S n => (Some (i, start + Z.of_nat n), false) end.
Proof.
  induction n as [|n IH]; intros Hc; [done|]. rewrite events_shown_S, foldl_app. rewrite gapless_app.
  destruct IH as [IH Est]; [intros _; by apply Hc|]. rewrite Est. split; [|done]. split; [done|]. destruct n as [|n].
  - cbn [fst snd gapless]. split; [|done]. rewrite Z.add_0_r. by apply Hc.
  - cbn [fst snd gapless]. split; [|done]. split; [done|lia].
Qed.

Lemma read_events (l : list Value) start n i o after : page_seq <$> l = Some <$> seqZ start (Z.of_nat n) ->
  (Said_Event <$> l) ≫= shown i o = events_shown i o start n /\
  foldl (fun after e => match page_seq e with Some s => Some s | None => after end) after l =
    match n with O => after | S n => Some (start + Z.of_nat n) end.
Proof.
  revert n. induction l as [|e l IH] using rev_ind; intros n Hl.
  - destruct n as [|n]; [done|]. apply (f_equal length) in Hl. rewrite !length_fmap, length_seqZ in Hl. simpl in Hl. lia.
  - destruct n as [|n]; [by rewrite fmap_app in Hl; apply app_eq_nil in Hl as [_ ?]|].
    replace (Z.of_nat (S n)) with (Z.of_nat n + 1) in Hl by lia. rewrite seqZ_app, !fmap_app in Hl by lia.
    apply app_inj_2 in Hl as [Hl He]; [|done]. injection He as He. destruct (IH n Hl) as [IH1 _].
    rewrite fmap_app, bind_app, IH1, foldl_app, events_shown_S. cbn. rewrite He. split; [done|]. f_equal.
Qed.

(** One answer, read. *)
Lemma follow_answer f p start n i o : page_seq <$> (event_value <$> pg_events p) = Some <$> seqZ start (Z.of_nat n) ->
  exists said, follow_step true f (Ok (200, Some (page_value event_value p))) =
      (said, inl (mkFollower (Some (pg_instance p)) (match n with O => fo_after f | S n => Some (start + Z.of_nat n) end) false)) /\
    said ≫= shown i o =
      (if bool_decide (is_Some (fo_instance f)) && pg_reset p then [Sh_Notice (lit "reset")] else []) ++
      (if pg_truncated p then [Sh_Notice (lit "truncated")] else []) ++ events_shown i o start n.
Proof.
  intros Hs. destruct (read_events (event_value <$> pg_events p) start n i o (fo_after f) Hs) as [E1 E2].
  exists ((if bool_decide (is_Some (fo_instance f)) && pg_reset p then [Said_Notice (lit "reset")] else []) ++
    (if pg_truncated p then [Said_Notice (lit "truncated")] else []) ++ (Said_Event <$> (event_value <$> pg_events p))).
  rewrite <- E2, !bind_app, E1. destruct p as [pi pr pt pe]. cbn [pg_instance pg_reset pg_truncated pg_events].
  split; [destruct pr, pt; reflexivity|]. f_equal; [by destruct (bool_decide _ && _)|]. f_equal. by destruct pt.
Qed.
(** The last event shown is where the follower stands. *)
Definition stands (instance : str) (h : list (u64 * str)) (used : list str) (f : Follower) (prev : option (str * u64)) : Prop :=
  match prev with
  | None => fo_after f = None
  | Some (i, a) => fo_after f = Some a /\ fo_instance f = Some i /\ i ∈ used /\ 0 <= a /\ (i = instance -> a <= Z.of_nat (length h))
  end.

Record follow_inv (instance : str) (h : list (u64 * str)) (used : list str) (f : Follower) (out : list Shown) : Prop := {
  fi_gapless : gapless None false out;
  fi_stands : exists prev, foldl gap_state (None, false) out = (prev, false) /\ stands instance h used f prev;
  fi_named : named h;
  fi_used : instance ∈ used
}.

Lemma no_reset instance h client after : pg_reset (Ring_page (history instance h) (Some client) after RING_EVENTS RING_BYTES) = false ->
  client = instance.
Proof.
  assert (Hi : rg_instance (history instance h) = instance) by apply Ring_history_spec.
  unfold Ring_page. cbn [pg_reset]. rewrite Hi. intros [E _]%orb_false_iff. by apply negb_false_iff, bool_decide_eq_true in E.
Qed.

Lemma oldest_pos instance h : numbered h -> 1 <= oldest (history instance h).
Proof.
  intros Hn. destruct (decide (rg_events (history instance h) = [])) as [E|Hne]; [unfold oldest; by rewrite E|].
  destruct (ring_numbers instance h Hn Hne) as (ev & _ & _ & Hhd). unfold oldest. rewrite Hhd. cbn. lia.
Qed.

(** The first event of an answer is announced or the one that follows. *)
Lemma answer_continues instance h used f prev after :
  let r := history instance h in
  let p := Ring_page r (fo_instance f) (fo_after f) RING_EVENTS RING_BYTES in
  stands instance h used f prev -> numbered h -> rg_events r <> [] -> after = (if pg_reset p then None else fo_after f) ->
  pg_truncated p = match after with Some a => a + 1 <? oldest r | None => false end ->
  let told := bool_decide (is_Some (fo_instance f)) && pg_reset p || pg_truncated p in
  continues prev told instance (match after with Some a => Z.max (oldest r) (a + 1) | None => oldest r end) (oldest r).
Proof.
  cbn zeta. set (r := history instance h). set (p := Ring_page r _ _ _ _). intros Hs Hn Hne -> Ht. rewrite Ht.
  destruct (ring_seq instance h Hn) as [_ Hlat]. fold r in Hlat. destruct (Hlat Hne) as [Hlast _].
  destruct prev as [[i a]|]; cbn [stands] in Hs.
  - destruct Hs as (Ha & Hf & _ & _ & Hle). rewrite Ha, Hf. cbn [is_Some]. rewrite bool_decide_eq_true_2 by eauto. cbn [andb].
    destruct (pg_reset p) eqn:Er; cbn [orb]; [done|].
    assert (i = instance) as -> by (unfold p in Er; rewrite Hf in Er; by apply no_reset in Er).
    unfold continues. destruct (Z.ltb_spec (a + 1) (oldest r)); [by rewrite Z.max_l by lia|]. split; [done|lia].
  - rewrite Hs. replace (if pg_reset p then None else None : option u64) with (@None u64) by by destruct (pg_reset p).
    unfold continues. by destruct (_ || _).
Qed.

(** Nothing newer than [a] is kept: nothing after it was evicted. *)
Lemma empty_page instance h a : numbered h -> let r := history instance h in 0 <= a ->
  (rg_events r <> [] -> a < Ring_latest r -> (1 <= 0)%nat) -> oldest r <= a + 1.
Proof.
  intros Hn r Ha Hsome. destruct (decide (rg_events r = [])) as [E|Hne]; [unfold oldest; rewrite E; cbn; lia|].
  destruct (ring_seq instance h Hn) as [_ Hl]. fold r in Hl. destruct (Hl Hne) as [_ Hl2].
  assert (Hlen : (1 <= length (rg_events r))%nat) by (destruct (rg_events r); [done|simpl; lia]).
  destruct (Z.le_gt_cases (oldest r) (a + 1)); [done|]. specialize (Hsome Hne ltac:(lia)). lia.
Qed.

Lemma follow_inv_answer instance h h0 used f out said f' : follow_inv instance h0 used f out -> named h ->
  (length h0 <= length h)%nat ->
  let r := history instance h in
  let p := Ring_page r (fo_instance f) (fo_after f) RING_EVENTS RING_BYTES in
  (pg_reset p = true -> pg_events p <> []) ->
  follow_step true f (Ok (200, Some (page_value event_value p))) = (said, inl f') ->
  follow_inv instance h used f' (out ++ (said ≫= shown instance (oldest r))).
Proof.
  intros [Hg (prev & Est & Hs) _ Hu] Hh Hlen. cbn zeta. set (r := history instance h). set (p := Ring_page r _ _ _ _). intros Hstrict Hstep.
  assert (Hs' : stands instance h used f prev).
  { destruct prev as [[i a]|]; [|done]. destruct Hs as (? & ? & ? & ? & Hle). split_and!; [done..|]. intros E. specialize (Hle E). lia. }
  destruct (page_seqs instance h (fo_instance f) (fo_after f) Hh) as [Ht (n & Hseqs & Hsome & Hend)]. fold r p in Ht, Hseqs, Hsome, Hend.
  set (after := if pg_reset p then None else fo_after f) in *.
  set (start := match after with Some a => Z.max (oldest r) (a + 1) | None => oldest r end) in *.
  destruct (follow_answer f p start n instance (oldest r) Hseqs) as (said' & Estep & Eshown).
  pose proof (eq_trans (eq_sym Hstep) Estep) as E. injection E as -> ->. rewrite Eshown. clear Hstep Estep Eshown.
  set (told := bool_decide (is_Some (fo_instance f)) && pg_reset p || pg_truncated p).
  set (notices := (if bool_decide (is_Some (fo_instance f)) && pg_reset p then [Sh_Notice (lit "reset")] else []) ++
    (if pg_truncated p then [Sh_Notice (lit "truncated")] else [])).
  rewrite (assoc (++) _ (if pg_truncated p then _ else _)). fold notices.
  assert (Hgn : gapless prev false notices /\ foldl gap_state (prev, false) notices = (prev, told)).
  { unfold notices, told. by destruct (bool_decide (is_Some (fo_instance f)) && pg_reset p), (pg_truncated p). }
  destruct Hgn as [Hgn Esn]. destruct (events_gapless prev told instance (oldest r) start n) as [Hge Ese].
  { intros [Hne _]%Hend. by apply (answer_continues instance h used f prev after Hs' (proj1 Hh) Hne). }
  split; [| |exact Hh|exact Hu].
  { rewrite !gapless_app, Est. cbn [fst snd]. rewrite Esn. done. }
  rewrite !foldl_app, Est, Esn, Ese. destruct n as [|n].
  - assert (He : pg_events p = []).
    { apply (f_equal length) in Hseqs. rewrite !length_fmap in Hseqs. by apply nil_length_inv. }
    assert (Ht0 : pg_truncated p = false).
    { rewrite Ht. destruct after as [a|] eqn:Ea; [|done]. apply Z.ltb_ge, (empty_page instance h a (proj1 Hh)).
      - unfold after in Ea. destruct (pg_reset p); [done|]. destruct prev as [[i b]|]; cbn in Hs'; [|congruence].
        destruct Hs' as (Hb & _ & _ & ? & _). rewrite Hb in Ea. by injection Ea as <-.
      - intros Hne Ha. by specialize (Hsome Hne Ha). }
    assert (Hr0 : bool_decide (is_Some (fo_instance f)) && pg_reset p = false).
    { apply andb_false_iff. destruct (pg_reset p) eqn:Er; [|by right]. by destruct (Hstrict eq_refl). }
    exists prev. unfold told. rewrite Ht0, Hr0. split; [done|]. destruct prev as [[i a]|]; [|done].
    destruct Hs' as (Ha & Hf & Hi & Ha0 & Hle). cbn [stands fo_after fo_instance]. split_and!; try done. f_equal.
    unfold p in Hr0. rewrite Hf, bool_decide_eq_true_2 in Hr0 by eauto. cbn [andb] in Hr0. apply no_reset in Hr0 as ->.
    apply Ring_history_spec.
  - exists (Some (instance, start + Z.of_nat n)). split; [done|]. destruct (Hend ltac:(done)) as [Hne Hle].
    destruct (ring_seq instance h (proj1 Hh)) as [_ Hl]. fold r in Hl. destruct (Hl Hne) as [Hl1 _].
    pose proof (oldest_pos instance h (proj1 Hh)) as Hpos. fold r in Hpos.
    assert (oldest r <= start) by (unfold start; destruct after; lia).
    cbn [stands fo_after fo_instance]. split_and!; [done| |done|lia|lia]. f_equal. apply Ring_history_spec.
Qed.

Lemma follow_inv_grow instance h more used f out : follow_inv instance h used f out -> named (h ++ more) ->
  follow_inv instance (h ++ more) used f out.
Proof.
  intros [Hg (prev & Est & Hs) _ Hu] Hn. split; [done| |done|done]. exists prev. split; [done|].
  destruct prev as [[i a]|]; [|done]. destruct Hs as (? & ? & ? & ? & Hle). split_and!; [done..|]. intros E.
  rewrite length_app. specialize (Hle E). lia.
Qed.

Lemma named_nil : named [].
Proof. split; [by intros ? ?|by intros ? ? ?%not_elem_of_nil]. Qed.

Lemma followed_inv instance h used f out : followed false instance h used f out -> follow_inv instance h used f out.
Proof.
  induction 1 as [i|i h used f out json _ IH Hn|i h used f out i' _ IH Hi'|i h used f out e said f' _ IH Hstep
    |i h more used f out said f' _ IH Hn q now later p Hstrict Hstep].
  - split; [done| |apply named_nil|by left]. by exists None.
  - by apply follow_inv_grow.
  - destruct IH as [Hg (prev & Est & Hs) _ Hu]. split; [done| |apply named_nil|by left].
    exists prev. split; [done|]. destruct prev as [[i0 a]|]; [|done]. destruct Hs as (? & ? & Hin & ? & Hle).
    split_and!; [done..|by right|done|]. by intros ->.
  - destruct IH as [Hg (prev & Est & Hs) Hn Hu]. unfold follow_step, cli_get in Hstep. cbn [andb] in Hstep.
    destruct (unavailable (Cli_Client e)); [|done]. injection Hstep as <- <-.
    replace (out ++ _) with out; [|destruct (fo_waiting f); cbn; by rewrite ?app_nil_r].
    split; [done| |done|done]. by exists prev.
  - subst now later p. unfold events_page, answering in *. cbn [q eq_instance eq_after eq_limit] in *.
    destruct (waits q _); [|apply follow_inv_grow; [|done]].
    + apply (follow_inv_answer i (h ++ more) h used f out said f' IH Hn); [rewrite length_app; lia|by apply Hstrict|exact Hstep].
    + apply (follow_inv_answer i h h used f out said f' IH (fi_named _ _ _ _ _ IH)); [lia|by apply Hstrict|exact Hstep].
Qed.

(** C36: A follower of the events is told of every gap: as long as no request
    meets a daemon that has not emitted its first event, whatever daemons
    come and go, whatever their histories evict and whichever requests fail,
    each event shown follows the one before it in the same run of the
    daemon, or is the oldest event kept and announced by a notice. *)
Theorem follower_gapless (instance : str) (h : list (u64 * str)) (used : list str) (f : Follower) (out : list Shown) :
  followed false instance h used f out -> gapless None false out.
Proof. by intros []%followed_inv. Qed.

(** *** A daemon before its first event *)




End follower.

(** A daemon [a] with two events and a daemon [b] after it. *)
Module CliSample.
Definition event_value (json : str) : Value :=
  Object [(lit "seq", match parse_unsigned 64 json with Some n => Num (PosInt n) | None => Null end)].
Definition event (n : Z) : u64 * str := (n, to_decimal n).
Definition a : str := lit "a".
Definition b : str := lit "b".

(** The variables after an answer. *)
Definition after_answer (f : Follower) (page : Value) : Follower :=
  match (follow_step true f (Ok (200, Some page))).2 with inl f => f | inr _ => f end.

Lemma answered empty instance h used f out said' f' :
  followed event_value empty instance h used f out -> named event_value h ->
  let r := history instance h in
  let p := Ring_page r (fo_instance f) (fo_after f) RING_EVENTS RING_BYTES in
  (empty = false -> pg_reset p = true -> pg_events p <> []) ->
  follow_step true f (Ok (200, Some (page_value event_value p))) = (said', inl f') ->
  followed event_value empty instance h used f' (out ++ (said' ≫= shown instance (oldest r))).
Proof.
  intros Hf Hn r p Hstrict Hstep.
  assert (E : forall q, answering q r r = r) by (intros q; unfold answering; by destruct (waits _ _)).
  pose proof (followed_answer event_value empty instance h [] used f out said' f' Hf) as Ha. rewrite app_nil_r in Ha.
  cbv zeta in Ha. fold r in Ha. unfold events_page in Ha. rewrite E in Ha. by apply Ha.
Qed.

Lemma named_events (n : nat) : (n <= 3)%nat -> named event_value (event <$> seqZ 1 (Z.of_nat n)).
Proof.
  intros Hn. split.
  - intros i e Hi. rewrite list_lookup_fmap in Hi. apply fmap_Some in Hi as (x & Hx & ->). apply lookup_seqZ in Hx as [-> _]. cbn. lia.
  - intros s json Hin. apply list_elem_of_fmap in Hin as (x & [= -> ->] & Hx%elem_of_seqZ). unfold event_value.
    rewrite parse_unsigned_to_decimal by (split; lia). reflexivity.
Qed.

Definition first (n : nat) : list (u64 * str) := event <$> seqZ 1 (Z.of_nat n).

Lemma emitted empty instance (n : nat) used f out : (n < 3)%nat ->
  followed event_value empty instance (first n) used f out -> followed event_value empty instance (first (S n)) used f out.
Proof.
  intros Hn Hf. assert (E : first (S n) = first n ++ [(Z.of_nat (length (first n)) + 1, to_decimal (Z.of_nat (length (first n)) + 1))]).
  { unfold first. replace (Z.of_nat (S n)) with (Z.of_nat n + 1) by lia. rewrite seqZ_app, fmap_app by lia. f_equal. cbn.
    unfold event. rewrite length_fmap, length_seqZ, Nat2Z.id. by rewrite (Z.add_comm 1). }
  rewrite E. apply followed_emit; [exact Hf|]. rewrite <- E. apply named_events. lia.
Qed.
End CliSample.

(** Events of [a] are shown; [b] comes, and its first event is shown. *)
Lemma follower_gapless_witness : exists used f,
  followed CliSample.event_value false CliSample.b (CliSample.first 1) used f
    [Sh_Event CliSample.a 1 1; Sh_Event CliSample.a 2 1; Sh_Notice (lit "reset"); Sh_Event CliSample.b 1 1] /\
  gapless None false
    [Sh_Event CliSample.a 1 1; Sh_Event CliSample.a 2 1; Sh_Notice (lit "reset"); Sh_Event CliSample.b 1 1].
Proof.
  pose proof (followed_start CliSample.event_value false CliSample.a) as H0.
  apply (CliSample.emitted false CliSample.a 0) in H0; [|lia]. apply (CliSample.emitted false CliSample.a 1) in H0; [|lia].
  pose proof (CliSample.answered false _ _ _ _ _ _ _ H0 (CliSample.named_events 2 ltac:(lia)) ltac:(by vm_compute) eq_refl) as H1.
  apply (followed_restart _ _ _ _ _ _ _ CliSample.b) in H1; [|by apply (bool_decide_unpack _); vm_compute].
  apply (CliSample.emitted false CliSample.b 0) in H1; [|lia].
  pose proof (CliSample.answered false _ _ _ _ _ _ _ H1 (CliSample.named_events 1 ltac:(lia)) ltac:(by vm_compute) eq_refl) as H2.
  match type of H2 with followed _ _ _ ?h ?u ?f ?o =>
    exists u, f; assert (E : o = [Sh_Event CliSample.a 1 1; Sh_Event CliSample.a 2 1; Sh_Notice (lit "reset");
      Sh_Event CliSample.b 1 1]) by (vm_compute; reflexivity);
    pose proof (eq_ind o (followed CliSample.event_value false CliSample.b h u f) H2 _ E) as H3 end.
  split; [exact H3|exact (follower_gapless CliSample.event_value _ _ _ _ _ H3)].
Defined.

