(* ===== verification/Transport.v ===== *)
(** * Netlink transport: requests, dumps and subscriptions

    Models [Client], [Subscription] and [Notification] of
    crates/polywan/src/netlink/mod.rs, the messages on the wire of
    netlink/nexthop.rs and the [Dumper] of observer.rs for a [Client].  A
    socket is what [netlink-proto] makes of it: the stream of the replies to
    a request, and the queue of the notifications of a subscription.
    netlink-packet-route's encoding is a parameter.

    What is proved: a request fails with the first failure of its replies
    and else returns the others in order; a dump that is not interrupted is
    the concatenation of what the kernel sent; the client discharges the
    laws that the observer relies on; a subscription passes every
    notification on, in order, and tells of every loss. *)

From stdpp Require Import prelude gmap sorting.
From Stdlib Require Import ZArith Lia.
From S2P Require Import Prelude Text Model Durations Config Plan Msg Netlink System Observer DaemonControl.

Local Open Scope Z_scope.
Local Open Scope polywan_scope.

(** ** Messages on the wire *)

Section wire.
Context (route_type : RouteNetlinkMessage -> u16) (route_bytes : RouteNetlinkMessage -> bytes)
  (route_parse : u16 -> bytes -> option RouteNetlinkMessage).

Definition message_type (m : Message) : u16 :=
  match m with
  | Message_Route m => route_type m
  | Message_NewNexthop _ => RTM_NEWNEXTHOP
  | Message_DelNexthop _ => RTM_DELNEXTHOP
  | Message_GetNexthops => RTM_GETNEXTHOP
  end.

Definition buffer_len (m : Message) : Z :=
  match m with Message_Route m => Z.of_nat (length (route_bytes m)) | _ => 8 end.

(** The buffer holds [buffer_len] bytes. *)
Definition serialize (m : Message) (buffer : bytes) : bytes :=
  match m with
  | Message_Route m => route_bytes m ++ drop (length (route_bytes m)) buffer
  | _ => replicate 8 0 ++ drop 8 buffer
  end.

Definition deserialize (kind : u16) (payload : bytes) : option Message :=
  if kind =? RTM_NEWNEXTHOP then match NexthopMessage_parse payload with Ok n => Some (Message_NewNexthop n) | Err _ => None end
  else if kind =? RTM_DELNEXTHOP then match NexthopMessage_parse payload with Ok n => Some (Message_DelNexthop n) | Err _ => None end
  else Message_Route <$> route_parse kind payload.

(** Nexthop objects read back as the kernel sends them, and route messages
    as they are written if netlink-packet-route reads its own encoding; the
    dump request of nexthop objects is an [nhmsg] of zeros. *)
Theorem wire_reads_back (family scope protocol : u8) (n : NexthopMessage) (r : RouteNetlinkMessage) (buffer : bytes) :
  NexthopMessage_wf n ->
  route_parse (route_type r) (route_bytes r) = Some r ->
  route_type r <> RTM_NEWNEXTHOP -> route_type r <> RTM_DELNEXTHOP ->
  Z.of_nat (length buffer) = buffer_len (Message_Route r) ->
  deserialize RTM_NEWNEXTHOP (nexthop_encode family scope protocol n) = Some (Message_NewNexthop n) /\
  deserialize RTM_DELNEXTHOP (nexthop_encode family scope protocol n) = Some (Message_DelNexthop n) /\
  deserialize (message_type (Message_Route r)) (serialize (Message_Route r) buffer) = Some (Message_Route r) /\
  serialize Message_GetNexthops (replicate (Z.to_nat (buffer_len Message_GetNexthops)) 255) = replicate 8 0.
Proof.
  intros Hn Hr H1 H2 Hb. unfold deserialize. rewrite (nexthop_roundtrip family scope protocol n Hn).
  split_and!; [done|done| |done]. cbn [message_type]. rewrite (proj2 (Z.eqb_neq _ _) H1), (proj2 (Z.eqb_neq _ _) H2).
  cbn [serialize buffer_len] in *. rewrite drop_ge, app_nil_r, Hr by lia. done.
Qed.
End wire.

(** ** Requests *)

(** [NLM_F_DUMP] is [NLM_F_ROOT | NLM_F_MATCH]. *)
Definition NLM_F_DUMP : u16 := 0x300.
Definition NLM_F_DUMP_INTR : u16 := 0x10.

(** What netlink-packet-core makes of a message; an error without a code is
    an acknowledgement. *)
Inductive Payload :=
  | Payload_Inner (m : Message)
  | Payload_Error (code : option i32) (header : bytes)
  | Payload_Overrun
  | Payload_Other.

Record Reply := mkReply { rp_port : u32; rp_flags : u16; rp_payload : Payload }.

(** [get_or_insert] *)
Definition get_or_insert {A} (o : option A) (a : A) : option A := match o with Some _ => o | None => Some a end.

Section client.
Context (lossy : bytes -> str).

(** One turn of the loop: the replies kept and the error. *)
Definition request_turn (s : list Reply * option KernelError) (m : Reply) : list Reply * option KernelError :=
  let '(out, error) := s in
  match rp_payload m with
  | Payload_Error (Some code) header =>
      (out, get_or_insert error (mkKernelError (- code) (lossy <$> parse_extack header)))
  | Payload_Error None _ => (out, error)
  | Payload_Overrun => (out, get_or_insert error (KernelError_transport (lit "receive buffer overrun")))
  | _ => (out ++ [m], error)
  end.

(** The stream of a request, or why there is none. *)
Definition client_request (stream : result (list Reply) str) : result (list Reply) KernelError :=
  match stream with
  | Err e => Err (KernelError_transport e)
  | Ok replies =>
      match foldl request_turn ([], None) replies with
      | (_, Some e) => Err e
      | (out, None) => Ok out
      end
  end.

Definition client_mutate (stream : result (list Reply) str) : result unit KernelError :=
  match client_request stream with Ok _ => Ok tt | Err e => Err e end.

Definition client_dump (stream : result (list Reply) str) : result Dump KernelError :=
  match client_request stream with
  | Err e => Err e
  | Ok replies =>
      Ok (mkDump (omap (fun m => match rp_payload m with Payload_Inner i => Some i | _ => None end) replies)
            (existsb (fun m => negb (Z.land (rp_flags m) NLM_F_DUMP_INTR =? 0)) replies))
  end.

(** Reference definitions: what a reply says of its request. *)
Definition reply_error (m : Reply) : option KernelError :=
  match rp_payload m with
  | Payload_Error (Some code) header => Some (mkKernelError (- code) (lossy <$> parse_extack header))
  | Payload_Overrun => Some (KernelError_transport (lit "receive buffer overrun"))
  | _ => None
  end.
Definition reply_kept (m : Reply) : bool :=
  match rp_payload m with Payload_Inner _ | Payload_Other => true | _ => false end.

Lemma request_loop replies out error :
  foldl request_turn (out, error) replies =
    (out ++ List.filter reply_kept replies,
     match error with Some e => Some e | None => head (omap reply_error replies) end).
Proof.
  revert out error. induction replies as [|m l IH]; intros out error; [cbn; rewrite app_nil_r; by destruct error|].
  cbn [foldl List.filter omap list_omap]. unfold request_turn at 2, reply_kept at 1, reply_error at 1.
  destruct (rp_payload m) as [i|[code|] h| |]; rewrite IH; cbn; rewrite <- ?(assoc (++)); by destruct error.
Qed.

Lemma request_reference (replies : list Reply) :
  client_request (Ok replies) =
    match head (omap reply_error replies) with Some e => Err e | None => Ok (List.filter reply_kept replies) end.
Proof. unfold client_request. rewrite request_loop. by destruct (head _). Qed.

(** What is left out of a dump holds no message. *)
Lemma dump_messages (replies : list Reply) d : client_dump (Ok replies) = Ok d ->
  dp_messages d = omap (fun m => match rp_payload m with Payload_Inner i => Some i | _ => None end) replies.
Proof.
  unfold client_dump. rewrite request_reference. destruct (head _); [done|]. intros [= <-]. cbn. clear.
  induction replies as [|m l IH]; [done|]. cbn [List.filter omap list_omap]. unfold reply_kept at 1.
  destruct (rp_payload m) as [i|[]| |] eqn:Ep; cbn; rewrite ?Ep; by rewrite IH.
Qed.

(** C32: The loop of a request is its reference: without a failure the replies
    that are no acknowledgements, in order; else the first failure, whatever
    follows it.  So a mutation that reports success met no error and no
    overrun, and of a dump nothing is lost, added or reordered; it counts as
    interrupted exactly when one of its replies says so. *)
Theorem request_spec (replies : list Reply) :
  client_request (Ok replies) =
    match head (omap reply_error replies) with Some e => Err e | None => Ok (List.filter reply_kept replies) end /\
  (client_mutate (Ok replies) = Ok tt <-> Forall (fun m => reply_error m = None) replies) /\
  (forall d, client_dump (Ok replies) = Ok d ->
     dp_messages d = omap (fun m => match rp_payload m with Payload_Inner i => Some i | _ => None end) replies /\
     (dp_interrupted d = true <->
        exists m, m ∈ replies /\ reply_kept m = true /\ Z.land (rp_flags m) NLM_F_DUMP_INTR <> 0)).
Proof.
  split; [apply request_reference|]. split.
  - unfold client_mutate. rewrite request_reference, Forall_forall. destruct (head (omap reply_error replies)) as [e|] eqn:Eh.
    + split; [done|]. intros Hall. apply head_Some_elem_of in Eh. apply list_elem_of_omap in Eh as (m & Hm & He).
      by rewrite (Hall m Hm) in He.
    + split; [|done]. intros _ m Hm. destruct (reply_error m) as [e|] eqn:Em; [|done].
      apply head_None in Eh. assert (He : e ∈ omap reply_error replies) by (apply list_elem_of_omap; eauto).
      rewrite Eh in He. by apply not_elem_of_nil in He.
  - intros d Hd. split; [by apply dump_messages|]. revert Hd. unfold client_dump. rewrite request_reference.
    destruct (head _); [done|]. intros [= <-]. cbn. rewrite existsb_elem_of. split.
    + intros (m & [Hm Hk]%elem_of_list_filter_bool & Hf). exists m. split_and!; [done..|].
      by apply negb_true_iff, Z.eqb_neq in Hf.
    + intros (m & Hm & Hk & Hf). exists m. split; [by apply elem_of_list_filter_bool|]. by apply negb_true_iff, Z.eqb_neq.
Qed.
End client.

(** ** The client as the observer's source of dumps *)

(** The kernel behind a request socket: the stream of a dump or of a
    mutation with its flags, [None] if the stream does not end in time, and
    the opening of a socket with its options. *)
Class NetlinkWorld (D W : Type) := {
  exchange_dump : D -> u16 -> Filter -> W -> option (result (list Reply) str) * W;
  exchange_mutation : D -> u16 -> RouteNetlinkMessage -> W -> result (list Reply) str * W;
  open_client : W -> result D str * W;
  client_port : D -> u32
}.
#[global] Hint Mode NetlinkWorld ! ! : typeclass_instances.

(** Replies to a dump are of the kind that was asked for. *)
Class NetlinkLaws (D W : Type) `{NetlinkWorld D W} := {
  dump_answers : forall (c : D) flags filter (w : W) replies w',
    exchange_dump c flags filter w = (Some (Ok replies), w') ->
    Forall (fun m => match rp_payload m with Payload_Inner i => answers filter i | _ => True end) replies
}.
#[global] Hint Mode NetlinkLaws ! ! - : typeclass_instances.

(** A world with the dumps completed in it. *)
Record Logged (W : Type) := mkLogged { lg_world : W; lg_dumps : list (Filter * Dump) }.
Arguments mkLogged {W} _ _.
Arguments lg_world {W} _.
Arguments lg_dumps {W} _.

Section dumper.
Context (lossy : bytes -> str) {D W : Type} `{NetlinkWorld D W, Clock W}.

(** [Client::dump] of a filter and [Client::mutate]. *)
Definition Client_dump (c : D) (filter : Filter) (w : W) : option (result Dump KernelError) * W :=
  let '(stream, w) := exchange_dump c (Z.lor NLM_F_REQUEST NLM_F_DUMP) filter w in
  (client_dump lossy <$> stream, w).

Definition Client_mutate (c : D) (w : W) (m : RouteNetlinkMessage) (kind : Mutation) : W * option KernelError :=
  let '(stream, w) := exchange_mutation c (Mutation_flags kind) m w in
  (w, match client_mutate lossy stream with Ok _ => None | Err e => Some e end).

#[global] Instance Logged_Clock : Clock (Logged W) := {|
  clock_now := fun w => let '(t, w') := clock_now (lg_world w) in (t, mkLogged w' (lg_dumps w))
|}.
#[global] Instance Logged_Traced : Traced (Logged W) := {| trace := lg_dumps |}.

(** [impl Dumper for Client] *)
#[global] Instance Client_Dumper : Dumper D (Logged W) := {|
  dumper_dump := fun c filter w =>
    let '(r, w') := Client_dump c filter (lg_world w) in
    (r, mkLogged w' (lg_dumps w ++ match r with Some (Ok d) => [(filter, d)] | _ => [] end));
  dumper_fresh := fun _ w => let '(r, w') := open_client (lg_world w) in (r, mkLogged w' (lg_dumps w))
|}.

(** A client keeps what the observer relies on: its view is made of dumps
    whose messages are of the kind asked for, whatever the kernel's replies
    are otherwise (errors, overruns, other kinds of message, deadlines). *)
#[global] Instance Client_DumperLaws `{!NetlinkLaws D W} : DumperLaws D (Logged W).
Proof.
  split.
  - intros w. cbn. by destruct (clock_now (lg_world w)).
  - intros c w. cbn. by destruct (open_client (lg_world w)).
  - intros c filter w. cbn. unfold Client_dump.
    destruct (exchange_dump c _ filter (lg_world w)) as [[[replies|e]|] w'] eqn:E; cbn; [|by rewrite app_nil_r..].
    apply dump_answers in E. destruct (client_dump lossy (Ok replies)) as [d|e] eqn:Ed; [|by rewrite app_nil_r].
    split; [done|]. apply dump_messages in Ed as ->. rewrite Forall_forall in E. apply Forall_forall. intros i Hi.
    apply list_elem_of_omap in Hi as (m & Hm & Em). specialize (E m Hm). destruct (rp_payload m); by simplify_eq.
Qed.
End dumper.

(** ** Subscriptions *)

(** The rtnetlink groups of the observer. *)
Definition groups_ALL : list u32 := [1; 5; 7; 8; 9; 11; 19; 32].

(** [next] on the messages that have come: the first notification, and the
    messages behind it; [None] if it waits on. *)
Fixpoint Subscription_next (rx : list Reply) : option (Notification * list Reply) :=
  match rx with
  | [] => None
  | m :: rx =>
      match rp_payload m with
      | Payload_Inner i => Some (Notified i (rp_port m) (rp_flags m), rx)
      | Payload_Overrun => Some (Overrun, rx)
      | _ => Subscription_next rx
      end
  end.

(** [queued] until nothing is queued. *)
Fixpoint Subscription_drain (fuel : nat) (rx : list Reply) : list Notification :=
  match fuel with
  | O => []
  | S fuel =>
      match Subscription_next rx with
      | Some (n, rx) => n :: Subscription_drain fuel rx
      | None => []
      end
  end.

Definition notification_of (m : Reply) : option Notification :=
  match rp_payload m with
  | Payload_Inner i => Some (Notified i (rp_port m) (rp_flags m))
  | Payload_Overrun => Some Overrun
  | _ => None
  end.

Lemma Subscription_next_spec rx :
  match Subscription_next rx with
  | Some (n, rest) => omap notification_of rx = n :: omap notification_of rest /\ (length rest < length rx)%nat
  | None => omap notification_of rx = []
  end.
Proof.
  induction rx as [|m rx IH]; [done|].
  assert (E : omap notification_of (m :: rx) = match notification_of m with Some n => n :: omap notification_of rx | None => omap notification_of rx end)
    by done.
  rewrite E. cbn [Subscription_next]. clear E. destruct (notification_of m) as [x|] eqn:En; unfold notification_of in En;
    destruct (rp_payload m); simplify_eq; try (split; [done|cbn; lia]);
    (destruct (Subscription_next rx) as [[n rest]|]; [destruct IH as [-> ?]; split; [done|cbn; lia]|done]).
Qed.

(** A subscription passes every message on, with the port that caused it
    and its flags, and every overrun at its place; nothing else and nothing
    twice.  Draining it ends. *)
Theorem subscription_complete (rx : list Reply) (fuel : nat) : (length rx <= fuel)%nat ->
  Subscription_drain fuel rx = omap notification_of rx.
Proof.
  revert rx. induction fuel as [|fuel IH]; intros rx Hf.
  - by destruct rx; [|cbn in Hf; lia].
  - cbn [Subscription_drain]. pose proof (Subscription_next_spec rx) as Hs. destruct (Subscription_next rx) as [[n rest]|]; [|done].
    destruct Hs as [-> Hl]. f_equal. apply IH. lia.
Qed.
