(* ===== verification/DaemonProps.v ===== *)
(** * The State task: what every run guarantees

    Theorems on the runs of the event loop of crates/polywan/src/daemon.rs
    (from the invariant of DaemonInv and DaemonLoop) and on its parts that
    bound retries, count removals and refuse drains. *)

From stdpp Require Import prelude gmap sorting.
From Stdlib Require Import ZArith Lia.
From S2P Require Import Prelude Text Model Health QualityGates Probe Select Durations Config Plan Msg Netlink System.
From S2P Require Import Reconcile Discover Observer Events StateFiles Sysctl Nft Status Checks ApiServer Worker.
From S2P Require Import DaemonState DaemonCore DaemonControl DaemonStart DaemonInv DaemonLoop.

Local Open Scope Z_scope.
Local Open Scope polywan_scope.

(** ** Runs *)

Section runs.
Context {W : Type} `{DaemonWorld W}.
Context (quoted : str -> str) (debug_ops : list Op -> str) (op_text : Op -> str) (failure_text : Failure -> str).
Context {D : Type} `{Clock W, Dumper D W} (dumper : D).
Context (mutate : W -> RouteNetlinkMessage -> Mutation -> W * option KernelError).
Context (to_json : Event Value -> str) (own_port : u32).
Abbreviation loop_head := (loop_head debug_ops op_text failure_text dumper mutate to_json : M W _).
Abbreviation handle_input := (handle_input quoted op_text dumper own_port : Input_ -> M W unit).
Abbreviation runs := (runs quoted debug_ops op_text failure_text dumper mutate to_json own_port).
Abbreviation continues := (continues quoted debug_ops op_text failure_text dumper mutate to_json own_port).

(** in every run the events that announce the status alternate, first
    [status_degraded], then [status_recovered], and the last one announced is
    the current status: degraded exactly while a degradation reason is set. *)
Theorem status_events_alternate orders inputs d : runs orders inputs d ->
  status_after false (omap status_of (emitted (d_out d) ++ d_pending_events d)) =
    Some (negb (bool_decide (d_degraded d = ∅))).
Proof. intros [[_ Hs _ _ _] _]%runs_inv. exact Hs. Qed.

(** C5: every order taken from the control socket is answered at most
    once; while the I/O lanes run, the orders taken are exactly those answered
    and the one in progress. *)
Theorem orders_answered_once orders inputs d : runs orders inputs d ->
  (NoDup orders -> NoDup (answered (d_out d) ++ waiting_reply (d_command d))) /\
  (d_fatal d = None -> answered (d_out d) ++ waiting_reply (d_command d) ≡ₚ orders).
Proof.
  intros [_ [Ho Hc]]%runs_inv. split.
  - intros Hn. apply submseteq_Permutation in Ho as [rest Hp]. rewrite Hp in Hn. by apply NoDup_app in Hn as [? _].
  - intros Hf. by destruct (Hc Hf).
Qed.

(** C11: no request to reload is lost. After a turn that handled one
    (SIGHUP, or the order of a client that waits), in every later state in which
    the I/O lanes run, either a validation of the configuration was started
    since the request, or it is noted to follow what is in progress: a
    reload that runs, or a write of the state directory. So once neither is in
    progress the request was served. *)
Theorem reload_requests_served orders inputs d w0 d' w1 w i d2 :
  runs orders inputs d -> loop_head (mkSt d w0) = (None, mkSt d' w1) -> admits d' i = true -> requests_reload w i = true ->
  continues (st_d (handle_input i (mkSt d' w)).2) d2 -> d_fatal d2 = None ->
  ((length (validations (d_out d')) < length (validations (d_out d2)))%nat \/
   (d_reload_again d2 = true /\ is_Some (d_reload d2)) \/
   (d_reload_deferred d2 = true /\ writing (d_command d2) = true /\ d_reload d2 = None)) /\
  (d_reload d2 = None -> writing (d_command d2) = false ->
   (length (validations (d_out d')) < length (validations (d_out d2)))%nat).
Proof.
  intros Hr Hhead Hadm Hreq Hcont Hf. apply runs_inv in Hr.
  pose proof (request_inv quoted debug_ops op_text failure_text dumper mutate to_json own_port _ _ _ _ _ _ _ Hr Hhead Hadm Hreq) as H1'.
  destruct (continues_inv _ _ _ _ _ _ _ _ _ _ _ _ H1' Hcont) as (orders' & [_ [_ Hc]]).
  destruct (Hc Hf) as [_ _ C3 C4 C5 [_ Hdue]]. unfold started_validations in Hdue. cbn in C3, C4, C5, Hdue.
  destruct Hdue as [Hlt|[Ha|Hd]]; [split; [left|intros]; lia|..].
  - specialize (C4 Ha). split; [auto|]. intros Hn. rewrite Hn in C4. by destruct C4.
  - specialize (C5 Hd). split; [right; right; split_and!; auto|]. intros _ Hw. congruence.
Qed.

(** C6: no handler panics: every path at runtime is of a configured uplink,
    so each [expect] of the State task succeeds; and the generation applied
    is never ahead of the one desired. *)
Theorem daemon_never_panics orders inputs d : runs orders inputs d ->
  d_panicked d = false /\ map_Forall (fun k _ => is_Some (Config_uplink (d_cfg d) (pk_uplink k))) (d_paths d) /\
  d_applied_generation d <= d_desired_generation d.
Proof.
  intros [[Hp _ Hg Hk _] _]%runs_inv. split_and!; [done| |lia].
  intros k p Hl. by destruct (Hk k p Hl).
Qed.

(** C10: a report of a prober that was stopped changes nothing, although
    reports and stops cross; and no two probers share a generation. *)
Theorem stopped_probers_ignored orders inputs d : runs orders inputs d ->
  NoDup (sp_generation <$> spawned (d_out d)) /\
  Forall (fun s =>
    (forall w : W, probe_report (Report_Failed (sp_path s) (sp_generation s)) (mkSt d w) = (tt, mkSt d w)) /\
    (forall (w : W) passed reachable samples canceled, probe_report (Report_Round
       (mkRoundReport (sp_path s) (sp_generation s) passed reachable samples canceled)) (mkSt d w) = (tt, mkSt d w)))
    (aborted (d_out d)).
Proof.
  intros [[_ _ _ _ [_ Hs _ _ Ht]] _]%runs_inv. split; [exact Hs|]. apply Forall_forall. intros s Hin. specialize (Ht s).
  unfold probe_report, mbind, M_bind, get_d. cbn [rr_path rr_generation st_d].
  split; intros; destruct (d_paths d !! sp_path s) as [p|] eqn:Ep; try done;
    specialize (Ht p Hin eq_refl); rewrite (proj2 (Z.eqb_neq _ _) Ht); done.
Qed.

(** C7: the configuration and the drained uplinks change at two points
    only: when the manifest was bound to the configuration that a reload
    validated and prepared, and when the drain intent was written; a pass changes neither. *)
Theorem intents_precede_effects orders inputs d w0 d' w1 w i :
  runs orders inputs d -> loop_head (mkSt d w0) = (None, mkSt d' w1) -> admits d' i = true ->
  d_cfg d' = d_cfg d /\ d_drained d' = d_drained d /\
  let d2 := st_d (handle_input i (mkSt d' w)).2 in permitted d' i (d_cfg d2) (d_drained d2).
Proof.
  intros Hr Hhead Hadm. apply runs_inv in Hr.
  pose proof (keeps_loop_head debug_ops op_text failure_text dumper mutate to_json (-1) orders (d_cfg d) (d_drained d) (mkSt d w0)
    (inv_fixed _ _ _ Hr)) as Hl.
  rewrite Hhead in Hl. specialize (Hl eq_refl). pose proof Hl as [_ (_ & Hc & Hd)]. split_and!; [done..|].
  destruct (handle_input_moved quoted op_text dumper own_port (-1) orders i (mkSt d' w) (fixed_inv _ _ _ _ _ Hl) Hadm)
    as (cfg & dr & Hp & [_ (_ & Hc' & Hd')]).
  cbn in Hc', Hd' |- *. subst. exact Hp.
Qed.
End runs.

(** ** Retries *)

Section retries.
Context {W : Type} `{DaemonWorld W}.

(** The retry that a failure schedules. *)
Lemma failed_retry f attempt (s : St W) :
  let b := next_backoff (match d_retry (st_d s) with
                         | Some r => if bool_decide (re_attempt r = attempt) then Some (re_backoff r) else None
                         | None => None
                         end) in
  exists t, d_retry (st_d (failed f attempt s).2) = Some (mkRetry (t + b) b attempt) /\ d_dirty (st_d (failed f attempt s).2) = true.
Proof.
  cbv zeta. set (r0 := d_retry (st_d s)). set (b := next_backoff _).
  enough (Ht : triple (fun d => d_retry d = r0) (failed f attempt : M W unit)
    (fun _ d => exists t, d_retry d = Some (mkRetry (t + b) b attempt) /\ d_dirty d = true)) by by apply Ht.
  unfold failed. do 3 (apply (triple_bind _ (fun _ d => d_retry d = r0));
    [to_keeps; unfold push_event, degrade; keeps_auto|intros _]).
  apply triple_get. intros d Hd.
  apply (triple_bind _ (fun _ d => d_retry d = r0)).
  { apply (triple_weaken _ (fun d => d_retry d = r0) _ (fun _ d => d_retry d = r0)); [|by intros ? ->|done].
    to_keeps. unfold reply_send, give. keeps_auto. }
  intros _. apply (triple_bind _ (fun _ d => d_retry d = r0)); [to_keeps; unfold reread_insert; keeps_auto|]. intros _.
  rewrite Hd. fold b. apply (triple_bind _ (fun _ d => d_retry d = r0)); [to_keeps; apply keeps_now|].
  intros t s' _. by exists t.
Qed.

(** [n + 1] failures of the same attempt, one after the other. *)
Definition failures (fs : list DFailure) (attempt : str) : M W unit := for_each fs (fun f => failed f attempt).

(** failures of the same attempt are retried after 1, 2, 4, ... seconds
    and never later than 60 seconds after the failure; a failure of another
    attempt starts again at one second. *)
Theorem retries_back_off (fs : list DFailure) (f : DFailure) (attempt : str) (s : St W) :
  match d_retry (st_d s) with Some r => re_attempt r <> attempt | None => True end ->
  exists t, d_retry (st_d (failures (fs ++ [f]) attempt s).2) =
    Some (mkRetry (t + Z.min (2 ^ Z.of_nat (length fs)) 60 * 10 ^ 9) (Z.min (2 ^ Z.of_nat (length fs)) 60 * 10 ^ 9) attempt).
Proof.
  assert (Hmin : forall n : nat, Z.min (Z.min (2 ^ Z.of_nat n) 60 * 10 ^ 9 * 2) BACKOFF_MAX =
    Z.min (2 ^ Z.of_nat (S n)) 60 * 10 ^ 9).
  { intros n. rewrite Nat2Z.inj_succ, Z.pow_succ_r by lia. unfold BACKOFF_MAX, from_secs, NANOS_PER_SEC. lia. }
  intros Hs. unfold failures. revert f. induction fs as [|f0 fs IH] using rev_ind; intros f.
  - simpl. unfold mbind, M_bind. destruct (failed_retry f attempt s) as (t & Hr & _).
    destruct (failed f attempt s) as [[] s1]. exists t. cbn [st_d snd mret M_ret] in *. rewrite Hr.
    destruct (d_retry (st_d s)) as [r|]; [rewrite bool_decide_eq_false_2 by done|]; done.
  - destruct (IH f0) as [t Ht]. rewrite for_each_app. set (s1 := (for_each (fs ++ [f0]) _ s).2) in *. simpl.
    unfold mbind, M_bind. destruct (failed_retry f attempt s1) as (t' & Hr & _).
    destruct (failed f attempt s1) as [[] s2]. exists t'. cbn [st_d snd mret M_ret] in *. rewrite Hr, Ht.
    cbn [re_attempt re_backoff]. rewrite bool_decide_eq_true_2 by done. cbn [next_backoff].
    rewrite length_app, Nat.add_1_r, Hmin. done.
Qed.
End retries.

(** ** Ownership *)

(** The ownership of a kind of artifact after a removal at [t]. *)
Definition counted (o : Ownership) (t : Instant) : Ownership :=
  let o := removal_counted t o in
  mkOwnership (ow_removals o) (ow_conflict o || Nat.ltb 3 (length (ow_removals o))) (ow_clean_reconciliations o).

Lemma count_removal_ownership {W} `{DaemonWorld W} kind (s : St W) :
  d_ownership (st_d (count_removal kind s).2) =
    <[kind := counted (default Ownership_default (d_ownership (st_d s) !! kind)) (instant_now (st_w s)).1]> (d_ownership (st_d s)).
Proof.
  unfold count_removal, mbind, M_bind, now, get_d. destruct (instant_now (st_w s)) as [t w]. cbn.
  assert (E : forall (b : bool) (s : St W), d_ownership (st_d (when b (degrade (lit "ownership_conflict")) s).2) = d_ownership (st_d s)).
  { intros b s'. assert (Hk : keeps (fun d => d_ownership d = d_ownership (st_d s')) (when b (degrade (lit "ownership_conflict")) : M W unit))
      by (unfold degrade, push_event; keeps_auto). by apply Hk. }
  rewrite E. cbn. f_equal. unfold counted. f_equal. cbn. destruct (ow_conflict _); [done|].
  cbn. apply andb_true_r.
Qed.

(** The removals kept are the suffix of those within five minutes. *)
Lemma expire_removals_filter t l : StronglySorted Z.le l -> (forall x, x ∈ l -> x <= t) ->
  expire_removals t l = List.filter (fun x => t - x <=? from_secs 300) l.
Proof.
  induction l as [|a l IH]; intros Hs Ht; [done|]. inversion Hs as [|? ? Hs' Ha]; subst. cbn [expire_removals List.filter].
  assert (a <= t) by (apply Ht; by left). rewrite (Z.max_r 0 (t - a)) by lia.
  destruct (from_secs 300 <? t - a) eqn:E.
  - apply Z.ltb_lt in E. rewrite (proj2 (Z.leb_gt (t - a) (from_secs 300))) by lia. apply IH; [done|]. intros x Hx. apply Ht. by right.
  - apply Z.ltb_ge in E. rewrite (proj2 (Z.leb_le (t - a) (from_secs 300))) by lia. f_equal. symmetry. apply filter_all. intros x Hx.
    rewrite Forall_forall in Ha. specialize (Ha x Hx). apply Z.leb_le. lia.
Qed.

(** Four removals within five minutes. *)
Definition conflicting (ts : list Instant) : Prop :=
  exists i t t', ts !! i = Some t /\ ts !! (i + 3)%nat = Some t' /\ t' - t <= from_secs 300.

Lemma recent_suffix l t : StronglySorted Z.le (l ++ [t]) ->
  exists k, List.filter (fun x => t - x <=? from_secs 300) (l ++ [t]) = drop k (l ++ [t]) /\
    (k <= length l)%nat /\ forall i x, (l ++ [t]) !! i = Some x -> (k <= i)%nat <-> t - x <= from_secs 300.
Proof.
  induction l as [|a l IH]; intros Hs.
  - exists 0%nat. simpl. rewrite Z.sub_diag. split_and!; [done|lia|]. intros [|i] x; [|done]. intros [= <-].
    unfold from_secs, NANOS_PER_SEC. lia.
  - inversion Hs as [|? ? Hs' Ha]; subst. destruct (IH Hs') as (k & Hf & Hk & Hi). simpl.
    destruct (t - a <=? from_secs 300) eqn:E.
    + apply Z.leb_le in E. exists 0%nat. assert (Hall : forall i x, (l ++ [t]) !! i = Some x -> t - x <= from_secs 300).
      { intros i x Hx. rewrite Forall_forall in Ha. specialize (Ha x (list_elem_of_lookup_2 _ _ _ Hx)). lia. }
      split_and!; [simpl; f_equal; apply filter_all; intros x [i Hx]%list_elem_of_lookup; apply Z.leb_le; by eapply Hall|lia|].
      intros [|i] x Hx; simpl in Hx; [simplify_eq; lia|]. split; [intros _; by eapply Hall|lia].
    + apply Z.leb_gt in E. exists (S k). split_and!; [done|lia|].
      intros [|i] x Hx; simpl in Hx; [simplify_eq; lia|]. rewrite <- (Hi i x Hx). lia.
Qed.

Definition recent (t : Instant) (l : list Instant) : list Instant := List.filter (fun x => t - x <=? from_secs 300) l.

Lemma recent_recent t t' l : t <= t' -> recent t' (recent t l ++ [t']) = recent t' (l ++ [t']).
Proof.
  intros Ht. unfold recent. rewrite !List.filter_app. f_equal. induction l as [|x l IH]; simpl; [done|].
  destruct (t - x <=? from_secs 300) eqn:E; simpl; rewrite IH; [done|].
  apply Z.leb_gt in E. by rewrite (proj2 (Z.leb_gt (t' - x) (from_secs 300))) by lia.
Qed.

(** More than three recent removals: the last four are within five minutes. *)
Lemma recent_conflicting l t : StronglySorted Z.le (l ++ [t]) ->
  Nat.ltb 3 (length (recent t (l ++ [t]))) = true <->
  exists x, (l ++ [t]) !! (length l - 3)%nat = Some x /\ (3 <= length l)%nat /\ t - x <= from_secs 300.
Proof.
  intros Hs. destruct (recent_suffix l t Hs) as (k & Hf & Hk & Hi). unfold recent. rewrite Hf, length_drop, length_app. simpl.
  rewrite Nat.ltb_lt. destruct (decide (3 <= length l)%nat) as [Hl|Hl].
  - destruct (lookup_lt_is_Some_2 (l ++ [t]) (length l - 3)) as [x Hx]; [rewrite length_app; simpl; lia|].
    pose proof (Hi _ _ Hx) as Hx'. split; [intros ?; exists x; split_and!; [done..|]; apply Hx'; lia|].
    intros (x' & Hx2 & _ & Hle). simplify_eq. apply Hx' in Hle. lia.
  - split; [lia|]. naive_solver lia.
Qed.

Lemma conflicting_snoc l t : conflicting (l ++ [t]) <->
  conflicting l \/ exists x, (l ++ [t]) !! (length l - 3)%nat = Some x /\ (3 <= length l)%nat /\ t - x <= from_secs 300.
Proof.
  unfold conflicting. split.
  - intros (i & x & x' & Hx & Hx' & Hle). destruct (decide (i + 3 < length l)%nat) as [Hi|Hi].
    + left. rewrite !lookup_app_l in Hx, Hx' by lia. by exists i, x, x'.
    + right. pose proof (lookup_lt_Some _ _ _ Hx') as Hlt. rewrite length_app in Hlt. simpl in Hlt.
      assert (i + 3 = length l)%nat as Ei by lia. rewrite Ei, list_lookup_middle in Hx' by done. simplify_eq.
      exists x. split_and!; [by replace (length l - 3)%nat with i by lia|lia|done].
  - intros [(i & x & x' & Hx & Hx' & Hle)|(x & Hx & Hl & Hle)].
    + exists i, x, x'. split_and!; [by apply lookup_app_l_Some..|done].
    + exists (length l - 3)%nat, x, t. split_and!; [done| |done].
      replace (length l - 3 + 3)%nat with (length l) by lia. by apply list_lookup_middle.
Qed.

Lemma counted_spec l t : StronglySorted Z.le (l ++ [t]) ->
  let o := foldl counted Ownership_default (l ++ [t]) in
  ow_removals o = recent t (l ++ [t]) /\ (ow_conflict o = true <-> conflicting (l ++ [t])) /\ ow_clean_reconciliations o = 0.
Proof.
  cbv zeta. revert t. induction l as [|t0 l IH] using rev_ind; intros t Hs.
  - cbn. rewrite Z.max_r by lia. rewrite Z.sub_diag. cbn. split_and!; [done| |done].
    split; [done|]. intros (i & x & x' & _ & Hx' & _). destruct i; done.
  - rewrite foldl_app. cbn [foldl]. set (o := foldl counted Ownership_default (l ++ [t0])) in *.
    destruct (proj1 (StronglySorted_app _ _ _) Hs) as (Hle & Hl & _).
    destruct (IH t0 Hl) as (Hr & Hc & _). fold o in Hr, Hc. unfold counted, removal_counted.
    cbn [ow_removals ow_conflict ow_clean_reconciliations].
    assert (Hle' : forall x, x ∈ l ++ [t0] -> x <= t) by (intros x Hx; apply Hle; [done|by left]).
    assert (He : expire_removals t (ow_removals o ++ [t]) = recent t ((l ++ [t0]) ++ [t])).
    { rewrite Hr, expire_removals_filter.
      - apply recent_recent. apply Hle'. set_solver.
      - apply StronglySorted_snoc; [by apply StronglySorted_filter|]. intros x [Hx _]%elem_of_list_filter_bool. by apply Hle'.
      - intros x [[Hx _]%elem_of_list_filter_bool|Hx]%elem_of_app; [by apply Hle'|].
        apply list_elem_of_singleton in Hx as ->. lia. }
    rewrite He. split_and!; [done| |done]. rewrite orb_true_iff, Hc, recent_conflicting by done.
    symmetry. apply conflicting_snoc.
Qed.

(** a third party's removals of one kind of artifact, in the order they happen, are an
    ownership conflict exactly when four of them fall within five minutes;
    a conflict outlasts one full reconciliation and ends with the second,
    unless a removal falls between them. *)
Theorem ownership_conflicts (ts : list Instant) (t : Instant) : StronglySorted Z.le (ts ++ [t]) ->
  let o := foldl counted Ownership_default (ts ++ [t]) in
  (ow_conflict o = true <-> conflicting (ts ++ [t])) /\
  ow_conflict (reconciled o) = ow_conflict o /\
  ow_conflict (reconciled (reconciled o)) = false /\
  ow_conflict (reconciled (counted (reconciled o) t)) = ow_conflict (counted (reconciled o) t).
Proof.
  intros Hs. cbv zeta. destruct (counted_spec ts t Hs) as (_ & Hc & Hz).
  set (o := foldl counted Ownership_default (ts ++ [t])) in *. split; [done|].
  assert (Hrec : forall o, ow_clean_reconciliations o = 0 -> ow_conflict (reconciled o) = ow_conflict o).
  { intros o' Ho. unfold reconciled. rewrite Ho. by destruct (ow_conflict o') eqn:E; [|rewrite E]. }
  split_and!; [by apply Hrec| |by apply Hrec].
  unfold reconciled at 2. destruct (ow_conflict o) eqn:E; unfold reconciled; [|by rewrite E]. cbn. by rewrite Hz.
Qed.

(** ** Drains *)

Lemma candidates_drained d id f :
  candidates (d <| d_drained := drained_with true id (d_drained d) |>) f =
    List.filter (fun x => negb (bool_decide (x = id))) (candidates d f).
Proof.
  unfold candidates, drained_with. cbn. induction (cf_uplinks (d_cfg d)) as [|u us IH]; simpl; [done|].
  destruct (decide (u_id u = id)) as [E|E].
  - rewrite (bool_decide_eq_true_2 (u_id u ∈ _)) by set_solver. rewrite andb_false_r. simpl. rewrite IH.
    destruct (_ && _); simpl; [|done]. by rewrite bool_decide_eq_true_2.
  - rewrite (bool_decide_ext (u_id u ∈ {[id]} ∪ _) (u_id u ∈ d_drained d)) by set_solver.
    destruct (_ && _); simpl; [|done]. rewrite (bool_decide_eq_false_2 (u_id u = id)) by done. simpl. by f_equal.
Qed.

Lemma candidates_NoDup d f : NoDup (u_id <$> cf_uplinks (d_cfg d)) -> NoDup (candidates d f).
Proof.
  unfold candidates. induction (cf_uplinks (d_cfg d)) as [|u us IH]; simpl; [done|]. intros [Hu Hn]%NoDup_cons.
  destruct (_ && _); simpl; [|by apply IH]. apply NoDup_cons. split; [|by apply IH].
  intros (x & Hx & [Hin _]%elem_of_list_filter_bool)%list_elem_of_fmap. apply Hu. rewrite Hx. by apply list_elem_of_fmap_2.
Qed.

Lemma last_candidate_None d id f : NoDup (u_id <$> cf_uplinks (d_cfg d)) -> last_candidate d id = None ->
  candidates d f <> [] -> candidates (d <| d_drained := drained_with true id (d_drained d) |>) f <> [].
Proof.
  intros Hn Hl Hc. rewrite candidates_drained. intros Hall. pose proof (candidates_NoDup d f Hn) as Hnd.
  assert (Hid : forall x, x ∈ candidates d f -> x = id).
  { intros x Hx. destruct (decide (x = id)) as [|Hne]; [done|].
    assert (Hin : x ∈ List.filter (fun x => negb (bool_decide (x = id))) (candidates d f)).
    { apply elem_of_list_filter_bool. split; [done|]. by rewrite bool_decide_eq_false_2. }
    rewrite Hall in Hin. by apply not_elem_of_nil in Hin. }
  assert (E : candidates d f = [id]).
  { destruct (candidates d f) as [|a [|b l]]; [done|f_equal; apply Hid; by left|].
    rewrite (Hid a ltac:(by left)), (Hid b ltac:(by right; left)) in Hnd. apply NoDup_cons in Hnd as [Hnd _].
    exfalso. apply Hnd. by left. }
  pose proof (proj1 (find_first_None _ _) Hl f) as Hf. cbv beta in Hf. rewrite E, bool_decide_eq_true_2 in Hf by done.
  discriminate Hf. destruct f; set_solver.
Qed.

(** without [force], an order to drain an uplink is accepted only if
    every family that has a candidate for traffic still has one without that uplink. *)
Theorem drain_keeps_candidates {W} `{DaemonWorld W} (quoted : str -> str) (name : str) (reply : Reply) (s : St W)
    (seq : u64) (id : UplinkId) (family : Family) :
  NoDup (u_id <$> cf_uplinks (d_cfg (st_d s))) -> d_command (st_d s) = None ->
  d_command (st_d (start_drain quoted name true false reply s).2) = Some (Persisting seq id true reply) ->
  candidates (st_d s) family <> [] ->
  candidates ((st_d s) <| d_drained := drained_with true id (d_drained (st_d s)) |>) family <> [].
Proof.
  intros Hn Hc Ha. apply last_candidate_None; [done|]. revert Ha. unfold start_drain, mbind, M_bind, get_d.
  destruct (find_first _ _) as [u|]; [|cbn; congruence]. cbn [andb negb].
  destruct (last_candidate (st_d s) (u_id u)) as [f|] eqn:El; [cbn; congruence|].
  unfold next_seq, lanes_persist, mbind, M_bind. cbn. destruct (Lanes_persist _ _) as [l [[]|[]]]; cbn; rewrite ?Hc; [|done..].
  intros [= _ <-]. exact El.
Qed.

(** ** The settings of a scope *)

Lemma scopes_fold (l : list SysctlScope) (j : SysctlJob) (m : gmap SysctlScope SysctlJob) scope :
  foldl (fun m s => <[s := j]> m) m l !! scope = if bool_decide (scope ∈ l) then Some j else m !! scope.
Proof.
  induction l as [|x l IH] using rev_ind; [by rewrite bool_decide_eq_false_2 by apply not_elem_of_nil|].
  rewrite foldl_app. cbn [foldl]. destruct (decide (x = scope)) as [->|Hne].
  - rewrite lookup_insert_eq, bool_decide_eq_true_2; [done|]. set_solver.
  - rewrite lookup_insert_ne, IH by done. repeat case_bool_decide; set_solver.
Qed.

Lemma settings_fold (l : list Setting) (manage : bool) (m : gmap SysctlScope SysctlJob) scope :
  (forall j, m !! scope = Some j -> j = ([], manage)) ->
  foldl (fun m s =>
    let '(l, b) := default ([], manage) (m !! sysctl_scope s) in <[sysctl_scope s := (l ++ [s], b)]> m) m l !! scope =
  let settings := List.filter (fun s => bool_decide (sysctl_scope s = scope)) l in
  if bool_decide (is_Some (m !! scope)) || negb (bool_decide (settings = [])) then Some (settings, manage) else None.
Proof.
  intros Hm. induction l as [|x l IH] using rev_ind.
  - cbn. destruct (m !! scope) as [j|]; [by rewrite (Hm j eq_refl)|done].
  - rewrite foldl_app, List.filter_app. cbn [foldl List.filter]. cbn zeta in IH. set (f := foldl _ m l) in *.
    destruct (decide (sysctl_scope x = scope)) as [E|Hne].
    + rewrite E, IH, (bool_decide_eq_true_2 _ eq_refl).
      destruct (_ || negb (bool_decide (List.filter _ _ = []))) eqn:Eb; cbn [default id from_option].
      * rewrite lookup_insert_eq, orb_comm. cbn [negb orb]. rewrite bool_decide_eq_false_2; [done|by destruct (List.filter _ _)].
      * apply orb_false_iff in Eb as [_ Eb]. apply negb_false_iff, bool_decide_eq_true in Eb. rewrite Eb.
        rewrite lookup_insert_eq, orb_comm. done.
    + rewrite (bool_decide_eq_false_2 _ Hne), app_nil_r. destruct (default _ _) as [k b].
      by rewrite lookup_insert_ne.
Qed.

Lemma scopes_spec (cfg : Config) (scope : SysctlScope) : scope ∈ sysctl_scopes cfg <->
  scope = Global \/ List.filter (fun s => bool_decide (sysctl_scope s = scope)) (desired cfg) <> [].
Proof.
  assert (Hf : List.filter (fun s => bool_decide (sysctl_scope s = scope)) (desired cfg) <> [] <->
    exists s, s ∈ desired cfg /\ sysctl_scope s = scope).
  { split.
    - destruct (List.filter _ _) as [|s l] eqn:E; [done|]. intros _. exists s.
      assert (Hs : In s (s :: l)) by (by left). rewrite <- E in Hs. apply filter_In in Hs as [Hs Hsc%bool_decide_eq_true].
      split; [by apply list_elem_of_In|done].
    - intros (s & Hs & E) Hn. assert (Hs' : In s []); [|done]. rewrite <- Hn. apply filter_In.
      split; [by apply list_elem_of_In|by apply bool_decide_eq_true]. }
  rewrite Hf. unfold sysctl_scopes. rewrite elem_of_cons, list_elem_of_fmap. split.
  - intros [->|(i & -> & Hi)]; [by left|right]. apply bset_iter_elem_of, elem_of_list_to_set, list_elem_of_omap in Hi as (s & Hs & E).
    exists s. split; [done|]. unfold sysctl_scope. by rewrite E.
  - intros [->|(s & Hs & <-)]; [by left|]. unfold sysctl_scope. destruct (sg_interface s) as [i|] eqn:E; [right|by left].
    exists i. split; [done|]. apply bset_iter_elem_of, elem_of_list_to_set, list_elem_of_omap. by exists s.
Qed.

(** the settings of one scope, taken without building the others, are
    the scope's entry in the map of all scopes; and the scopes of that map
    are the global one and those of the interfaces that settings name. *)
Theorem wanted_sysctls_agree (cfg : Config) (scope : SysctlScope) :
  wanted_sysctls cfg !! scope = wanted_sysctls_of cfg scope /\
  (is_Some (wanted_sysctls cfg !! scope) <-> scope ∈ sysctl_scopes cfg).
Proof.
  set (own := List.filter (fun s => bool_decide (sysctl_scope s = scope)) (desired cfg)).
  assert (Hin : scope ∈ sysctl_scopes cfg <-> scope = Global \/ own <> []) by apply scopes_spec.
  assert (Hall : wanted_sysctls cfg !! scope =
    (if bool_decide (scope ∈ sysctl_scopes cfg) then Some (own, rt_manage_sysctls (cf_routing cfg)) else None
      : option SysctlJob)).
  { unfold wanted_sysctls. rewrite settings_fold; rewrite scopes_fold, lookup_empty.
    - cbn zeta. fold own. destruct (bool_decide (scope ∈ sysctl_scopes cfg)) eqn:E; [done|].
      apply bool_decide_eq_false in E. rewrite Hin in E. cbn. destruct own; [done|]. exfalso. apply E. by right.
    - by case_bool_decide; [intros ? [= <-]|]. }
  split; [etrans; [exact Hall|]|].
  2: { split.
       - intros [j Hj]. pose proof (eq_trans (eq_sym Hall) Hj) as E. by case_bool_decide.
       - intros Hs. rewrite (bool_decide_eq_true_2 _ Hs) in Hall. eexists. exact Hall. }
  unfold wanted_sysctls_of. assert (Hown : List.filter (fun s => bool_decide (sg_interface s =
    match scope with Global => None | Interface i => Some i end)) (desired cfg) = own).
  { unfold own. apply List.filter_ext. intros s. apply bool_decide_ext. unfold sysctl_scope. destruct scope, (sg_interface s); naive_solver. }
  rewrite Hown. rewrite (bool_decide_ext _ _ Hin). repeat case_bool_decide; try done; tauto.
Qed.

(** ** Batches and deadlines *)

Lemma batch_loop_spec {T} (limit : usize) (ends : T -> bool) queued last n items rest :
  batch_loop limit ends queued last n = (items, rest) ->
  items ++ rest = queued /\ (n <= limit -> n + Z.of_nat (length items) <= limit) /\
  (forall l x k, last :: items = l ++ x :: k -> k <> [] -> ends x = false) /\
  (rest <> [] -> n < limit -> n + Z.of_nat (length items) < limit -> exists l x, last :: items = l ++ [x] /\ ends x = true).
Proof.
  revert last n items rest. induction queued as [|y q IH]; intros last n items rest; simpl.
  { intros [= <- <-]. split_and!; [done|simpl; lia| |done]. intros l x k E Hk. exfalso.
    destruct l as [|? [|??]]; simplify_eq/=. }
  destruct ((n <? limit) && negb (ends last)) eqn:E.
  - destruct (batch_loop limit ends q y (n + 1)) as [items' rest'] eqn:El. intros [= <- <-].
    apply andb_true_iff in E as [En Ee]. apply Z.ltb_lt in En. apply negb_true_iff in Ee.
    destruct (IH _ _ _ _ El) as (Hq & Hlen & Hend & Hmax). split_and!.
    + simpl. by f_equal.
    + simpl. specialize (Hlen ltac:(lia)). lia.
    + intros l x k Hl Hk. destruct l as [|z l]; simplify_eq/=; [done|]. by eapply Hend.
    + intros Hr _ Hlt. simpl in Hlt. destruct (Hmax Hr) as (l & x & Hl & Hx); [lia|lia|].
      exists (last :: l), x. split; [|done]. simpl. by f_equal.
  - intros [= <- <-]. split_and!; [done|simpl; lia| |].
    + intros l x k El Hk. exfalso. destruct l as [|? [|??]]; simplify_eq/=.
    + intros _ Hn _. rewrite (proj2 (Z.ltb_lt _ _) Hn) in E. simpl in E. apply negb_false_iff in E. by exists [], last.
Qed.

(** a batch is the first notification and the longest run of those
    queued after it, in their order, up to the limit and to the first item that ends it;
    nothing queued is lost or taken twice. *)
Theorem batch_exact {T} (first : T) (queued : list T) (limit : usize) (ends : T -> bool) : 1 <= limit ->
  let '(items, rest) := batch first queued limit ends in
  items ++ rest = first :: queued /\ 1 <= Z.of_nat (length items) <= limit /\
  (forall l x k, items = l ++ x :: k -> k <> [] -> ends x = false) /\
  (rest <> [] -> Z.of_nat (length items) = limit \/ exists l x, items = l ++ [x] /\ ends x = true).
Proof.
  intros Hl. unfold batch. destruct (batch_loop limit ends queued first 1) as [items rest] eqn:E.
  destruct (batch_loop_spec _ _ _ _ _ _ _ E) as (Hq & Hlen & Hend & Hmax). split_and!; [simpl; by f_equal|simpl; lia|simpl; lia|done|].
  intros Hr. destruct (decide (Z.of_nat (length (first :: items)) = limit)) as [|Hne]; [by left|right].
  simpl in Hne. apply Hmax; [done|lia|]. specialize (Hlen Hl). lia.
Qed.

(** ** A run *)
Module DaemonSample.
#[export] Instance world : DaemonWorld unit := {|
  instant_now := fun w => (0, w); boottime_ms := fun w => (0, w); system_time := fun w => (0, w);
  reply_closed := fun _ _ => false; notify_send := fun _ w => (Sent_Done, w) |}.
#[export] Instance clock : Clock unit := {| clock_now := fun w => (0, w) |}.
#[export] Instance dumper : Dumper unit unit := {|
  dumper_dump := fun _ _ w => (Some (Ok (mkDump [] false)), w); dumper_fresh := fun c w => (Ok c, w) |}.
Definition text (s : str) : str := s.
Definition silent {A} (_ : A) : str := [].
Definition mutate (w : unit) (_ : RouteNetlinkMessage) (_ : Mutation) : unit * option KernelError := (w, None).
Definition head : M unit (option str) := loop_head silent silent silent tt mutate silent.
Definition handle : Input_ -> M unit unit := handle_input text silent tt 1.
Definition reaches : list Reply -> list Input_ -> Daemon -> Prop := runs text silent silent silent tt mutate silent 1.

(** The turns of the loop, executed. *)
Fixpoint play (l : list Input_) (d : Daemon) : option Daemon :=
  match l with
  | [] => Some d
  | i :: l =>
      match head (mkSt d tt) with
      | (None, s) => if admits (st_d s) i then play l (st_d (handle i (mkSt (st_d s) tt)).2) else None
      | (Some _, _) => None
      end
  end.

Lemma head_continues (s : St unit) : (head s).1 = None -> head s = (None, mkSt (st_d (head s).2) (st_w (head s).2)).
Proof. destruct (head s) as [r [d w]]. by intros [= ->]. Qed.

Lemma play_runs l orders inputs d d' : reaches orders inputs d -> play l d = Some d' ->
  reaches (orders ++ concat (order_of tt <$> l)) (inputs ++ l) d'.
Proof.
  revert orders inputs d. induction l as [|i l IH]; intros orders inputs d Hr; simpl.
  { intros [= <-]. by rewrite !app_nil_r. }
  destruct (head (mkSt d tt)) as [[e|] [d1 w1]] eqn:Eh; [done|]. destruct (admits _ i) eqn:Ea; [|done]. intros Hp.
  rewrite (assoc (++)), (cons_middle i inputs l), (assoc (++)). eapply IH; [|exact Hp].
  by apply (runs_turn _ _ _ _ _ _ _ _ orders inputs d tt d1 w1 tt i).
Qed.

Definition manifest : Manifest := Manifest_new DiscoverSample.config.
Definition start : Daemon := st_d (startup (W := unit) true (Ok None) (Ok None) (Ok None)
  (mkSt (Daemon_new DiscoverSample.config (mkLanes (mkChannel [] true) (mkChannel [] true))
    (Observer.mkView DiscoverSample.system false) manifest ∅ (lit "i") (lit "b") 0 0 0) tt)).2.

Lemma play_reaches l : bool_decide (is_Some (play l start)) = true ->
  reaches (concat (order_of tt <$> l)) l (default start (play l start)).
Proof.
  intros [d Hd]%bool_decide_eq_true_1. rewrite Hd. apply (play_runs l [] [] start); [|exact Hd].
  apply runs_start. constructor.
Qed.

(** An order for an unknown uplink; the settings are applied and the path's
    prober starts; the interface goes and the prober is stopped; nftables
    fails. *)
Definition inputs : list Input_ := [
  In_Order (Action_Undrain (lit "nope")) 7%nat;
  In_Done (Done_Sysctls 1 (Interface (lit "wan")) (Ok tt) manifest);
  In_Done (Done_Sysctls 2 Global (Ok tt) manifest);
  In_Notifications [Notified (Message_Route (DelLink (mkLinkMessage 5 0 [LinkAttr_IfName (lit "wan")]))) 0 0];
  In_Done (Done_NftApplied 3 (Err (lit "no such file")))].
Definition reached : Daemon := default start (play inputs start).
Lemma reached_runs : reaches [7%nat] inputs reached.
Proof. apply (play_reaches inputs). vm_compute. reflexivity. Qed.

(** An order to drain, accepted. *)
Definition draining : Daemon := default start (play [In_Order (Action_Drain (lit "u") true) 8%nat] start).
Lemma draining_runs : reaches [8%nat] [In_Order (Action_Drain (lit "u") true) 8%nat] draining.
Proof. apply (play_reaches [In_Order (Action_Drain (lit "u") true) 8%nat]). vm_compute. reflexivity. Qed.
(** A reload asked for while the intent is written, and the write's end. *)
Definition asked : Daemon := st_d (head (mkSt draining tt)).2.
Definition deferred : Daemon := st_d (handle In_Hangup (mkSt asked tt)).2.
Definition resumed : Daemon :=
  st_d (handle (In_Done (Done_Drained 3 (Ok tt))) (mkSt (st_d (head (mkSt deferred tt)).2) tt)).2.
End DaemonSample.
Export (hints) DaemonSample.

Lemma status_events_alternate_witness :
  omap status_of (emitted (d_out DaemonSample.reached) ++ d_pending_events DaemonSample.reached) = [true] /\
  negb (bool_decide (d_degraded DaemonSample.reached = ∅)) = true.
Proof.
  pose proof (status_events_alternate DaemonSample.text DaemonSample.silent DaemonSample.silent DaemonSample.silent tt
    DaemonSample.mutate DaemonSample.silent 1 [7%nat] DaemonSample.inputs DaemonSample.reached DaemonSample.reached_runs) as Hs.
  assert (E : omap status_of (emitted (d_out DaemonSample.reached) ++ d_pending_events DaemonSample.reached) = [true])
    by (vm_compute; reflexivity).
  split; [exact E|]. rewrite E in Hs. exact (eq_sym (Some_inj _ _ Hs)).
Defined.

Lemma orders_answered_once_witness :
  answered (d_out DaemonSample.reached) = [7%nat] /\
  answered (d_out DaemonSample.reached) ++ waiting_reply (d_command DaemonSample.reached) ≡ₚ [7%nat].
Proof.
  split; [vm_compute; reflexivity|].
  apply (orders_answered_once DaemonSample.text DaemonSample.silent DaemonSample.silent DaemonSample.silent tt
    DaemonSample.mutate DaemonSample.silent 1 [7%nat] DaemonSample.inputs DaemonSample.reached DaemonSample.reached_runs).
  vm_compute. reflexivity.
Defined.

Lemma reload_requests_served_witness :
  d_reload_deferred DaemonSample.deferred = true /\ validations (d_out DaemonSample.deferred) = [] /\
  (length (validations (d_out DaemonSample.asked)) < length (validations (d_out DaemonSample.resumed)))%nat.
Proof.
  split_and!; [vm_compute; reflexivity..|].
  destruct (reload_requests_served DaemonSample.text DaemonSample.silent DaemonSample.silent DaemonSample.silent tt
    DaemonSample.mutate DaemonSample.silent 1 [8%nat] _ DaemonSample.draining tt DaemonSample.asked
    (st_w (DaemonSample.head (mkSt DaemonSample.draining tt)).2) tt In_Hangup DaemonSample.resumed
    DaemonSample.draining_runs) as [[Hs|[[Ha _]|[Hd _]]] _].
  - apply DaemonSample.head_continues. vm_compute. reflexivity.
  - vm_compute. reflexivity.
  - reflexivity.
  - eapply (continues_turn _ _ _ _ _ _ _ _ _ _ tt _ _ tt); [apply continues_refl|apply DaemonSample.head_continues|];
      vm_compute; reflexivity.
  - vm_compute. reflexivity.
  - exact Hs.
  - vm_compute in Ha. discriminate Ha.
  - vm_compute in Hd. discriminate Hd.
Defined.

Lemma daemon_never_panics_witness :
  size (d_paths DaemonSample.reached) = 1%nat /\ d_panicked DaemonSample.reached = false.
Proof.
  split; [vm_compute; reflexivity|].
  apply (daemon_never_panics DaemonSample.text DaemonSample.silent DaemonSample.silent DaemonSample.silent tt
    DaemonSample.mutate DaemonSample.silent 1 [7%nat] DaemonSample.inputs DaemonSample.reached DaemonSample.reached_runs).
Defined.

Lemma stopped_probers_ignored_witness :
  length (aborted (d_out DaemonSample.reached)) = 1%nat /\
  NoDup (sp_generation <$> spawned (d_out DaemonSample.reached)).
Proof.
  split; [vm_compute; reflexivity|].
  apply (stopped_probers_ignored DaemonSample.text DaemonSample.silent DaemonSample.silent DaemonSample.silent tt
    DaemonSample.mutate DaemonSample.silent 1 [7%nat] DaemonSample.inputs DaemonSample.reached DaemonSample.reached_runs).
Defined.

Lemma intents_precede_effects_witness :
  let d := st_d (DaemonSample.head (mkSt DaemonSample.draining tt)).2 in
  let i := In_Done (Done_Drained 3 (Ok tt)) in
  let d' := st_d (DaemonSample.handle i (mkSt d tt)).2 in
  bool_decide (d_drained d' = d_drained d) = false /\ permitted d i (d_cfg d') (d_drained d').
Proof.
  cbv zeta. split; [vm_compute; reflexivity|].
  apply (intents_precede_effects DaemonSample.text DaemonSample.silent DaemonSample.silent DaemonSample.silent tt
    DaemonSample.mutate DaemonSample.silent 1 [8%nat] _ DaemonSample.draining tt
    (st_d (DaemonSample.head (mkSt DaemonSample.draining tt)).2) (st_w (DaemonSample.head (mkSt DaemonSample.draining tt)).2) tt
    (In_Done (Done_Drained 3 (Ok tt))) DaemonSample.draining_runs); [apply DaemonSample.head_continues|]; vm_compute; reflexivity.
Defined.

Lemma retries_back_off_witness :
  let f := Failure_new (lit "set sysctls") FailSysctl (lit "read-only") in
  exists t, d_retry (st_d (failures ([f; f; f] ++ [f]) SYSCTL_ATTEMPT (mkSt DaemonSample.start tt)).2) =
    Some (mkRetry (t + 8 * 10 ^ 9) (8 * 10 ^ 9) SYSCTL_ATTEMPT).
Proof.
  cbv zeta. set (f := Failure_new _ _ _).
  exact (retries_back_off [f; f; f] f SYSCTL_ATTEMPT (mkSt DaemonSample.start tt) I).
Defined.

Lemma ownership_conflicts_witness :
  let ts := [0; from_secs 60; from_secs 120; from_secs 300] in
  conflicting ts /\ ow_conflict (foldl counted Ownership_default ts) = true.
Proof.
  cbv zeta. assert (E : ow_conflict (foldl counted Ownership_default [0; from_secs 60; from_secs 120; from_secs 300]) = true)
    by (vm_compute; reflexivity). split; [|exact E].
  apply (ownership_conflicts [0; from_secs 60; from_secs 120] (from_secs 300)); [|exact E].
  unfold from_secs, NANOS_PER_SEC. repeat (constructor; [|repeat constructor; lia]); repeat constructor.
Defined.

Lemma batch_exact_witness :
  let '(items, rest) := batch 1 [2; 3; 4] 3 Z.even in items = [1; 2] /\ items ++ rest = [1; 2; 3; 4].
Proof.
  pose proof (batch_exact 1 [2; 3; 4] 3 Z.even ltac:(lia)) as H. cbv in H |- *. split; [reflexivity|]. apply H.
Defined.
